(** * BusTub index layer: extendible hash table and B+tree

    A shallow embedding of
    - [src/container/hash/extendible_hash_table.cpp] (module [EHT]),
    - [src/storage/page/b_plus_tree_leaf_page.cpp],
      [src/storage/page/b_plus_tree_internal_page.cpp] and
      [src/storage/index/b_plus_tree.cpp] (module [BPT]),
    with the properties of the specification stated over it.

    Conventions.  C++ [int], [size_t] and [page_id_t] values are carried
    as [Z].  A C++ loop becomes a structural recursion when its trip count
    is known on entry and a fuel-indexed recursion otherwise.  Latches,
    pins and the mutex are not part of the model: every operation is run
    alone. *)

From stdpp Require Import base tactics option list gmap.
From Stdlib Require Import ZArith Lia.

Local Open Scope Z_scope.

(** Result of running a piece of code whose loops need fuel. *)
Inductive outcome (A : Type) : Type :=
  | Done (a : A)      (* the call returned *)
  | Fault             (* assertion failure or undefined behaviour *)
  | OutOfFuel.        (* still looping when the fuel ran out *)
Arguments Done {A} a.
Arguments Fault {A}.
Arguments OutOfFuel {A}.

#[global] Instance outcome_ret : MRet outcome := fun A a => Done a.
#[global] Instance outcome_bind : MBind outcome := fun A B k m =>
  match m with
  | Done a => k a
  | Fault => Fault
  | OutOfFuel => OutOfFuel
  end.

Definition of_option {A} (o : option A) : outcome A :=
  match o with Some a => Done a | None => Fault end.

(** 32-bit signed [int] range; arithmetic leaving it is undefined. *)
Definition INT_MAX : Z := 2 ^ 31 - 1.

(** [a << n] on [int], for a non-negative [a]. *)
Definition shl_int (a n : Z) : option Z :=
  if bool_decide (0 <= n < 31 /\ 0 <= a /\ a * 2 ^ n <= INT_MAX)
  then Some (Z.shiftl a n) else None.

(* ====================================================================== *)
(** * Extendible hash table *)
(* ====================================================================== *)

Module EHT.
Section Table.
Context {K V : Type} `{EqDecision K}.

(** [std::hash<K>()(key)], a [size_t]. *)
Variable hash : K -> Z.

(** [Bucket]: capacity [size_], local depth [depth_], entries [list_]. *)
Record Bucket : Type := mkBucket {
  size_ : Z;
  depth_ : Z;
  list_ : list (K * V)
}.

(** A [std::shared_ptr<Bucket>] is an address in [heap_]; several
    directory slots may hold the same address. *)
Record Table : Type := mkTable {
  global_depth_ : Z;
  bucket_size_ : Z;
  num_buckets_ : Z;
  dir_ : list nat;
  heap_ : list Bucket
}.

(** Constructor: one empty bucket of depth 0. *)
Definition ExtendibleHashTable (bucket_size : Z) : Table :=
  mkTable 0 bucket_size 1 [0%nat] [mkBucket bucket_size 0 []].

(** Modelled from the spec: [Bucket::IsFull] lives in the header
    [extendible_hash_table.h], which is not part of the sources; a bucket
    holds at most [bucket_size] pairs and is full when it holds exactly
    that many. *)
Definition IsFull (b : Bucket) : bool :=
  bool_decide (Z.of_nat (length (list_ b)) = size_ b).

Definition GetDepth (b : Bucket) : Z := depth_ b.
Definition GetItems (b : Bucket) : list (K * V) := list_ b.

(** [Bucket::Find]: the value of the first entry with that key. *)
Fixpoint find_item (key : K) (l : list (K * V)) : option V :=
  match l with
  | [] => None
  | (k, v) :: l' => if decide (k = key) then Some v else find_item key l'
  end.

Definition Bucket_Find (key : K) (b : Bucket) : option V :=
  find_item key (list_ b).

(** First loop of [Bucket::Insert]: overwrite the first entry whose key
    matches; [None] when the loop ends without a match. *)
Fixpoint overwrite (key : K) (value : V) (l : list (K * V))
  : option (list (K * V)) :=
  match l with
  | [] => None
  | (k, v) :: l' =>
      if decide (k = key) then Some ((k, value) :: l')
      else match overwrite key value l' with
           | Some r => Some ((k, v) :: r)
           | None => None
           end
  end.

Definition Bucket_Insert (key : K) (value : V) (b : Bucket) : bool * Bucket :=
  match overwrite key value (list_ b) with
  | Some l' => (true, mkBucket (size_ b) (depth_ b) l')
  | None =>
      if IsFull b then (false, b)
      else (true, mkBucket (size_ b) (depth_ b) (list_ b ++ [(key, value)]))
  end.

(** [IndexOf]: [int mask = (1 << global_depth_) - 1; hash & mask]. *)
Definition IndexOf (t : Table) (key : K) : option Z :=
  match shl_int 1 (global_depth_ t) with
  | Some p => Some (Z.land (hash key) (p - 1))
  | None => None
  end.

(** [dir_[IndexOf(key)]]: the address held in the slot, and the bucket
    behind it. *)
Definition target (t : Table) (key : K) : option (nat * Bucket) :=
  match IndexOf t key with
  | Some i =>
      if bool_decide (0 <= i) then
        match dir_ t !! Z.to_nat i with
        | Some a => match heap_ t !! a with
                    | Some b => Some (a, b)
                    | None => None
                    end
        | None => None
        end
      else None
  | None => None
  end.

Definition GetGlobalDepth (t : Table) : Z := global_depth_ t.
Definition GetNumBuckets (t : Table) : Z := num_buckets_ t.

Definition GetLocalDepth (t : Table) (dir_index : Z) : option Z :=
  match dir_ t !! Z.to_nat dir_index with
  | Some a => GetDepth <$> heap_ t !! a
  | None => None
  end.

Definition Find (t : Table) (key : K) : option V :=
  match target t key with
  | Some (_, b) => Bucket_Find key b
  | None => None
  end.

(** The rehash loop over [target_bucket->GetItems()]. *)
Fixpoint rehash (mask : Z) (items : list (K * V)) (b0 b1 : Bucket)
  : Bucket * Bucket :=
  match items with
  | [] => (b0, b1)
  | (k, v) :: rest =>
      if bool_decide (Z.land (hash k) mask <> 0)
      then rehash mask rest b0 (snd (Bucket_Insert k v b1))
      else rehash mask rest (snd (Bucket_Insert k v b0)) b1
  end.

(** The loop that adjusts the directory, slot [i] upwards. *)
Fixpoint redirect (old a0 a1 : nat) (mask : Z) (i : Z) (d : list nat)
  : list nat :=
  match d with
  | [] => []
  | p :: d' =>
      (if bool_decide (p = old)
       then (if bool_decide (Z.land i mask <> 0) then a1 else a0)
       else p) :: redirect old a0 a1 mask (i + 1) d'
  end.

(** The directory after the optional doubling:
    [global_depth_++; dir_.resize(capacity << 1); dir_[i + capacity] = dir_[i]]. *)
Definition grow (t : Table) (b : Bucket) : option (Z * list nat) :=
  if bool_decide (GetDepth b = global_depth_ t) then
    match shl_int (Z.of_nat (length (dir_ t))) 1 with
    | Some _ => Some (global_depth_ t + 1, dir_ t ++ dir_ t)
    | None => None
    end
  else Some (global_depth_ t, dir_ t).

(** One pass through the body of the [while] loop of [Insert]. *)
Definition split (t : Table) (key : K) : option Table :=
  match target t key with
  | Some (a, b) =>
      match grow t b, shl_int 1 (GetDepth b) with
      | Some (gd, d), Some mask =>
          let a0 := length (heap_ t) in
          let a1 := S (length (heap_ t)) in
          let fresh := mkBucket (bucket_size_ t) (GetDepth b + 1) [] in
          let '(b0, b1) := rehash mask (GetItems b) fresh fresh in
          Some (mkTable gd (bucket_size_ t) (num_buckets_ t + 1)
                  (redirect a a0 a1 mask 0 d)
                  (heap_ t ++ [b0; b1]))
      | _, _ => None
      end
  | None => None
  end.

(** [while (dir_[IndexOf(key)]->IsFull()) { ... }] *)
Fixpoint split_loop (fuel : nat) (t : Table) (key : K) : outcome Table :=
  match target t key with
  | None => Fault
  | Some (_, b) =>
      if IsFull b then
        match fuel with
        | O => OutOfFuel
        | S fuel' =>
            match split t key with
            | Some t' => split_loop fuel' t' key
            | None => Fault
            end
        end
      else Done t
  end.

(** [dir_[IndexOf(key)]->Insert(key, value)], result discarded. *)
Definition store (t : Table) (key : K) (value : V) : option Table :=
  match target t key with
  | Some (a, b) =>
      Some (mkTable (global_depth_ t) (bucket_size_ t) (num_buckets_ t)
              (dir_ t)
              (<[a := snd (Bucket_Insert key value b)]> (heap_ t)))
  | None => None
  end.

Definition Insert (fuel : nat) (t : Table) (key : K) (value : V)
  : outcome Table :=
  t' ← split_loop fuel t key;
  of_option (store t' key value).

(** Shape of the directory (invariant 1 of the data model) together with
    the range in which the [int] arithmetic of [IndexOf] is defined. *)
Definition dir_shape (t : Table) : Prop :=
  0 <= global_depth_ t <= 30 /\
  Z.of_nat (length (dir_ t)) = 2 ^ global_depth_ t.

(** What every bucket reachable through [Insert] satisfies: depth at most
    the global depth, the table's capacity, distinct keys, no overflow. *)
Definition bucket_ok (t : Table) (b : Bucket) : Prop :=
  0 <= depth_ b <= global_depth_ t /\
  size_ b = bucket_size_ t /\
  NoDup (list_ b).*1 /\
  Z.of_nat (length (list_ b)) <= size_ b.

(** The side of a split an entry falls on: [bucket_1] when the bit
    selected by [mask] is set in its hash. *)
Definition high (mask : Z) (e : K * V) : Prop :=
  Z.land (hash e.1) mask <> 0.

#[global] Instance high_dec mask e : Decision (high mask e).
Proof. unfold high. apply _. Defined.

(** Some entry of the bucket can be told apart from [key] by a hash bit
    that a split will eventually look at (and that [int] can address). *)
Definition separable (key : K) (b : Bucket) : Prop :=
  exists e j, e ∈ list_ b /\ depth_ b <= j < 30 /\
    Z.testbit (hash e.1) j <> Z.testbit (hash key) j.

(** No hash bit tells an entry of the bucket apart from [key]. *)
Definition colliding (key : K) (b : Bucket) : Prop :=
  forall e, e ∈ list_ b -> hash e.1 = hash key.

End Table.

Section Removal.
Context {K V : Type} `{EqDecision K} `{EqDecision V}.
Variable hash : K -> Z.

(** The entry at which [std::any_of] stops in [Bucket::Remove]: the first
    one whose key matches. *)
Fixpoint first_match (key : K) (l : list (K * V)) : option (K * V) :=
  match l with
  | [] => None
  | (k, v) :: l' => if decide (k = key) then Some (k, v) else first_match key l'
  end.

(** [Bucket::Remove]: [list_.remove(item)] erases every entry equal to the
    first match, key and value. *)
Definition Bucket_Remove (key : K) (b : @Bucket K V) : bool * @Bucket K V :=
  match first_match key (list_ b) with
  | Some item =>
      (true, mkBucket (size_ b) (depth_ b) (filter (fun e => e <> item) (list_ b)))
  | None => (false, b)
  end.

(** [Remove]: [dir_[IndexOf(key)]->Remove(key)]. *)
Definition Remove (t : @Table K V) (key : K) : option (bool * @Table K V) :=
  match target hash t key with
  | Some (a, b) =>
      Some ((Bucket_Remove key b).1,
            mkTable (global_depth_ t) (bucket_size_ t) (num_buckets_ t)
              (dir_ t) (<[a := (Bucket_Remove key b).2]> (heap_ t)))
  | None => None
  end.

(** Well-formed table: the directory has its shape and every slot holds
    the address of a bucket that is in order. *)
Definition table_ok (t : @Table K V) : Prop :=
  dir_shape t /\
  forall (i a : nat), dir_ t !! i = Some a ->
    exists b, heap_ t !! a = Some b /\ bucket_ok t b.

(** The buckets the directory refers to. *)
Definition buckets_in_use (t : @Table K V) : gset nat := list_to_set (dir_ t).

(** Every bucket is shared by exactly the slots that agree with one
    another on the low [depth_] bits of their index. *)
Definition dir_aligned (t : @Table K V) : Prop :=
  forall (i j a : nat) b,
    dir_ t !! i = Some a -> heap_ t !! a = Some b ->
    (j < length (dir_ t))%nat ->
    (dir_ t !! j = Some a <->
     Z.of_nat j mod 2 ^ depth_ b = Z.of_nat i mod 2 ^ depth_ b).

(** The tables a client can hold: built by the constructor and changed
    only by calls of [Insert] and [Remove] that returned. *)
Inductive reachable (bucket_size : Z) : @Table K V -> Prop :=
  | reach_new : reachable bucket_size (ExtendibleHashTable bucket_size)
  | reach_Insert fuel t key value t' :
      reachable bucket_size t -> Insert hash fuel t key value = Done t' ->
      reachable bucket_size t'
  | reach_Remove t key r t' :
      reachable bucket_size t -> Remove t key = Some (r, t') ->
      reachable bucket_size t'.

End Removal.

(** [std::hash<int>] as implemented by the standard library the project
    builds with: the identity. *)
Definition hash_int (k : Z) : Z := k.

(** A hash function that sends every key to the same value. *)
Definition hash_const (k : Z) : Z := 0.

(** [hash] with its values at the keys 0 and 4 of scenario S2 made
    explicit. *)
Definition pin (hash : Z -> Z) (k : Z) : Z :=
  if bool_decide (k = 0) then 0 else if bool_decide (k = 4) then 4 else hash k.

(** The table of scenario S2 after its first insertion: bucket size 1,
    one bucket holding key 0. *)
Definition table_S2 : @Table Z Z :=
  mkTable 0 1 1 [0%nat] [mkBucket 1 0 [(0, 7)]].

(** A table with bucket size 2 whose only bucket holds key 0 and has room
    for one more pair. *)
Definition table_room : @Table Z Z :=
  mkTable 0 2 1 [0%nat] [mkBucket 2 0 [(0, 7)]].

End EHT.

(* ====================================================================== *)
(** * B+tree *)
(* ====================================================================== *)

Module BPT.

Definition INVALID_PAGE_ID : Z := -1.

(** ** Slot arrays

    [array_] is the tail of a page buffer and is indexed by a raw [int]:
    it is a total function from slot numbers to entries.  Slots at or
    above [size_] keep whatever was last written there; slot [-1] stands
    for the bytes of the page header that precede the array. *)

Definition upd {A} (a : Z -> A) (i : Z) (x : A) : Z -> A :=
  fun j => if bool_decide (j = i) then x else a j.

(** [std::copy(src + s, src + s + n, dst + d)] between two pages. *)
Fixpoint copy_slots {A} (n : nat) (src : Z -> A) (s : Z) (dst : Z -> A) (d : Z)
  : Z -> A :=
  match n with
  | O => dst
  | S n' => copy_slots n' src (s + 1) (upd dst d (src s)) (d + 1)
  end.

(** [std::move(a + s, a + s + n, a + d)] inside one page: one element
    after the other, from the lowest upwards. *)
Fixpoint move_slots {A} (n : nat) (a : Z -> A) (s d : Z) : Z -> A :=
  match n with
  | O => a
  | S n' => move_slots n' (upd a d (a s)) (s + 1) (d + 1)
  end.

(** [std::move_backward(a + last - n, a + last, a + d_last)]: from the
    highest element downwards. *)
Fixpoint move_slots_backward {A} (n : nat) (a : Z -> A) (last d_last : Z)
  : Z -> A :=
  match n with
  | O => a
  | S n' =>
      move_slots_backward n' (upd a (d_last - 1) (a (last - 1)))
        (last - 1) (d_last - 1)
  end.

(** The first [n] slots, as a list. *)
Definition slots {A} (a : Z -> A) (n : Z) : list A := a <$> seqZ 0 n.

(** [KeyComparator]: negative, zero or positive; a strict total order on
    keys. *)
Class KeyOrder {KeyType : Type} (comparator : KeyType -> KeyType -> Z) : Prop := {
  cmp_eq : forall a b, comparator a b = 0 <-> a = b;
  cmp_flip : forall a b, comparator a b < 0 <-> 0 < comparator b a;
  cmp_trans : forall a b c,
    comparator a b < 0 -> comparator b c < 0 -> comparator a c < 0
}.

Section Tree.
Context {KeyType ValueType : Type}.
Variable comparator : KeyType -> KeyType -> Z.

(** ** Page header ([BPlusTreePage]) *)

(** Modelled from the spec: the header fields of [BPlusTreePage] and
    their accessors ([b_plus_tree_page.h] and [.cpp] are not among the
    sources).  The page type is the constructor of [TreePage] below. *)
Record Header : Type := mkHeader {
  size_ : Z;
  max_size_ : Z;
  parent_page_id_ : Z;
  page_id_ : Z
}.

Definition SetSize (h : Header) (s : Z) : Header :=
  mkHeader s (max_size_ h) (parent_page_id_ h) (page_id_ h).
Definition IncreaseSize (h : Header) (amount : Z) : Header :=
  SetSize h (size_ h + amount).
Definition SetParentPageId (h : Header) (p : Z) : Header :=
  mkHeader (size_ h) (max_size_ h) p (page_id_ h).

(** Modelled from the spec: [b_plus_tree_page.cpp] is not among the
    sources.  A page is the root when its parent is [INVALID_PAGE_ID]. *)
Definition IsRootPage (h : Header) : bool :=
  bool_decide (parent_page_id_ h = INVALID_PAGE_ID).

(** Modelled from the spec: [GetMinSize] of [b_plus_tree_page.cpp], which
    is not among the sources: [ceil((max_size - 1) / 2)] for a leaf. *)
Definition leaf_min_size (h : Header) : Z := Z.quot (max_size_ h) 2.

(** Modelled from the spec: [GetMinSize] of [b_plus_tree_page.cpp], which
    is not among the sources: [ceil(max_size / 2)] for an internal page. *)
Definition internal_min_size (h : Header) : Z := Z.quot (max_size_ h + 1) 2.

(** ** Leaf page *)

Record LeafPage : Type := mkLeaf {
  lhdr : Header;
  next_page_id_ : Z;
  larr : Z -> KeyType * ValueType
}.

Definition L_size (p : LeafPage) : Z := size_ (lhdr p).
Definition L_with_hdr (p : LeafPage) (h : Header) : LeafPage :=
  mkLeaf h (next_page_id_ p) (larr p).
Definition L_with_arr (p : LeafPage) (a : Z -> KeyType * ValueType) : LeafPage :=
  mkLeaf (lhdr p) (next_page_id_ p) a.
Definition L_SetNextPageId (p : LeafPage) (n : Z) : LeafPage :=
  mkLeaf (lhdr p) n (larr p).

(** [Init] on the frame whose array currently reads [frame]. *)
Definition L_Init (frame : Z -> KeyType * ValueType)
    (page_id parent_id max_size : Z) : LeafPage :=
  mkLeaf (mkHeader 0 max_size parent_id page_id) INVALID_PAGE_ID frame.

Definition L_KeyAt (p : LeafPage) (index : Z) : KeyType := (larr p index).1.

(** The [while (left < right)] loop of [KeyIndex]; returns the final
    [left]. *)
Fixpoint KeyIndex_loop (fuel : nat) (a : Z -> KeyType * ValueType)
    (key : KeyType) (left right : Z) : Z :=
  match fuel with
  | O => left
  | S fuel' =>
      if bool_decide (left < right) then
        let mid := Z.quot (right - left) 2 + left in
        if bool_decide (comparator (a mid).1 key > 0)
        then KeyIndex_loop fuel' a key left (mid - 1)
        else KeyIndex_loop fuel' a key (mid + 1) right
      else left
  end.

Definition L_KeyIndex (p : LeafPage) (key : KeyType) : outcome Z :=
  if bool_decide (L_size p > 0) then
    let left := KeyIndex_loop (Z.to_nat (L_size p)) (larr p) key 0 (L_size p - 1) in
    if bool_decide (comparator (larr p left).1 key > 0)
    then Done (left - 1) else Done left
  else Fault.

Definition L_Lookup (p : LeafPage) (key : KeyType) : outcome (option ValueType) :=
  idx ← L_KeyIndex p key;
  if bool_decide (idx < L_size p) && bool_decide (comparator (larr p idx).1 key = 0)
  then Done (Some (larr p idx).2) else Done None.

(** The loop [for (i = cur_size - 1; i > idx; i--) array_[i] = array_[i - 1]]. *)
Fixpoint shift_up {A} (n : nat) (a : Z -> A) (i : Z) : Z -> A :=
  match n with
  | O => a
  | S n' => shift_up n' (upd a i (a (i - 1))) (i - 1)
  end.

Definition L_Insert (p : LeafPage) (key : KeyType) (value : ValueType)
  : outcome (Z * LeafPage) :=
  if bool_decide (L_size p = 0) then
    let p' := mkLeaf (IncreaseSize (lhdr p) 1) (next_page_id_ p)
                (upd (larr p) 0 (key, value)) in
    Done (L_size p', p')
  else
    ki ← L_KeyIndex p key;
    let idx := ki + 1 in
    if bool_decide (idx >= 0) then
      let cur_size := L_size p + 1 in
      let a := shift_up (Z.to_nat (cur_size - 1 - idx)) (larr p) (cur_size - 1) in
      Done (cur_size,
            mkLeaf (IncreaseSize (lhdr p) 1) (next_page_id_ p)
              (upd a idx (key, value)))
    else Fault.

(** [this->MoveHalfTo(recipient)]; returns [(this, recipient)]. *)
Definition L_MoveHalfTo (p r : LeafPage) : outcome (LeafPage * LeafPage) :=
  let maxsize := max_size_ (lhdr p) in
  if bool_decide (L_size p = maxsize) then
    let copy_idx := Z.quot (maxsize + 1) 2 in
    let ra := copy_slots (Z.to_nat (maxsize - copy_idx)) (larr p) copy_idx (larr r) 0 in
    Done (mkLeaf (SetSize (lhdr p) copy_idx) (page_id_ (lhdr r)) (larr p),
          mkLeaf (SetSize (lhdr r) (maxsize - copy_idx)) (next_page_id_ p) ra)
  else Fault.

Definition L_RemoveAndDeleteRecord (p : LeafPage) (key : KeyType)
  : outcome (Z * LeafPage) :=
  idx ← L_KeyIndex p key;
  if bool_decide (idx = L_size p) || negb (bool_decide (comparator (larr p idx).1 key = 0))
  then Done (L_size p, p)
  else
    let a := move_slots (Z.to_nat (L_size p - (idx + 1))) (larr p) (idx + 1) idx in
    let p' := mkLeaf (IncreaseSize (lhdr p) (-1)) (next_page_id_ p) a in
    Done (L_size p', p').

Definition L_CopyNFrom (r : LeafPage) (items : Z -> KeyType * ValueType)
    (start size : Z) : LeafPage :=
  mkLeaf (IncreaseSize (lhdr r) size) (next_page_id_ r)
    (copy_slots (Z.to_nat size) items start (larr r) (L_size r)).

(** [this->MoveAllTo(recipient)]; returns [(this, recipient)]. *)
Definition L_MoveAllTo (p r : LeafPage) : LeafPage * LeafPage :=
  let r1 := L_CopyNFrom r (larr p) 0 (L_size p) in
  (L_with_hdr p (SetSize (lhdr p) 0), L_SetNextPageId r1 (next_page_id_ p)).

(** [this->MoveMiddleTo(recipient)]; returns [(this, recipient)]. *)
Definition L_MoveMiddleTo (p r : LeafPage) : LeafPage * LeafPage :=
  let increment := L_size p - leaf_min_size (lhdr p) in
  let deduce := leaf_min_size (lhdr p) - L_size p in
  let orisize := L_size r in
  let ra := move_slots (Z.to_nat orisize) (larr r) 0 increment in
  let ra := copy_slots (Z.to_nat (L_size p - leaf_min_size (lhdr p)))
              (larr p) (leaf_min_size (lhdr p)) ra 0 in
  (L_with_hdr p (IncreaseSize (lhdr p) deduce),
   mkLeaf (IncreaseSize (lhdr r) increment) (next_page_id_ r) ra).

(** [this->MoveAheadTo(recipient)]; returns [(this, recipient)]. *)
Definition L_MoveAheadTo (p r : LeafPage) : LeafPage * LeafPage :=
  let increment := L_size p - leaf_min_size (lhdr p) in
  let deduce := leaf_min_size (lhdr p) - L_size p in
  let r' := L_CopyNFrom r (larr p) 0 increment in
  let a := move_slots (Z.to_nat (L_size p - increment)) (larr p) increment 0 in
  (mkLeaf (IncreaseSize (lhdr p) deduce) (next_page_id_ p) a, r').

(** ** Internal page *)

Record InternalPage : Type := mkInternal {
  ihdr : Header;
  iarr : Z -> KeyType * Z
}.

Definition I_size (p : InternalPage) : Z := size_ (ihdr p).
Definition I_with_hdr (p : InternalPage) (h : Header) : InternalPage :=
  mkInternal h (iarr p).

Definition I_Init (frame : Z -> KeyType * Z) (page_id parent_id max_size : Z)
  : InternalPage :=
  mkInternal (mkHeader 0 max_size parent_id page_id) frame.

Definition I_KeyAt (p : InternalPage) (index : Z) : KeyType := (iarr p index).1.
Definition I_ValueAt (p : InternalPage) (index : Z) : Z := (iarr p index).2.
Definition I_SetKeyAt (p : InternalPage) (index : Z) (key : KeyType) : InternalPage :=
  mkInternal (ihdr p) (upd (iarr p) index (key, (iarr p index).2)).
Definition I_SetValueAt (p : InternalPage) (index : Z) (value : Z) : InternalPage :=
  mkInternal (ihdr p) (upd (iarr p) index ((iarr p index).1, value)).

(** The [for] loop of [ValueIndex], from slot [i] on. *)
Fixpoint ValueIndex_from (n : nat) (a : Z -> KeyType * Z) (value : Z) (i : Z) : Z :=
  match n with
  | O => -1
  | S n' => if bool_decide ((a i).2 = value) then i
            else ValueIndex_from n' a value (i + 1)
  end.

Definition I_ValueIndex (p : InternalPage) (value : Z) : Z :=
  ValueIndex_from (Z.to_nat (I_size p)) (iarr p) value 0.

(** [std::lower_bound] over [len] slots starting at [first], with the
    comparison [comparator(pair.first, k) < 0]. *)
Fixpoint lower_bound (fuel : nat) (a : Z -> KeyType * Z) (key : KeyType)
    (first len : Z) : Z :=
  match fuel with
  | O => first
  | S fuel' =>
      if bool_decide (len > 0) then
        let half := Z.shiftr len 1 in
        let middle := first + half in
        if bool_decide (comparator (a middle).1 key < 0)
        then lower_bound fuel' a key (middle + 1) (len - half - 1)
        else lower_bound fuel' a key first half
      else first
  end.

Definition I_Lookup (p : InternalPage) (key : KeyType) : Z :=
  let target := lower_bound (Z.to_nat (I_size p)) (iarr p) key 1 (I_size p - 1) in
  if bool_decide (target = I_size p) then I_ValueAt p (I_size p - 1)
  else if bool_decide (comparator (iarr p target).1 key <= 0)
       then (iarr p target).2
       else (iarr p (target - 1)).2.

Definition I_PopulateNewRoot (p : InternalPage) (old_value : Z)
    (new_key : KeyType) (new_value : Z) : InternalPage :=
  let p := I_SetKeyAt p 1 new_key in
  let p := I_SetValueAt p 0 old_value in
  let p := I_SetValueAt p 1 new_value in
  I_with_hdr p (SetSize (ihdr p) 2).

Definition I_InsertNodeAfter (p : InternalPage) (old_value : Z)
    (new_key : KeyType) (new_value : Z) : Z * InternalPage :=
  let new_value_idx := I_ValueIndex p old_value + 1 in
  let a := move_slots_backward (Z.to_nat (I_size p - new_value_idx)) (iarr p)
             (I_size p) (I_size p + 1) in
  let p' := mkInternal (IncreaseSize (ihdr p) 1)
              (upd a new_value_idx (new_key, new_value)) in
  (I_size p', p').

Definition I_Remove (p : InternalPage) (index : Z) : InternalPage :=
  mkInternal (IncreaseSize (ihdr p) (-1))
    (move_slots (Z.to_nat (I_size p - (index + 1))) (iarr p) (index + 1) index).

Definition I_RemoveAndReturnOnlyChild (p : InternalPage) : Z * InternalPage :=
  (I_ValueAt p 0, I_with_hdr p (SetSize (ihdr p) 0)).

(** ** Buffer pool and tree *)

(** A page of the index: the constructor is its [page_type_]. *)
Inductive TreePage : Type :=
  | PLeaf (l : LeafPage)
  | PInternal (p : InternalPage).

Definition hdr (pg : TreePage) : Header :=
  match pg with PLeaf l => lhdr l | PInternal p => ihdr p end.
Definition with_hdr (pg : TreePage) (h : Header) : TreePage :=
  match pg with
  | PLeaf l => PLeaf (L_with_hdr l h)
  | PInternal p => PInternal (I_with_hdr p h)
  end.
Definition IsLeafPage (pg : TreePage) : bool :=
  match pg with PLeaf _ => true | PInternal _ => false end.
Definition GetMinSize (pg : TreePage) : Z :=
  match pg with
  | PLeaf l => leaf_min_size (lhdr l)
  | PInternal p => internal_min_size (ihdr p)
  end.

Inductive Operation : Type := SEARCH | INSERT | DELETE.

(** The tree ([root_page_id_], [leaf_max_size_], [internal_max_size_])
    together with what it reaches through its external collaborators: the
    pages of the buffer pool, the next page id [NewPage] will hand out,
    the record of the header page stored under [index_name_], and the
    deleted page set of the transaction. *)
Record BPlusTree : Type := mkTree {
  root_page_id_ : Z;
  leaf_max_size_ : Z;
  internal_max_size_ : Z;
  pool : gmap Z TreePage;
  next_page_id : Z;
  header_record : option Z;
  deleted_page_set : list Z
}.

Variable blank_leaf : Z -> KeyType * ValueType.
Variable blank_internal : Z -> KeyType * Z.

Definition with_pool (t : BPlusTree) (m : gmap Z TreePage) : BPlusTree :=
  mkTree (root_page_id_ t) (leaf_max_size_ t) (internal_max_size_ t) m
    (next_page_id t) (header_record t) (deleted_page_set t).
Definition put (t : BPlusTree) (id : Z) (pg : TreePage) : BPlusTree :=
  with_pool t (<[id := pg]> (pool t)).
Definition with_root (t : BPlusTree) (r : Z) : BPlusTree :=
  mkTree r (leaf_max_size_ t) (internal_max_size_ t) (pool t)
    (next_page_id t) (header_record t) (deleted_page_set t).

(** Modelled from the spec: [BufferPoolManager::FetchPage], external; a
    page that is not there is a null pointer, and using it a fault. *)
Definition FetchPage (t : BPlusTree) (id : Z) : outcome TreePage :=
  of_option (pool t !! id).
Definition fetch_leaf (t : BPlusTree) (id : Z) : outcome LeafPage :=
  pg ← FetchPage t id;
  match pg with PLeaf l => Done l | PInternal _ => Fault end.
Definition fetch_internal (t : BPlusTree) (id : Z) : outcome InternalPage :=
  pg ← FetchPage t id;
  match pg with PInternal p => Done p | PLeaf _ => Fault end.

(** Modelled from the spec: [BufferPoolManager::NewPage(&id)], external:
    the id handed out and the tree with the allocator advanced.  The
    frame's array reads [blank_leaf] or [blank_internal] until written. *)
Definition NewPage (t : BPlusTree) : Z * BPlusTree :=
  (next_page_id t,
   mkTree (root_page_id_ t) (leaf_max_size_ t) (internal_max_size_ t) (pool t)
     (next_page_id t + 1) (header_record t) (deleted_page_set t)).

(** Modelled from the spec: [Transaction::AddIntoDeletedPageSet],
    external. *)
Definition AddIntoDeletedPageSet (t : BPlusTree) (id : Z) : BPlusTree :=
  mkTree (root_page_id_ t) (leaf_max_size_ t) (internal_max_size_ t) (pool t)
    (next_page_id t) (header_record t) (deleted_page_set t ++ [id]).

(** [UpdateRootPageId].  Modelled from the spec: [InsertRecord] and
    [UpdateRecord] of the external header page both leave the current
    root recorded under [index_name_]. *)
Definition UpdateRootPageId (t : BPlusTree) (insert_record : Z) : BPlusTree :=
  mkTree (root_page_id_ t) (leaf_max_size_ t) (internal_max_size_ t) (pool t)
    (next_page_id t) (Some (root_page_id_ t)) (deleted_page_set t).

Definition IsEmpty (t : BPlusTree) : bool :=
  bool_decide (root_page_id_ t = INVALID_PAGE_ID).

(** [node->SetParentPageId(parent)] on the page fetched under [id]. *)
Definition set_parent (t : BPlusTree) (id parent : Z) : outcome BPlusTree :=
  pg ← FetchPage t id;
  Done (put t id (with_hdr pg (SetParentPageId (hdr pg) parent))).

(** The loop of [CopyNFrom] and [MoveMiddleTo] that hands the children in
    slots [i], [i + 1], ... of [a] to [parent]. *)
Fixpoint reparent (n : nat) (t : BPlusTree) (a : Z -> KeyType * Z) (i : Z)
    (parent : Z) : outcome BPlusTree :=
  match n with
  | O => Done t
  | S n' =>
      t' ← set_parent t (a i).2 parent;
      reparent n' t' a (i + 1) parent
  end.

(** [recipient->CopyNFrom(items + start, size, bpm)] for the internal page
    fetched under [rid]. *)
Definition I_CopyNFrom (t : BPlusTree) (rid : Z) (items : Z -> KeyType * Z)
    (start size : Z) : outcome BPlusTree :=
  r ← fetch_internal t rid;
  let r1 := mkInternal (ihdr r)
              (copy_slots (Z.to_nat size) items start (iarr r) (I_size r)) in
  t1 ← reparent (Z.to_nat size) (put t rid (PInternal r1)) (iarr r1) (I_size r)
         (page_id_ (ihdr r));
  r2 ← fetch_internal t1 rid;
  Done (put t1 rid (PInternal (I_with_hdr r2 (IncreaseSize (ihdr r2) size)))).

(** [node->MoveHalfTo(recipient, bpm)] where [node] is the scratch copy
    [p] and the recipient is fetched under [rid]; returns the scratch
    copy. *)
Definition I_MoveHalfTo (t : BPlusTree) (p : InternalPage) (rid : Z)
  : outcome (InternalPage * BPlusTree) :=
  let start_split_indx := internal_min_size (ihdr p) in
  let original_size := I_size p in
  let p' := I_with_hdr p (SetSize (ihdr p) start_split_indx) in
  t' ← I_CopyNFrom t rid (iarr p) start_split_indx (original_size - start_split_indx);
  Done (p', t').

(** [node->MoveAllTo(recipient, middle_key, bpm)], pages [nid] and [rid]. *)
Definition I_MoveAllTo (t : BPlusTree) (nid rid : Z) (middle_key : KeyType)
  : outcome BPlusTree :=
  n ← fetch_internal t nid;
  let n1 := I_SetKeyAt n 0 middle_key in
  t1 ← I_CopyNFrom (put t nid (PInternal n1)) rid (iarr n1) 0 (I_size n1);
  n2 ← fetch_internal t1 nid;
  Done (put t1 nid (PInternal (I_with_hdr n2 (SetSize (ihdr n2) 0)))).

(** [sibling->MoveMiddleTo(recipient, middle_key, bpm)], pages [sid] and
    [rid]. *)
Definition I_MoveMiddleTo (t : BPlusTree) (sid rid : Z) (middle_key : KeyType)
  : outcome BPlusTree :=
  r ← fetch_internal t rid;
  let t := put t rid (PInternal (I_SetKeyAt r 0 middle_key)) in
  s ← fetch_internal t sid;
  let increment := I_size s - internal_min_size (ihdr s) in
  let deduce := internal_min_size (ihdr s) - I_size s in
  t ← reparent (Z.to_nat (I_size s - internal_min_size (ihdr s))) t (iarr s)
        (internal_min_size (ihdr s)) (page_id_ (ihdr r));
  r ← fetch_internal t rid;
  s ← fetch_internal t sid;
  let ra := move_slots (Z.to_nat (I_size r)) (iarr r) 0 increment in
  let ra := copy_slots (Z.to_nat (I_size s - internal_min_size (ihdr s)))
              (iarr s) (internal_min_size (ihdr s)) ra 0 in
  let t := put t sid (PInternal (I_with_hdr s (IncreaseSize (ihdr s) deduce))) in
  Done (put t rid (PInternal (mkInternal (IncreaseSize (ihdr r) increment) ra))).

(** [sibling->MoveAheadTo(recipient, middle_key, bpm)], pages [sid] and
    [rid]. *)
Definition I_MoveAheadTo (t : BPlusTree) (sid rid : Z) (middle_key : KeyType)
  : outcome BPlusTree :=
  r ← fetch_internal t rid;
  let t := put t rid (PInternal (I_SetKeyAt r 0 middle_key)) in
  s ← fetch_internal t sid;
  let increment := I_size s - internal_min_size (ihdr s) in
  let deduce := internal_min_size (ihdr s) - I_size s in
  t ← I_CopyNFrom t rid (iarr s) 0 increment;
  s ← fetch_internal t sid;
  let a := move_slots (Z.to_nat (I_size s - increment)) (iarr s) increment 0 in
  Done (put t sid (PInternal (mkInternal (IncreaseSize (ihdr s) deduce) a))).

(** ** [BPlusTree] *)

(** The [while (!node->IsLeafPage())] loop of [FindLeafPage], standing on
    the page fetched under [page_id]; returns the id of the leaf. *)
Fixpoint descend (fuel : nat) (t : BPlusTree) (key : KeyType)
    (leftMost rightMost : bool) (page_id : Z) : outcome Z :=
  match pool t !! page_id with
  | None => Fault
  | Some (PLeaf _) => Done page_id
  | Some (PInternal n) =>
      match fuel with
      | O => OutOfFuel
      | S fuel' =>
          let child_node_id :=
            if leftMost then I_ValueAt n 0
            else if rightMost then I_ValueAt n (I_size n - 1)
            else I_Lookup n key in
          if bool_decide (child_node_id > 0)
          then descend fuel' t key leftMost rightMost child_node_id
          else Fault
      end
  end.

(** [FindLeafPage]: [assert(root_page_id_ != INVALID_PAGE_ID)], then the
    descent.  The latch bookkeeping selected by [operation] has no effect
    on the pages. *)
Definition FindLeafPage (fuel : nat) (t : BPlusTree) (key : KeyType)
    (operation : Operation) (leftMost rightMost : bool) : outcome Z :=
  if IsEmpty t then Fault
  else descend fuel t key leftMost rightMost (root_page_id_ t).

(** [GetValue]: [Some v] when it returns true after pushing [v], [None]
    when it returns false. *)
Definition GetValue (fuel : nat) (t : BPlusTree) (key : KeyType)
  : outcome (option ValueType) :=
  leaf_id ← FindLeafPage fuel t key SEARCH false false;
  leaf_node ← fetch_leaf t leaf_id;
  L_Lookup leaf_node key.

Definition StartNewTree (t : BPlusTree) (key : KeyType) (value : ValueType)
  : outcome BPlusTree :=
  let '(id, t) := NewPage t in
  let t := with_root t id in
  let root_page := L_Init blank_leaf (root_page_id_ t) INVALID_PAGE_ID (leaf_max_size_ t) in
  '(_, root_page) ← L_Insert root_page key value;
  Done (UpdateRootPageId (put t id (PLeaf root_page)) 1).

(** [SplitLeaf(node)] for the leaf fetched under [nid]; returns the id of
    the new leaf. *)
Definition SplitLeaf (t : BPlusTree) (nid : Z) : outcome (Z * BPlusTree) :=
  node ← fetch_leaf t nid;
  let '(new_page_id, t) := NewPage t in
  let new_node := L_Init blank_leaf new_page_id (parent_page_id_ (lhdr node))
                    (leaf_max_size_ t) in
  '(node, new_node) ← L_MoveHalfTo node new_node;
  Done (new_page_id, put (put t new_page_id (PLeaf new_node)) nid (PLeaf node)).

(** [SplitInternal(node)] for the scratch copy [node]; returns the scratch
    copy and the id of the new page. *)
Definition SplitInternal (t : BPlusTree) (node : InternalPage)
  : outcome (InternalPage * Z * BPlusTree) :=
  let '(new_page_id, t) := NewPage t in
  let new_node := I_Init blank_internal new_page_id (parent_page_id_ (ihdr node))
                    (internal_max_size_ t) in
  '(node, t) ← I_MoveHalfTo (put t new_page_id (PInternal new_node)) node new_page_id;
  Done (node, new_page_id, t).

(** [memcpy(page->GetData(), mem, HEADER + sizeof(MappingType) * n)]: the
    header and the first [n] slots of the scratch copy overwrite the page. *)
Definition copy_back (page scratch : InternalPage) (n : Z) : InternalPage :=
  mkInternal (ihdr scratch)
    (copy_slots (Z.to_nat n) (iarr scratch) 0 (iarr page) 0).

Fixpoint InsertIntoParent (fuel : nat) (t : BPlusTree) (old_id : Z)
    (key : KeyType) (new_id : Z) : outcome BPlusTree :=
  match fuel with
  | O => OutOfFuel
  | S fuel' =>
      old_node ← FetchPage t old_id;
      new_node ← FetchPage t new_id;
      if IsRootPage (hdr old_node) then
        let '(id, t) := NewPage t in
        let t := with_root t id in
        let new_root := I_Init blank_internal (root_page_id_ t) INVALID_PAGE_ID
                          (internal_max_size_ t) in
        let new_root := I_PopulateNewRoot new_root (page_id_ (hdr old_node)) key
                          (page_id_ (hdr new_node)) in
        let t := put t id (PInternal new_root) in
        t ← set_parent t old_id (root_page_id_ t);
        t ← set_parent t new_id (root_page_id_ t);
        Done (UpdateRootPageId t 0)
      else
        let old_parent_id := parent_page_id_ (hdr old_node) in
        parent_page ← fetch_internal t old_parent_id;
        t ← set_parent t new_id old_parent_id;
        if bool_decide (I_size parent_page < internal_max_size_ t) then
          parent_page ← fetch_internal t old_parent_id;
          Done (put t old_parent_id
                  (PInternal (I_InsertNodeAfter parent_page (page_id_ (hdr old_node))
                                key (page_id_ (hdr new_node))).2))
        else
          page ← fetch_internal t old_parent_id;
          let copy_parent_node :=
            (I_InsertNodeAfter page (page_id_ (hdr old_node)) key
               (page_id_ (hdr new_node))).2 in
          '(copy_parent_node, sibling_id, t) ← SplitInternal t copy_parent_node;
          parent_sibling_node ← fetch_internal t sibling_id;
          let new_key := I_KeyAt parent_sibling_node 0 in
          page ← fetch_internal t old_parent_id;
          let t := put t old_parent_id
                     (PInternal (copy_back page copy_parent_node
                                   (internal_min_size (ihdr copy_parent_node)))) in
          InsertIntoParent fuel' t old_parent_id new_key sibling_id
  end.

Definition InsertToLeaf (fuel : nat) (t : BPlusTree) (key : KeyType)
    (value : ValueType) : outcome (bool * BPlusTree) :=
  leaf_id ← FindLeafPage fuel t key INSERT false false;
  leaf_node ← fetch_leaf t leaf_id;
  if_existed ← L_Lookup leaf_node key;
  match if_existed with
  | Some _ => Done (false, t)
  | None =>
      '(_, leaf_node) ← L_Insert leaf_node key value;
      let t := put t leaf_id (PLeaf leaf_node) in
      if bool_decide (L_size leaf_node < leaf_max_size_ t) then Done (true, t)
      else
        '(new_id, t) ← SplitLeaf t leaf_id;
        new_leaf_page ← fetch_leaf t new_id;
        leaf_node ← fetch_leaf t leaf_id;
        let t := put t leaf_id
                   (PLeaf (L_SetNextPageId leaf_node (page_id_ (lhdr new_leaf_page)))) in
        t ← InsertIntoParent fuel t leaf_id (L_KeyAt new_leaf_page 0) new_id;
        Done (true, t)
  end.

Definition Insert (fuel : nat) (t : BPlusTree) (key : KeyType)
    (value : ValueType) : outcome (bool * BPlusTree) :=
  if IsEmpty t then
    t ← StartNewTree t key value;
    Done (true, t)
  else InsertToLeaf fuel t key value.

(** [Redistribute(neighbor_node, node, parent, index, from_prev)] on the
    pages fetched under [neighbor_id], [node_id] and [parent_id].  There
    is no [else] after the [from_prev] branch: [MoveAheadTo] and the
    second [SetKeyAt] run in both cases. *)
Definition Redistribute (t : BPlusTree) (neighbor_id node_id parent_id : Z)
    (index : Z) (from_prev : bool) : outcome BPlusTree :=
  node ← FetchPage t node_id;
  if IsLeafPage node then
    t ← (if from_prev then
           nnode ← fetch_leaf t node_id;
           sibling ← fetch_leaf t neighbor_id;
           parent ← fetch_internal t parent_id;
           let '(sibling, nnode) := L_MoveMiddleTo sibling nnode in
           let t := put (put t neighbor_id (PLeaf sibling)) node_id (PLeaf nnode) in
           Done (put t parent_id (PInternal (I_SetKeyAt parent index (L_KeyAt nnode 0))))
         else Done t);
    nnode ← fetch_leaf t node_id;
    sibling ← fetch_leaf t neighbor_id;
    parent ← fetch_internal t parent_id;
    let '(sibling, nnode) := L_MoveAheadTo sibling nnode in
    let t := put (put t neighbor_id (PLeaf sibling)) node_id (PLeaf nnode) in
    Done (put t parent_id (PInternal (I_SetKeyAt parent index (L_KeyAt sibling 0))))
  else
    t ← (if from_prev then
           parent ← fetch_internal t parent_id;
           t ← I_MoveMiddleTo t neighbor_id node_id (I_KeyAt parent index);
           nnode ← fetch_internal t node_id;
           parent ← fetch_internal t parent_id;
           Done (put t parent_id (PInternal (I_SetKeyAt parent index (I_KeyAt nnode 0))))
         else Done t);
    parent ← fetch_internal t parent_id;
    t ← I_MoveAheadTo t neighbor_id node_id (I_KeyAt parent index);
    sibling ← fetch_internal t neighbor_id;
    parent ← fetch_internal t parent_id;
    Done (put t parent_id (PInternal (I_SetKeyAt parent index (I_KeyAt sibling 0)))).

(** The root branch of [CoalesceOrRedistribute]. *)
Definition AdjustRoot (t : BPlusTree) (node : TreePage) : outcome (bool * BPlusTree) :=
  match node with
  | PInternal root_node =>
      if bool_decide (I_size root_node <= 1) then
        let child_id := I_ValueAt root_node 0 in
        only_child_node ← FetchPage t child_id;
        let only_child_node :=
          with_hdr only_child_node
            (SetParentPageId (hdr only_child_node) INVALID_PAGE_ID) in
        let t := put t child_id only_child_node in
        let t := with_root t (page_id_ (hdr only_child_node)) in
        Done (true, UpdateRootPageId t 0)
      else Done (false, t)
  | PLeaf l =>
      if bool_decide (L_size l = 0) then
        Done (true, UpdateRootPageId (with_root t INVALID_PAGE_ID) 0)
      else Done (false, t)
  end.

(** [Coalesce(neighbor_node, node, parent, index)] on the pages fetched
    under [neighbor_id], [nid] and [parent_id]; [recurse] is the call
    back into [CoalesceOrRedistribute]. *)
Definition Coalesce (recurse : BPlusTree -> Z -> outcome (bool * BPlusTree))
    (t : BPlusTree) (neighbor_id nid parent_id : Z) (index : Z)
  : outcome (bool * BPlusTree) :=
  parent ← fetch_internal t parent_id;
  let middle_key := I_KeyAt parent index in
  node ← FetchPage t nid;
  t ← (if IsLeafPage node then
         nnode ← fetch_leaf t nid;
         sibling ← fetch_leaf t neighbor_id;
         let '(nnode, sibling) := L_MoveAllTo nnode sibling in
         Done (put (put t nid (PLeaf nnode)) neighbor_id (PLeaf sibling))
       else I_MoveAllTo t nid neighbor_id middle_key);
  parent ← fetch_internal t parent_id;
  let t := put t parent_id (PInternal (I_Remove parent index)) in
  recurse t parent_id.

(** [CoalesceOrRedistribute(node)] for the page fetched under [node_id]. *)
Fixpoint CoalesceOrRedistribute (fuel : nat) (t : BPlusTree) (node_id : Z)
  : outcome (bool * BPlusTree) :=
  match fuel with
  | O => OutOfFuel
  | S fuel' =>
      node ← FetchPage t node_id;
      if IsRootPage (hdr node) then AdjustRoot t node
      else if bool_decide (size_ (hdr node) >= GetMinSize node) then Done (false, t)
      else
        let parent_id := parent_page_id_ (hdr node) in
        parent_page ← fetch_internal t parent_id;
        let idx := I_ValueIndex parent_page (page_id_ (hdr node)) in
        if negb (bool_decide (idx < I_size parent_page /\ idx >= 0)) then Fault
        else if negb (bool_decide (I_size parent_page >= 2)) then Fault
        else if bool_decide (idx > 0) then
          let left_id := I_ValueAt parent_page (idx - 1) in
          left_node ← FetchPage t left_id;
          if negb (bool_decide (IsLeafPage left_node = IsLeafPage node)) then Fault
          else if bool_decide (size_ (hdr left_node) > GetMinSize left_node) then
            t ← Redistribute t left_id node_id parent_id idx true;
            Done (false, t)
          else if negb (bool_decide (size_ (hdr left_node) = GetMinSize left_node))
          then Fault
          else
            '(if_parent_deleted, t) ←
              Coalesce (CoalesceOrRedistribute fuel') t left_id node_id parent_id idx;
            parent ← fetch_internal t parent_id;
            let t := if if_parent_deleted : bool
                     then AddIntoDeletedPageSet t (page_id_ (ihdr parent)) else t in
            Done (true, t)
        else
          let right_id := I_ValueAt parent_page (idx + 1) in
          right_node ← FetchPage t right_id;
          if negb (bool_decide (IsLeafPage right_node = IsLeafPage node)) then Fault
          else if bool_decide (size_ (hdr right_node) > GetMinSize right_node) then
            t ← Redistribute t right_id node_id parent_id (idx + 1) false;
            Done (false, t)
          else if negb (bool_decide (size_ (hdr right_node) = GetMinSize right_node))
          then Fault
          else
            let t := AddIntoDeletedPageSet t (page_id_ (hdr right_node)) in
            '(if_parent_deleted, t) ←
              Coalesce (CoalesceOrRedistribute fuel') t node_id right_id parent_id
                (idx + 1);
            parent ← fetch_internal t parent_id;
            let t := if if_parent_deleted : bool
                     then AddIntoDeletedPageSet t (page_id_ (ihdr parent)) else t in
            Done (false, t)
  end.

(** The last loop of [Remove].  Modelled from the spec:
    [BufferPoolManager::DeletePage], external, removes the page; it runs
    for every id of the deleted page set, which is then cleared. *)
Definition delete_pages (t : BPlusTree) : BPlusTree :=
  mkTree (root_page_id_ t) (leaf_max_size_ t) (internal_max_size_ t)
    (foldl (fun m id => delete id m) (pool t) (deleted_page_set t))
    (next_page_id t) (header_record t) [].

Definition Remove (fuel : nat) (t : BPlusTree) (key : KeyType) : outcome BPlusTree :=
  if bool_decide (root_page_id_ t = INVALID_PAGE_ID) then Done t
  else
    leaf_id ← FindLeafPage fuel t key DELETE false false;
    deleaf ← fetch_leaf t leaf_id;
    let isfirst := bool_decide (comparator (L_KeyAt deleaf 0) key = 0) in
    let pastsize := L_size deleaf in
    '(nowsize, deleaf) ← L_RemoveAndDeleteRecord deleaf key;
    if bool_decide (pastsize = nowsize) then Done t
    else
      let t := put t leaf_id (PLeaf deleaf) in
      t ← (if negb (IsRootPage (lhdr deleaf)) && isfirst then
             let pid := parent_page_id_ (lhdr deleaf) in
             p_page ← fetch_internal t pid;
             let idx := I_ValueIndex p_page (page_id_ (lhdr deleaf)) in
             if bool_decide (idx <> 0)
             then Done (put t pid (PInternal (I_SetKeyAt p_page idx (L_KeyAt deleaf 0))))
             else Done t
           else Done t);
      '(if_deleted, t) ← CoalesceOrRedistribute fuel t leaf_id;
      deleaf ← fetch_leaf t leaf_id;
      let t := if if_deleted : bool
               then AddIntoDeletedPageSet t (page_id_ (lhdr deleaf)) else t in
      Done (delete_pages t).

(** [Begin(key)].  [None] is the iterator built from two null pointers;
    otherwise the leaf page and the index the iterator is built from. *)
Definition Begin_key (fuel : nat) (t : BPlusTree) (key : KeyType)
  : outcome (option (Z * Z)) :=
  if bool_decide (root_page_id_ t = INVALID_PAGE_ID) then Done None
  else
    leaf_id ← FindLeafPage fuel t key SEARCH false false;
    leaf_node ← fetch_leaf t leaf_id;
    idx ← L_KeyIndex leaf_node key;
    Done (Some (leaf_id, idx)).

(** Order invariant of a page: the keys of its first [n] slots are
    strictly increasing. *)
Definition sorted {B} (a : Z -> KeyType * B) (n : Z) : Prop :=
  forall i j, 0 <= i -> i < j -> j < n -> comparator (a i).1 (a j).1 < 0.

(** Slot [i] of the first [n] slots carries [key]. *)
Definition key_at_slot {B} (a : Z -> KeyType * B) (n : Z) (key : KeyType) (i : Z)
  : Prop :=
  0 <= i < n /\ comparator (a i).1 key = 0.

(** Order invariant of an internal page: the keys of slots 1 to
    [size - 1] are strictly increasing (the key of slot 0 is not used). *)
Definition keys_sorted (p : InternalPage) : Prop :=
  forall i j, 1 <= i -> i < j -> j < I_size p ->
    comparator (I_KeyAt p i) (I_KeyAt p j) < 0.

(** Slot [j] of a page of either kind: its key, and its record value or
    child page id. *)
Definition slot (pg : TreePage) (j : Z) : KeyType * (ValueType + Z) :=
  match pg with
  | PLeaf l => ((larr l j).1, inl (larr l j).2)
  | PInternal p => ((iarr p j).1, inr (iarr p j).2)
  end.

(** Slot [j] of the recipient [pg] of a redistribution once its own
    entries are in place: [MoveMiddleTo] and [MoveAheadTo] of an internal
    page begin with [recipient->SetKeyAt(0, middle_key)]; a leaf keeps its
    entries as they are. *)
Definition kept_slot (pg : TreePage) (middle_key : KeyType) (j : Z)
  : KeyType * (ValueType + Z) :=
  match pg with
  | PLeaf _ => slot pg j
  | PInternal p => slot (PInternal (I_SetKeyAt p 0 middle_key)) j
  end.

(** The child page ids found in the first [size_] slots of an internal
    page; a leaf has none. *)
Definition child_ids (pg : TreePage) : list Z :=
  match pg with
  | PLeaf _ => []
  | PInternal p => (slots (iarr p) (I_size p)).*2
  end.

(** [pg'] is [pg] with, possibly, another parent pointer. *)
Definition reparented (pg pg' : TreePage) : Prop :=
  exists x, pg' = with_hdr pg (SetParentPageId (hdr pg) x).

(** [t'] is [t] except for parent pointers of pages. *)
Definition up_to_parents (t t' : BPlusTree) : Prop :=
  root_page_id_ t' = root_page_id_ t /\
  leaf_max_size_ t' = leaf_max_size_ t /\
  internal_max_size_ t' = internal_max_size_ t /\
  next_page_id t' = next_page_id t /\
  header_record t' = header_record t /\
  deleted_page_set t' = deleted_page_set t /\
  forall id, option_Forall2 reparented (pool t !! id) (pool t' !! id).

(** The allocator is ahead of every page of the pool: [NewPage] hands out
    an id under which no page lives yet. *)
Definition pool_fresh (t : BPlusTree) : Prop :=
  forall id, next_page_id t <= id -> pool t !! id = None.

(** [path] is the chain of parent pointers from the page with header [h]
    up to the root: its parent first, the root last (empty when the page
    is the root itself).  Each page on it is an internal page stored under
    its own id, built with [internal_max_size_], that lists the page below
    among its children; its children are in the pool and none of them is
    the page itself or one of the pages above it. *)
Fixpoint ancestors (t : BPlusTree) (h : Header) (path : list Z) : Prop :=
  match path with
  | [] => IsRootPage h = true
  | pid :: rest =>
      IsRootPage h = false /\ parent_page_id_ h = pid /\ (pid ∉ rest) /\
      exists P : InternalPage,
        pool t !! pid = Some (PInternal P) /\
        page_id_ (ihdr P) = pid /\
        max_size_ (ihdr P) = internal_max_size_ t /\
        (exists k, 0 <= k < I_size P /\ I_ValueAt P k = page_id_ h) /\
        (forall k, 0 <= k < I_size P ->
           is_Some (pool t !! I_ValueAt P k) /\ (I_ValueAt P k ∉ path)) /\
        ancestors t (ihdr P) rest
  end.

(** An empty index over an empty buffer pool; page 0 is the header page. *)
Definition BPlusTree_new (leaf_max_size internal_max_size : Z) : BPlusTree :=
  mkTree INVALID_PAGE_ID leaf_max_size internal_max_size ∅ 1 None [].

End Tree.

(** Integer keys with the comparator of [GenericComparator] on a single
    integer column. *)
Definition cmpZ (a b : Z) : Z := a - b.

(** A frame as [NewPage] hands it out: every slot reads as zero.  This
    includes the slots below 0, which are not part of [array_]: the code
    reads [array_[-1]] in [Lookup] and [RemoveAndDeleteRecord] when the
    key is below the first key of the leaf, and finds there the bytes of
    the page header, whose layout ([b_plus_tree_page.h]) is not among the
    sources.  The laws of the pages are proved for every content of that
    slot; on the concrete pages below a search for a key that equals the
    key read at slot [-1] (here 0) is outside what the model tells about
    the program. *)
Definition zero_leaf : Z -> Z * Z := fun _ => (0, 0).
Definition zero_internal : Z -> Z * Z := fun _ => (0, 0).

(** [InsertFromFile], for the keys read from the file: each key is
    inserted with the record id built from it. *)
Fixpoint InsertFromFile (fuel : nat) (t : @BPlusTree Z Z) (keys : list Z)
  : outcome (@BPlusTree Z Z) :=
  match keys with
  | [] => Done t
  | key :: rest =>
      '(_, t') ← Insert cmpZ zero_leaf zero_internal fuel t key key;
      InsertFromFile fuel t' rest
  end.

(** [RemoveFromFile], for the keys read from the file. *)
Fixpoint RemoveFromFile (fuel : nat) (t : @BPlusTree Z Z) (keys : list Z)
  : outcome (@BPlusTree Z Z) :=
  match keys with
  | [] => Done t
  | key :: rest =>
      t' ← Remove cmpZ fuel t key;
      RemoveFromFile fuel t' rest
  end.

(** The entries of a page of the pool, for inspection. *)
Definition entries (t : @BPlusTree Z Z) (id : Z) : option (list (Z * Z)) :=
  match pool t !! id with
  | Some (PLeaf l) => Some (slots (larr l) (L_size l))
  | Some (PInternal p) => Some (slots (iarr p) (I_size p))
  | None => None
  end.

(** A leaf page with the given header fields and entries; every other
    slot reads as zero, the slots below 0 included (see [zero_leaf]). *)
Definition leaf_of (page_id parent next max_size : Z) (es : list (Z * Z))
  : @LeafPage Z Z :=
  mkLeaf (mkHeader (Z.of_nat (length es)) max_size parent page_id) next
    (fun j => if bool_decide (0 <= j) then nth (Z.to_nat j) es (0, 0) else (0, 0)).

(** An internal page with the given header fields and entries. *)
Definition internal_of (page_id parent max_size : Z) (es : list (Z * Z))
  : @InternalPage Z :=
  mkInternal (mkHeader (Z.of_nat (length es)) max_size parent page_id)
    (fun j => if bool_decide (0 <= j) then nth (Z.to_nat j) es (0, 0) else (0, 0)).

(** With [leaf_max_size = 5]: the leaf [1] has just lost an entry and its
    right sibling holds two entries more than [min_size = 2].  (The state
    inside [Remove(2)] after inserting 1..7 and removing 3.) *)
Definition underflow_right : @BPlusTree Z Z :=
  mkTree 3 5 5
    (<[1 := PLeaf (leaf_of 1 3 2 5 [(1, 1)])]>
       (<[2 := PLeaf (leaf_of 2 3 INVALID_PAGE_ID 5 [(4, 4); (5, 5); (6, 6); (7, 7)])]>
          (<[3 := PInternal (internal_of 3 INVALID_PAGE_ID 5 [(0, 1); (4, 2)])]> ∅)))
    4 (Some 3) [].

(** With [leaf_max_size = 5]: the leaf [2] has just lost an entry and its
    left sibling holds two entries more than [min_size = 2]. *)
Definition underflow_left : @BPlusTree Z Z :=
  mkTree 3 5 5
    (<[1 := PLeaf (leaf_of 1 3 2 5 [(1, 1); (2, 2); (3, 3); (4, 4)])]>
       (<[2 := PLeaf (leaf_of 2 3 INVALID_PAGE_ID 5 [(6, 6)])]>
          (<[3 := PInternal (internal_of 3 INVALID_PAGE_ID 5 [(0, 1); (5, 2)])]> ∅)))
    4 (Some 3) [].

(** With [leaf_max_size = 4]: a root leaf holding keys 1, 2, 3. *)
Definition root_leaf_123 : @LeafPage Z Z :=
  leaf_of 1 INVALID_PAGE_ID INVALID_PAGE_ID 4 [(1, 1); (2, 2); (3, 3)].

Definition tree_123 : @BPlusTree Z Z :=
  mkTree 1 4 4 (<[1 := PLeaf root_leaf_123]> ∅) 2 (Some 1) [].

(** [root_leaf_123] after the leaf's [Insert(4, 4)]. *)
Definition root_leaf_1234 : @LeafPage Z Z :=
  match L_Insert cmpZ root_leaf_123 4 4 with
  | Done (_, p) => p
  | _ => root_leaf_123
  end.


(** With [leaf_max_size = 4]: a root leaf holding the single key 1. *)
Definition root_leaf_1 : @LeafPage Z Z :=
  leaf_of 1 INVALID_PAGE_ID INVALID_PAGE_ID 4 [(1, 1)].

Definition tree_1 : @BPlusTree Z Z :=
  mkTree 1 4 4 (<[1 := PLeaf root_leaf_1]> ∅) 2 (Some 1) [].

(** With [leaf_max_size = 4]: the tree after inserting 1, 2, 3, 4.  The
    root [3] has the leaves [1] and [2], each holding [min_size = 2]
    entries. *)
Definition left_leaf_12 : @LeafPage Z Z := leaf_of 1 3 2 4 [(1, 1); (2, 2)].
Definition right_leaf_34 : @LeafPage Z Z :=
  leaf_of 2 3 INVALID_PAGE_ID 4 [(3, 3); (4, 4)].
Definition root_of_two : @InternalPage Z :=
  internal_of 3 INVALID_PAGE_ID 4 [(0, 1); (3, 2)].

Definition two_leaves : @BPlusTree Z Z :=
  mkTree 3 4 4
    (<[1 := PLeaf left_leaf_12]>
       (<[2 := PLeaf right_leaf_34]> (<[3 := PInternal root_of_two]> ∅)))
    4 (Some 3) [].

(** [two_leaves] after inserting 5: the right leaf is one entry short of
    [leaf_max_size]. *)
Definition right_leaf_345 : @LeafPage Z Z :=
  leaf_of 2 3 INVALID_PAGE_ID 4 [(3, 3); (4, 4); (5, 5)].

Definition two_leaves_345 : @BPlusTree Z Z :=
  mkTree 3 4 4
    (<[1 := PLeaf left_leaf_12]>
       (<[2 := PLeaf right_leaf_345]> (<[3 := PInternal root_of_two]> ∅)))
    4 (Some 3) [].

(** [right_leaf_345] after the leaf's [Insert(6, 6)]. *)
Definition right_leaf_3456 : @LeafPage Z Z :=
  match L_Insert cmpZ right_leaf_345 6 6 with
  | Done (_, p) => p
  | _ => right_leaf_345
  end.

(** A tree of height three: the root [7] has the internal pages [3] and
    [6] as its children, which have the leaves [1], [2] and [4], [5]. *)
Definition inner_left : @InternalPage Z := internal_of 3 7 4 [(0, 1); (3, 2)].
Definition inner_right : @InternalPage Z := internal_of 6 7 4 [(0, 4); (7, 5)].
Definition root_of_inner : @InternalPage Z :=
  internal_of 7 INVALID_PAGE_ID 4 [(0, 3); (5, 6)].

Definition three_levels : @BPlusTree Z Z :=
  mkTree 7 4 4
    (<[1 := PLeaf (leaf_of 1 3 2 4 [(1, 1); (2, 2)])]>
       (<[2 := PLeaf (leaf_of 2 3 4 4 [(3, 3); (4, 4)])]>
          (<[3 := PInternal inner_left]>
             (<[4 := PLeaf (leaf_of 4 6 5 4 [(5, 5); (6, 6)])]>
                (<[5 := PLeaf (leaf_of 5 6 INVALID_PAGE_ID 4 [(7, 7); (8, 8)])]>
                   (<[6 := PInternal inner_right]>
                      (<[7 := PInternal root_of_inner]> ∅)))))))
    8 (Some 7) [].

(** With [leaf_max_size = 4] and [internal_max_size = 3]: the root [9]
    is full, and its last leaf [3] is one entry short of [leaf_max_size]. *)
Definition full_root : @InternalPage Z :=
  internal_of 9 INVALID_PAGE_ID 3 [(0, 1); (30, 2); (50, 3)].
Definition last_leaf : @LeafPage Z Z :=
  leaf_of 3 9 INVALID_PAGE_ID 4 [(50, 50); (60, 60); (70, 70)].

Definition under_full_root : @BPlusTree Z Z :=
  mkTree 9 4 3
    (<[1 := PLeaf (leaf_of 1 9 2 4 [(10, 10); (20, 20)])]>
       (<[2 := PLeaf (leaf_of 2 9 3 4 [(30, 30); (40, 40)])]>
          (<[3 := PLeaf last_leaf]> (<[9 := PInternal full_root]> ∅))))
    10 (Some 9) [].

(** [last_leaf] after the leaf's [Insert(80, 80)]. *)
Definition last_leaf_full : @LeafPage Z Z :=
  match L_Insert cmpZ last_leaf 80 80 with
  | Done (_, p) => p
  | _ => last_leaf
  end.

(** The scratch copy of an internal page with [max_size = 3] after it has
    taken a fourth entry. *)
Definition overfull_inner : @InternalPage Z :=
  internal_of 3 7 3 [(0, 1); (3, 2); (5, 4); (7, 5)].

End BPT.

(* ====================================================================== *)
(** * Properties of the extendible hash table *)
(* ====================================================================== *)

(** ** Bit-level facts used by the directory arithmetic *)

Lemma shl_int_1 n p : shl_int 1 n = Some p -> p = 2 ^ n /\ 0 <= n <= 30.
Proof.
  unfold shl_int. case_bool_decide as H; [|discriminate].
  intros [= <-]. rewrite Z.shiftl_1_l. split; [done|lia].
Qed.

Lemma shl_int_1_ok n : 0 <= n <= 30 -> shl_int 1 n = Some (2 ^ n).
Proof.
  intros Hn. unfold shl_int. rewrite bool_decide_eq_true_2.
  - by rewrite Z.shiftl_1_l.
  - split; [lia|]. split; [lia|]. unfold INT_MAX.
    assert (2 ^ n <= 2 ^ 30) by (apply Z.pow_le_mono_r; lia). lia.
Qed.

Lemma land_low_mask h g : 0 <= g -> Z.land h (2 ^ g - 1) = h mod 2 ^ g.
Proof.
  intros Hg. rewrite <- Z.land_ones by done. f_equal.
  rewrite Z.ones_equiv. lia.
Qed.

Lemma land_pow2 x d :
  0 <= d -> Z.land x (2 ^ d) = if Z.testbit x d then 2 ^ d else 0.
Proof.
  intros Hd. apply Z.bits_inj'. intros n Hn.
  rewrite Z.land_spec, Z.pow2_bits_eqb by done.
  destruct (Z.eqb_spec d n) as [->|Hne].
  - destruct (Z.testbit x n); simpl.
    + by rewrite Z.pow2_bits_true.
    + by rewrite Z.bits_0.
  - rewrite andb_false_r. destruct (Z.testbit x d).
    + rewrite Z.pow2_bits_false; [done|lia].
    + by rewrite Z.bits_0.
Qed.

Lemma land_pow2_nonzero x d :
  0 <= d -> (Z.land x (2 ^ d) <> 0 <-> Z.testbit x d = true).
Proof.
  intros Hd. rewrite land_pow2 by done.
  assert (0 < 2 ^ d) by (apply Z.pow_pos_nonneg; lia).
  destruct (Z.testbit x d); split; intros; try done; lia.
Qed.

Lemma land_pow2_mod h g d :
  0 <= d < g -> Z.land (h mod 2 ^ g) (2 ^ d) = Z.land h (2 ^ d).
Proof.
  intros Hd. rewrite !land_pow2 by lia.
  by rewrite Z.mod_pow2_bits_low by lia.
Qed.

Module EHTFacts.
Import EHT.
Section Facts.
Context {K V : Type} `{EqDecision K}.
Variable hash : K -> Z.

Abbreviation Bucket := (@Bucket K V).
Abbreviation Table := (@Table K V).

Abbreviation high := (high hash).

(** *** Buckets *)

Lemma overwrite_absent key value (l : list (K * V)) :
  key ∉ l.*1 -> overwrite key value l = None.
Proof.
  induction l as [|[k v] l IH]; simpl; [done|].
  intros Hn. apply not_elem_of_cons in Hn as [Hk Hl].
  destruct (decide (k = key)); [congruence|]. by rewrite IH.
Qed.

Lemma overwrite_present key value (l : list (K * V)) :
  key ∈ l.*1 -> exists l', overwrite key value l = Some l' /\
    find_item key l' = Some value /\ length l' = length l /\ l'.*1 = l.*1.
Proof.
  induction l as [|[k v] l IH]; simpl.
  - intros Hin. by apply elem_of_nil in Hin.
  - intros Hin. destruct (decide (k = key)) as [->|Hne].
    + eexists. split; [done|]. simpl. by rewrite decide_True.
    + apply elem_of_cons in Hin as [?|Hin]; [congruence|].
      destruct (IH Hin) as (l' & -> & Hf & Hlen & Hk).
      eexists. split; [done|]. repeat split.
      * simpl. by rewrite decide_False.
      * simpl. by rewrite Hlen.
      * rewrite !fmap_cons. by rewrite Hk.
Qed.

Lemma find_item_app_absent key (l1 l2 : list (K * V)) :
  key ∉ l1.*1 -> find_item key (l1 ++ l2) = find_item key l2.
Proof.
  induction l1 as [|[k v] l1 IH]; simpl; [done|].
  intros Hn. apply not_elem_of_cons in Hn as [Hk Hl].
  rewrite decide_False by congruence. by apply IH.
Qed.

Lemma Bucket_Insert_fresh key value (b : Bucket) :
  key ∉ (list_ b).*1 -> IsFull b = false ->
  Bucket_Insert key value b =
    (true, mkBucket (size_ b) (depth_ b) (list_ b ++ [(key, value)])).
Proof.
  intros Hk Hf. unfold Bucket_Insert.
  by rewrite overwrite_absent, Hf.
Qed.

(** A bucket with room maps [key] to [value] after [Bucket::Insert]. *)
Lemma Bucket_Insert_find key value (b : Bucket) :
  IsFull b = false ->
  Bucket_Find key (Bucket_Insert key value b).2 = Some value.
Proof.
  intros Hf. unfold Bucket_Insert, Bucket_Find.
  destruct (decide (key ∈ (list_ b).*1)) as [Hin|Hn].
  - destruct (overwrite_present key value _ Hin) as (l' & -> & Hfind & _).
    done.
  - rewrite overwrite_absent, Hf by done. simpl.
    rewrite find_item_app_absent by done. simpl. by rewrite decide_True.
Qed.

(** *** The rehash loop *)

Lemma rehash_filter mask (items : list (K * V)) s d0 d1 l0 l1 :
  NoDup items.*1 ->
  (forall k, k ∈ items.*1 -> (k ∉ l0.*1) /\ (k ∉ l1.*1)) ->
  Z.of_nat (length l0 + length items) <= s ->
  Z.of_nat (length l1 + length items) <= s ->
  rehash hash mask items (mkBucket s d0 l0) (mkBucket s d1 l1) =
    (mkBucket s d0 (l0 ++ filter (fun e => ~ high mask e) items),
     mkBucket s d1 (l1 ++ filter (high mask) items)).
Proof.
  revert l0 l1. induction items as [|[k v] items IH]; intros l0 l1 Hnd Hfr H0 H1.
  - simpl. by rewrite !app_nil_r.
  - simpl in *. apply NoDup_cons in Hnd as [Hk Hnd].
    destruct (Hfr k ltac:(left)) as [Hk0 Hk1].
    case_bool_decide as Hside.
    + rewrite Bucket_Insert_fresh; simpl; [|done|].
      2:{ unfold IsFull; simpl. apply bool_decide_eq_false_2. lia. }
      rewrite IH; [|done| |lia|rewrite length_app; simpl; lia].
      2:{ intros k' Hk'. destruct (Hfr k' ltac:(by right)) as [? ?].
          split; [done|]. rewrite fmap_app. simpl.
          apply not_elem_of_app. split; [done|].
          intros ->%list_elem_of_singleton. done. }
      rewrite filter_cons_False by (intros Hc; by apply Hc).
      rewrite filter_cons_True by exact Hside.
      by rewrite <- app_assoc.
    + rewrite Bucket_Insert_fresh; simpl; [|done|].
      2:{ unfold IsFull; simpl. apply bool_decide_eq_false_2. lia. }
      rewrite IH; [|done| |rewrite length_app; simpl; lia|lia].
      2:{ intros k' Hk'. destruct (Hfr k' ltac:(by right)) as [? ?].
          split; [|done]. rewrite fmap_app. simpl.
          apply not_elem_of_app. split; [done|].
          intros ->%list_elem_of_singleton. done. }
      rewrite filter_cons_True by (intros Hc; by apply Hc).
      rewrite filter_cons_False by (intros Hc; by apply Hc).
      by rewrite <- app_assoc.
Qed.

Lemma rehash_fresh mask (items : list (K * V)) s d :
  NoDup items.*1 -> Z.of_nat (length items) <= s ->
  rehash hash mask items (mkBucket s d []) (mkBucket s d []) =
    (mkBucket s d (filter (fun e => ~ high mask e) items),
     mkBucket s d (filter (high mask) items)).
Proof.
  intros Hnd Hlen. rewrite rehash_filter; simpl; try done.
  intros k _. split; apply not_elem_of_nil.
Qed.

(** *** The directory loop *)

Lemma redirect_lookup old a0 a1 mask i (d : list nat) n :
  redirect old a0 a1 mask i d !! n =
    (fun p => if bool_decide (p = old)
              then (if bool_decide (Z.land (i + Z.of_nat n) mask <> 0)
                    then a1 else a0)
              else p) <$> d !! n.
Proof.
  revert i n. induction d as [|p d IH]; intros i n; simpl; [done|].
  destruct n as [|n]; simpl.
  - by rewrite Z.add_0_r.
  - rewrite IH. by replace (i + 1 + Z.of_nat n) with (i + Z.of_nat (S n)) by lia.
Qed.

Lemma redirect_length old a0 a1 mask i (d : list nat) :
  length (redirect old a0 a1 mask i d) = length d.
Proof. revert i. induction d as [|p d IH]; intros i; simpl; [done|]. by rewrite IH. Qed.


(** *** One split *)

Lemma target_inv (t : Table) key a b :
  target hash t key = Some (a, b) ->
  exists i, IndexOf hash t key = Some i /\ 0 <= i /\
    dir_ t !! Z.to_nat i = Some a /\ heap_ t !! a = Some b.
Proof.
  unfold target. destruct (IndexOf hash t key) as [i|]; [|done].
  case_bool_decide; [|done].
  destruct (dir_ t !! Z.to_nat i) as [a'|] eqn:Hd; [|done].
  destruct (heap_ t !! a') as [b'|] eqn:Hh; [|done].
  intros [= <- <-]. eauto 10.
Qed.

Lemma IndexOf_shape (t : Table) key :
  dir_shape t ->
  IndexOf hash t key = Some (hash key mod 2 ^ global_depth_ t).
Proof.
  intros [Hgd _]. unfold IndexOf. rewrite shl_int_1_ok by done.
  by rewrite land_low_mask by lia.
Qed.

Lemma mod_double h g :
  0 <= g ->
  h mod 2 ^ (g + 1) = h mod 2 ^ g \/ h mod 2 ^ (g + 1) = h mod 2 ^ g + 2 ^ g.
Proof.
  intros Hg. assert (0 < 2 ^ g) by (apply Z.pow_pos_nonneg; lia).
  rewrite Z.pow_add_r by lia. change (2 ^ 1) with 2.
  rewrite Z.rem_mul_r by lia.
  assert (0 <= (h / 2 ^ g) mod 2 < 2) by (apply Z.mod_pos_bound; lia).
  assert ((h / 2 ^ g) mod 2 = 0 \/ (h / 2 ^ g) mod 2 = 1) as [-> | ->] by lia; lia.
Qed.

(** The slot of [key] still holds the address of the old bucket after the
    optional doubling. *)
Lemma grow_slot (t : Table) key a b :
  dir_shape t -> 0 <= depth_ b <= global_depth_ t -> depth_ b < 30 ->
  dir_ t !! Z.to_nat (hash key mod 2 ^ global_depth_ t) = Some a ->
  exists gd d, grow t b = Some (gd, d) /\
    gd = (if bool_decide (depth_ b = global_depth_ t)
          then global_depth_ t + 1 else global_depth_ t) /\
    d = (if bool_decide (depth_ b = global_depth_ t)
         then dir_ t ++ dir_ t else dir_ t) /\
    depth_ b < gd <= 30 /\ Z.of_nat (length d) = 2 ^ gd /\
    d !! Z.to_nat (hash key mod 2 ^ gd) = Some a.
Proof.
  intros [Hgd Hlen] Hd Hd30 Hslot. unfold grow, GetDepth.
  assert (0 < 2 ^ global_depth_ t) as Hpos by (apply Z.pow_pos_nonneg; lia).
  case_bool_decide as Heq.
  - assert (2 ^ (global_depth_ t + 1) = 2 * 2 ^ global_depth_ t) as Hp
      by (rewrite Z.pow_add_r by lia; change (2 ^ 1) with 2; lia).
    assert (2 ^ (global_depth_ t + 1) <= 2 ^ 30) as Hle
      by (apply Z.pow_le_mono_r; lia).
    unfold shl_int. rewrite bool_decide_eq_true_2.
    2:{ unfold INT_MAX. change (2 ^ 1) with 2. lia. }
    eexists _, _. split; [done|]. split; [done|]. split; [done|].
    split; [lia|]. split; [rewrite length_app; lia|].
    pose proof (Z.mod_pos_bound (hash key) (2 ^ global_depth_ t) Hpos) as Hb.
    destruct (mod_double (hash key) (global_depth_ t) ltac:(lia)) as [-> | ->].
    + rewrite lookup_app_l; [done|]. lia.
    + rewrite lookup_app_r by lia.
      replace (Z.to_nat (hash key mod 2 ^ global_depth_ t + 2 ^ global_depth_ t)
               - length (dir_ t))%nat
        with (Z.to_nat (hash key mod 2 ^ global_depth_ t)) by lia.
      done.
  - eexists _, _. split; [done|]. split; [done|]. split; [done|].
    split; [lia|]. done.
Qed.

Lemma split_target (t : Table) key a b :
  dir_shape t -> target hash t key = Some (a, b) -> bucket_ok t b ->
  depth_ b < 30 ->
  let mask := 2 ^ depth_ b in
  let b0 := mkBucket (bucket_size_ t) (depth_ b + 1)
              (filter (fun e => ~ high mask e) (list_ b)) in
  let b1 := mkBucket (bucket_size_ t) (depth_ b + 1)
              (filter (high mask) (list_ b)) in
  let a0 := length (heap_ t) in
  let a1 := S (length (heap_ t)) in
  exists t', split hash t key = Some t' /\
    dir_shape t' /\
    global_depth_ t' = (if bool_decide (depth_ b = global_depth_ t)
                        then global_depth_ t + 1 else global_depth_ t) /\
    bucket_size_ t' = bucket_size_ t /\
    num_buckets_ t' = num_buckets_ t + 1 /\
    heap_ t' = heap_ t ++ [b0; b1] /\
    dir_ t' = redirect a a0 a1 mask 0
                (if bool_decide (depth_ b = global_depth_ t)
                 then dir_ t ++ dir_ t else dir_ t) /\
    target hash t' key =
      Some (if bool_decide (Z.land (hash key) mask <> 0) then (a1, b1) else (a0, b0)).
Proof.
  intros Hshape Htgt (Hd & Hsz & Hnd & Hlen) Hd30. simpl.
  destruct (target_inv _ _ _ _ Htgt) as (i & Hi & Hi0 & Hdir & Hheap).
  rewrite IndexOf_shape in Hi by done. injection Hi as <-.
  destruct (grow_slot t key a b Hshape Hd Hd30 Hdir)
    as (gd & d & Hgrow & Hgd & Hdd & Hgd30 & Hdlen & Hslot).
  unfold split. rewrite Htgt, Hgrow. unfold GetDepth, GetItems.
  rewrite shl_int_1_ok by lia.
  rewrite rehash_fresh by (done || lia).
  eexists. split; [done|]. simpl.
  assert (dir_shape (mkTable gd (bucket_size_ t) (num_buckets_ t + 1)
            (redirect a (length (heap_ t)) (S (length (heap_ t)))
               (2 ^ depth_ b) 0 d)
            (heap_ t ++ [mkBucket (bucket_size_ t) (depth_ b + 1)
                           (filter (fun e => ~ high (2 ^ depth_ b) e) (list_ b));
                         mkBucket (bucket_size_ t) (depth_ b + 1)
                           (filter (high (2 ^ depth_ b)) (list_ b))]))) as Hshape'.
  { split; simpl; [lia|]. by rewrite redirect_length. }
  split; [done|]. split; [by subst gd|]. split; [done|]. split; [done|].
  split; [done|]. split; [by subst d|].
  unfold target. rewrite IndexOf_shape by done. simpl.
  assert (0 < 2 ^ gd) as Hpos by (apply Z.pow_pos_nonneg; lia).
  pose proof (Z.mod_pos_bound (hash key) (2 ^ gd) Hpos) as Hb.
  rewrite bool_decide_eq_true_2 by lia.
  rewrite redirect_lookup, Hslot. simpl.
  rewrite bool_decide_eq_true_2 by done.
  rewrite Z2Nat.id by lia. rewrite Z.add_0_l, land_pow2_mod by lia.
  destruct (bool_decide (Z.land (hash key) (2 ^ depth_ b) <> 0)).
  - rewrite lookup_app_r by lia.
    by replace (S (length (heap_ t)) - length (heap_ t))%nat with 1%nat by lia.
  - rewrite lookup_app_r by lia.
    by replace (length (heap_ t) - length (heap_ t))%nat with 0%nat by lia.
Qed.


(** *** The split loop *)

Abbreviation separable := (separable hash).
Abbreviation colliding := (colliding hash).

Lemma NoDup_keys_filter (P : K * V -> Prop) `{!forall e, Decision (P e)}
    (l : list (K * V)) :
  NoDup l.*1 -> NoDup (filter P l).*1.
Proof.
  induction l as [|[k v] l IH]; [done|].
  rewrite fmap_cons. intros [Hk Hnd]%NoDup_cons.
  destruct (decide (P (k, v))).
  - rewrite filter_cons_True, fmap_cons by done. apply NoDup_cons.
    split; [|by apply IH]. intros Hin. apply Hk.
    apply list_elem_of_fmap in Hin as (e & -> & He).
    apply list_elem_of_filter in He as [_ He].
    apply list_elem_of_fmap. by exists e.
  - rewrite filter_cons_False by done. by apply IH.
Qed.

Lemma split_loop_not_full fuel (t : Table) key a b :
  target hash t key = Some (a, b) -> IsFull b = false ->
  split_loop hash fuel t key = Done t.
Proof. intros Ht Hf. destruct fuel; simpl; by rewrite Ht, Hf. Qed.

Lemma split_loop_full fuel (t t' : Table) key a b :
  target hash t key = Some (a, b) -> IsFull b = true ->
  split hash t key = Some t' ->
  split_loop hash (S fuel) t key = split_loop hash fuel t' key.
Proof. intros Ht Hf Hs. simpl. by rewrite Ht, Hf, Hs. Qed.

(** The bucket that [key] is sent to by a split holds the entries of the
    old bucket that agree with [key] on the bit just examined. *)
Lemma split_same_side (t : Table) key a b :
  dir_shape t -> target hash t key = Some (a, b) -> bucket_ok t b ->
  depth_ b < 30 ->
  exists t' a' b', split hash t key = Some t' /\ dir_shape t' /\
    target hash t' key = Some (a', b') /\ bucket_ok t' b' /\
    size_ b' = size_ b /\ depth_ b' = depth_ b + 1 /\
    list_ b' = filter (fun e => Z.testbit (hash e.1) (depth_ b) =
                                Z.testbit (hash key) (depth_ b)) (list_ b).
Proof.
  intros Hshape Htgt Hok Hd30.
  destruct (split_target t key a b Hshape Htgt Hok Hd30)
    as (t' & Hs & Hshape' & Hgd & Hbs & _ & _ & _ & Ht').
  destruct Hok as (Hd & Hsz & Hnd & Hlen).
  pose proof (land_pow2_nonzero (hash key) (depth_ b) ltac:(lia)) as Hkey.
  assert (depth_ b + 1 <= global_depth_ t') as Hd'.
  { rewrite Hgd.
    destruct (bool_decide_reflect (depth_ b = global_depth_ t)); lia. }
  destruct (bool_decide (Z.land (hash key) (2 ^ depth_ b) <> 0)) eqn:Hside;
    (eexists t', _, _; split; [done|]; split; [done|]; split; [exact Ht'|]).
  - apply bool_decide_eq_true_1, Hkey in Hside.
    split; [|split; [simpl; lia|split; [done|]]].
    + repeat split; simpl; try lia; [by apply NoDup_keys_filter|].
      pose proof (length_filter (high (2 ^ depth_ b)) (list_ b)). lia.
    + simpl. apply list_filter_iff. intros e. unfold EHT.high.
      rewrite land_pow2_nonzero by lia. by rewrite Hside.
  - apply bool_decide_eq_false_1 in Hside.
    assert (Z.testbit (hash key) (depth_ b) = false) as Hbit
      by (destruct (Z.testbit (hash key) (depth_ b)); [by destruct Hside; apply Hkey|done]).
    split; [|split; [simpl; lia|split; [done|]]].
    + repeat split; simpl; try lia; [by apply NoDup_keys_filter|].
      pose proof (length_filter (fun e => ~ high (2 ^ depth_ b) e) (list_ b)). lia.
    + simpl. apply list_filter_iff. intros e. unfold EHT.high.
      rewrite land_pow2_nonzero by lia. rewrite Hbit.
      by destruct (Z.testbit (hash e.1) (depth_ b)).
Qed.

Lemma split_loop_terminates key (n : nat) :
  forall (t : Table) a b,
  dir_shape t -> target hash t key = Some (a, b) -> bucket_ok t b ->
  (IsFull b = false \/
   exists e j, e ∈ list_ b /\ depth_ b <= j < 30 /\ j - depth_ b < Z.of_nat n /\
     Z.testbit (hash e.1) j <> Z.testbit (hash key) j) ->
  exists t' a' b', split_loop hash n t key = Done t' /\ dir_shape t' /\
    target hash t' key = Some (a', b') /\ IsFull b' = false.
Proof.
  induction n as [|n IH]; intros t a b Hshape Htgt Hok Hcase.
  - destruct Hcase as [Hnf | (e & j & _ & Hj & Hlt & _)]; [|lia].
    exists t, a, b. by rewrite (split_loop_not_full _ _ _ _ _ Htgt Hnf).
  - destruct (IsFull b) eqn:Hfull.
    2:{ exists t, a, b. by rewrite (split_loop_not_full _ _ _ _ _ Htgt Hfull). }
    destruct Hcase as [? | (e & j & He & Hj & Hlt & Hbits)]; [done|].
    destruct (split_same_side t key a b Hshape Htgt Hok ltac:(lia))
      as (t' & a' & b' & Hs & Hshape' & Htgt' & Hok' & Hsz' & Hd' & Hl').
    rewrite (split_loop_full _ _ _ _ _ _ Htgt Hfull Hs).
    apply (IH t' a' b' Hshape' Htgt' Hok').
    destruct (decide (Z.testbit (hash e.1) (depth_ b) =
                      Z.testbit (hash key) (depth_ b))) as [Heq|Hne].
    + right. exists e, j. rewrite Hl', Hd'.
      assert (j <> depth_ b) by (intros ->; done).
      split; [by apply list_elem_of_filter|]. split; [lia|]. split; [lia|done].
    + left. apply bool_decide_eq_false_2.
      apply bool_decide_eq_true_1 in Hfull.
      pose proof (length_filter_lt
        (fun e => Z.testbit (hash e.1) (depth_ b) = Z.testbit (hash key) (depth_ b))
        (list_ b) e He Hne) as Hlt'.
      rewrite <- Hl' in Hlt'. lia.
Qed.

(** When no hash bit separates the bucket's entries from [key], every
    split sends all of them along with [key] and the loop cannot end. *)
Lemma split_loop_spins key (n : nat) :
  forall (t : Table) a b,
  dir_shape t -> target hash t key = Some (a, b) -> bucket_ok t b ->
  IsFull b = true -> colliding key b ->
  forall t', split_loop hash n t key <> Done t'.
Proof.
  induction n as [|n IH]; intros t a b Hshape Htgt Hok Hfull Hcol t'.
  - simpl. by rewrite Htgt, Hfull.
  - simpl. rewrite Htgt, Hfull.
    destruct (split hash t key) as [t1|] eqn:Hs; [|done].
    destruct (decide (depth_ b < 30)) as [Hd|Hd].
    + destruct (split_same_side t key a b Hshape Htgt Hok Hd)
        as (t1' & a' & b' & Hs' & Hshape' & Htgt' & Hok' & Hsz' & Hd' & Hl').
      rewrite Hs in Hs'. injection Hs' as <-.
      assert (list_ b' = list_ b) as Hsame.
      { rewrite Hl'. clear -Hcol. unfold EHT.colliding in Hcol.
        revert Hcol. generalize (depth_ b), (list_ b). intros d l.
        induction l as [|e l IHl]; intros Hcol; [done|].
        rewrite filter_cons_True.
        - f_equal. apply IHl. intros e' He'. apply Hcol. by right.
        - by rewrite (Hcol e) by left. }
      apply (IH t1 a' b' Hshape' Htgt' Hok'); [|by intros e; rewrite Hsame; apply Hcol].
      apply bool_decide_eq_true_1 in Hfull. apply bool_decide_eq_true_2.
      rewrite Hsame. lia.
    + (* depth 30: the doubling overflows [int] *)
      exfalso. destruct Hshape as [Hgd Hlen], Hok as ((Hd0 & Hdg) & _).
      assert (depth_ b = global_depth_ t) as Heq by lia.
      unfold split in Hs. rewrite Htgt in Hs. unfold grow, GetDepth in Hs.
      rewrite bool_decide_eq_true_2 in Hs by done.
      unfold shl_int in Hs at 1. rewrite bool_decide_eq_false_2 in Hs; [done|].
      unfold INT_MAX. rewrite Hlen. change (2 ^ 1) with 2.
      assert (global_depth_ t = 30) as -> by lia. lia.
Qed.


(** *** Fuel *)

Lemma split_loop_mono key (n : nat) :
  forall (t t' : Table) (m : nat),
  split_loop hash n t key = Done t' -> (n <= m)%nat ->
  split_loop hash m t key = Done t'.
Proof.
  induction n as [|n IH]; intros t t' m Hrun Hle.
  - simpl in Hrun. destruct (target hash t key) as [[a b]|] eqn:Ht; [|done].
    destruct (IsFull b) eqn:Hf; [done|]. injection Hrun as <-.
    by apply (split_loop_not_full _ _ _ a b).
  - destruct m as [|m]; [lia|]. simpl in *.
    destruct (target hash t key) as [[a b]|]; [|done].
    destruct (IsFull b); [|done].
    destruct (split hash t key) as [t1|]; [|done].
    apply IH; [done|lia].
Qed.

Lemma Insert_mono key value (n m : nat) (t t' : Table) :
  Insert hash n t key value = Done t' -> (n <= m)%nat ->
  Insert hash m t key value = Done t'.
Proof.
  unfold Insert. intros Hrun Hle.
  destruct (split_loop hash n t key) as [t1| |] eqn:Hl; try done.
  by rewrite (split_loop_mono _ _ _ _ _ Hl Hle).
Qed.

(** *** Lookup after the final store *)

Lemma store_find (t : Table) key value a b :
  target hash t key = Some (a, b) -> IsFull b = false ->
  exists t', store hash t key value = Some t' /\ Find hash t' key = Some value.
Proof.
  intros Htgt Hnf. unfold store. rewrite Htgt. eexists. split; [done|].
  destruct (target_inv _ _ _ _ Htgt) as (i & Hi & Hi0 & Hdir & Hheap).
  unfold Find, target, IndexOf in *. simpl.
  destruct (shl_int 1 (global_depth_ t)) as [p|]; [|done].
  injection Hi as <-. rewrite bool_decide_eq_true_2 by done.
  rewrite Hdir. rewrite list_lookup_insert_eq by by eapply lookup_lt_Some.
  by apply Bucket_Insert_find.
Qed.


(** *** Properties of [Insert] *)

(** C6.  One pass of the split loop on a full target bucket [b] of local
    depth [d]: when [d] equals the global depth the directory becomes
    [dir ++ dir] and the global depth grows by one; the entries of [b] are
    distributed over two fresh buckets of depth [d + 1] by the bit
    [1 << d] of their hash ([bucket_1] when set, [bucket_0] otherwise);
    every slot that held the address of [b] now holds the address of
    [bucket_1] or [bucket_0] according to the same bit of the slot index,
    every other slot is unchanged; and [num_buckets_] grows by one. *)
Theorem Insert_split_step (t : Table) key a b fuel :
  dir_shape t -> target hash t key = Some (a, b) -> bucket_ok t b ->
  depth_ b < 30 -> IsFull b = true ->
  let d := depth_ b in
  let mask := 2 ^ d in
  let dir1 := if bool_decide (d = global_depth_ t)
              then dir_ t ++ dir_ t else dir_ t in
  let a0 := length (heap_ t) in
  let a1 := S (length (heap_ t)) in
  exists t',
    split hash t key = Some t' /\
    split_loop hash (S fuel) t key = split_loop hash fuel t' key /\
    shl_int 1 d = Some mask /\
    global_depth_ t' = (if bool_decide (d = global_depth_ t)
                        then global_depth_ t + 1 else global_depth_ t) /\
    heap_ t' = heap_ t ++
      [mkBucket (bucket_size_ t) (d + 1)
         (filter (fun e => Z.land (hash e.1) mask = 0) (list_ b));
       mkBucket (bucket_size_ t) (d + 1)
         (filter (fun e => Z.land (hash e.1) mask <> 0) (list_ b))] /\
    length (dir_ t') = length dir1 /\
    (forall (i : nat) p, dir1 !! i = Some p ->
       dir_ t' !! i = Some (if bool_decide (p = a)
                            then (if bool_decide (Z.land (Z.of_nat i) mask <> 0)
                                  then a1 else a0)
                            else p)) /\
    num_buckets_ t' = num_buckets_ t + 1.
Proof.
  intros Hshape Htgt Hok Hd30 Hfull. simpl.
  destruct (split_target t key a b Hshape Htgt Hok Hd30)
    as (t' & Hs & _ & Hgd & _ & Hnb & Hheap & Hdir & _).
  exists t'. split; [done|].
  split; [by apply (split_loop_full _ _ _ _ a b)|].
  split; [destruct Hok as (? & _); apply shl_int_1_ok; lia|].
  split; [done|]. split.
  { rewrite Hheap. do 3 f_equal. apply list_filter_iff. intros e.
    unfold EHT.high. lia. }
  split; [by rewrite Hdir, redirect_length|].
  split; [|done].
  intros i p Hi. by rewrite Hdir, redirect_lookup, Hi, Z.add_0_l.
Qed.

(** C9, as the code has it.  On a well-formed table [Insert] returns
    whenever the target bucket has room or holds an entry whose hash
    differs from the hash of [key] in a bit at or above the bucket's local
    depth (and below bit 30): the split loop then reaches a state in which
    the target bucket is not full, the pair is stored, and [Find] returns
    the value. *)
Theorem Insert_terminates (t : Table) key value a b :
  dir_shape t -> target hash t key = Some (a, b) -> bucket_ok t b ->
  IsFull b = false \/ separable key b ->
  exists fuel t',
    Insert hash fuel t key value = Done t' /\ Find hash t' key = Some value.
Proof.
  intros Hshape Htgt Hok Hcase.
  assert (exists n t1 a1 b1, split_loop hash n t key = Done t1 /\
            target hash t1 key = Some (a1, b1) /\ IsFull b1 = false)
    as (n & t1 & a1 & b1 & Hloop & Htgt1 & Hnf).
  { destruct Hcase as [Hnf | (e & j & He & Hj & Hbits)].
    - exists 0%nat, t, a, b. by rewrite (split_loop_not_full _ _ _ a b).
    - destruct (split_loop_terminates key (Z.to_nat (j - depth_ b + 1)) t a b
                  Hshape Htgt Hok) as (t1 & a1 & b1 & ? & _ & ? & ?).
      + right. exists e, j. repeat split; try done; lia.
      + by exists (Z.to_nat (j - depth_ b + 1)), t1, a1, b1. }
  destruct (store_find t1 key value a1 b1 Htgt1 Hnf) as (t2 & Hst & Hfind).
  exists n, t2. split; [|done].
  unfold Insert. rewrite Hloop. simpl. by rewrite Hst.
Qed.

End Facts.

(** *** [Insert] only looks at the values of the hash function *)

Section Ext.
Context {K V : Type} `{EqDecision K}.
Variables h1 h2 : K -> Z.
Hypothesis Hext : forall k, h1 k = h2 k.

Lemma rehash_ext mask (items : list (K * V)) b0 b1 :
  rehash h1 mask items b0 b1 = rehash h2 mask items b0 b1.
Proof.
  revert b0 b1. induction items as [|[k v] items IH]; intros b0 b1; simpl; [done|].
  rewrite Hext. by rewrite !IH.
Qed.

Lemma target_ext (t : @Table K V) key : target h1 t key = target h2 t key.
Proof. unfold target, IndexOf. by rewrite Hext. Qed.

Lemma split_ext (t : @Table K V) key : split h1 t key = split h2 t key.
Proof.
  unfold split. rewrite target_ext.
  destruct (target h2 t key) as [[a b]|]; [|done].
  destruct (grow t b) as [[gd d]|]; [|done].
  destruct (shl_int 1 (GetDepth b)); [|done].
  by rewrite rehash_ext.
Qed.

Lemma split_loop_ext fuel (t : @Table K V) key :
  split_loop h1 fuel t key = split_loop h2 fuel t key.
Proof.
  revert t. induction fuel as [|fuel IH]; intros t; simpl; rewrite target_ext; [done|].
  destruct (target h2 t key) as [[a b]|]; [|done].
  destruct (IsFull b); [|done]. rewrite split_ext.
  destruct (split h2 t key); [|done]. apply IH.
Qed.

Lemma Insert_ext fuel (t : @Table K V) key value :
  Insert h1 fuel t key value = Insert h2 fuel t key value.
Proof.
  unfold Insert. rewrite split_loop_ext.
  destruct (split_loop h2 fuel t key); simpl; try done.
  unfold store. by rewrite target_ext.
Qed.
End Ext.


(** *** Concrete runs *)

Lemma table_S2_first_insert :
  Insert hash_int 0 (ExtendibleHashTable 1) 0 7 = Done table_S2.
Proof. reflexivity. Qed.

Lemma table_S2_shape : dir_shape table_S2.
Proof. by vm_compute. Qed.

Lemma table_S2_bucket : bucket_ok table_S2 (mkBucket 1 0 [(0, 7)]).
Proof.
  repeat split; simpl; try lia.
  apply NoDup_cons. split; [apply not_elem_of_nil|apply NoDup_nil_2].
Qed.

Lemma Insert_split_step_witness :
  exists t' : Table,
    split hash_int table_S2 4 = Some t' /\
    global_depth_ t' = 1 /\ num_buckets_ t' = 2 /\
    dir_ t' = [1%nat; 2%nat].
Proof.
  destruct (Insert_split_step hash_int table_S2 4 0%nat (mkBucket 1 0 [(0, 7)]) 0%nat
              table_S2_shape eq_refl table_S2_bucket ltac:(simpl; lia) eq_refl)
    as (t' & Hs & _ & _ & Hgd & _ & _ & _ & Hnb).
  exists t'. split; [exact Hs|]. split; [exact Hgd|]. split; [exact Hnb|].
  vm_compute in Hs. injection Hs as <-. reflexivity.
Defined.

Lemma Insert_terminates_witness :
  exists fuel t',
    Insert hash_int fuel table_S2 4 8 = Done t' /\ Find hash_int t' 4 = Some 8.
Proof.
  apply (Insert_terminates hash_int table_S2 4 8 0%nat (mkBucket 1 0 [(0, 7)])
           table_S2_shape eq_refl table_S2_bucket).
  right. exists (0, 7), 2. split; [by left|]. split; [simpl; lia|].
  vm_compute. discriminate.
Defined.

(** C7, as the code has it.  Scenario S2: bucket size 1 and a hash with
    [hash 0 = 0] and [hash 4 = 4]; inserting 0 and then 4 returns with
    global depth 3 and four buckets (three splits, one bucket each). *)
Theorem S2_directory_double (hash : Z -> Z) (v0 v4 : Z) :
  hash 0 = 0 -> hash 4 = 4 ->
  exists fuel t1 t2,
    Insert hash fuel (ExtendibleHashTable 1) 0 v0 = Done t1 /\
    Insert hash fuel t1 4 v4 = Done t2 /\
    GetGlobalDepth t2 = 3 /\ GetNumBuckets t2 = 4.
Proof.
  intros H0 H4.
  assert (forall k, hash k = pin hash k) as Hpin.
  { intros k. unfold pin. repeat case_bool_decide; congruence. }
  exists 3%nat.
  exists (mkTable 0 1 1 [0%nat] [mkBucket 1 0 [(0, v0)]]).
  eexists. rewrite !(Insert_ext hash (pin hash) Hpin).
  split; [reflexivity|]. split; [reflexivity|]. split; reflexivity.
Qed.

Lemma S2_directory_double_witness :
  exists fuel t1 t2,
    Insert hash_int fuel (ExtendibleHashTable 1) 0 7 = Done t1 /\
    Insert hash_int fuel t1 4 8 = Done t2 /\
    GetGlobalDepth t2 = 3 /\ GetNumBuckets t2 = 4.
Proof. apply (S2_directory_double hash_int 7 8); reflexivity. Defined.

(** C7 as stated (three buckets at the end) fails: the run above ends
    with four buckets whatever the fuel. *)
Lemma S2_num_buckets_not_3 :
  ~ exists fuel t1 t2,
      Insert hash_int fuel (ExtendibleHashTable 1) 0 7 = Done t1 /\
      Insert hash_int fuel t1 4 8 = Done t2 /\
      GetGlobalDepth t2 = 3 /\ GetNumBuckets t2 = 3.
Proof.
  intros (fuel & t1 & t2 & H1 & H2 & _ & Hnb).
  pose proof (Insert_mono hash_int 0 7 0 fuel _ _ table_S2_first_insert
                ltac:(lia)) as H1'.
  rewrite H1 in H1'. injection H1' as ->.
  assert (Insert hash_int 3 table_S2 4 8 =
          Done (mkTable 3 1 4
                  [5; 2; 4; 2; 6; 2; 4; 2]%nat
                  [mkBucket 1 0 [(0, 7)]; mkBucket 1 1 [(0, 7)];
                   mkBucket 1 1 []; mkBucket 1 2 [(0, 7)]; mkBucket 1 2 [];
                   mkBucket 1 3 [(0, 7)]; mkBucket 1 3 [(4, 8)]])) as H3
    by reflexivity.
  pose proof (Insert_mono _ _ _ _ (3 + fuel) _ _ H2 ltac:(lia)) as Ha.
  pose proof (Insert_mono _ _ _ _ (3 + fuel) _ _ H3 ltac:(lia)) as Hb.
  rewrite Ha in Hb. injection Hb as ->. discriminate Hnb.
Qed.

(** C8 at bucket size 1.  After [Insert(0, 7)] the only bucket is full;
    [Insert(0, 9)] splits it before looking for the key, the key follows
    its own hash into a bucket that is full again, and the call never
    returns: the value of key 0 is never overwritten. *)
Theorem upsert_full_bucket_never_returns (hash : Z -> Z) :
  Insert hash 0 (ExtendibleHashTable 1) 0 7 = Done table_S2 /\
  forall fuel t', Insert hash fuel table_S2 0 9 <> Done t'.
Proof.
  assert (target hash table_S2 0 = Some (0%nat, mkBucket 1 0 [(0, 7)])) as Htgt.
  { unfold target, IndexOf. simpl. by rewrite Z.land_0_r. }
  split.
  { unfold Insert, split_loop. change (ExtendibleHashTable 1) with
      (mkTable 0 1 1 [0%nat] [@mkBucket Z Z 1 0 []]).
    unfold target, IndexOf. simpl. rewrite Z.land_0_r. simpl.
    unfold store, target, IndexOf. simpl. rewrite Z.land_0_r. reflexivity. }
  intros fuel t' Hrun. unfold Insert in Hrun.
  destruct (split_loop hash fuel table_S2 0) as [t1| |] eqn:Hl; try done.
  refine (split_loop_spins hash 0 fuel table_S2 _ _ table_S2_shape Htgt
            table_S2_bucket eq_refl _ t1 Hl).
  by intros e ->%list_elem_of_singleton.
Qed.

(** C9 as stated fails: with a hash that sends keys 0 and 1 to the same
    value and bucket size 1, [Insert(1, 8)] after [Insert(0, 7)] does not
    return for any amount of fuel. *)
Lemma Insert_collision_never_returns :
  Insert hash_const 0 (ExtendibleHashTable 1) 0 7 = Done table_S2 /\
  ~ exists fuel t', Insert hash_const fuel table_S2 1 8 = Done t'.
Proof.
  split; [reflexivity|].
  intros (fuel & t' & Hrun). unfold Insert in Hrun.
  destruct (split_loop hash_const fuel table_S2 1) as [t1| |] eqn:Hl; try done.
  refine (split_loop_spins hash_const 1 fuel table_S2 _ _ table_S2_shape eq_refl
            table_S2_bucket eq_refl _ t1 Hl).
  by intros e ->%list_elem_of_singleton.
Qed.

End EHTFacts.

(* ====================================================================== *)
(** * Properties of the B+tree pages *)
(* ====================================================================== *)

Module BPTFacts.
Import BPT.

(** ** Slot arrays *)

Section Slots.
Context {A : Type}.
Implicit Types a src dst : Z -> A.

Lemma upd_eq a i x : upd a i x i = x.
Proof. unfold upd. by rewrite bool_decide_eq_true_2. Qed.

Lemma upd_ne a i j x : j <> i -> upd a i x j = a j.
Proof. intros. unfold upd. by rewrite bool_decide_eq_false_2. Qed.

Lemma copy_slots_spec n src s dst d j :
  copy_slots n src s dst d j =
    if bool_decide (d <= j < d + Z.of_nat n) then src (s + (j - d)) else dst j.
Proof.
  revert s dst d. induction n as [|n IH]; intros s dst d; simpl.
  - rewrite bool_decide_eq_false_2; [done|lia].
  - rewrite IH. destruct (decide (j = d)) as [->|Hne].
    + rewrite bool_decide_eq_false_2 by lia. rewrite upd_eq.
      rewrite bool_decide_eq_true_2 by lia. f_equal. lia.
    + rewrite upd_ne by done.
      destruct (decide (d + 1 <= j < d + 1 + Z.of_nat n)).
      * rewrite !bool_decide_eq_true_2 by lia. f_equal. lia.
      * rewrite !bool_decide_eq_false_2 by lia. done.
Qed.

(** Moving towards lower slots never reads a slot it has written. *)
Lemma move_slots_down n a s d j :
  d <= s ->
  move_slots n a s d j =
    if bool_decide (d <= j < d + Z.of_nat n) then a (s + (j - d)) else a j.
Proof.
  revert a s d. induction n as [|n IH]; intros a s d Hds; simpl.
  - rewrite bool_decide_eq_false_2; [done|lia].
  - rewrite IH by lia. destruct (decide (j = d)) as [->|Hne].
    + rewrite bool_decide_eq_false_2 by lia. rewrite upd_eq.
      rewrite bool_decide_eq_true_2 by lia. f_equal. lia.
    + destruct (decide (d + 1 <= j < d + 1 + Z.of_nat n)).
      * rewrite !bool_decide_eq_true_2 by lia. rewrite upd_ne by lia.
        f_equal. lia.
      * rewrite !bool_decide_eq_false_2 by lia. by rewrite upd_ne.
Qed.

(** Moving towards higher slots keeps every element only when the
    destination begins behind the last element moved. *)
Lemma move_slots_up n a s d j :
  s + Z.of_nat n <= d ->
  move_slots n a s d j =
    if bool_decide (d <= j < d + Z.of_nat n) then a (s + (j - d)) else a j.
Proof.
  revert a s d. induction n as [|n IH]; intros a s d Hsd; simpl.
  - rewrite bool_decide_eq_false_2; [done|lia].
  - rewrite IH by lia. destruct (decide (j = d)) as [->|Hne].
    + rewrite bool_decide_eq_false_2 by lia. rewrite upd_eq.
      rewrite bool_decide_eq_true_2 by lia. f_equal. lia.
    + destruct (decide (d + 1 <= j < d + 1 + Z.of_nat n)).
      * rewrite !bool_decide_eq_true_2 by lia. rewrite upd_ne by lia.
        f_equal. lia.
      * rewrite !bool_decide_eq_false_2 by lia. by rewrite upd_ne.
Qed.

(** When it does not, the elements written first are read again: the
    first [d - s] elements repeat. *)
Lemma move_slots_overlap n a s d j :
  s < d ->
  move_slots n a s d j =
    if bool_decide (d <= j < d + Z.of_nat n)
    then a (s + (j - d) mod (d - s)) else a j.
Proof.
  revert a s d. induction n as [|n IH]; intros a s d Hsd; simpl.
  - rewrite bool_decide_eq_false_2; [done|lia].
  - rewrite IH by lia. replace (d + 1 - (s + 1)) with (d - s) by lia.
    destruct (decide (j = d)) as [->|Hne].
    + rewrite bool_decide_eq_false_2 by lia. rewrite upd_eq.
      rewrite bool_decide_eq_true_2 by lia.
      replace (d - d) with 0 by lia. rewrite Z.mod_0_l by lia. f_equal. lia.
    + destruct (decide (d + 1 <= j < d + 1 + Z.of_nat n)) as [Hin|Hout].
      * rewrite !bool_decide_eq_true_2 by lia.
        pose proof (Z.mod_pos_bound (j - (d + 1)) (d - s) ltac:(lia)) as Hb.
        destruct (decide ((j - (d + 1)) mod (d - s) = d - s - 1)) as [He|Hn].
        -- replace (s + 1 + (j - (d + 1)) mod (d - s)) with d by lia.
           rewrite upd_eq.
           assert ((j - d) mod (d - s) = 0) as ->; [|f_equal; lia].
           replace (j - d) with ((j - (d + 1)) + 1) by lia.
           rewrite Zplus_mod, He.
           replace (1 mod (d - s)) with (if decide (d - s = 1) then 0 else 1).
           ++ destruct (decide (d - s = 1)) as [H1|H1].
              ** rewrite H1. by rewrite Z.mod_1_r.
              ** replace (d - s - 1 + 1) with (1 * (d - s)) by lia.
                 by rewrite Z.mod_mul by lia.
           ++ destruct (decide (d - s = 1)) as [H1|H1].
              ** rewrite H1. by rewrite Z.mod_1_r.
              ** by rewrite Z.mod_small by lia.
        -- rewrite upd_ne by lia. f_equal.
           assert ((j - d) mod (d - s) = (j - (d + 1)) mod (d - s) + 1) as ->;
             [|lia].
           replace (j - d) with ((j - (d + 1)) + 1) by lia.
           rewrite Zplus_mod.
           destruct (decide (d - s = 1)) as [H1|H1]; [lia|].
           rewrite (Z.mod_small 1) by lia. apply Z.mod_small. lia.
      * rewrite !bool_decide_eq_false_2 by lia. by rewrite upd_ne.
Qed.

Lemma shift_up_spec n a i j :
  shift_up n a i j =
    if bool_decide (i - Z.of_nat n < j <= i) then a (j - 1) else a j.
Proof.
  revert a i. induction n as [|n IH]; intros a i; simpl.
  - rewrite bool_decide_eq_false_2; [done|lia].
  - rewrite IH. destruct (decide (j = i)) as [->|Hne].
    + rewrite bool_decide_eq_false_2 by lia. rewrite upd_eq.
      by rewrite bool_decide_eq_true_2 by lia.
    + destruct (decide (i - 1 - Z.of_nat n < j <= i - 1)).
      * rewrite !bool_decide_eq_true_2 by lia. by rewrite upd_ne by lia.
      * rewrite !bool_decide_eq_false_2 by lia. by rewrite upd_ne.
Qed.

Lemma move_slots_backward_spec n a last d_last j :
  last <= d_last ->
  move_slots_backward n a last d_last j =
    if bool_decide (d_last - Z.of_nat n <= j < d_last)
    then a (last - (d_last - j)) else a j.
Proof.
  revert a last d_last. induction n as [|n IH]; intros a last d_last Hle; simpl.
  - rewrite bool_decide_eq_false_2; [done|lia].
  - rewrite IH by lia. destruct (decide (j = d_last - 1)) as [->|Hne].
    + rewrite bool_decide_eq_false_2 by lia. rewrite upd_eq.
      rewrite bool_decide_eq_true_2 by lia. f_equal. lia.
    + destruct (decide (d_last - 1 - Z.of_nat n <= j < d_last - 1)).
      * rewrite !bool_decide_eq_true_2 by lia. rewrite upd_ne by lia.
        f_equal. lia.
      * rewrite !bool_decide_eq_false_2 by lia. by rewrite upd_ne.
Qed.

End Slots.

(** ** Leaf pages *)

Section Leaf.
Context {KeyType ValueType : Type}.
Variable comparator : KeyType -> KeyType -> Z.
Context `{!KeyOrder comparator}.

Abbreviation LeafPage := (@LeafPage KeyType ValueType).

Lemma cmp_refl k : comparator k k = 0.
Proof. by apply cmp_eq. Qed.

Lemma cmp_le_lt a b c :
  comparator a b <= 0 -> comparator b c < 0 -> comparator a c < 0.
Proof.
  intros Hab Hbc. destruct (decide (comparator a b = 0)) as [He|Hne].
  - apply cmp_eq in He as ->. done.
  - apply (cmp_trans a b c); [lia|done].
Qed.

Lemma cmp_lt_le a b c :
  comparator a b < 0 -> comparator b c <= 0 -> comparator a c < 0.
Proof.
  intros Hab Hbc. destruct (decide (comparator b c = 0)) as [He|Hne].
  - apply cmp_eq in He as <-. done.
  - apply (cmp_trans a b c); [done|lia].
Qed.

Lemma cmp_gt_flip a b : comparator a b > 0 <-> comparator b a < 0.
Proof. rewrite cmp_flip. lia. Qed.

(** The binary-search loop keeps "everything left of [left] is at most
    [key], everything right of [right] is above [key]". *)
Lemma KeyIndex_loop_spec {B} (a : Z -> KeyType * B) (n : Z) key (fuel : nat) :
  sorted comparator a n ->
  forall left right,
  0 <= left <= n - 1 -> right <= n - 1 -> left <= right + 1 ->
  right - left < Z.of_nat fuel ->
  (forall i, 0 <= i < left -> comparator (a i).1 key <= 0) ->
  (forall i, right < i < n -> comparator (a i).1 key > 0) ->
  exists l, KeyIndex_loop comparator fuel a key left right = l /\
    0 <= l <= n - 1 /\
    (forall i, 0 <= i < l -> comparator (a i).1 key <= 0) /\
    (forall i, l < i < n -> comparator (a i).1 key > 0).
Proof.
  intros Hs. induction fuel as [|fuel IH]; intros left right Hl Hr Hlr Hf Hlo Hhi.
  - exists left. simpl. split; [done|]. split; [lia|]. split; [done|].
    intros i Hi. apply Hhi. lia.
  - simpl. case_bool_decide as Hlt.
    2:{ exists left. split; [done|]. split; [lia|]. split; [done|].
        intros i Hi. apply Hhi. lia. }
    assert (0 <= Z.quot (right - left) 2 <= right - left - 1) as Hq.
    { rewrite Z.quot_div_nonneg by lia.
      pose proof (Z.div_pos (right - left) 2 ltac:(lia) ltac:(lia)).
      pose proof (Z.mul_div_le (right - left) 2 ltac:(lia)). lia. }
    set (mid := Z.quot (right - left) 2 + left) in *.
    assert (left <= mid <= right - 1) as Hmid by (unfold mid; lia).
    case_bool_decide as Hcmp.
    + apply IH; try lia; [done|].
      intros i Hi. destruct (decide (i = mid)) as [->|Hne]; [done|].
      destruct (decide (right < i)); [apply Hhi; lia|].
      apply cmp_gt_flip. apply cmp_gt_flip in Hcmp.
      apply (cmp_trans key (a mid).1); [done|]. apply Hs; lia.
    + apply IH; try lia; [|done].
      intros i Hi. destruct (decide (i < left)); [apply Hlo; lia|].
      destruct (decide (i = mid)) as [->|Hne]; [lia|].
      assert (comparator (a i).1 key < 0); [|lia].
      apply (cmp_lt_le _ (a mid).1); [apply Hs; lia|lia].
Qed.

(** The fuel given to the two binary searches, the size of the page, is
    never used up: more fuel does not change the result. *)
Lemma KeyIndex_loop_fuel {B} (a : Z -> KeyType * B) key (fuel extra : nat) :
  forall left right,
  right - left < Z.of_nat fuel ->
  KeyIndex_loop comparator (fuel + extra) a key left right =
  KeyIndex_loop comparator fuel a key left right.
Proof.
  induction fuel as [|fuel IH]; intros left right Hf.
  - destruct extra; simpl; [done|]. rewrite bool_decide_eq_false_2; [done|lia].
  - simpl. case_bool_decide as Hlt; [|done].
    assert (0 <= Z.quot (right - left) 2 <= right - left - 1) as Hq.
    { rewrite Z.quot_div_nonneg by lia.
      pose proof (Z.div_pos (right - left) 2 ltac:(lia) ltac:(lia)).
      pose proof (Z.mul_div_le (right - left) 2 ltac:(lia)). lia. }
    case_bool_decide; apply IH; lia.
Qed.

Lemma lower_bound_fuel (a : Z -> KeyType * Z) key (fuel extra : nat) :
  forall first len,
  len <= Z.of_nat fuel ->
  lower_bound comparator (fuel + extra) a key first len =
  lower_bound comparator fuel a key first len.
Proof.
  induction fuel as [|fuel IH]; intros first len Hf.
  - destruct extra; simpl; [done|]. rewrite bool_decide_eq_false_2; [done|lia].
  - simpl. case_bool_decide as Hlt; [|done].
    assert (0 <= Z.shiftr len 1 /\ 2 * Z.shiftr len 1 <= len) as Hh.
    { rewrite Z.shiftr_div_pow2 by lia. change (2 ^ 1) with 2.
      pose proof (Z.div_pos len 2 ltac:(lia) ltac:(lia)).
      pose proof (Z.mul_div_le len 2 ltac:(lia)). lia. }
    case_bool_decide; apply IH; lia.
Qed.

(** [KeyIndex] on a sorted, non-empty leaf: the last slot whose key is at
    most [key], or [-1]. *)
Lemma L_KeyIndex_spec (p : LeafPage) key :
  sorted comparator (larr p) (L_size p) -> 0 < L_size p ->
  exists r, L_KeyIndex comparator p key = Done r /\
    -1 <= r < L_size p /\
    (forall i, 0 <= i <= r -> comparator (larr p i).1 key <= 0) /\
    (forall i, r < i < L_size p -> comparator (larr p i).1 key > 0).
Proof.
  intros Hs Hn. unfold L_KeyIndex. rewrite bool_decide_eq_true_2 by lia.
  destruct (KeyIndex_loop_spec (larr p) (L_size p) key (Z.to_nat (L_size p)) Hs
              0 (L_size p - 1)) as (l & -> & Hl & Hlo & Hhi); try lia.
  case_bool_decide as Hcmp.
  - exists (l - 1). split; [done|]. split; [lia|]. split.
    + intros i Hi. apply Hlo. lia.
    + intros i Hi. destruct (decide (i = l)) as [->|]; [done|]. apply Hhi. lia.
  - exists l. split; [done|]. split; [lia|]. split.
    + intros i Hi. destruct (decide (i = l)) as [->|]; [lia|]. apply Hlo. lia.
    + done.
Qed.

(** On a sorted leaf [KeyIndex] finds the slot of a key that is there. *)
Lemma L_KeyIndex_present (p : LeafPage) key i :
  sorted comparator (larr p) (L_size p) -> key_at_slot comparator (larr p) (L_size p) key i ->
  L_KeyIndex comparator p key = Done i.
Proof.
  intros Hs [Hi Hk].
  destruct (L_KeyIndex_spec p key Hs ltac:(lia)) as (r & -> & Hr & Hlo & Hhi).
  f_equal. apply cmp_eq in Hk.
  destruct (decide (r < i)) as [Hlt|Hge].
  { specialize (Hhi i ltac:(lia)). rewrite Hk, cmp_refl in Hhi. lia. }
  destruct (decide (i < r)) as [Hlt|]; [|lia].
  specialize (Hlo r ltac:(lia)).
  pose proof (Hs i r ltac:(lia) Hlt ltac:(lia)) as Hir. rewrite Hk in Hir.
  apply cmp_flip in Hir. lia.
Qed.

Lemma L_Lookup_present (p : LeafPage) key i :
  sorted comparator (larr p) (L_size p) -> key_at_slot comparator (larr p) (L_size p) key i ->
  L_Lookup comparator p key = Done (Some (larr p i).2).
Proof.
  intros Hs Hk. unfold L_Lookup. rewrite (L_KeyIndex_present p key i Hs Hk).
  destruct Hk as [Hi Hk]. simpl.
  by rewrite bool_decide_eq_true_2, bool_decide_eq_true_2 by (done || lia).
Qed.

(** [MoveAheadTo]: the first [size - min_size] entries of the sender are
    appended to the recipient, the rest moves down to slot 0. *)
Lemma L_MoveAheadTo_spec (S N : LeafPage) :
  let m := leaf_min_size (lhdr S) in
  let inc := L_size S - m in
  0 <= inc ->
  let '(S', N') := L_MoveAheadTo S N in
  L_size S' = m /\ L_size N' = L_size N + inc /\
  (forall j, 0 <= j < m -> larr S' j = larr S (inc + j)) /\
  (forall j, 0 <= j < inc -> larr N' (L_size N + j) = larr S j) /\
  (forall j, j < L_size N -> larr N' j = larr N j).
Proof.
  simpl. intros Hinc. unfold L_size in *. simpl.
  split; [lia|]. split; [done|]. split; [|split].
  - intros j Hj. rewrite move_slots_down by lia.
    rewrite bool_decide_eq_true_2 by lia. f_equal. lia.
  - intros j Hj. rewrite copy_slots_spec.
    rewrite bool_decide_eq_true_2 by lia. f_equal. lia.
  - intros j Hj. rewrite copy_slots_spec.
    rewrite bool_decide_eq_false_2; [done|]. lia.
Qed.

(** [MoveMiddleTo]: the last [size - min_size] entries of the sender land
    in the first slots of the recipient; the sender keeps its array. *)
Lemma L_MoveMiddleTo_spec (S N : LeafPage) :
  let m := leaf_min_size (lhdr S) in
  let inc := L_size S - m in
  0 <= inc ->
  let '(S', N') := L_MoveMiddleTo S N in
  L_size S' = m /\ L_size N' = L_size N + inc /\
  larr S' = larr S /\ max_size_ (lhdr S') = max_size_ (lhdr S) /\
  (forall j, 0 <= j < inc -> larr N' j = larr S (m + j)) /\
  (L_size N <= inc ->
   forall j, 0 <= j < L_size N -> larr N' (inc + j) = larr N j) /\
  (0 < inc ->
   forall j, 0 <= j < L_size N -> larr N' (inc + j) = larr N (j mod inc)).
Proof.
  simpl. intros Hinc. unfold L_size in *. simpl.
  split; [lia|]. split; [done|]. split; [done|]. split; [done|].
  split; [|split].
  - intros j Hj. rewrite copy_slots_spec.
    rewrite bool_decide_eq_true_2 by lia. f_equal. lia.
  - intros Hroom j Hj. rewrite copy_slots_spec.
    rewrite bool_decide_eq_false_2 by lia.
    rewrite move_slots_up by lia.
    rewrite bool_decide_eq_true_2 by lia. f_equal. lia.
  - intros Hpos j Hj. rewrite copy_slots_spec.
    rewrite bool_decide_eq_false_2 by lia.
    rewrite move_slots_overlap by lia.
    rewrite bool_decide_eq_true_2 by lia. rewrite Z.add_0_l.
    do 2 f_equal; lia.
Qed.

(** With nothing above [min_size], [MoveAheadTo] changes no slot and no
    size. *)
Lemma L_MoveAheadTo_nothing (S N : LeafPage) :
  L_size S = leaf_min_size (lhdr S) ->
  let '(S', N') := L_MoveAheadTo S N in
  L_size S' = L_size S /\ L_size N' = L_size N /\
  (forall j, larr S' j = larr S j) /\ (forall j, larr N' j = larr N j).
Proof.
  intros Hm. simpl. unfold L_size in *. simpl. rewrite Hm.
  rewrite !Z.sub_diag, !Z.add_0_r. simpl.
  split; [done|]. split; [done|]. split; [|done].
  intros j. rewrite move_slots_down by lia.
  case_bool_decide; [f_equal; lia|done].
Qed.

(** [Insert] keeps the link to the next leaf and the rest of the header. *)
Lemma L_Insert_header (p p' : LeafPage) key value sz :
  L_Insert comparator p key value = Done (sz, p') ->
  sz = L_size p + 1 /\ lhdr p' = IncreaseSize (lhdr p) 1 /\
  next_page_id_ p' = next_page_id_ p.
Proof.
  unfold L_Insert. case_bool_decide as H0.
  - intros [= <- <-]. unfold L_size in *. simpl. rewrite H0. done.
  - destruct (L_KeyIndex comparator p key) as [ki| |]; simpl; try done.
    case_bool_decide; [|done]. by intros [= <- <-].
Qed.

(** [Insert] on a sorted leaf that already holds [key] in slot [i]. *)
Lemma L_Insert_present (p : LeafPage) key value i :
  sorted comparator (larr p) (L_size p) ->
  key_at_slot comparator (larr p) (L_size p) key i ->
  exists p', L_Insert comparator p key value = Done (L_size p + 1, p') /\
    L_size p' = L_size p + 1 /\
    (forall j, 0 <= j <= i -> larr p' j = larr p j) /\
    larr p' (i + 1) = (key, value) /\
    (forall j, i + 1 < j <= L_size p -> larr p' j = larr p (j - 1)).
Proof.
  intros Hs Hk. unfold L_Insert.
  rewrite (L_KeyIndex_present p key i Hs Hk). destruct Hk as [Hi Hk].
  rewrite bool_decide_eq_false_2 by lia. simpl.
  rewrite bool_decide_eq_true_2 by lia.
  eexists. split; [done|]. simpl. split; [done|].
  split; [|split].
  - intros j Hj. rewrite upd_ne by lia. rewrite shift_up_spec.
    rewrite bool_decide_eq_false_2; [done|lia].
  - apply upd_eq.
  - intros j Hj. rewrite upd_ne by lia. rewrite shift_up_spec.
    rewrite bool_decide_eq_true_2; [done|lia].
Qed.

End Leaf.

(** ** The tree *)

Section TreeFacts.
Context {KeyType ValueType : Type}.
Variable comparator : KeyType -> KeyType -> Z.
Variable blank_leaf : Z -> KeyType * ValueType.
Variable blank_internal : Z -> KeyType * Z.

Abbreviation BPlusTree := (@BPlusTree KeyType ValueType).
Abbreviation TreePage := (@TreePage KeyType ValueType).

Lemma fetch_leaf_Some (t : BPlusTree) id (l : LeafPage) :
  pool t !! id = Some (PLeaf l) -> fetch_leaf t id = Done l.
Proof. intros H. unfold fetch_leaf, FetchPage. by rewrite H. Qed.

Lemma fetch_leaf_inv (t : BPlusTree) id (l : LeafPage) :
  fetch_leaf t id = Done l -> pool t !! id = Some (PLeaf l).
Proof.
  unfold fetch_leaf, FetchPage.
  destruct (pool t !! id) as [[l'|?]|]; simpl; try done. by intros [= ->].
Qed.

Lemma fetch_internal_Some (t : BPlusTree) id (p : InternalPage) :
  pool t !! id = Some (PInternal p) -> fetch_internal t id = Done p.
Proof. intros H. unfold fetch_internal, FetchPage. by rewrite H. Qed.

Lemma pool_put_eq (t : BPlusTree) id pg : pool (put t id pg) !! id = Some pg.
Proof. unfold put. simpl. apply lookup_insert_eq. Qed.

Lemma pool_put_ne (t : BPlusTree) id id' pg :
  id <> id' -> pool (put t id pg) !! id' = pool t !! id'.
Proof. intros. unfold put. simpl. by apply lookup_insert_ne. Qed.

Lemma put_put_same (t : BPlusTree) id pg pg' :
  put (put t id pg) id pg' = put t id pg'.
Proof. unfold put, with_pool. simpl. f_equal. apply insert_insert_eq. Qed.

(** *** Parent pointers *)

Lemma reparented_refl (pg : TreePage) : reparented pg pg.
Proof. exists (parent_page_id_ (hdr pg)). by destruct pg as [[[] ? ?]|[[] ?]]. Qed.

Lemma reparented_trans (a b c : TreePage) :
  reparented a b -> reparented b c -> reparented a c.
Proof. intros [x ->] [y ->]. exists y. by destruct a. Qed.

Lemma reparented_set (pg : TreePage) x :
  reparented pg (with_hdr pg (SetParentPageId (hdr pg) x)).
Proof. by exists x. Qed.

Lemma reparented_internal (p : InternalPage) (pg' : TreePage) :
  reparented (PInternal p) pg' ->
  exists p', pg' = PInternal p' /\ iarr p' = iarr p /\ I_size p' = I_size p /\
    max_size_ (ihdr p') = max_size_ (ihdr p) /\
    page_id_ (ihdr p') = page_id_ (ihdr p).
Proof. intros [x ->]. by eexists. Qed.

Lemma reparented_leaf (l : LeafPage) (pg' : TreePage) :
  reparented (PLeaf l) pg' ->
  exists l', pg' = PLeaf l' /\ larr l' = larr l /\ L_size l' = L_size l /\
    max_size_ (lhdr l') = max_size_ (lhdr l) /\
    page_id_ (lhdr l') = page_id_ (lhdr l) /\
    next_page_id_ l' = next_page_id_ l.
Proof. intros [x ->]. by eexists. Qed.

Lemma up_to_parents_refl (t : BPlusTree) : up_to_parents t t.
Proof.
  repeat split. intros id. destruct (pool t !! id); constructor.
  apply reparented_refl.
Qed.

Lemma up_to_parents_trans (t1 t2 t3 : BPlusTree) :
  up_to_parents t1 t2 -> up_to_parents t2 t3 -> up_to_parents t1 t3.
Proof.
  intros (? & ? & ? & ? & ? & ? & H12) (? & ? & ? & ? & ? & ? & H23).
  repeat split; try congruence. intros id.
  specialize (H12 id). specialize (H23 id).
  destruct H12 as [a b Hab|]; inversion H23; subst; constructor.
  by eapply reparented_trans.
Qed.

Lemma up_to_parents_lookup (t t' : BPlusTree) id pg :
  up_to_parents t t' -> pool t !! id = Some pg ->
  exists pg', pool t' !! id = Some pg' /\ reparented pg pg'.
Proof.
  intros (_ & _ & _ & _ & _ & _ & H) Hpg. specialize (H id).
  rewrite Hpg in H. inversion H; subst. eauto.
Qed.

Lemma set_parent_up_to (t : BPlusTree) id pg x :
  pool t !! id = Some pg ->
  exists t', set_parent t id x = Done t' /\ up_to_parents t t'.
Proof.
  intros Hpg. unfold set_parent, FetchPage. rewrite Hpg. simpl.
  eexists. split; [done|]. repeat split. intros id'. simpl.
  destruct (decide (id = id')) as [<-|Hne].
  - rewrite lookup_insert_eq, Hpg. constructor. apply reparented_set.
  - rewrite lookup_insert_ne by done.
    destruct (pool t !! id'); constructor. apply reparented_refl.
Qed.

Lemma reparent_up_to (n : nat) :
  forall (t : BPlusTree) (a : Z -> KeyType * Z) i x,
  (forall k, 0 <= k < Z.of_nat n -> is_Some (pool t !! (a (i + k)).2)) ->
  exists t', reparent n t a i x = Done t' /\ up_to_parents t t'.
Proof.
  induction n as [|n IH]; intros t a i x Hch; simpl.
  - exists t. split; [done|]. apply up_to_parents_refl.
  - destruct (Hch 0 ltac:(lia)) as [pg Hpg]. rewrite Z.add_0_r in Hpg.
    destruct (set_parent_up_to t _ pg x Hpg) as (t1 & -> & H1). simpl.
    destruct (IH t1 a (i + 1) x) as (t2 & -> & H2).
    + intros k Hk. destruct (Hch (k + 1) ltac:(lia)) as [pg' Hpg'].
      replace (i + 1 + k) with (i + (k + 1)) by lia.
      destruct (up_to_parents_lookup _ _ _ _ H1 Hpg') as (? & -> & _). done.
    + exists t2. split; [done|]. by eapply up_to_parents_trans.
Qed.

Lemma up_to_parents_put (t t' : BPlusTree) id pg pg' :
  up_to_parents t t' -> reparented pg pg' ->
  up_to_parents (put t id pg) (put t' id pg').
Proof.
  intros (? & ? & ? & ? & ? & ? & H) Hr. repeat split; simpl; try done.
  intros id'. destruct (decide (id = id')) as [<-|Hne].
  - rewrite !lookup_insert_eq. by constructor.
  - rewrite !lookup_insert_ne by done. apply H.
Qed.

(** *** Internal pages in the pool *)

Lemma I_CopyNFrom_spec (t : BPlusTree) rid (R : InternalPage)
    (items : Z -> KeyType * Z) start n :
  pool t !! rid = Some (PInternal R) -> 0 <= n ->
  (forall k, 0 <= k < n -> is_Some (pool t !! (items (start + k)).2)) ->
  exists t' R',
    I_CopyNFrom t rid items start n = Done t' /\
    pool t' !! rid = Some (PInternal R') /\
    I_size R' = I_size R + n /\
    max_size_ (ihdr R') = max_size_ (ihdr R) /\
    page_id_ (ihdr R') = page_id_ (ihdr R) /\
    iarr R' = copy_slots (Z.to_nat n) items start (iarr R) (I_size R) /\
    (forall id pg, id <> rid -> pool t !! id = Some pg ->
       exists pg', pool t' !! id = Some pg' /\ reparented pg pg').
Proof.
  intros HR Hn Hch. unfold I_CopyNFrom.
  rewrite (fetch_internal_Some _ _ _ HR). cbn [mbind outcome_bind].
  set (r1 := mkInternal (ihdr R)
               (copy_slots (Z.to_nat n) items start (iarr R) (I_size R))).
  destruct (reparent_up_to (Z.to_nat n) (put t rid (PInternal r1)) (iarr r1)
              (I_size R) (page_id_ (ihdr R))) as (t1 & -> & H1).
  { intros k Hk. simpl. rewrite copy_slots_spec.
    rewrite bool_decide_eq_true_2 by lia.
    replace (start + (I_size R + k - I_size R)) with (start + k) by lia.
    destruct (decide (rid = (items (start + k)).2)) as [<-|Hne].
    - by rewrite lookup_insert_eq.
    - rewrite lookup_insert_ne by done. apply Hch. lia. }
  cbn [mbind outcome_bind].
  destruct (up_to_parents_lookup _ _ rid _ H1 (pool_put_eq _ _ _)) as (pg' & Hpg' & Hr).
  destruct (reparented_internal _ _ Hr) as (r2 & -> & Harr & Hsz & Hmax & Hid).
  rewrite (fetch_internal_Some _ _ _ Hpg'). cbn [mbind outcome_bind].
  eexists _, _. split; [done|]. split; [apply pool_put_eq|].
  unfold I_size in *. simpl in *.
  split; [lia|]. split; [done|]. split; [done|]. split; [done|].
  intros id pg Hne Hpg. rewrite lookup_insert_ne by done.
  apply (up_to_parents_lookup _ _ id pg H1). simpl.
  by rewrite lookup_insert_ne.
Qed.

Lemma I_MoveAheadTo_spec (t : BPlusTree) sid rid (R S : InternalPage) mk :
  pool t !! rid = Some (PInternal R) -> pool t !! sid = Some (PInternal S) ->
  sid <> rid ->
  let m := internal_min_size (ihdr S) in
  let inc := I_size S - m in
  0 <= inc ->
  (forall k, 0 <= k < inc -> is_Some (pool t !! (iarr S k).2)) ->
  exists t' R' S',
    I_MoveAheadTo t sid rid mk = Done t' /\
    pool t' !! rid = Some (PInternal R') /\
    pool t' !! sid = Some (PInternal S') /\
    I_size R' = I_size R + inc /\ I_size S' = m /\
    max_size_ (ihdr S') = max_size_ (ihdr S) /\
    (forall j, iarr R' j =
       if bool_decide (I_size R <= j < I_size R + inc)
       then iarr S (j - I_size R)
       else upd (iarr R) 0 (mk, (iarr R 0).2) j) /\
    (forall j, iarr S' j =
       if bool_decide (0 <= j < m) then iarr S (inc + j) else iarr S j) /\
    (forall id pg, id <> rid -> id <> sid -> pool t !! id = Some pg ->
       exists pg', pool t' !! id = Some pg' /\ reparented pg pg').
Proof.
  intros HR HS Hne m inc Hinc Hch. subst m inc. unfold I_MoveAheadTo.
  rewrite (fetch_internal_Some _ _ _ HR). cbn [mbind outcome_bind].
  set (t1 := put t rid (PInternal (I_SetKeyAt R 0 mk))).
  assert (pool t1 !! sid = Some (PInternal S)) as HS1
    by (unfold t1; by rewrite pool_put_ne).
  rewrite (fetch_internal_Some _ _ _ HS1). cbn [mbind outcome_bind].
  destruct (I_CopyNFrom_spec t1 rid (I_SetKeyAt R 0 mk) (iarr S) 0
              (I_size S - internal_min_size (ihdr S)))
    as (t2 & R2 & -> & HR2 & Hsz2 & _ & _ & Harr2 & Hoth2); [apply pool_put_eq|done| |].
  { intros k Hk. rewrite Z.add_0_l. unfold t1.
    destruct (decide (rid = (iarr S k).2)) as [<-|Hn].
    - by rewrite pool_put_eq.
    - rewrite pool_put_ne by done. by apply Hch. }
  cbn [mbind outcome_bind].
  destruct (Hoth2 sid _ Hne HS1) as (pg' & HS2 & Hr).
  destruct (reparented_internal _ _ Hr) as (S2 & -> & HarrS & HszS & HmaxS & _).
  rewrite (fetch_internal_Some _ _ _ HS2). cbn [mbind outcome_bind].
  eexists _, R2, _. split; [done|].
  split; [by rewrite pool_put_ne|]. split; [apply pool_put_eq|].
  unfold I_size, internal_min_size in *. simpl in *.
  split; [done|]. split; [lia|].
  split; [done|]. split; [|split].
  - intros j. rewrite Harr2, copy_slots_spec. rewrite Z2Nat.id by done.
    case_bool_decide; [f_equal; lia|done].
  - intros j. rewrite HarrS. rewrite move_slots_down by done.
    rewrite HszS.
    repeat case_bool_decide; try lia; f_equal; lia.
  - intros id pg Hid1 Hid2 Hpg. rewrite lookup_insert_ne by done.
    apply Hoth2; [done|]. unfold t1. simpl. by rewrite lookup_insert_ne.
Qed.

Lemma I_MoveMiddleTo_spec (t : BPlusTree) sid rid (R S : InternalPage) mk :
  pool t !! rid = Some (PInternal R) -> pool t !! sid = Some (PInternal S) ->
  sid <> rid ->
  let m := internal_min_size (ihdr S) in
  let inc := I_size S - m in
  0 <= inc ->
  (forall k, m <= k < I_size S -> is_Some (pool t !! (iarr S k).2)) ->
  exists t' R' S',
    I_MoveMiddleTo t sid rid mk = Done t' /\
    pool t' !! rid = Some (PInternal R') /\
    pool t' !! sid = Some (PInternal S') /\
    I_size R' = I_size R + inc /\ I_size S' = m /\
    max_size_ (ihdr S') = max_size_ (ihdr S) /\
    (forall j, 0 <= j < inc -> iarr R' j = iarr S (m + j)) /\
    iarr S' = iarr S /\
    (forall id pg, id <> rid -> id <> sid -> pool t !! id = Some pg ->
       exists pg', pool t' !! id = Some pg' /\ reparented pg pg') /\
    (I_size R <= inc ->
     forall j, 0 <= j < I_size R ->
       iarr R' (inc + j) = upd (iarr R) 0 (mk, (iarr R 0).2) j).
Proof.
  intros HR HS Hne m inc Hinc Hch. subst m inc. unfold I_MoveMiddleTo.
  rewrite (fetch_internal_Some _ _ _ HR). cbn [mbind outcome_bind].
  set (t1 := put t rid (PInternal (I_SetKeyAt R 0 mk))).
  assert (pool t1 !! sid = Some (PInternal S)) as HS1
    by (unfold t1; by rewrite pool_put_ne).
  rewrite (fetch_internal_Some _ _ _ HS1). cbn [mbind outcome_bind].
  destruct (reparent_up_to (Z.to_nat (I_size S - internal_min_size (ihdr S))) t1
              (iarr S) (internal_min_size (ihdr S)) (page_id_ (ihdr R)))
    as (t2 & -> & H2).
  { intros k Hk. unfold t1.
    destruct (decide (rid = (iarr S (internal_min_size (ihdr S) + k)).2)) as [<-|Hn].
    - by rewrite pool_put_eq.
    - rewrite pool_put_ne by done. apply Hch. lia. }
  cbn [mbind outcome_bind].
  destruct (up_to_parents_lookup _ _ rid _ H2 (pool_put_eq _ _ _)) as (pgR & HR2 & HrR).
  destruct (reparented_internal _ _ HrR) as (R2 & -> & HarrR & HszR & _ & _).
  destruct (up_to_parents_lookup _ _ sid _ H2 HS1) as (pgS & HS2 & HrS).
  destruct (reparented_internal _ _ HrS) as (S2 & -> & HarrS & HszS & HmaxS & _).
  rewrite (fetch_internal_Some _ _ _ HR2). cbn [mbind outcome_bind].
  rewrite (fetch_internal_Some _ _ _ HS2). cbn [mbind outcome_bind].
  eexists _, _, _. split; [done|].
  split; [apply pool_put_eq|]. split; [by rewrite pool_put_ne, pool_put_eq|].
  unfold I_size, internal_min_size in *. simpl in *.
  split; [lia|]. split; [lia|].
  split; [done|]. split; [|split; [done|split]].
  - intros j Hj. rewrite copy_slots_spec. rewrite HarrS, HszS, HmaxS.
    rewrite bool_decide_eq_true_2.
    + f_equal. lia.
    + lia.
  - intros id pg Hid1 Hid2 Hpg. rewrite !lookup_insert_ne by done.
    apply (up_to_parents_lookup _ _ id pg H2). unfold t1. simpl.
    by rewrite lookup_insert_ne.
  - intros Hroom j Hj. rewrite copy_slots_spec. rewrite HszS, HmaxS.
    rewrite bool_decide_eq_false_2 by lia.
    rewrite move_slots_up by lia.
    rewrite bool_decide_eq_true_2 by lia. rewrite HarrR. simpl.
    f_equal. lia.
Qed.

(** *** [Redistribute] *)

Lemma Redistribute_leaf_right (t : BPlusTree) sid nid pid index
    (N S : LeafPage) (P : InternalPage) :
  pool t !! nid = Some (PLeaf N) -> pool t !! sid = Some (PLeaf S) ->
  pool t !! pid = Some (PInternal P) ->
  nid <> sid -> pid <> nid -> pid <> sid ->
  let m := leaf_min_size (lhdr S) in
  let inc := L_size S - m in
  0 <= inc ->
  exists t' (N' S' : LeafPage) (P' : InternalPage),
    Redistribute t sid nid pid index false = Done t' /\
    pool t' !! nid = Some (PLeaf N') /\ pool t' !! sid = Some (PLeaf S') /\
    pool t' !! pid = Some (PInternal P') /\
    L_size N' = L_size N + inc /\ L_size S' = m /\
    (forall j, 0 <= j < m -> larr S' j = larr S (inc + j)) /\
    (forall j, 0 <= j < inc -> larr N' (L_size N + j) = larr S j) /\
    P' = I_SetKeyAt P index (L_KeyAt S' 0) /\
    (forall j, j < L_size N -> larr N' j = larr N j) /\
    (forall id, id <> nid -> id <> sid -> id <> pid -> pool t' !! id = pool t !! id).
Proof.
  intros HN HS HP Hns Hpn Hps m inc Hinc. subst m inc. unfold Redistribute.
  unfold FetchPage at 1. rewrite HN. cbn [mbind outcome_bind of_option IsLeafPage].
  rewrite (fetch_leaf_Some _ _ _ HN), (fetch_leaf_Some _ _ _ HS),
    (fetch_internal_Some _ _ _ HP). cbn [mbind outcome_bind].
  pose proof (L_MoveAheadTo_spec S N Hinc) as Hspec.
  destruct (L_MoveAheadTo S N) as [S' N'].
  destruct Hspec as (HszS & HszN & HarrS & HarrN & Hown).
  eexists _, N', S', _. split; [done|].
  split; [rewrite pool_put_ne by done; apply pool_put_eq|].
  split; [rewrite !pool_put_ne by done; apply pool_put_eq|].
  split; [apply pool_put_eq|].
  split; [done|]. split; [done|]. split; [done|]. split; [done|].
  split; [done|]. split; [done|].
  intros id H1 H2 H3. by rewrite !pool_put_ne by done.
Qed.

Lemma Redistribute_leaf_left (t : BPlusTree) sid nid pid index
    (N S : LeafPage) (P : InternalPage) :
  pool t !! nid = Some (PLeaf N) -> pool t !! sid = Some (PLeaf S) ->
  pool t !! pid = Some (PInternal P) ->
  nid <> sid -> pid <> nid -> pid <> sid ->
  let m := leaf_min_size (lhdr S) in
  let inc := L_size S - m in
  0 <= inc ->
  exists t' (N' S' : LeafPage) (P' : InternalPage),
    Redistribute t sid nid pid index true = Done t' /\
    pool t' !! nid = Some (PLeaf N') /\ pool t' !! sid = Some (PLeaf S') /\
    pool t' !! pid = Some (PInternal P') /\
    L_size N' = L_size N + inc /\ L_size S' = m /\
    (forall j, larr S' j = larr S j) /\
    (forall j, 0 <= j < inc -> larr N' j = larr S (m + j)) /\
    P' = I_SetKeyAt (I_SetKeyAt P index (L_KeyAt N' 0)) index (L_KeyAt S' 0) /\
    (L_size N <= inc ->
     forall j, 0 <= j < L_size N -> larr N' (inc + j) = larr N j) /\
    (0 < inc ->
     forall j, 0 <= j < L_size N -> larr N' (inc + j) = larr N (j mod inc)) /\
    (forall id, id <> nid -> id <> sid -> id <> pid -> pool t' !! id = pool t !! id).
Proof.
  intros HN HS HP Hns Hpn Hps m inc Hinc. subst m inc. unfold Redistribute.
  unfold FetchPage at 1. rewrite HN. cbn [mbind outcome_bind of_option IsLeafPage].
  rewrite (fetch_leaf_Some _ _ _ HN), (fetch_leaf_Some _ _ _ HS),
    (fetch_internal_Some _ _ _ HP). cbn [mbind outcome_bind].
  pose proof (L_MoveMiddleTo_spec S N Hinc) as Hspec.
  destruct (L_MoveMiddleTo S N) as [S1 N1].
  destruct Hspec as (HszS & HszN & HarrS & HmaxS & HarrN & Hown & Hover).
  cbn [mbind outcome_bind].
  set (t1 := put (put (put t sid (PLeaf S1)) nid (PLeaf N1)) pid
               (PInternal (I_SetKeyAt P index (L_KeyAt N1 0)))).
  assert (pool t1 !! nid = Some (PLeaf N1)) as HN1
    by (unfold t1; rewrite pool_put_ne by done; apply pool_put_eq).
  assert (pool t1 !! sid = Some (PLeaf S1)) as HS1
    by (unfold t1; rewrite !pool_put_ne by done; apply pool_put_eq).
  assert (pool t1 !! pid = Some (PInternal (I_SetKeyAt P index (L_KeyAt N1 0))))
    as HP1 by (unfold t1; apply pool_put_eq).
  rewrite (fetch_leaf_Some _ _ _ HN1), (fetch_leaf_Some _ _ _ HS1),
    (fetch_internal_Some _ _ _ HP1). cbn [mbind outcome_bind].
  assert (L_size S1 = leaf_min_size (lhdr S1)) as Hmin
    by (unfold leaf_min_size in *; by rewrite HmaxS).
  pose proof (L_MoveAheadTo_nothing S1 N1 Hmin) as Hspec.
  destruct (L_MoveAheadTo S1 N1) as [S' N'].
  destruct Hspec as (HszS' & HszN' & HarrS' & HarrN').
  eexists _, N', S', _. split; [done|].
  split; [rewrite pool_put_ne by done; apply pool_put_eq|].
  split; [rewrite !pool_put_ne by done; apply pool_put_eq|].
  split; [apply pool_put_eq|].
  split; [lia|]. split; [lia|].
  split; [intros j; by rewrite HarrS', HarrS|].
  split; [intros j Hj; rewrite HarrN'; by apply HarrN|].
  split; [unfold L_KeyAt; by rewrite HarrN'|].
  split; [intros Hroom j Hj; rewrite HarrN'; by apply Hown|].
  split; [intros Hpos j Hj; rewrite HarrN'; by apply Hover|].
  intros id H1 H2 H3. unfold t1. by rewrite !pool_put_ne by done.
Qed.

Lemma Redistribute_internal_right (t : BPlusTree) sid nid pid index
    (N S P : InternalPage) :
  pool t !! nid = Some (PInternal N) -> pool t !! sid = Some (PInternal S) ->
  pool t !! pid = Some (PInternal P) ->
  nid <> sid -> pid <> nid -> pid <> sid ->
  let m := internal_min_size (ihdr S) in
  let inc := I_size S - m in
  0 <= inc ->
  (forall k, 0 <= k < inc -> is_Some (pool t !! (iarr S k).2)) ->
  exists t' (N' S' P' : InternalPage),
    Redistribute t sid nid pid index false = Done t' /\
    pool t' !! nid = Some (PInternal N') /\ pool t' !! sid = Some (PInternal S') /\
    pool t' !! pid = Some (PInternal P') /\
    I_size N' = I_size N + inc /\ I_size S' = m /\
    (forall j, 0 <= j < m -> iarr S' j = iarr S (inc + j)) /\
    (forall j, 0 <= j < inc -> iarr N' (I_size N + j) = iarr S j) /\
    I_size P' = I_size P /\
    iarr P' = upd (iarr P) index (I_KeyAt S' 0, (iarr P index).2) /\
    (forall j, 0 <= j < I_size N ->
       iarr N' j = upd (iarr N) 0 (I_KeyAt P index, (iarr N 0).2) j) /\
    (forall id pg, id <> nid -> id <> sid -> id <> pid -> pool t !! id = Some pg ->
       exists pg', pool t' !! id = Some pg' /\ reparented pg pg').
Proof.
  intros HN HS HP Hns Hpn Hps m inc Hinc Hch. subst m inc. unfold Redistribute.
  unfold FetchPage at 1. rewrite HN. cbn [mbind outcome_bind of_option IsLeafPage].
  rewrite (fetch_internal_Some _ _ _ HP). cbn [mbind outcome_bind].
  destruct (I_MoveAheadTo_spec t sid nid N S (I_KeyAt P index) HN HS
              ltac:(done) Hinc Hch)
    as (t1 & N' & S' & -> & HN' & HS' & HszN & HszS & _ & HarrN & HarrS & Hoth).
  cbn [mbind outcome_bind].
  destruct (Hoth pid _ Hpn Hps HP) as (pgP & HP1 & HrP).
  destruct (reparented_internal _ _ HrP) as (P1 & -> & HarrP & HszP & _ & _).
  rewrite (fetch_internal_Some _ _ _ HS'), (fetch_internal_Some _ _ _ HP1).
  cbn [mbind outcome_bind].
  eexists _, N', S', _. split; [done|].
  split; [by rewrite pool_put_ne|]. split; [by rewrite pool_put_ne|].
  split; [apply pool_put_eq|].
  split; [done|]. split; [done|]. split.
  { intros j Hj. rewrite HarrS. by rewrite bool_decide_eq_true_2. }
  split.
  { intros j Hj. rewrite HarrN. rewrite bool_decide_eq_true_2 by lia.
    f_equal. lia. }
  split; [done|]. split; [simpl; by rewrite HarrP|].
  split.
  { intros j Hj. rewrite HarrN. by rewrite bool_decide_eq_false_2 by lia. }
  intros id pg H1 H2 H3 Hpg. rewrite pool_put_ne by done. by apply Hoth.
Qed.

Lemma Redistribute_internal_left (t : BPlusTree) sid nid pid index
    (N S P : InternalPage) :
  pool t !! nid = Some (PInternal N) -> pool t !! sid = Some (PInternal S) ->
  pool t !! pid = Some (PInternal P) ->
  nid <> sid -> pid <> nid -> pid <> sid ->
  let m := internal_min_size (ihdr S) in
  let inc := I_size S - m in
  0 <= inc ->
  (forall k, m <= k < I_size S -> is_Some (pool t !! (iarr S k).2)) ->
  exists t' (N' S' P' : InternalPage),
    Redistribute t sid nid pid index true = Done t' /\
    pool t' !! nid = Some (PInternal N') /\ pool t' !! sid = Some (PInternal S') /\
    pool t' !! pid = Some (PInternal P') /\
    I_size N' = I_size N + inc /\ I_size S' = m /\
    (forall j, iarr S' j = iarr S j) /\
    (forall j, 0 <= j < inc -> iarr N' j = iarr S (m + j)) /\
    I_size P' = I_size P /\
    (forall j, j <> index -> iarr P' j = iarr P j) /\
    (iarr P' index).2 = (iarr P index).2 /\
    (I_size N <= inc ->
     forall j, 0 <= j < I_size N ->
       iarr N' (inc + j) = upd (iarr N) 0 (I_KeyAt P index, (iarr N 0).2) j) /\
    (forall id pg, id <> nid -> id <> sid -> id <> pid -> pool t !! id = Some pg ->
       exists pg', pool t' !! id = Some pg' /\ reparented pg pg').
Proof.
  intros HN HS HP Hns Hpn Hps m inc Hinc Hch. subst m inc. unfold Redistribute.
  unfold FetchPage at 1. rewrite HN. cbn [mbind outcome_bind of_option IsLeafPage].
  rewrite (fetch_internal_Some _ _ _ HP). cbn [mbind outcome_bind].
  destruct (I_MoveMiddleTo_spec t sid nid N S (I_KeyAt P index) HN HS
              ltac:(done) Hinc Hch)
    as (t1 & N1 & S1 & -> & HN1 & HS1 & HszN & HszS & HmaxS & HarrN & HarrS & Hoth
        & Hown).
  cbn [mbind outcome_bind].
  destruct (Hoth pid _ Hpn Hps HP) as (pgP & HP1 & HrP).
  destruct (reparented_internal _ _ HrP) as (P1 & -> & HarrP & HszP & _ & _).
  rewrite (fetch_internal_Some _ _ _ HN1), (fetch_internal_Some _ _ _ HP1).
  cbn [mbind outcome_bind].
  set (P2 := I_SetKeyAt P1 index (I_KeyAt N1 0)).
  set (t2 := put t1 pid (PInternal P2)).
  assert (pool t2 !! nid = Some (PInternal N1)) as HN2
    by (unfold t2; by rewrite pool_put_ne).
  assert (pool t2 !! sid = Some (PInternal S1)) as HS2
    by (unfold t2; by rewrite pool_put_ne).
  assert (pool t2 !! pid = Some (PInternal P2)) as HP2
    by (unfold t2; apply pool_put_eq).
  rewrite (fetch_internal_Some _ _ _ HP2). cbn [mbind outcome_bind].
  assert (I_size S1 - internal_min_size (ihdr S1) = 0) as Hzero.
  { unfold internal_min_size in *. rewrite HmaxS. lia. }
  destruct (I_MoveAheadTo_spec t2 sid nid N1 S1 (I_KeyAt P2 index) HN2 HS2
              ltac:(done) ltac:(lia))
    as (t3 & N' & S' & -> & HN' & HS' & HszN' & HszS' & _ & HarrN' & HarrS' & Hoth').
  { intros k Hk. lia. }
  cbn [mbind outcome_bind].
  destruct (Hoth' pid _ Hpn Hps HP2) as (pgP' & HP3 & HrP').
  destruct (reparented_internal _ _ HrP') as (P3 & -> & HarrP' & HszP' & _ & _).
  rewrite (fetch_internal_Some _ _ _ HS'), (fetch_internal_Some _ _ _ HP3).
  cbn [mbind outcome_bind].
  eexists _, N', S', _. split; [done|].
  split; [by rewrite pool_put_ne|]. split; [by rewrite pool_put_ne|].
  split; [apply pool_put_eq|].
  rewrite Hzero in *.
  split; [lia|]. split.
  { unfold internal_min_size in *. rewrite HszS'. by rewrite HmaxS. }
  split.
  { intros j. rewrite HarrS', HarrS. case_bool_decide; [f_equal; lia|done]. }
  split.
  { intros j Hj. rewrite HarrN'. rewrite bool_decide_eq_false_2 by lia.
    rewrite <- HarrN by done. unfold upd. case_bool_decide as Hj0; [|done].
    subst j. unfold P2, I_KeyAt. simpl. rewrite upd_eq. simpl.
    by destruct (iarr N1 0). }
  split; [unfold I_size in *; simpl; unfold P2 in HszP'; simpl in HszP'; lia|].
  assert (iarr N' 0 = iarr N1 0) as Hslot0.
  { rewrite HarrN'. rewrite bool_decide_eq_false_2 by lia. rewrite upd_eq.
    unfold P2, I_KeyAt. simpl. rewrite upd_eq. simpl. by destruct (iarr N1 0). }
  split.
  { intros j Hj. simpl. rewrite upd_ne by done. rewrite HarrP'.
    unfold P2. simpl. rewrite upd_ne by done. by rewrite HarrP. }
  split.
  { simpl. rewrite upd_eq. simpl. rewrite HarrP'. unfold P2. simpl.
    rewrite upd_eq. simpl. by rewrite HarrP. }
  split.
  { intros Hroom j Hj. rewrite HarrN'. rewrite bool_decide_eq_false_2 by lia.
    destruct (decide (I_size S - internal_min_size (ihdr S) + j = 0)) as [H0|H0].
    - rewrite H0, upd_eq. rewrite <- (Hown Hroom j Hj), H0.
      unfold P2, I_KeyAt. simpl. rewrite upd_eq. simpl. by destruct (iarr N1 0).
    - rewrite upd_ne by done. by apply Hown. }
  intros id pg H1 H2 H3 Hpg. rewrite pool_put_ne by done.
  destruct (Hoth id pg H1 H2 Hpg) as (pg1 & Hpg1 & Hr1).
  assert (pool t2 !! id = Some pg1) as Hpg2 by (unfold t2; by rewrite pool_put_ne).
  destruct (Hoth' id pg1 H1 H2 Hpg2) as (pg2 & Hpg3 & Hr2).
  exists pg2. split; [done|]. by eapply reparented_trans.
Qed.

Lemma elem_of_child_ids (p : InternalPage) k :
  0 <= k < I_size p ->
  (iarr p k).2 ∈ child_ids (PInternal p : TreePage).
Proof.
  intros Hk. unfold child_ids, slots.
  apply list_elem_of_fmap_2, list_elem_of_fmap_2, elem_of_seqZ. lia.
Qed.

(** C1, as the code has it.  When the chosen sibling [S] of [N] holds more
    than [min_size] entries, [Redistribute] moves its whole surplus
    [size - min_size] (one entry or more) into [N].  The first entries of
    a right sibling are appended to [N], which keeps its own entries in
    their slots; the last entries of a left sibling land in the first
    slots of [N], and the entries of [N] follow them provided [N] held no
    more entries than were moved (nothing is said of them otherwise).  The
    sibling keeps the [min_size] entries that were not moved, in their
    order.  In the parent only the key at [index] is written;
    with a right sibling (where [index] is [i + 1]) it becomes the
    sibling's new slot-0 key.  Every other page is as it was, up to the
    parent pointers of the children that moved. *)
Theorem Redistribute_moves_surplus (t : BPlusTree)
    neighbor_id node_id parent_id index (from_prev : bool)
    (N S : TreePage) (P : InternalPage) :
  pool t !! node_id = Some N -> pool t !! neighbor_id = Some S ->
  pool t !! parent_id = Some (PInternal P) ->
  node_id <> neighbor_id -> parent_id <> node_id -> parent_id <> neighbor_id ->
  IsLeafPage S = IsLeafPage N ->
  0 <= GetMinSize S < size_ (hdr S) ->
  (forall c, c ∈ child_ids S -> is_Some (pool t !! c)) ->
  let m := GetMinSize S in
  let inc := size_ (hdr S) - m in
  let middle_key := I_KeyAt P index in
  exists t' (N' S' : TreePage) (P' : InternalPage),
    Redistribute t neighbor_id node_id parent_id index from_prev = Done t' /\
    pool t' !! node_id = Some N' /\ pool t' !! neighbor_id = Some S' /\
    pool t' !! parent_id = Some (PInternal P') /\
    size_ (hdr N') = size_ (hdr N) + inc /\
    size_ (hdr S') = size_ (hdr S) - inc /\
    size_ (hdr S') = m /\
    I_size P' = I_size P /\
    (forall j, j <> index -> iarr P' j = iarr P j) /\
    I_ValueAt P' index = I_ValueAt P index /\
    (forall id pg, id <> node_id -> id <> neighbor_id -> id <> parent_id ->
       pool t !! id = Some pg ->
       exists pg', pool t' !! id = Some pg' /\ reparented pg pg') /\
    if from_prev then
      (forall j, 0 <= j < inc -> slot N' j = slot S (m + j)) /\
      (size_ (hdr N) <= inc ->
       forall j, 0 <= j < size_ (hdr N) ->
         slot N' (inc + j) = kept_slot N middle_key j) /\
      (forall j, 0 <= j < m -> slot S' j = slot S j)
    else
      (forall j, 0 <= j < size_ (hdr N) -> slot N' j = kept_slot N middle_key j) /\
      (forall j, 0 <= j < inc -> slot N' (size_ (hdr N) + j) = slot S j) /\
      (forall j, 0 <= j < m -> slot S' j = slot S (inc + j)) /\
      I_KeyAt P' index = (slot S' 0).1.
Proof.
  intros HN HS HP Hns Hpn Hps Hkind Hsz Hch m inc mk. subst m inc mk.
  destruct S as [S|S], N as [N|N]; try done; simpl in Hsz; destruct from_prev.
  - destruct (Redistribute_leaf_left t neighbor_id node_id parent_id index N S P
                HN HS HP Hns Hpn Hps ltac:(unfold L_size; lia))
      as (t' & N' & S' & P' & Hrun & HN' & HS' & HP' & HszN & HszS & HarrS & HarrN
          & -> & Hown & _ & Hfr).
    eexists t', (PLeaf N'), (PLeaf S'), _. unfold L_size in *. simpl.
    split; [done|]. split; [done|]. split; [done|]. split; [done|].
    split; [done|]. split; [lia|]. split; [done|]. split; [done|].
    split; [intros j Hj; unfold I_SetKeyAt; cbn [iarr]; by rewrite !upd_ne|].
    split.
    { unfold I_ValueAt, I_SetKeyAt. cbn [iarr]. rewrite upd_eq. cbn [snd].
      by rewrite upd_eq. }
    split.
    { intros id pg H1 H2 H3 Hpg. exists pg. rewrite Hfr by done.
      split; [done|]. apply reparented_refl. }
    split; [intros j Hj; by rewrite HarrN|].
    split; [intros Hroom j Hj; by rewrite Hown|].
    intros j Hj. by rewrite HarrS.
  - destruct (Redistribute_leaf_right t neighbor_id node_id parent_id index N S P
                HN HS HP Hns Hpn Hps ltac:(unfold L_size; lia))
      as (t' & N' & S' & P' & Hrun & HN' & HS' & HP' & HszN & HszS & HarrS & HarrN
          & -> & Hown & Hfr).
    eexists t', (PLeaf N'), (PLeaf S'), _. unfold L_size in *. simpl.
    split; [done|]. split; [done|]. split; [done|]. split; [done|].
    split; [done|]. split; [lia|]. split; [done|]. split; [done|].
    split; [intros j Hj; unfold I_SetKeyAt; cbn [iarr]; by rewrite upd_ne|].
    split; [unfold I_ValueAt, I_SetKeyAt; cbn [iarr]; by rewrite upd_eq|].
    split.
    { intros id pg H1 H2 H3 Hpg. exists pg. rewrite Hfr by done.
      split; [done|]. apply reparented_refl. }
    split; [intros j Hj; rewrite Hown by lia; done|].
    split; [intros j Hj; by rewrite HarrN|].
    split; [intros j Hj; by rewrite HarrS|].
    unfold I_KeyAt, I_SetKeyAt. cbn [iarr]. by rewrite upd_eq.
  - destruct (Redistribute_internal_left t neighbor_id node_id parent_id index N S P
                HN HS HP Hns Hpn Hps ltac:(unfold I_size; lia))
      as (t' & N' & S' & P' & Hrun & HN' & HS' & HP' & HszN & HszS & HarrS & HarrN
          & HszP & HarrP & HvalP & Hown & Hfr).
    { intros k Hk. apply Hch, elem_of_child_ids. lia. }
    exists t', (PInternal N'), (PInternal S'), P'. unfold I_size in *. simpl.
    split; [done|]. split; [done|]. split; [done|]. split; [done|].
    split; [done|]. split; [lia|]. split; [done|]. split; [done|].
    split; [done|]. split; [done|]. split; [done|].
    split; [intros j Hj; by rewrite HarrN|].
    split; [intros Hroom j Hj; by rewrite Hown|].
    intros j Hj. by rewrite HarrS.
  - destruct (Redistribute_internal_right t neighbor_id node_id parent_id index N S P
                HN HS HP Hns Hpn Hps ltac:(unfold I_size; lia))
      as (t' & N' & S' & P' & Hrun & HN' & HS' & HP' & HszN & HszS & HarrS & HarrN
          & HszP & HarrP & Hown & Hfr).
    { intros k Hk. apply Hch, elem_of_child_ids. unfold I_size in *. lia. }
    exists t', (PInternal N'), (PInternal S'), P'. unfold I_size in *. simpl.
    split; [done|]. split; [done|]. split; [done|]. split; [done|].
    split; [done|]. split; [lia|]. split; [done|]. split; [done|].
    split; [intros j Hj; rewrite HarrP; by rewrite upd_ne|].
    split; [unfold I_ValueAt; rewrite HarrP; by rewrite upd_eq|].
    split; [done|].
    split; [intros j Hj; by rewrite Hown|].
    split; [intros j Hj; by rewrite HarrN|].
    split; [intros j Hj; by rewrite HarrS|].
    unfold I_KeyAt. rewrite HarrP. by rewrite upd_eq.
Qed.

(** What the amended C1 leaves out with a left sibling, (1): when [N]
    holds more entries than are moved, [MoveMiddleTo] shifts them up with
    a forward [std::move] into their own range, which reads slots it has
    already written: the first [increment] entries of [N] repeat and the
    others are lost. *)
Lemma Redistribute_left_overwrites (t : BPlusTree) sid nid pid index
    (N S : LeafPage) (P : InternalPage) :
  pool t !! nid = Some (PLeaf N) -> pool t !! sid = Some (PLeaf S) ->
  pool t !! pid = Some (PInternal P) ->
  nid <> sid -> pid <> nid -> pid <> sid ->
  0 < L_size S - leaf_min_size (lhdr S) ->
  exists t' (N' : LeafPage),
    Redistribute t sid nid pid index true = Done t' /\
    pool t' !! nid = Some (PLeaf N') /\
    forall j, 0 <= j < L_size N ->
      larr N' (L_size S - leaf_min_size (lhdr S) + j) =
        larr N (j mod (L_size S - leaf_min_size (lhdr S))).
Proof.
  intros HN HS HP Hns Hpn Hps Hinc.
  destruct (Redistribute_leaf_left t sid nid pid index N S P HN HS HP Hns Hpn Hps
              ltac:(lia))
    as (t' & N' & S' & P' & Hrun & HN' & _ & _ & _ & _ & _ & _ & _ & _ & Hover & _).
  exists t', N'. split; [done|]. split; [done|]. by apply Hover.
Qed.

(** What the amended C1 leaves out with a left sibling, (2): because the
    [from_prev] branch falls through into the right-sibling code, the key
    finally written to the parent at [index] is the first key of the left
    sibling, not the first key of [N]. *)
Lemma Redistribute_left_separator (t : BPlusTree) sid nid pid index
    (N S : LeafPage) (P : InternalPage) :
  pool t !! nid = Some (PLeaf N) -> pool t !! sid = Some (PLeaf S) ->
  pool t !! pid = Some (PInternal P) ->
  nid <> sid -> pid <> nid -> pid <> sid ->
  0 <= L_size S - leaf_min_size (lhdr S) ->
  exists t' (P' : InternalPage),
    Redistribute t sid nid pid index true = Done t' /\
    pool t' !! pid = Some (PInternal P') /\
    I_KeyAt P' index = L_KeyAt S 0.
Proof.
  intros HN HS HP Hns Hpn Hps Hinc.
  destruct (Redistribute_leaf_left t sid nid pid index N S P HN HS HP Hns Hpn Hps Hinc)
    as (t' & N' & S' & P' & Hrun & _ & _ & HP' & _ & _ & HarrS & _ & -> & _).
  eexists t', _. split; [done|]. split; [done|].
  unfold I_KeyAt, L_KeyAt. simpl. by rewrite upd_eq, HarrS.
Qed.

(** *** [InsertToLeaf] on a key the leaf reports *)

(** When [Lookup] on the leaf reached by [FindLeafPage] finds the key,
    [InsertToLeaf] returns false and the tree is the one it was given. *)
Lemma InsertToLeaf_found fuel (t : BPlusTree) leaf_id (L : LeafPage) key value v :
  FindLeafPage comparator fuel t key INSERT false false = Done leaf_id ->
  pool t !! leaf_id = Some (PLeaf L) ->
  L_Lookup comparator L key = Done (Some v) ->
  InsertToLeaf comparator blank_leaf blank_internal fuel t key value = Done (false, t).
Proof.
  intros Hfind Hpool Hlook. unfold InsertToLeaf.
  rewrite Hfind. cbn [mbind outcome_bind].
  rewrite (fetch_leaf_Some _ _ _ Hpool). cbn [mbind outcome_bind].
  by rewrite Hlook.
Qed.

(** Conversely a false result is only ever produced that way. *)
Lemma InsertToLeaf_false fuel (t t' : BPlusTree) key value :
  InsertToLeaf comparator blank_leaf blank_internal fuel t key value = Done (false, t') ->
  t' = t /\
  exists leaf_id (L : LeafPage) v,
    FindLeafPage comparator fuel t key INSERT false false = Done leaf_id /\
    pool t !! leaf_id = Some (PLeaf L) /\
    L_Lookup comparator L key = Done (Some v).
Proof.
  unfold InsertToLeaf.
  destruct (FindLeafPage comparator fuel t key INSERT false false)
    as [leaf_id| |] eqn:Hfind; cbn [mbind outcome_bind]; try done.
  destruct (fetch_leaf t leaf_id) as [L| |] eqn:Hpool; cbn [mbind outcome_bind];
    try done.
  apply fetch_leaf_inv in Hpool.
  destruct (L_Lookup comparator L key) as [[v|]| |] eqn:Hlook;
    cbn [mbind outcome_bind]; try done.
  - intros [= <-]. split; [done|]. by exists leaf_id, L, v.
  - destruct (L_Insert comparator L key value) as [[sz L1]| |];
      cbn [mbind outcome_bind]; try done.
    case_bool_decide; [done|].
    destruct (SplitLeaf _ _ _) as [[new_id t1]| |]; cbn [mbind outcome_bind]; try done.
    destruct (fetch_leaf t1 new_id) as [nl| |]; cbn [mbind outcome_bind]; try done.
    destruct (fetch_leaf t1 leaf_id) as [ol| |]; cbn [mbind outcome_bind]; try done.
    match goal with
    | |- context [InsertIntoParent ?b ?f ?x ?i ?k ?n] =>
        destruct (InsertIntoParent b f x i k n) as [t2| |]
    end; cbn [mbind outcome_bind]; done.
Qed.

(** C10.  [BPlusTreeLeafPage::Insert] has no duplicate check: on a sorted
    leaf that already holds [key] in slot [i] it stores a second entry
    with that key in slot [i + 1], right after the existing one, shifts
    the rest up, and the leaf is no longer strictly ordered.  The tree
    stays free of duplicates because [InsertToLeaf] looks the key up first
    and, finding it, returns false without calling the leaf's [Insert]. *)
Theorem leaf_Insert_no_duplicate_check `{!KeyOrder comparator}
    fuel (t : BPlusTree) leaf_id (p : LeafPage) key value i :
  FindLeafPage comparator fuel t key INSERT false false = Done leaf_id ->
  pool t !! leaf_id = Some (PLeaf p) ->
  sorted comparator (larr p) (L_size p) ->
  key_at_slot comparator (larr p) (L_size p) key i ->
  (exists p', L_Insert comparator p key value = Done (L_size p + 1, p') /\
     L_size p' = L_size p + 1 /\
     (forall j, 0 <= j <= i -> larr p' j = larr p j) /\
     comparator (L_KeyAt p' i) key = 0 /\
     larr p' (i + 1) = (key, value) /\
     (forall j, i + 1 < j <= L_size p -> larr p' j = larr p (j - 1)) /\
     ~ sorted comparator (larr p') (L_size p')) /\
  InsertToLeaf comparator blank_leaf blank_internal fuel t key value = Done (false, t).
Proof.
  intros Hfind Hpool Hs Hk. split.
  - destruct (L_Insert_present comparator p key value i Hs Hk)
      as (p' & Hins & Hsz & Hlow & Hnew & Hup).
    exists p'. split; [done|]. split; [done|]. split; [done|].
    destruct Hk as [Hi Hk].
    assert (comparator (L_KeyAt p' i) key = 0) as Hki.
    { unfold L_KeyAt. by rewrite Hlow by lia. }
    split; [done|]. split; [done|]. split; [done|].
    intros Hs'. specialize (Hs' i (i + 1) ltac:(lia) ltac:(lia) ltac:(lia)).
    rewrite Hnew in Hs'. simpl in Hs'. unfold L_KeyAt in Hki. lia.
  - unfold InsertToLeaf. rewrite Hfind. simpl.
    rewrite (fetch_leaf_Some _ _ _ Hpool). simpl.
    by rewrite (L_Lookup_present comparator p key i Hs Hk).
Qed.


(** C5 on the empty tree.  [GetValue] does not test [IsEmpty] before it
    calls [FindLeafPage], whose first statement asserts that the root is
    valid: the lookup of any key in an empty tree stops at the assertion
    instead of returning false.  [Remove] does test for the empty tree
    and returns without touching anything. *)
Theorem GetValue_empty_tree_faults fuel leaf_max_size internal_max_size key :
  let t : BPlusTree := BPlusTree_new leaf_max_size internal_max_size in
  IsEmpty t = true /\
  GetValue comparator fuel t key = Fault /\
  Remove comparator fuel t key = Done t.
Proof. done. Qed.

End TreeFacts.

(** ** Integer keys *)

#[global] Instance cmpZ_order : KeyOrder cmpZ.
Proof. split; unfold cmpZ; intros; lia. Qed.

(** C1 as stated (exactly one entry moves) fails.  With
    [leaf_max_size = 5] the leaf [1] holds one entry and its right sibling
    four, two above [min_size]: [Redistribute] appends both surplus
    entries to the leaf. *)
Lemma Redistribute_not_exactly_one :
  entries underflow_right 1 = Some [(1, 1)] /\
  entries underflow_right 2 = Some [(4, 4); (5, 5); (6, 6); (7, 7)] /\
  exists t',
    Redistribute underflow_right 2 1 3 1 false = Done t' /\
    entries t' 1 = Some [(1, 1); (4, 4); (5, 5)] /\
    entries t' 2 = Some [(6, 6); (7, 7)] /\
    entries t' 3 = Some [(0, 1); (6, 2)].
Proof.
  split; [reflexivity|]. split; [reflexivity|].
  eexists. split; [reflexivity|]. split; [reflexivity|]. split; reflexivity.
Qed.

(** The same state arises through the public interface: insert 1..7,
    remove 3, and then [Remove(2)] redistributes. *)
Lemma Redistribute_not_exactly_one_reached :
  exists t t',
    (t0 ← InsertFromFile 9 (BPlusTree_new 5 5) [1; 2; 3; 4; 5; 6; 7];
     RemoveFromFile 9 t0 [3]) = Done t /\
    entries t 1 = Some [(1, 1); (2, 2)] /\
    entries t 2 = Some [(4, 4); (5, 5); (6, 6); (7, 7)] /\
    Remove cmpZ 9 t 2 = Done t' /\
    entries t' 1 = Some [(1, 1); (4, 4); (5, 5)] /\
    entries t' 2 = Some [(6, 6); (7, 7)].
Proof.
  eexists. eexists. split; [vm_compute; reflexivity|].
  split; [reflexivity|]. split; [reflexivity|].
  split; [vm_compute; reflexivity|]. split; reflexivity.
Qed.

(** The entries lost with a left sibling, on a tree reached through the
    public interface.  With [leaf_max_size = 6] ([min_size = 3]), insert
    10, 20, 30, 40, 50, 60, 25 and remove 60: the right leaf is left with
    40 and 50, the left sibling has one entry to spare, and after
    [Redistribute] the right leaf reads 30, 40, 40.  Key 50 was never
    removed and is in no leaf. *)
Lemma Redistribute_left_loses_key :
  exists t t',
    InsertFromFile 9 (BPlusTree_new 6 6) [10; 20; 30; 40; 50; 60; 25] = Done t /\
    entries t 1 = Some [(10, 10); (20, 20); (25, 25); (30, 30)] /\
    entries t 2 = Some [(40, 40); (50, 50); (60, 60)] /\
    GetValue cmpZ 9 t 50 = Done (Some 50) /\
    Remove cmpZ 9 t 60 = Done t' /\
    entries t' 1 = Some [(10, 10); (20, 20); (25, 25)] /\
    entries t' 2 = Some [(30, 30); (40, 40); (40, 40)] /\
    GetValue cmpZ 9 t' 50 = Done None.
Proof.
  eexists. eexists. split; [vm_compute; reflexivity|].
  split; [reflexivity|]. split; [reflexivity|]. split; [reflexivity|].
  split; [vm_compute; reflexivity|].
  split; [reflexivity|]. split; reflexivity.
Qed.

Lemma Redistribute_moves_surplus_witness :
  (exists t' N' S' P',
     Redistribute underflow_right 2 1 3 1 false = Done t' /\
     pool t' !! 1 = Some N' /\ pool t' !! 2 = Some S' /\
     pool t' !! 3 = Some (PInternal P') /\
     size_ (hdr N') = 3 /\ size_ (hdr S') = 2 /\
     slot N' 0 = (1, inl 1) /\ slot N' 1 = (4, inl 4) /\ slot N' 2 = (5, inl 5) /\
     slot S' 0 = (6, inl 6) /\ slot S' 1 = (7, inl 7) /\
     I_KeyAt P' 1 = (slot S' 0).1 /\ iarr P' 0 = (0, 1)) /\
  (exists t' N' S' P',
     Redistribute underflow_left 1 2 3 1 true = Done t' /\
     pool t' !! 2 = Some N' /\ pool t' !! 1 = Some S' /\
     pool t' !! 3 = Some (PInternal P') /\
     size_ (hdr N') = 3 /\ size_ (hdr S') = 2 /\
     slot N' 0 = (3, inl 3) /\ slot N' 1 = (4, inl 4) /\ slot N' 2 = (6, inl 6) /\
     slot S' 0 = (1, inl 1) /\ slot S' 1 = (2, inl 2) /\ iarr P' 0 = (0, 1)).
Proof.
  split.
  - destruct (Redistribute_moves_surplus underflow_right 2 1 3 1 false
                (PLeaf (leaf_of 1 3 2 5 [(1, 1)]))
                (PLeaf (leaf_of 2 3 INVALID_PAGE_ID 5 [(4, 4); (5, 5); (6, 6); (7, 7)]))
                (internal_of 3 INVALID_PAGE_ID 5 [(0, 1); (4, 2)])
                eq_refl eq_refl eq_refl ltac:(lia) ltac:(lia) ltac:(lia) eq_refl
                ltac:(vm_compute; split; [discriminate|reflexivity]))
      as (t' & N' & S' & P' & Hrun & HN & HS & HP & HszN & _ & HszS & _ & HP0 & _ & _
          & Hown & Hnew & Hrest & Hkey).
    { intros c Hc. by apply elem_of_nil in Hc. }
    exists t', N', S', P'.
    split; [exact Hrun|]. split; [exact HN|]. split; [exact HS|]. split; [exact HP|].
    split; [exact HszN|]. split; [exact HszS|].
    split; [exact (Hown 0 ltac:(vm_compute; split; [discriminate|reflexivity]))|].
    split; [exact (Hnew 0 ltac:(vm_compute; split; [discriminate|reflexivity]))|].
    split; [exact (Hnew 1 ltac:(vm_compute; split; [discriminate|reflexivity]))|].
    split; [exact (Hrest 0 ltac:(vm_compute; split; [discriminate|reflexivity]))|].
    split; [exact (Hrest 1 ltac:(vm_compute; split; [discriminate|reflexivity]))|].
    split; [exact Hkey|]. exact (HP0 0 ltac:(lia)).
  - destruct (Redistribute_moves_surplus underflow_left 1 2 3 1 true
                (PLeaf (leaf_of 2 3 INVALID_PAGE_ID 5 [(6, 6)]))
                (PLeaf (leaf_of 1 3 2 5 [(1, 1); (2, 2); (3, 3); (4, 4)]))
                (internal_of 3 INVALID_PAGE_ID 5 [(0, 1); (5, 2)])
                eq_refl eq_refl eq_refl ltac:(lia) ltac:(lia) ltac:(lia) eq_refl
                ltac:(vm_compute; split; [discriminate|reflexivity]))
      as (t' & N' & S' & P' & Hrun & HN & HS & HP & HszN & _ & HszS & _ & HP0 & _ & _
          & Hnew & Hown & Hrest).
    { intros c Hc. by apply elem_of_nil in Hc. }
    exists t', N', S', P'.
    split; [exact Hrun|]. split; [exact HN|]. split; [exact HS|]. split; [exact HP|].
    split; [exact HszN|]. split; [exact HszS|].
    split; [exact (Hnew 0 ltac:(vm_compute; split; [discriminate|reflexivity]))|].
    split; [exact (Hnew 1 ltac:(vm_compute; split; [discriminate|reflexivity]))|].
    split.
    { exact (Hown ltac:(vm_compute; discriminate) 0
               ltac:(vm_compute; split; [discriminate|reflexivity])). }
    split; [exact (Hrest 0 ltac:(vm_compute; split; [discriminate|reflexivity]))|].
    split; [exact (Hrest 1 ltac:(vm_compute; split; [discriminate|reflexivity]))|].
    exact (HP0 0 ltac:(lia)).
Defined.

(** C2 on a tree reached through the public interface.  With
    [leaf_max_size = 4], insert 2, 3, 4, 5, 1 and remove 5: the removal
    redistributes from the left sibling and leaves the left sibling's
    first key, 1, as the separator in the root.  Key 2 is still stored in
    leaf [1], but every search for it is now sent to leaf [2]:
    [GetValue(2)] finds nothing and [Insert(2, ...)] returns true and
    stores the key a second time. *)
Theorem Insert_true_for_present_key :
  exists t t',
    (t0 ← InsertFromFile 9 (BPlusTree_new 4 4) [2; 3; 4; 5; 1];
     RemoveFromFile 9 t0 [5]) = Done t /\
    root_page_id_ t = 3 /\
    entries t 3 = Some [(0, 1); (1, 2)] /\
    entries t 1 = Some [(1, 1); (2, 2)] /\
    entries t 2 = Some [(3, 3); (4, 4)] /\
    GetValue cmpZ 9 t 2 = Done None /\
    Insert cmpZ zero_leaf zero_internal 9 t 2 2 = Done (true, t') /\
    entries t' 1 = Some [(1, 1); (2, 2)] /\
    entries t' 2 = Some [(2, 2); (3, 3); (4, 4)].
Proof.
  eexists. eexists. split; [vm_compute; reflexivity|].
  split; [reflexivity|]. split; [reflexivity|]. split; [reflexivity|].
  split; [reflexivity|]. split; [reflexivity|].
  split; [vm_compute; reflexivity|]. split; reflexivity.
Qed.

(** The same defect lets a removed key be found again.  After the run
    above, [Insert(2)] has stored key 2 a second time in leaf [2];
    [Remove(2)] takes that copy out and repairs the separator, so the
    next search reaches leaf [1] and [GetValue(2)] returns true for a key
    whose last operation was its removal. *)
Lemma GetValue_true_for_removed_key :
  exists t,
    (t0 ← InsertFromFile 9 (BPlusTree_new 4 4) [2; 3; 4; 5; 1];
     t1 ← RemoveFromFile 9 t0 [5];
     t2 ← InsertFromFile 9 t1 [2];
     RemoveFromFile 9 t2 [2]) = Done t /\
    entries t 3 = Some [(0, 1); (3, 2)] /\
    entries t 1 = Some [(1, 1); (2, 2)] /\
    GetValue cmpZ 9 t 2 = Done (Some 2).
Proof.
  eexists. split; [vm_compute; reflexivity|].
  split; [reflexivity|]. split; reflexivity.
Qed.


Lemma root_leaf_123_sorted : sorted cmpZ (larr root_leaf_123) (L_size root_leaf_123).
Proof.
  intros i j Hi Hij Hj. change (L_size root_leaf_123) with 3 in Hj.
  assert (i = 0 \/ i = 1) as [-> | ->] by lia;
    assert (j = 1 \/ j = 2) as [-> | ->] by lia; (reflexivity || lia).
Qed.

Lemma root_leaf_123_has_2 :
  key_at_slot cmpZ (larr root_leaf_123) (L_size root_leaf_123) 2 1.
Proof. split; [|reflexivity]. change (L_size root_leaf_123) with 3. lia. Qed.

Lemma leaf_Insert_no_duplicate_check_witness :
  (exists p', L_Insert cmpZ root_leaf_123 2 7 = Done (4, p') /\
     larr p' 1 = (2, 2) /\ larr p' 2 = (2, 7) /\
     ~ sorted cmpZ (larr p') (L_size p')) /\
  InsertToLeaf cmpZ zero_leaf zero_internal 9 tree_123 2 7 = Done (false, tree_123).
Proof.
  destruct (leaf_Insert_no_duplicate_check cmpZ zero_leaf zero_internal 9
              tree_123 1 root_leaf_123 2 7 1 eq_refl eq_refl root_leaf_123_sorted
              root_leaf_123_has_2)
    as ((p' & Hins & _ & Hlow & _ & Hnew & _ & Hns) & Hcaller).
  split; [|exact Hcaller].
  exists p'. split; [exact Hins|]. split; [exact (Hlow 1 ltac:(lia))|].
  split; [exact Hnew|exact Hns].
Defined.

End BPTFacts.

(* ====================================================================== *)
(** * Extendible hash table: [Insert], [Find] and [Remove] as a map *)
(* ====================================================================== *)

Module EHTLaws.
Import EHT EHTFacts.
Section Laws.
Context {K V : Type} `{EqDecision K}.
Variable hash : K -> Z.

Abbreviation Bucket := (@Bucket K V).
Abbreviation Table := (@Table K V).

(** *** Lookups in a bucket *)

Lemma find_item_filter (P : K * V -> Prop) `{!forall e, Decision (P e)}
    (l : list (K * V)) k :
  (forall v, (k, v) ∈ l -> P (k, v)) ->
  find_item k (filter P l) = find_item k l.
Proof.
  induction l as [|[k0 v0] l IH]; intros HP; [done|].
  destruct (decide (P (k0, v0))) as [Hp|Hp].
  - rewrite filter_cons_True by done. simpl.
    destruct (decide (k0 = k)); [done|].
    apply IH. intros v Hv. apply HP. by right.
  - rewrite filter_cons_False by done. simpl.
    destruct (decide (k0 = k)) as [->|Hne].
    + destruct Hp. apply HP. by left.
    + apply IH. intros v Hv. apply HP. by right.
Qed.

Lemma find_item_None k (l : list (K * V)) :
  find_item k l = None <-> k ∉ l.*1.
Proof.
  induction l as [|[k0 v0] l IH]; simpl.
  - split; [intros _; apply not_elem_of_nil|done].
  - rewrite not_elem_of_cons. destruct (decide (k0 = k)) as [->|Hne].
    + split; [done|]. intros [? _]. done.
    + rewrite IH. split; [intros ?; split; [congruence|done]|by intros [_ ?]].
Qed.

Lemma NoDup_keys_value (l : list (K * V)) k v1 v2 :
  NoDup l.*1 -> (k, v1) ∈ l -> (k, v2) ∈ l -> v1 = v2.
Proof.
  induction l as [|[k0 v0] l IH]; [by intros _ ?%elem_of_nil|].
  rewrite fmap_cons. intros [Hk Hnd]%NoDup_cons H1 H2.
  assert (forall v, (k0, v) ∈ l -> False) as Hno.
  { intros v Hv. apply Hk. apply list_elem_of_fmap. by exists (k0, v). }
  apply elem_of_cons in H1 as [H1|H1]; apply elem_of_cons in H2 as [H2|H2].
  - congruence.
  - injection H1 as -> ->. by destruct (Hno _ H2).
  - injection H2 as -> ->. by destruct (Hno _ H1).
  - by apply IH.
Qed.

Lemma find_item_Some k v (l : list (K * V)) :
  find_item k l = Some v -> (k, v) ∈ l.
Proof.
  induction l as [|[k0 v0] l IH]; simpl; [done|].
  destruct (decide (k0 = k)) as [->|Hne].
  - intros [= ->]. by left.
  - intros Hf. right. by apply IH.
Qed.

Lemma overwrite_find_other key value k (l l' : list (K * V)) :
  k <> key -> overwrite key value l = Some l' -> find_item k l' = find_item k l.
Proof.
  intros Hne. revert l'. induction l as [|[k0 v0] l IH]; intros l'; simpl; [done|].
  destruct (decide (k0 = key)) as [->|Hk].
  - intros [= <-]. simpl. by rewrite !decide_False by congruence.
  - destruct (overwrite key value l) as [r|]; [|done].
    intros [= <-]. simpl. destruct (decide (k0 = k)); [done|]. by apply IH.
Qed.

Lemma find_item_snoc_other key value k (l : list (K * V)) :
  k <> key -> find_item k (l ++ [(key, value)]) = find_item k l.
Proof.
  intros Hne. induction l as [|[k0 v0] l IH]; simpl.
  - by rewrite decide_False by congruence.
  - destruct (decide (k0 = k)); [done|]. apply IH.
Qed.

(** [Bucket::Insert] does not disturb the other keys of the bucket. *)
Lemma Bucket_Insert_find_other key value k (b : Bucket) :
  k <> key ->
  find_item k (list_ (Bucket_Insert key value b).2) = find_item k (list_ b).
Proof.
  intros Hne. unfold Bucket_Insert.
  destruct (overwrite key value (list_ b)) as [l'|] eqn:Ho; simpl.
  - by apply (overwrite_find_other key value).
  - destruct (IsFull b); simpl; [done|]. by apply find_item_snoc_other.
Qed.

Lemma overwrite_Some_inv key value (l l' : list (K * V)) :
  overwrite key value l = Some l' -> l'.*1 = l.*1 /\ length l' = length l.
Proof.
  revert l'. induction l as [|[k0 v0] l IH]; intros l'; simpl; [done|].
  destruct (decide (k0 = key)) as [->|Hk].
  - intros [= <-]. done.
  - destruct (overwrite key value l) as [r|]; [|done].
    intros [= <-]. destruct (IH r eq_refl) as [Hk' Hl].
    rewrite !fmap_cons, Hk'. simpl. by rewrite Hl.
Qed.

Lemma overwrite_None_inv key value (l : list (K * V)) :
  overwrite key value l = None -> key ∉ l.*1.
Proof.
  induction l as [|[k0 v0] l IH]; simpl; [intros _; apply not_elem_of_nil|].
  destruct (decide (k0 = key)) as [->|Hk]; [done|].
  destruct (overwrite key value l) as [r|]; [done|].
  intros _. rewrite not_elem_of_cons. split; [congruence|by apply IH].
Qed.

(** [Bucket::Insert] keeps a bucket in order. *)
Lemma Bucket_Insert_ok (t : Table) key value (b : Bucket) :
  bucket_ok t b -> bucket_ok t (Bucket_Insert key value b).2.
Proof.
  intros (Hd & Hsz & Hnd & Hlen). unfold Bucket_Insert.
  destruct (overwrite key value (list_ b)) as [l'|] eqn:Ho; simpl.
  - destruct (overwrite_Some_inv _ _ _ _ Ho) as [Hk Hl].
    split; [done|]. split; [done|]. simpl. split; [by rewrite Hk|by rewrite Hl].
  - destruct (IsFull b) eqn:Hf; simpl; [done|].
    apply bool_decide_eq_false_1 in Hf.
    split; [done|]. split; [done|]. simpl. split.
    + rewrite fmap_app. simpl. apply NoDup_app. split; [done|].
      split; [|apply NoDup_singleton].
      intros x Hx ->%list_elem_of_singleton.
      by apply (overwrite_None_inv key value (list_ b)).
    + rewrite length_app. simpl. lia.
Qed.

(** *** Slots of a well-formed table *)

Lemma table_ok_slot (t : Table) k :
  table_ok t ->
  exists a b, dir_ t !! Z.to_nat (hash k mod 2 ^ global_depth_ t) = Some a /\
    heap_ t !! a = Some b /\ bucket_ok t b /\
    target hash t k = Some (a, b).
Proof.
  intros [Hshape Hslots]. pose proof Hshape as [Hgd Hlen].
  assert (0 < 2 ^ global_depth_ t) as Hpos by (apply Z.pow_pos_nonneg; lia).
  pose proof (Z.mod_pos_bound (hash k) _ Hpos) as Hb.
  destruct (lookup_lt_is_Some_2 (dir_ t) (Z.to_nat (hash k mod 2 ^ global_depth_ t)))
    as [a Ha]; [lia|].
  destruct (Hslots _ _ Ha) as (b & Hb' & Hok).
  exists a, b. split; [done|]. split; [done|]. split; [done|].
  unfold target. rewrite IndexOf_shape by done.
  rewrite bool_decide_eq_true_2 by lia. by rewrite Ha, Hb'.
Qed.

Lemma target_bucket_ok (t : Table) k a b :
  table_ok t -> target hash t k = Some (a, b) -> bucket_ok t b.
Proof.
  intros Hok Ht. destruct (table_ok_slot t k Hok) as (a' & b' & _ & _ & Hb & Ht').
  rewrite Ht in Ht'. by injection Ht' as -> ->.
Qed.

Lemma Find_target (t : Table) k a b :
  target hash t k = Some (a, b) -> Find hash t k = find_item k (list_ b).
Proof. intros Ht. unfold Find. by rewrite Ht. Qed.

(** *** One split *)

(** The doubling overflows [int] at depth 30: a split that goes through
    has started below it. *)
Lemma split_Some_depth (t t' : Table) key a b :
  table_ok t -> target hash t key = Some (a, b) ->
  split hash t key = Some t' -> depth_ b < 30.
Proof.
  intros Hok Htgt Hs.
  destruct (decide (depth_ b < 30)) as [|Hd]; [done|exfalso].
  pose proof (target_bucket_ok _ _ _ _ Hok Htgt) as ((Hd0 & Hdg) & _).
  destruct Hok as [[Hgd Hlen] _].
  assert (depth_ b = global_depth_ t) as Heq by lia.
  unfold split in Hs. rewrite Htgt in Hs. unfold grow, GetDepth in Hs.
  rewrite bool_decide_eq_true_2 in Hs by done.
  unfold shl_int in Hs at 1. rewrite bool_decide_eq_false_2 in Hs; [done|].
  unfold INT_MAX. rewrite Hlen. change (2 ^ 1) with 2.
  assert (global_depth_ t = 30) as -> by lia. lia.
Qed.

Lemma grown_lookup (t : Table) (b : Bucket) (i : nat) p :
  (if bool_decide (depth_ b = global_depth_ t)
   then dir_ t ++ dir_ t else dir_ t) !! i = Some p ->
  exists i', dir_ t !! i' = Some p.
Proof.
  case_bool_decide; [|by eauto].
  intros [?|[_ ?]]%lookup_app_Some; eauto.
Qed.

Lemma split_table_ok (t t' : Table) key a b :
  table_ok t -> target hash t key = Some (a, b) ->
  split hash t key = Some t' -> table_ok t'.
Proof.
  intros Hok Htgt Hs.
  pose proof (split_Some_depth _ _ _ _ _ Hok Htgt Hs) as Hd30.
  pose proof (target_bucket_ok _ _ _ _ Hok Htgt) as Hbok.
  destruct Hok as [Hshape Hslots].
  destruct (split_target hash t key a b Hshape Htgt Hbok Hd30)
    as (t1 & Hs1 & Hshape' & Hgd & Hbs & _ & Hheap & Hdir & _).
  rewrite Hs in Hs1. injection Hs1 as <-.
  split; [done|]. intros i x Hx.
  rewrite Hdir, redirect_lookup in Hx.
  destruct (_ !! i) as [p|] eqn:Hp; [|done]. simpl in Hx. injection Hx as <-.
  destruct (grown_lookup _ _ _ _ Hp) as (i' & Hi').
  destruct (Hslots _ _ Hi') as (bp & Hbp & Hokp).
  assert (global_depth_ t <= global_depth_ t') as Hmono.
  { rewrite Hgd. destruct (bool_decide_reflect (depth_ b = global_depth_ t)); lia. }
  assert (depth_ b + 1 <= global_depth_ t') as Hdep.
  { rewrite Hgd. destruct Hbok as ((? & ?) & _).
    destruct (bool_decide_reflect (depth_ b = global_depth_ t)); lia. }
  destruct Hbok as (Hbd & Hbsz & Hbnd & Hblen).
  rewrite Hheap. destruct (bool_decide_reflect (p = a)) as [Hpa|Hpa].
  - destruct (bool_decide_reflect (Z.land (0 + Z.of_nat i) (2 ^ depth_ b) <> 0)).
    + eexists. split.
      { rewrite lookup_app_r by lia.
        by replace (S (length (heap_ t)) - length (heap_ t))%nat with 1%nat by lia. }
      repeat split; simpl; try lia; [by apply NoDup_keys_filter|].
      pose proof (length_filter (EHT.high hash (2 ^ depth_ b)) (list_ b)). lia.
    + eexists. split.
      { rewrite lookup_app_r by lia.
        by replace (length (heap_ t) - length (heap_ t))%nat with 0%nat by lia. }
      repeat split; simpl; try lia; [by apply NoDup_keys_filter|].
      pose proof (length_filter (fun e => ~ EHT.high hash (2 ^ depth_ b) e) (list_ b)).
      lia.
  - exists bp. split.
    { rewrite lookup_app_l; [done|]. by eapply lookup_lt_Some. }
    destruct Hokp as (Hpd & Hpsz & Hpnd & Hplen).
    repeat split; try done; try lia.
Qed.

(** A split changes no lookup. *)
Lemma split_Find (t t' : Table) key a b :
  table_ok t -> target hash t key = Some (a, b) ->
  split hash t key = Some t' ->
  forall k, Find hash t' k = Find hash t k.
Proof.
  intros Hok Htgt Hs k.
  pose proof (split_Some_depth _ _ _ _ _ Hok Htgt Hs) as Hd30.
  pose proof (target_bucket_ok _ _ _ _ Hok Htgt) as Hbok.
  pose proof (split_table_ok _ _ _ _ _ Hok Htgt Hs) as Hok'.
  destruct (table_ok_slot t k Hok) as (ak & bk & Hak & Hbk & Hokk & Htk).
  destruct (target_inv _ _ _ _ _ Htgt) as (i & Hi & Hi0 & Hdira & Hheapa).
  pose proof Hok as [Hshape Hslots].
  destruct (split_target hash t key a b Hshape Htgt Hbok Hd30)
    as (t1 & Hs1 & Hshape' & Hgd & Hbs & _ & Hheap & Hdir & _).
  rewrite Hs in Hs1. injection Hs1 as <-.
  destruct Hbok as (Hbd & Hbsz & Hbnd & Hblen).
  destruct (grow_slot hash t k ak b Hshape Hbd Hd30 Hak)
    as (gd & d & _ & Hgd' & Hd' & Hgd30 & Hdlen & Hslot).
  rewrite <- Hgd in Hgd'. subst gd. subst d.
  rewrite (Find_target _ _ _ _ Htk).
  destruct (table_ok_slot t' k Hok') as (ak' & bk' & Hak' & Hbk' & _ & Htk').
  rewrite (Find_target _ _ _ _ Htk').
  rewrite Hdir, redirect_lookup, Hslot in Hak'. simpl in Hak'.
  injection Hak' as <-. rewrite Hheap in Hbk'.
  assert (0 < 2 ^ global_depth_ t') as Hpos by (apply Z.pow_pos_nonneg; lia).
  pose proof (Z.mod_pos_bound (hash k) _ Hpos) as Hb.
  rewrite Z2Nat.id, Z.add_0_l, land_pow2_mod in Hbk' by lia.
  destruct (bool_decide_reflect (ak = a)) as [Hsame|Hsame].
  - subst ak. rewrite Hheapa in Hbk. injection Hbk as <-.
    destruct (bool_decide_reflect (Z.land (hash k) (2 ^ depth_ b) <> 0)) as [Hside|Hside].
    + rewrite lookup_app_r in Hbk' by lia.
      replace (S (length (heap_ t)) - length (heap_ t))%nat with 1%nat in Hbk' by lia.
      injection Hbk' as <-. simpl. apply find_item_filter.
      intros v _. exact Hside.
    + rewrite lookup_app_r in Hbk' by lia.
      replace (length (heap_ t) - length (heap_ t))%nat with 0%nat in Hbk' by lia.
      injection Hbk' as <-. simpl. apply find_item_filter.
      intros v _. exact Hside.
  - rewrite lookup_app_l in Hbk' by by eapply lookup_lt_Some.
    rewrite Hbk in Hbk'. by injection Hbk' as <-.
Qed.

(** *** The split loop *)

Lemma split_loop_frame key (fuel : nat) :
  forall (t t' : Table),
  table_ok t -> split_loop hash fuel t key = Done t' ->
  table_ok t' /\ (forall k, Find hash t' k = Find hash t k) /\
  exists a b, target hash t' key = Some (a, b) /\ IsFull b = false.
Proof.
  induction fuel as [|fuel IH]; intros t t' Hok Hrun; simpl in Hrun.
  - destruct (target hash t key) as [[a b]|] eqn:Ht; [|done].
    destruct (IsFull b) eqn:Hf; [done|]. injection Hrun as <-. eauto 10.
  - destruct (target hash t key) as [[a b]|] eqn:Ht; [|done].
    destruct (IsFull b) eqn:Hf; [|injection Hrun as <-; eauto 10].
    destruct (split hash t key) as [t1|] eqn:Hs; [|done].
    destruct (IH t1 t' (split_table_ok _ _ _ _ _ Hok Ht Hs) Hrun)
      as (Hok' & Hfind & Hfin).
    split; [done|]. split; [|done].
    intros k. rewrite Hfind. by apply (split_Find t t1 key a b).
Qed.

(** *** The final store *)

Lemma store_frame (t : Table) key value a b :
  table_ok t -> target hash t key = Some (a, b) ->
  exists t', store hash t key value = Some t' /\ table_ok t' /\
    dir_ t' = dir_ t /\ global_depth_ t' = global_depth_ t /\
    num_buckets_ t' = num_buckets_ t /\
    heap_ t' = <[a := (Bucket_Insert key value b).2]> (heap_ t) /\
    forall k, k <> key -> Find hash t' k = Find hash t k.
Proof.
  intros Hok Htgt. unfold store. rewrite Htgt. eexists. split; [done|].
  destruct (target_inv _ _ _ _ _ Htgt) as (i & Hi & Hi0 & Hdira & Hheapa).
  pose proof (target_bucket_ok _ _ _ _ Hok Htgt) as Hbok.
  assert (table_ok (mkTable (global_depth_ t) (bucket_size_ t) (num_buckets_ t)
            (dir_ t) (<[a := (Bucket_Insert key value b).2]> (heap_ t)))) as Hok'.
  { destruct Hok as [Hshape Hslots]. split; [done|]. simpl.
    intros j x Hx. destruct (Hslots _ _ Hx) as (bx & Hbx & Hokx).
    destruct (decide (x = a)) as [->|Hne].
    - eexists. split.
      + apply list_lookup_insert_eq. by eapply lookup_lt_Some.
      + by apply (Bucket_Insert_ok t).
    - exists bx. by rewrite list_lookup_insert_ne by done. }
  split; [done|]. repeat (split; [done|]).
  intros k Hne.
  destruct (table_ok_slot t k Hok) as (ak & bk & Hak & Hbk & Hokk & Htk).
  destruct (table_ok_slot _ k Hok') as (ak' & bk' & Hak' & Hbk' & _ & Htk').
  rewrite (Find_target _ _ _ _ Htk), (Find_target _ _ _ _ Htk').
  simpl in Hak', Hbk'. rewrite Hak in Hak'. injection Hak' as <-.
  destruct (decide (ak = a)) as [->|Hna].
  - rewrite list_lookup_insert_eq in Hbk' by by eapply lookup_lt_Some.
    injection Hbk' as <-. rewrite Hheapa in Hbk. injection Hbk as <-.
    by apply Bucket_Insert_find_other.
  - rewrite list_lookup_insert_ne in Hbk' by done.
    rewrite Hbk in Hbk'. by injection Hbk' as <-.
Qed.

(** *** [Insert] as a map update *)

(** On a well-formed table, whenever the split loop can end (the target
    bucket has room, or a hash bit below 30 separates [key] from one of
    its entries), [Insert] returns; afterwards [Find] gives [value] for
    [key] and what it gave before for every other key. *)
Theorem Insert_map_update (t : Table) key value a b :
  table_ok t -> target hash t key = Some (a, b) ->
  IsFull b = false \/ separable hash key b ->
  exists fuel t',
    Insert hash fuel t key value = Done t' /\
    Find hash t' key = Some value /\
    forall k, k <> key -> Find hash t' k = Find hash t k.
Proof.
  intros Hok Htgt Hcase.
  pose proof (target_bucket_ok _ _ _ _ Hok Htgt) as Hbok.
  assert (exists n t1, split_loop hash n t key = Done t1) as (n & t1 & Hloop).
  { destruct Hcase as [Hnf | (e & j & He & Hj & Hbits)].
    - exists 0%nat, t. by apply (split_loop_not_full hash 0 t key a b).
    - destruct (split_loop_terminates hash key (Z.to_nat (j - depth_ b + 1)) t a b
                  (proj1 Hok) Htgt Hbok) as (t1 & _ & _ & ? & _).
      + right. exists e, j. repeat split; try done; lia.
      + by exists (Z.to_nat (j - depth_ b + 1)), t1. }
  destruct (split_loop_frame key n t t1 Hok Hloop)
    as (Hok1 & Hfind1 & a1 & b1 & Htgt1 & Hnf).
  destruct (store_frame t1 key value a1 b1 Hok1 Htgt1)
    as (t2 & Hst & _ & _ & _ & _ & _ & Hfind2).
  destruct (store_find hash t1 key value a1 b1 Htgt1 Hnf) as (t2' & Hst' & Hkey).
  rewrite Hst in Hst'. injection Hst' as <-.
  exists n, t2. split; [|split; [done|]].
  - unfold Insert. rewrite Hloop. simpl. by rewrite Hst.
  - intros k Hne. by rewrite Hfind2, Hfind1.
Qed.

(** An existing key whose bucket has room is overwritten in place: no
    split, the directory and the counters are untouched, and the bucket
    keeps its keys in their order. *)
Theorem Insert_overwrites_in_place (t : Table) key value a b v0 fuel :
  target hash t key = Some (a, b) -> IsFull b = false ->
  Find hash t key = Some v0 ->
  exists l',
    Insert hash fuel t key value =
      Done (mkTable (global_depth_ t) (bucket_size_ t) (num_buckets_ t) (dir_ t)
              (<[a := mkBucket (size_ b) (depth_ b) l']> (heap_ t))) /\
    l'.*1 = (list_ b).*1 /\ find_item key l' = Some value.
Proof.
  intros Htgt Hnf Hfind. rewrite (Find_target _ _ _ _ Htgt) in Hfind.
  assert (key ∈ (list_ b).*1) as Hin.
  { apply find_item_Some in Hfind. apply list_elem_of_fmap. by exists (key, v0). }
  destruct (overwrite_present key value _ Hin) as (l' & Ho & Hf & _ & Hk).
  exists l'. split; [|done].
  unfold Insert. rewrite (split_loop_not_full hash fuel t key a b Htgt Hnf). simpl.
  unfold store. rewrite Htgt. unfold Bucket_Insert. by rewrite Ho.
Qed.

(** With [bucket_size = 0] the only bucket is full from the start and
    stays full after every split: the first [Insert] never returns. *)
Theorem Insert_zero_capacity_never_returns key value fuel (t' : Table) :
  Insert hash fuel (ExtendibleHashTable 0) key value <> Done t'.
Proof.
  intros Hrun. unfold Insert in Hrun.
  destruct (split_loop hash fuel (ExtendibleHashTable 0) key) as [t1| |] eqn:Hl;
    try done.
  refine (split_loop_spins hash key fuel (ExtendibleHashTable 0) 0%nat
            (mkBucket 0 0 []) _ _ _ eq_refl _ t1 Hl).
  - split; simpl; [lia|done].
  - unfold target, IndexOf. simpl. by rewrite Z.land_0_r.
  - repeat split; simpl; try lia. apply NoDup_nil_2.
  - intros e He. by apply elem_of_nil in He.
Qed.

End Laws.

Section RemoveLaws.
Context {K V : Type} `{EqDecision K} `{EqDecision V}.
Variable hash : K -> Z.

Abbreviation Bucket := (@Bucket K V).
Abbreviation Table := (@Table K V).

Lemma first_match_None key (l : list (K * V)) :
  first_match key l = None -> find_item key l = None.
Proof.
  induction l as [|[k v] l IH]; simpl; [done|].
  destruct (decide (k = key)); [done|]. exact IH.
Qed.

Lemma first_match_Some key (l : list (K * V)) e :
  first_match key l = Some e ->
  e.1 = key /\ e ∈ l /\ find_item key l = Some e.2.
Proof.
  induction l as [|[k v] l IH]; simpl; [done|].
  destruct (decide (k = key)) as [->|Hne].
  - intros [= <-]. split; [done|]. split; [by left|done].
  - intros He. destruct (IH He) as (? & ? & ?). split; [done|]. split; [by right|done].
Qed.

(** [Bucket::Remove] on a bucket in order. *)
Lemma Bucket_Remove_spec (t : Table) key (b : Bucket) :
  bucket_ok t b ->
  bucket_ok t (Bucket_Remove key b).2 /\
  ((Bucket_Remove key b).1 = true <-> is_Some (find_item key (list_ b))) /\
  find_item key (list_ (Bucket_Remove key b).2) = None /\
  (forall k, k <> key ->
     find_item k (list_ (Bucket_Remove key b).2) = find_item k (list_ b)) /\
  (find_item key (list_ b) = None -> (Bucket_Remove key b).2 = b).
Proof.
  intros (Hd & Hsz & Hnd & Hlen). unfold Bucket_Remove.
  destruct (first_match key (list_ b)) as [e|] eqn:Hm; simpl.
  - destruct (first_match_Some _ _ _ Hm) as (He1 & Hin & Hf).
    split; [|split; [|split; [|split]]].
    + split; [done|]. split; [done|]. simpl. split; [by apply NoDup_keys_filter|].
      pose proof (length_filter (fun x => x <> e) (list_ b)). lia.
    + rewrite Hf. split; [by eauto|done].
    + apply find_item_None. intros Hk.
      apply list_elem_of_fmap in Hk as ([k v] & Hkey & Hx). simpl in Hkey. subst k.
      apply list_elem_of_filter in Hx as [Hx1 Hx2]. apply Hx1.
      destruct e as [k' v']. simpl in He1. subst k'.
      f_equal. exact (NoDup_keys_value _ _ _ _ Hnd Hx2 Hin).
    + intros k Hne. apply find_item_filter.
      intros v _ Heq. subst e. simpl in He1. congruence.
    + rewrite Hf. done.
  - pose proof (first_match_None _ _ Hm) as Hf.
    split; [done|]. split; [|done]. rewrite Hf. split; [done|by intros [? ?]].
Qed.

Lemma Remove_frame (t : Table) key :
  table_ok t ->
  exists r t',
    Remove hash t key = Some (r, t') /\ table_ok t' /\
    (r = true <-> is_Some (Find hash t key)) /\
    Find hash t' key = None /\
    (forall k, k <> key -> Find hash t' k = Find hash t k) /\
    dir_ t' = dir_ t /\ global_depth_ t' = global_depth_ t /\
    num_buckets_ t' = num_buckets_ t /\
    (Find hash t key = None -> t' = t).
Proof.
  intros Hok.
  destruct (table_ok_slot hash t key Hok) as (a & b & Ha & Hb & Hbok & Htgt).
  destruct (Bucket_Remove_spec t key b Hbok) as (Hbok' & Hr & Hgone & Hothers & Hsame).
  unfold Remove. rewrite Htgt. eexists _, _. split; [done|].
  assert (table_ok (mkTable (global_depth_ t) (bucket_size_ t) (num_buckets_ t)
            (dir_ t) (<[a := (Bucket_Remove key b).2]> (heap_ t)))) as Hok'.
  { destruct Hok as [Hshape Hslots]. split; [done|]. simpl.
    intros j x Hx. destruct (Hslots _ _ Hx) as (bx & Hbx & Hokx).
    destruct (decide (x = a)) as [->|Hne].
    - eexists. split; [|exact Hbok'].
      apply list_lookup_insert_eq. by eapply lookup_lt_Some.
    - exists bx. by rewrite list_lookup_insert_ne by done. }
  split; [done|].
  assert (forall k, Find hash
            (mkTable (global_depth_ t) (bucket_size_ t) (num_buckets_ t)
               (dir_ t) (<[a := (Bucket_Remove key b).2]> (heap_ t))) k =
          match target hash t k with
          | Some (ak, bk) =>
              if decide (ak = a) then find_item k (list_ (Bucket_Remove key b).2)
              else find_item k (list_ bk)
          | None => None
          end) as Hfind.
  { intros k.
    destruct (table_ok_slot hash t k Hok) as (ak & bk & Hak & Hbk & _ & Htk).
    destruct (table_ok_slot hash _ k Hok') as (ak' & bk' & Hak' & Hbk' & _ & Htk').
    rewrite (Find_target _ _ _ _ _ Htk'), Htk.
    simpl in Hak', Hbk'. rewrite Hak in Hak'. injection Hak' as <-.
    destruct (decide (ak = a)) as [->|Hna].
    - rewrite list_lookup_insert_eq in Hbk' by by eapply lookup_lt_Some.
      by injection Hbk' as <-.
    - rewrite list_lookup_insert_ne in Hbk' by done.
      rewrite Hbk in Hbk'. by injection Hbk' as <-. }
  rewrite (Find_target _ _ _ _ _ Htgt).
  split; [done|]. split.
  { rewrite Hfind, Htgt. by rewrite decide_True. }
  split.
  { intros k Hne. rewrite Hfind.
    destruct (table_ok_slot hash t k Hok) as (ak & bk & Hak & Hbk & _ & Htk).
    rewrite Htk, (Find_target _ _ _ _ _ Htk).
    destruct (decide (ak = a)) as [->|Hna]; [|done].
    rewrite Hb in Hbk. injection Hbk as <-. by apply Hothers. }
  repeat (split; [done|]).
  intros Hnone. rewrite (Hsame Hnone), list_insert_id by done. by destruct t.
Qed.

(** [Remove] on a well-formed table: it returns true exactly when the key
    was there; afterwards the key is gone and every other key is found as
    before.  The directory is never shrunk and buckets are never merged:
    directory, global depth and bucket count stay as they were, and a
    table that did not hold the key is left as it was. *)
Theorem Remove_spec (t : Table) key :
  table_ok t ->
  exists r t',
    Remove hash t key = Some (r, t') /\
    (r = true <-> is_Some (Find hash t key)) /\
    Find hash t' key = None /\
    (forall k, k <> key -> Find hash t' k = Find hash t k) /\
    dir_ t' = dir_ t /\ GetGlobalDepth t' = GetGlobalDepth t /\
    GetNumBuckets t' = GetNumBuckets t /\
    (Find hash t key = None -> t' = t).
Proof.
  intros Hok.
  destruct (Remove_frame t key Hok) as (r & t' & Hr & _ & H).
  by exists r, t'.
Qed.

(** Well-formedness is established by the constructor and kept by
    [Insert] and [Remove]: the directory has [2 ^ global_depth] slots,
    and every bucket it refers to has a local depth between 0 and the
    global depth, the table's capacity, at most that many entries, and
    no key twice. *)
Lemma table_ok_invariant :
  (forall bucket_size, 0 <= bucket_size ->
     table_ok (ExtendibleHashTable bucket_size : Table)) /\
  (forall fuel (t t' : Table) key value,
     table_ok t -> Insert hash fuel t key value = Done t' -> table_ok t') /\
  (forall (t t' : Table) key r,
     table_ok t -> Remove hash t key = Some (r, t') -> table_ok t').
Proof.
  split; [|split].
  - intros bs Hbs. split; [split; simpl; [lia|done]|].
    intros i a Hi. apply list_lookup_singleton_Some in Hi as [-> <-].
    eexists. split; [done|]. repeat split; simpl; try lia. apply NoDup_nil_2.
  - intros fuel t t' key value Hok Hrun. unfold Insert in Hrun.
    destruct (split_loop hash fuel t key) as [t1| |] eqn:Hl; try done.
    destruct (split_loop_frame hash key fuel t t1 Hok Hl)
      as (Hok1 & _ & a1 & b1 & Htgt1 & _).
    destruct (store_frame hash t1 key value a1 b1 Hok1 Htgt1)
      as (t2 & Hst & Hok2 & _).
    simpl in Hrun. rewrite Hst in Hrun. by injection Hrun as <-.
  - intros t t' key r Hok Hrun.
    destruct (Remove_frame t key Hok) as (r' & t1 & Hr & Hok1 & _).
    rewrite Hrun in Hr. by injection Hr as -> ->.
Qed.

End RemoveLaws.

Lemma table_room_ok : table_ok table_room.
Proof.
  split; [split; [simpl; lia|reflexivity]|].
  intros i a Hi. destruct i as [|i]; [|done]. injection Hi as <-.
  eexists. split; [reflexivity|].
  split; [simpl; lia|]. split; [reflexivity|]. split; [|simpl; lia].
  apply NoDup_singleton.
Qed.

Lemma Insert_map_update_witness :
  exists fuel t',
    Insert hash_int fuel table_room 4 9 = Done t' /\
    Find hash_int t' 4 = Some 9 /\
    forall k, k <> 4 -> Find hash_int t' k = Find hash_int table_room k.
Proof.
  apply (Insert_map_update hash_int table_room 4 9 0%nat (mkBucket 2 0 [(0, 7)])).
  - apply table_room_ok.
  - reflexivity.
  - left. reflexivity.
Defined.

Lemma Insert_overwrites_in_place_witness :
  exists l',
    Insert hash_int 1 table_room 0 8 =
      Done (mkTable 0 2 1 [0%nat] [mkBucket 2 0 l']) /\
    l'.*1 = [0] /\ find_item 0 l' = Some 8.
Proof.
  apply (Insert_overwrites_in_place hash_int table_room 0 8 0%nat
           (mkBucket 2 0 [(0, 7)]) 7 1%nat); reflexivity.
Defined.

Lemma Remove_spec_witness :
  exists r t',
    Remove hash_int table_room 0 = Some (r, t') /\
    (r = true <-> is_Some (Find hash_int table_room 0)) /\
    Find hash_int t' 0 = None /\
    forall k, k <> 0 -> Find hash_int t' k = Find hash_int table_room k.
Proof.
  destruct (Remove_spec hash_int table_room 0 table_room_ok)
    as (r & t' & Hrun & Hr & Hgone & Hothers & _).
  exists r, t'. split; [exact Hrun|]. split; [exact Hr|].
  split; [exact Hgone|exact Hothers].
Defined.

End EHTLaws.

(* ====================================================================== *)
(** * Extendible hash table: bucket count and directory layout *)
(* ====================================================================== *)

(** ** More bit-level facts *)

Lemma mod_succ_testbit x d :
  0 <= d -> x mod 2 ^ (d + 1) = x mod 2 ^ d + 2 ^ d * Z.b2z (Z.testbit x d).
Proof.
  intros Hd. assert (0 < 2 ^ d) by (apply Z.pow_pos_nonneg; lia).
  rewrite Z.pow_add_r by lia. change (2 ^ 1) with 2.
  rewrite Z.rem_mul_r by lia. by rewrite Z.testbit_spec' by done.
Qed.

Lemma mod_succ_iff x y d :
  0 <= d ->
  (x mod 2 ^ (d + 1) = y mod 2 ^ (d + 1) <->
   x mod 2 ^ d = y mod 2 ^ d /\ Z.testbit x d = Z.testbit y d).
Proof.
  intros Hd. assert (0 < 2 ^ d) as Hpos by (apply Z.pow_pos_nonneg; lia).
  rewrite !mod_succ_testbit by done.
  pose proof (Z.mod_pos_bound x _ Hpos). pose proof (Z.mod_pos_bound y _ Hpos).
  destruct (Z.testbit x d), (Z.testbit y d); simpl; split; intros; try split;
    try done; try lia; try (by destruct H2).
Qed.

Lemma mod_mod_pow x d g : 0 <= d <= g -> (x mod 2 ^ g) mod 2 ^ d = x mod 2 ^ d.
Proof.
  intros Hd. assert (0 < 2 ^ d) by (apply Z.pow_pos_nonneg; lia).
  replace g with ((g - d) + d) by lia. rewrite Z.pow_add_r by lia.
  rewrite Z.mul_comm, Z.rem_mul_r by lia.
  rewrite Z.mul_comm, Z.mod_add by lia. apply Z.mod_mod. lia.
Qed.

Lemma mod_sub_pow x d g : 0 <= d <= g -> (x - 2 ^ g) mod 2 ^ d = x mod 2 ^ d.
Proof.
  intros Hd. assert (0 < 2 ^ d) by (apply Z.pow_pos_nonneg; lia).
  replace (2 ^ g) with (2 ^ (g - d) * 2 ^ d)
    by (rewrite <- Z.pow_add_r by lia; f_equal; lia).
  replace (x - 2 ^ (g - d) * 2 ^ d) with (x + (- 2 ^ (g - d)) * 2 ^ d) by lia.
  apply Z.mod_add. lia.
Qed.

Lemma testbit_below x d : 0 <= x < 2 ^ d -> Z.testbit x d = false.
Proof.
  intros Hx. destruct (decide (0 <= d)) as [Hd|Hd].
  - apply Z.testbit_false; [done|]. by rewrite Z.div_small.
  - by rewrite Z.testbit_neg_r by lia.
Qed.

Lemma testbit_add_pow x d : 0 <= d -> 0 <= x < 2 ^ d -> Z.testbit (x + 2 ^ d) d = true.
Proof.
  intros Hd Hx. apply Z.testbit_true; [done|].
  replace (x + 2 ^ d) with (x + 1 * 2 ^ d) by lia.
  rewrite Z.div_add by lia. by rewrite Z.div_small.
Qed.

Module EHTCount.
Import EHT EHTFacts EHTLaws.
Section Count.
Context {K V : Type} `{EqDecision K}.
Variable hash : K -> Z.

Abbreviation Bucket := (@Bucket K V).
Abbreviation Table := (@Table K V).

Lemma redirect_slot (old a0 a1 : nat) db (d : list nat) (j : nat) p :
  0 <= db -> d !! j = Some p ->
  redirect old a0 a1 (2 ^ db) 0 d !! j =
    Some (if bool_decide (p = old)
          then (if Z.testbit (Z.of_nat j) db then a1 else a0) else p).
Proof.
  intros Hdb Hp. rewrite redirect_lookup, Hp. simpl. rewrite Z.add_0_l.
  destruct (bool_decide (p = old)); [|done].
  pose proof (land_pow2_nonzero (Z.of_nat j) db Hdb) as Hbit.
  destruct (bool_decide_reflect (Z.land (Z.of_nat j) (2 ^ db) <> 0)) as [Hn|Hn].
  - by rewrite (proj1 Hbit Hn).
  - destruct (Z.testbit (Z.of_nat j) db); [|done]. destruct Hn. by apply Hbit.
Qed.

(** The directory is still aligned after the optional doubling. *)
Lemma grown_aligned (t : Table) (b : Bucket) :
  table_ok t -> dir_aligned t ->
  let d := if bool_decide (depth_ b = global_depth_ t)
           then dir_ t ++ dir_ t else dir_ t in
  forall (i j p : nat) bp,
    d !! i = Some p -> heap_ t !! p = Some bp -> (j < length d)%nat ->
    (d !! j = Some p <->
     Z.of_nat j mod 2 ^ depth_ bp = Z.of_nat i mod 2 ^ depth_ bp).
Proof.
  intros Hok Hal d i j p bp Hi Hp Hj. subst d.
  destruct (bool_decide_reflect (depth_ b = global_depth_ t)) as [Heq|Hne];
    [|by apply (Hal i j p bp)].
  destruct Hok as [[Hgd Hlen] Hslots].
  assert (forall n : nat, (n < length (dir_ t ++ dir_ t))%nat ->
            exists n' : nat, (n' < length (dir_ t))%nat /\
              (dir_ t ++ dir_ t) !! n = dir_ t !! n' /\
              forall dp, 0 <= dp <= global_depth_ t ->
                Z.of_nat n' mod 2 ^ dp = Z.of_nat n mod 2 ^ dp) as Hfold.
  { intros n Hn. rewrite length_app in Hn.
    destruct (decide (n < length (dir_ t))%nat) as [Hlt|Hge].
    - exists n. split; [done|]. split; [by rewrite lookup_app_l|done].
    - exists (n - length (dir_ t))%nat. split; [lia|].
      split; [by rewrite lookup_app_r by lia|].
      intros dp Hdp. rewrite Nat2Z.inj_sub by lia. rewrite Hlen.
      by apply mod_sub_pow. }
  destruct (Hfold i (lookup_lt_Some _ _ _ Hi)) as (i' & Hi' & Hli & Hmi).
  destruct (Hfold j Hj) as (j' & Hj' & Hlj & Hmj).
  rewrite Hli in Hi. rewrite Hlj.
  destruct (Hslots _ _ Hi) as (bp' & Hbp' & ((Hd0 & Hd1) & _)).
  rewrite Hp in Hbp'. injection Hbp' as <-.
  rewrite <- (Hmi (depth_ bp)), <- (Hmj (depth_ bp)) by done.
  by apply (Hal i' j' p bp).
Qed.

(** After a split the directory is aligned again and refers to one
    bucket more. *)
Lemma split_count (t t' : Table) key a b :
  table_ok t -> dir_aligned t ->
  target hash t key = Some (a, b) -> split hash t key = Some t' ->
  dir_aligned t' /\
  size (buckets_in_use t') = S (size (buckets_in_use t)).
Proof.
  intros Hok Hal Htgt Hs.
  pose proof (split_Some_depth _ _ _ _ _ _ Hok Htgt Hs) as Hd30.
  pose proof (target_bucket_ok _ _ _ _ _ Hok Htgt) as Hbok.
  pose proof (split_table_ok _ _ _ _ _ _ Hok Htgt Hs) as Hok'.
  pose proof (grown_aligned t b Hok Hal) as Hgal. simpl in Hgal.
  destruct (target_inv _ _ _ _ _ Htgt) as (ik & Hik & Hik0 & Hdira & Hheapa).
  pose proof Hok as [Hshape Hslots].
  rewrite (IndexOf_shape hash t key Hshape) in Hik. injection Hik as <-.
  destruct (split_target hash t key a b Hshape Htgt Hbok Hd30)
    as (t1 & Hs1 & Hshape' & Hgd & Hbs & _ & Hheap & Hdir & _).
  rewrite Hs in Hs1. injection Hs1 as <-.
  pose proof Hbok as (Hbd & Hbsz & Hbnd & Hblen).
  destruct (grow_slot hash t key a b Hshape Hbd Hd30 Hdira)
    as (gd & d & _ & Hgd' & Hd' & Hgd30 & Hdlen & Hslot).
  rewrite <- Hgd in Hgd'. subst gd. rewrite <- Hd' in Hdir, Hgal.
  set (a0 := length (heap_ t)) in *. set (a1 := S (length (heap_ t))) in *.
  set (db := depth_ b) in *.
  assert (0 < 2 ^ db) as Hpdb by (apply Z.pow_pos_nonneg; lia).
  assert (2 ^ (db + 1) <= 2 ^ global_depth_ t') as Hpow
    by (apply Z.pow_le_mono_r; lia).
  assert (2 ^ (db + 1) = 2 * 2 ^ db) as Hpow2
    by (rewrite Z.pow_add_r by lia; change (2 ^ 1) with 2; lia).
  assert (length (dir_ t') = length d) as Hlen' by (by rewrite Hdir, redirect_length).
  (* every slot of the grown directory *)
  assert (forall j p, d !! j = Some p ->
            exists bp, heap_ t !! p = Some bp /\ (p < a0)%nat /\
              dir_ t' !! j =
                Some (if bool_decide (p = a)
                      then (if Z.testbit (Z.of_nat j) db then a1 else a0) else p))
    as Hslot'.
  { intros j p Hp. rewrite Hd' in Hp.
    destruct (grown_lookup _ _ _ _ Hp) as (j' & Hj').
    destruct (Hslots _ _ Hj') as (bp & Hbp & _).
    exists bp. split; [done|]. split; [by eapply lookup_lt_Some|].
    rewrite Hdir. apply redirect_slot; [lia|]. by rewrite Hd'. }
  (* the two slots that witness the new buckets *)
  set (j0 := Z.to_nat ((hash key mod 2 ^ global_depth_ t') mod 2 ^ db)).
  set (j1 := Z.to_nat ((hash key mod 2 ^ global_depth_ t') mod 2 ^ db + 2 ^ db)).
  assert (0 < 2 ^ global_depth_ t') as Hpgd by (apply Z.pow_pos_nonneg; lia).
  pose proof (Z.mod_pos_bound (hash key) _ Hpgd) as Hkb.
  pose proof (Z.mod_pos_bound (hash key mod 2 ^ global_depth_ t') _ Hpdb) as Hjb.
  assert (d !! j0 = Some a /\ Z.testbit (Z.of_nat j0) db = false) as [Hj0 Hb0].
  { split.
    - apply (Hgal _ j0 a b Hslot Hheapa); [lia|].
      unfold j0. rewrite !Z2Nat.id by lia. apply Z.mod_mod. lia.
    - apply testbit_below. unfold j0. rewrite Z2Nat.id by lia. lia. }
  assert (d !! j1 = Some a /\ Z.testbit (Z.of_nat j1) db = true) as [Hj1 Hb1].
  { split.
    - apply (Hgal _ j1 a b Hslot Hheapa); [lia|].
      unfold j1. rewrite !Z2Nat.id by lia.
      replace (2 ^ db) with (1 * 2 ^ db) at 2 by lia.
      rewrite Z.mod_add by lia. apply Z.mod_mod. lia.
    - unfold j1. rewrite Z2Nat.id by lia. apply testbit_add_pow; lia. }
  split.
  - (* alignment *)
    intros i j x bx Hi Hx Hj. rewrite Hlen' in Hj.
    destruct (lookup_lt_is_Some_2 d i) as [pi Hpi];
      [rewrite <- Hlen'; by eapply lookup_lt_Some|].
    destruct (lookup_lt_is_Some_2 d j) as [pj Hpj]; [done|].
    destruct (Hslot' _ _ Hpi) as (bpi & Hbpi & Hlti & Hdi).
    destruct (Hslot' _ _ Hpj) as (bpj & Hbpj & Hltj & Hdj).
    rewrite Hi in Hdi. injection Hdi as ->. rewrite Hdj.
    pose proof (Hgal i j pi bpi Hpi Hbpi Hj) as Hij. rewrite Hpj in Hij.
    rewrite Hheap in Hx.
    destruct (bool_decide_reflect (pi = a)) as [Hpia|Hnia].
    + subst pi. rewrite Hheapa in Hbpi. injection Hbpi as <-. fold db in Hij.
      assert (depth_ bx = db + 1) as ->.
      { destruct (Z.testbit (Z.of_nat i) db).
        - rewrite lookup_app_r in Hx by (unfold a1, a0; lia).
          replace (a1 - length (heap_ t))%nat with 1%nat in Hx by (unfold a1; lia).
          by injection Hx as <-.
        - rewrite lookup_app_r in Hx by (unfold a0; lia).
          replace (a0 - length (heap_ t))%nat with 0%nat in Hx by (unfold a0; lia).
          by injection Hx as <-. }
      rewrite mod_succ_iff by lia. rewrite <- Hij.
      destruct (bool_decide_reflect (pj = a)) as [Hpja|Hnja]; [subst pj|].
      * destruct (Z.testbit (Z.of_nat i) db), (Z.testbit (Z.of_nat j) db);
          split; try done; try (by intros [_ ?]);
          intros [= Hc]; unfold a0, a1 in Hc; lia.
      * split; [|by intros [[= ?] _]].
        intros [= Hc]. destruct (Z.testbit (Z.of_nat i) db); unfold a0, a1 in *; lia.
    + rewrite lookup_app_l in Hx by (unfold a0 in Hlti; lia).
      rewrite Hbpi in Hx. injection Hx as <-. rewrite <- Hij.
      destruct (bool_decide_reflect (pj = a)) as [Hpja|Hnja]; [subst pj|done].
      split; [|by intros [= ?]].
      intros [= Hc]. destruct (Z.testbit (Z.of_nat j) db); unfold a0, a1 in *; lia.
  - (* count *)
    assert (buckets_in_use t' = (buckets_in_use t ∖ {[a]}) ∪ ({[a0]} ∪ {[a1]}))
      as Hset.
    { apply set_eq. intros x. unfold buckets_in_use.
      rewrite elem_of_union, elem_of_difference, !elem_of_list_to_set,
        elem_of_union, !elem_of_singleton.
      rewrite !list_elem_of_lookup. split.
      - intros [j Hj].
        destruct (lookup_lt_is_Some_2 d j) as [pj Hpj];
          [rewrite <- Hlen'; by eapply lookup_lt_Some|].
        destruct (Hslot' _ _ Hpj) as (bpj & Hbpj & Hltj & Hdj).
        rewrite Hj in Hdj. injection Hdj as ->.
        destruct (bool_decide_reflect (pj = a)) as [Hpja|Hnja]; [subst pj|].
        + right. destruct (Z.testbit (Z.of_nat j) db); tauto.
        + left. split; [|done]. rewrite Hd' in Hpj.
          by apply (grown_lookup _ _ _ _ Hpj).
      - intros [[[j Hj] Hxa]|[->| ->]].
        + exists j. assert (d !! j = Some x) as Hdj.
          { rewrite Hd'. case_bool_decide; [|done].
            rewrite lookup_app_l; [done|]. by eapply lookup_lt_Some. }
          destruct (Hslot' _ _ Hdj) as (_ & _ & _ & ->).
          by rewrite bool_decide_eq_false_2.
        + exists j0. destruct (Hslot' _ _ Hj0) as (_ & _ & _ & ->).
          by rewrite bool_decide_eq_true_2, Hb0.
        + exists j1. destruct (Hslot' _ _ Hj1) as (_ & _ & _ & ->).
          by rewrite bool_decide_eq_true_2, Hb1. }
    assert (forall x, x ∈ buckets_in_use t -> (x < a0)%nat) as Hold.
    { intros x Hx. unfold buckets_in_use in Hx.
      apply elem_of_list_to_set, list_elem_of_lookup in Hx as [j Hj].
      destruct (Hslots _ _ Hj) as (bx & Hbx & _). by eapply lookup_lt_Some. }
    assert (a ∈ buckets_in_use t) as Hain.
    { unfold buckets_in_use. apply elem_of_list_to_set, list_elem_of_lookup. eauto. }
    rewrite Hset. rewrite size_union.
    2:{ intros x [Hx _]%elem_of_difference
          [->%elem_of_singleton| ->%elem_of_singleton]%elem_of_union;
          apply Hold in Hx; unfold a0, a1 in *; lia. }
    rewrite (size_union (C:=gset nat) {[a0]} {[a1]}).
    2:{ apply disjoint_singleton_l. rewrite elem_of_singleton. unfold a0, a1. lia. }
    rewrite (size_difference (C:=gset nat)) by by apply singleton_subseteq_l.
    rewrite !(size_singleton (C:=gset nat)).
    assert (size (buckets_in_use t) <> 0)%nat; [|lia].
    intros Hz. apply size_empty_inv in Hz. by apply Hz in Hain.
Qed.

Lemma split_loop_count key (fuel : nat) :
  forall (t t' : Table),
  table_ok t -> dir_aligned t ->
  num_buckets_ t = Z.of_nat (size (buckets_in_use t)) ->
  split_loop hash fuel t key = Done t' ->
  dir_aligned t' /\ num_buckets_ t' = Z.of_nat (size (buckets_in_use t')).
Proof.
  induction fuel as [|fuel IH]; intros t t' Hok Hal Hn Hrun; simpl in Hrun.
  - destruct (target hash t key) as [[a b]|] eqn:Ht; [|done].
    destruct (IsFull b) eqn:Hf; [done|]. by injection Hrun as <-.
  - destruct (target hash t key) as [[a b]|] eqn:Ht; [|done].
    destruct (IsFull b) eqn:Hf; [|by injection Hrun as <-].
    destruct (split hash t key) as [t1|] eqn:Hs; [|done].
    destruct (split_count t t1 key a b Hok Hal Ht Hs) as [Hal1 Hsz1].
    apply (IH t1 t' (split_table_ok _ _ _ _ _ _ Hok Ht Hs) Hal1); [|done].
    pose proof (split_Some_depth _ _ _ _ _ _ Hok Ht Hs) as Hd30.
    destruct (split_target hash t key a b (proj1 Hok) Ht
                (target_bucket_ok _ _ _ _ _ Hok Ht) Hd30)
      as (t1' & Hs' & _ & _ & _ & Hnb & _).
    rewrite Hs in Hs'. injection Hs' as <-. rewrite Hnb, Hsz1, Hn. lia.
Qed.

Lemma Insert_count fuel (t t' : Table) key value :
  table_ok t -> dir_aligned t ->
  num_buckets_ t = Z.of_nat (size (buckets_in_use t)) ->
  Insert hash fuel t key value = Done t' ->
  dir_aligned t' /\ num_buckets_ t' = Z.of_nat (size (buckets_in_use t')).
Proof.
  intros Hok Hal Hn Hrun. unfold Insert in Hrun.
  destruct (split_loop hash fuel t key) as [t1| |] eqn:Hl; try done.
  destruct (split_loop_count key fuel t t1 Hok Hal Hn Hl) as [Hal1 Hn1].
  destruct (split_loop_frame hash key fuel t t1 Hok Hl)
    as (Hok1 & _ & a1 & b1 & Htgt1 & _).
  destruct (store_frame hash t1 key value a1 b1 Hok1 Htgt1)
    as (t2 & Hst & _ & Hdir & _ & Hnb & Hheap & _).
  simpl in Hrun. rewrite Hst in Hrun. injection Hrun as <-.
  split.
  - intros i j x bx Hi Hx Hj. rewrite Hdir in Hi, Hj. rewrite Hdir.
    rewrite Hheap in Hx.
    destruct (target_inv _ _ _ _ _ Htgt1) as (_ & _ & _ & _ & Hb1).
    destruct (decide (x = a1)) as [->|Hne].
    + rewrite list_lookup_insert_eq in Hx by by eapply lookup_lt_Some.
      injection Hx as <-.
      assert (depth_ (Bucket_Insert key value b1).2 = depth_ b1) as ->.
      { unfold Bucket_Insert.
        destruct (overwrite key value (list_ b1)); [done|]. by destruct (IsFull b1). }
      by apply (Hal1 i j a1 b1).
    + rewrite list_lookup_insert_ne in Hx by done. by apply (Hal1 i j x bx).
  - unfold buckets_in_use in *. by rewrite Hnb, Hdir.
Qed.

End Count.

Section Reach.
Context {K V : Type} `{EqDecision K} `{EqDecision V}.
Variable hash : K -> Z.

Abbreviation Table := (@Table K V).

Lemma Remove_count (t t' : Table) key r :
  table_ok t -> dir_aligned t ->
  num_buckets_ t = Z.of_nat (size (buckets_in_use t)) ->
  Remove hash t key = Some (r, t') ->
  dir_aligned t' /\ num_buckets_ t' = Z.of_nat (size (buckets_in_use t')).
Proof.
  intros Hok Hal Hn Hrun. unfold Remove in Hrun.
  destruct (target hash t key) as [[a b]|] eqn:Htgt; [|done].
  injection Hrun as <- <-. split; [|done].
  destruct (target_inv _ _ _ _ _ Htgt) as (_ & _ & _ & _ & Hb).
  intros i j x bx Hi Hx Hj. simpl in *.
  destruct (decide (x = a)) as [->|Hne].
  - rewrite list_lookup_insert_eq in Hx by by eapply lookup_lt_Some.
    injection Hx as <-.
    assert (depth_ (Bucket_Remove key b).2 = depth_ b) as ->.
    { unfold Bucket_Remove. by destruct (first_match key (list_ b)). }
    by apply (Hal i j a b).
  - rewrite list_lookup_insert_ne in Hx by done. by apply (Hal i j x bx).
Qed.

(** Every table a client can hold is well formed: the directory has
    [2 ^ global_depth] slots, and each slot refers to a bucket whose local
    depth lies between 0 and the global depth, whose capacity is the
    table's, and which holds at most that many pairs and no key twice. *)
Theorem reachable_table_ok bucket_size (t : Table) :
  0 <= bucket_size -> reachable hash bucket_size t -> table_ok t.
Proof.
  intros Hbs Hr. induction Hr as [|fuel t key value t' _ IH Hrun|t key r t' _ IH Hrun].
  - by apply (proj1 (table_ok_invariant hash)).
  - by apply (proj1 (proj2 (table_ok_invariant hash)) fuel t t' key value).
  - by apply (proj2 (proj2 (table_ok_invariant hash)) t t' key r).
Qed.

(** In every table a client can hold, [GetNumBuckets] is the number of
    distinct buckets the directory refers to, and a bucket of local depth
    [d] is shared by exactly the slots whose indices agree on their low
    [d] bits. *)
Theorem reachable_num_buckets bucket_size (t : Table) :
  0 <= bucket_size -> reachable hash bucket_size t ->
  GetNumBuckets t = Z.of_nat (size (buckets_in_use t)) /\ dir_aligned t.
Proof.
  intros Hbs Hr.
  cut (table_ok t /\
       GetNumBuckets t = Z.of_nat (size (buckets_in_use t)) /\ dir_aligned t).
  { by intros [_ H]. }
  induction Hr as [|fuel t key value t' Hr IH Hrun|t key r t' Hr IH Hrun].
  - split; [by apply (proj1 (table_ok_invariant hash))|]. split.
    + unfold buckets_in_use, ExtendibleHashTable, GetNumBuckets. cbn [dir_ num_buckets_].
      by rewrite list_to_set_singleton_L, (size_singleton (C:=gset nat)).
    + intros i j a b Hi Hb Hj. simpl in *.
      apply list_lookup_singleton_Some in Hi as [-> <-].
      injection Hb as <-. simpl. rewrite !Z.mod_1_r.
      assert (j = 0%nat) as -> by lia. done.
  - destruct IH as (Hok & Hn & Hal).
    split; [by apply (proj1 (proj2 (table_ok_invariant hash)) fuel t t' key value)|].
    destruct (Insert_count hash fuel t t' key value Hok Hal Hn Hrun). done.
  - destruct IH as (Hok & Hn & Hal).
    split; [by apply (proj2 (proj2 (table_ok_invariant hash)) t t' key r)|].
    destruct (Remove_count t t' key r Hok Hal Hn Hrun). done.
Qed.

End Reach.

Lemma table_S2_reachable : reachable hash_int 1 table_S2.
Proof.
  apply (reach_Insert hash_int 1 1%nat (ExtendibleHashTable 1) 0 7);
    [apply reach_new|reflexivity].
Qed.

Lemma reachable_table_ok_witness : table_ok table_S2.
Proof.
  apply (reachable_table_ok hash_int 1 table_S2); [lia|apply table_S2_reachable].
Defined.

Lemma reachable_num_buckets_witness :
  exists t,
    Insert hash_int 5 table_S2 1 8 = Done t /\ GetNumBuckets t = 2 /\
    GetNumBuckets t = Z.of_nat (size (buckets_in_use t)) /\ dir_aligned t.
Proof.
  eexists. split; [reflexivity|]. split; [reflexivity|].
  apply (reachable_num_buckets hash_int 1); [lia|].
  apply (reach_Insert hash_int 1 5%nat table_S2 1 8);
    [apply table_S2_reachable|reflexivity].
Defined.

End EHTCount.

(* ====================================================================== *)
(** * B+tree pages: search, insertion and removal in a page *)
(* ====================================================================== *)

Module BPTLaws.
Import BPT BPTFacts.

Section LeafLaws.
Context {KeyType ValueType : Type}.
Variable comparator : KeyType -> KeyType -> Z.
Context `{!KeyOrder comparator}.

Abbreviation LeafPage := (@LeafPage KeyType ValueType).

(** The result of [KeyIndex] is determined by its two bounds. *)
Lemma L_KeyIndex_is (p : LeafPage) key r :
  sorted comparator (larr p) (L_size p) -> 0 < L_size p ->
  -1 <= r < L_size p ->
  (forall i, 0 <= i <= r -> comparator (larr p i).1 key <= 0) ->
  (forall i, r < i < L_size p -> comparator (larr p i).1 key > 0) ->
  L_KeyIndex comparator p key = Done r.
Proof.
  intros Hs Hn Hr Hlo Hhi.
  destruct (L_KeyIndex_spec comparator p key Hs Hn) as (r' & -> & Hr' & Hlo' & Hhi').
  f_equal. destruct (Z.lt_trichotomy r r') as [Hlt|[->|Hgt]]; [|done|].
  - specialize (Hlo' r' ltac:(lia)). specialize (Hhi r' ltac:(lia)). lia.
  - specialize (Hlo r ltac:(lia)). specialize (Hhi' r ltac:(lia)). lia.
Qed.

(** [KeyIndex] asserts that the leaf is not empty; on a sorted leaf it
    returns the last slot whose key is at most [key], and [-1] when every
    key of the leaf is larger. *)
Theorem L_KeyIndex_last_le (p : LeafPage) key :
  sorted comparator (larr p) (L_size p) ->
  (L_size p <= 0 -> L_KeyIndex comparator p key = Fault) /\
  (0 < L_size p ->
   exists r, L_KeyIndex comparator p key = Done r /\
     -1 <= r < L_size p /\
     (forall i, 0 <= i <= r -> comparator (larr p i).1 key <= 0) /\
     (forall i, r < i < L_size p -> comparator (larr p i).1 key > 0) /\
     (r = -1 <-> comparator (larr p 0).1 key > 0)).
Proof.
  intros Hs. split.
  - intros Hn. unfold L_KeyIndex. rewrite bool_decide_eq_false_2; [done|lia].
  - intros Hn.
    destruct (L_KeyIndex_spec comparator p key Hs Hn) as (r & Hrun & Hr & Hlo & Hhi).
    exists r. repeat (split; [done|]). split.
    + intros ->. apply Hhi. lia.
    + intros H0. destruct (decide (r = -1)); [done|].
      specialize (Hlo 0 ltac:(lia)). lia.
Qed.

(** [Lookup] on a sorted, non-empty leaf.  A key that is in the leaf is
    found with its value; a key that is not, and is not below the first
    key, is reported missing.  For a key below the first key [KeyIndex]
    returns [-1] and the answer is read off [array_[-1]]. *)
Theorem L_Lookup_spec (p : LeafPage) key :
  sorted comparator (larr p) (L_size p) -> 0 < L_size p ->
  (forall i, key_at_slot comparator (larr p) (L_size p) key i ->
     L_Lookup comparator p key = Done (Some (larr p i).2)) /\
  ((forall i, 0 <= i < L_size p -> comparator (larr p i).1 key <> 0) ->
   comparator (larr p 0).1 key <= 0 ->
   L_Lookup comparator p key = Done None) /\
  (comparator (larr p 0).1 key > 0 ->
   L_Lookup comparator p key =
     Done (if bool_decide (comparator (larr p (-1)).1 key = 0)
           then Some (larr p (-1)).2 else None)).
Proof.
  intros Hs Hn. split; [|split].
  - intros i Hi. by apply L_Lookup_present.
  - intros Hno H0.
    destruct (L_KeyIndex_spec comparator p key Hs Hn) as (r & Hrun & Hr & Hlo & Hhi).
    unfold L_Lookup. rewrite Hrun. simpl.
    destruct (decide (r = -1)) as [->|Hr'].
    { specialize (Hhi 0 ltac:(lia)). lia. }
    rewrite bool_decide_eq_true_2 by lia.
    rewrite bool_decide_eq_false_2; [done|]. apply Hno. lia.
  - intros H0.
    unfold L_Lookup. rewrite (L_KeyIndex_is p key (-1) Hs Hn); [|lia|intros; lia|].
    + simpl. rewrite bool_decide_eq_true_2 by lia. simpl.
      by case_bool_decide.
    + intros i Hi. destruct (decide (i = 0)) as [->|Hne]; [done|].
      apply (cmp_gt_flip comparator).
      pose proof (proj1 (cmp_gt_flip comparator _ _) H0) as H0'.
      apply (cmp_trans key (larr p 0).1); [done|]. apply Hs; lia.
Qed.

(** The leaf's [Insert] of a key that is not there, on a sorted leaf:
    the pair is written to the slot after the last key below it, the
    entries from there on move up by one, and the leaf stays sorted. *)
Lemma L_Insert_absent (p : LeafPage) key value :
  sorted comparator (larr p) (L_size p) -> 0 <= L_size p ->
  (forall i, 0 <= i < L_size p -> comparator (larr p i).1 key <> 0) ->
  exists p' idx,
    L_Insert comparator p key value = Done (L_size p + 1, p') /\
    lhdr p' = IncreaseSize (lhdr p) 1 /\
    next_page_id_ p' = next_page_id_ p /\
    0 <= idx <= L_size p /\
    (forall j, j < idx -> larr p' j = larr p j) /\
    larr p' idx = (key, value) /\
    (forall j, idx < j <= L_size p -> larr p' j = larr p (j - 1)) /\
    (forall j, 0 <= j < idx -> comparator (larr p j).1 key < 0) /\
    (forall j, idx <= j < L_size p -> comparator key (larr p j).1 < 0) /\
    sorted comparator (larr p') (L_size p + 1).
Proof.
  intros Hs Hn Hno.
  assert (forall (a' : Z -> KeyType * ValueType) idx,
            0 <= idx <= L_size p ->
            (forall j, j < idx -> a' j = larr p j) ->
            a' idx = (key, value) ->
            (forall j, idx < j <= L_size p -> a' j = larr p (j - 1)) ->
            (forall j, 0 <= j < idx -> comparator (larr p j).1 key < 0) ->
            (forall j, idx <= j < L_size p -> comparator key (larr p j).1 < 0) ->
            sorted comparator a' (L_size p + 1)) as Hsorted.
  { intros a' idx Hidx Hlow Hat Hup Hlt Hgt i j Hi Hij Hj.
    destruct (Z.lt_trichotomy i idx) as [Hi'|[->|Hi']];
      destruct (Z.lt_trichotomy j idx) as [Hj'|[->|Hj']]; try lia.
    - rewrite !Hlow by lia. apply Hs; lia.
    - rewrite Hlow, Hat by lia. simpl. apply Hlt. lia.
    - rewrite Hlow, Hup by lia. apply Hs; lia.
    - rewrite Hat, Hup by lia. simpl. apply Hgt. lia.
    - rewrite !Hup by lia. apply Hs; lia. }
  unfold L_Insert. case_bool_decide as H0.
  - exists (mkLeaf (IncreaseSize (lhdr p) 1) (next_page_id_ p)
              (upd (larr p) 0 (key, value))), 0.
    assert (forall j, j < 0 -> upd (larr p) 0 (key, value) j = larr p j) as Hlow
      by (intros j Hj; apply upd_ne; lia).
    split; [unfold L_size in *; simpl; by rewrite H0|].
    split; [done|]. split; [done|]. split; [lia|]. split; [done|].
    split; [apply upd_eq|]. split; [intros; lia|]. split; [intros; lia|].
    split; [intros; lia|].
    apply (Hsorted _ 0); try done; try (intros; lia).
  - destruct (L_KeyIndex_spec comparator p key Hs ltac:(lia))
      as (r & -> & Hr & Hlo & Hhi).
    simpl. rewrite bool_decide_eq_true_2 by lia.
    set (a' := upd (shift_up (Z.to_nat (L_size p + 1 - 1 - (r + 1))) (larr p)
                      (L_size p + 1 - 1)) (r + 1) (key, value)).
    assert (forall j, j < r + 1 -> a' j = larr p j) as Hlow.
    { intros j Hj. unfold a'. rewrite upd_ne by lia. rewrite shift_up_spec.
      rewrite bool_decide_eq_false_2; [done|lia]. }
    assert (a' (r + 1) = (key, value)) as Hat by apply upd_eq.
    assert (forall j, r + 1 < j <= L_size p -> a' j = larr p (j - 1)) as Hup.
    { intros j Hj. unfold a'. rewrite upd_ne by lia. rewrite shift_up_spec.
      rewrite bool_decide_eq_true_2; [done|lia]. }
    assert (forall j, 0 <= j < r + 1 -> comparator (larr p j).1 key < 0) as Hlt.
    { intros j Hj. specialize (Hlo j ltac:(lia)). specialize (Hno j ltac:(lia)). lia. }
    assert (forall j, r + 1 <= j < L_size p -> comparator key (larr p j).1 < 0) as Hgt.
    { intros j Hj. apply (cmp_gt_flip comparator). apply Hhi. lia. }
    eexists _, (r + 1). split; [done|]. simpl. fold a'.
    split; [done|]. split; [done|]. split; [lia|].
    repeat (split; [done|]). apply (Hsorted _ (r + 1)); try done; lia.
Qed.

(** [RemoveAndDeleteRecord] of the key in slot [i] of a sorted leaf: the
    entries above move down by one and the leaf stays sorted. *)
Lemma L_Remove_present (p : LeafPage) key i :
  sorted comparator (larr p) (L_size p) ->
  key_at_slot comparator (larr p) (L_size p) key i ->
  exists p',
    L_RemoveAndDeleteRecord comparator p key = Done (L_size p - 1, p') /\
    lhdr p' = IncreaseSize (lhdr p) (-1) /\
    next_page_id_ p' = next_page_id_ p /\
    (forall j, j < i -> larr p' j = larr p j) /\
    (forall j, i <= j < L_size p - 1 -> larr p' j = larr p (j + 1)) /\
    sorted comparator (larr p') (L_size p - 1) /\
    (forall j, 0 <= j < L_size p - 1 -> comparator (larr p' j).1 key <> 0).
Proof.
  intros Hs Hk. unfold L_RemoveAndDeleteRecord.
  rewrite (L_KeyIndex_present comparator p key i Hs Hk). destruct Hk as [Hi Hk].
  simpl. rewrite bool_decide_eq_false_2 by lia.
  rewrite bool_decide_eq_true_2 by done. simpl.
  set (a' := move_slots (Z.to_nat (L_size p - (i + 1))) (larr p) (i + 1) i).
  assert (forall j, j < i -> a' j = larr p j) as Hlow.
  { intros j Hj. unfold a'. rewrite move_slots_down by lia.
    rewrite bool_decide_eq_false_2; [done|lia]. }
  assert (forall j, i <= j < L_size p - 1 -> a' j = larr p (j + 1)) as Hup.
  { intros j Hj. unfold a'. rewrite move_slots_down by lia.
    rewrite bool_decide_eq_true_2 by lia. f_equal. lia. }
  eexists. split; [unfold L_size; simpl; do 3 f_equal; lia|]. simpl. fold a'.
  split; [done|]. split; [done|]. split; [done|]. split; [done|].
  apply (@cmp_eq _ comparator _) in Hk. split.
  - intros j1 j2 H1 H12 H2.
    destruct (decide (j1 < i)); destruct (decide (j2 < i));
      rewrite ?Hlow, ?Hup by lia; apply Hs; lia.
  - intros j Hj Hc. apply (@cmp_eq _ comparator _) in Hc.
    destruct (decide (j < i)).
    + rewrite Hlow in Hc by lia.
      pose proof (Hs j i ltac:(lia) ltac:(lia) ltac:(lia)) as Hlt.
      rewrite Hc, Hk, (cmp_refl comparator) in Hlt. lia.
    + rewrite Hup in Hc by lia.
      pose proof (Hs i (j + 1) ltac:(lia) ltac:(lia) ltac:(lia)) as Hlt.
      rewrite Hc, Hk, (cmp_refl comparator) in Hlt. lia.
Qed.

(** [RemoveAndDeleteRecord] of a key that matches no slot from [-1] on
    leaves the leaf as it is. *)
Lemma L_Remove_absent (p : LeafPage) key :
  sorted comparator (larr p) (L_size p) -> 0 < L_size p ->
  (forall i, -1 <= i < L_size p -> comparator (larr p i).1 key <> 0) ->
  L_RemoveAndDeleteRecord comparator p key = Done (L_size p, p).
Proof.
  intros Hs Hn Hno. unfold L_RemoveAndDeleteRecord.
  destruct (L_KeyIndex_spec comparator p key Hs Hn) as (r & -> & Hr & _).
  simpl. rewrite bool_decide_eq_false_2 by lia.
  rewrite bool_decide_eq_false_2 by (apply Hno; lia). done.
Qed.

Lemma L_Lookup_absent (p : LeafPage) key :
  sorted comparator (larr p) (L_size p) -> 0 < L_size p ->
  (forall i, -1 <= i < L_size p -> comparator (larr p i).1 key <> 0) ->
  L_Lookup comparator p key = Done None.
Proof.
  intros Hs Hn Hno. unfold L_Lookup.
  destruct (L_KeyIndex_spec comparator p key Hs Hn) as (r & -> & Hr & _).
  simpl. rewrite bool_decide_eq_true_2 by lia.
  rewrite bool_decide_eq_false_2 by (apply Hno; lia). done.
Qed.

(** [Lookup] in the leaf [p'] that [Insert] of an absent key produced:
    the new pair and every old pair are found. *)
Lemma L_Insert_lookups (p p' : LeafPage) key value :
  sorted comparator (larr p) (L_size p) -> 0 <= L_size p ->
  (forall i, 0 <= i < L_size p -> comparator (larr p i).1 key <> 0) ->
  L_Insert comparator p key value = Done (L_size p + 1, p') ->
  L_Lookup comparator p' key = Done (Some value) /\
  forall k i, key_at_slot comparator (larr p) (L_size p) k i ->
    L_Lookup comparator p' k = Done (Some (larr p i).2).
Proof.
  intros Hs Hn Hno Hrun0.
  destruct (L_Insert_absent p key value Hs Hn Hno)
    as (p'' & idx & Hrun & Hhdr & _ & Hidx & Hlow & Hat & Hup & _ & _ & Hs').
  rewrite Hrun in Hrun0. injection Hrun0 as <-.
  assert (L_size p'' = L_size p + 1) as Hsz by (unfold L_size; by rewrite Hhdr).
  rewrite <- Hsz in Hs'. split.
  - replace value with (larr p'' idx).2 by by rewrite Hat.
    apply (L_Lookup_present comparator p'' key idx); [done|].
    split; [lia|]. rewrite Hat. apply (cmp_refl comparator).
  - intros k i [Hi Hk].
    destruct (decide (i < idx)).
    + rewrite <- (Hlow i) by lia.
      apply (L_Lookup_present comparator p'' k i); [done|].
      split; [lia|]. by rewrite Hlow by lia.
    + replace (larr p i) with (larr p'' (i + 1))
        by (rewrite Hup by lia; f_equal; lia).
      apply (L_Lookup_present comparator p'' k (i + 1)); [done|].
      split; [lia|].
      rewrite Hup by lia. by replace (i + 1 - 1) with i by lia.
Qed.

(** [Lookup] in the leaf [p'] left by [RemoveAndDeleteRecord] of the
    key of slot [i]: every other pair is found. *)
Lemma L_Remove_lookups (p p' : LeafPage) key i :
  sorted comparator (larr p) (L_size p) ->
  key_at_slot comparator (larr p) (L_size p) key i ->
  L_RemoveAndDeleteRecord comparator p key = Done (L_size p - 1, p') ->
  forall k j, key_at_slot comparator (larr p) (L_size p) k j -> j <> i ->
    L_Lookup comparator p' k = Done (Some (larr p j).2).
Proof.
  intros Hs Hk Hrun0.
  destruct (L_Remove_present p key i Hs Hk)
    as (p'' & Hrun & Hhdr & _ & Hlow & Hup & Hs' & _).
  rewrite Hrun in Hrun0. injection Hrun0 as <-.
  assert (L_size p'' = L_size p - 1) as Hsz
    by (unfold L_size; rewrite Hhdr; simpl; lia).
  rewrite <- Hsz in Hs'.
  intros k j [Hj Hkj] Hne. destruct Hk as [Hi _].
  destruct (decide (j < i)).
  - rewrite <- (Hlow j) by lia.
    apply (L_Lookup_present comparator p'' k j); [done|].
    split; [lia|]. by rewrite Hlow by lia.
  - replace (larr p j) with (larr p'' (j - 1))
      by (rewrite Hup by lia; f_equal; lia).
    apply (L_Lookup_present comparator p'' k (j - 1)); [done|].
    split; [lia|].
    rewrite Hup by lia. by replace (j - 1 + 1) with j by lia.
Qed.

(** The leaf's [Insert] and [Lookup]: after inserting a key that was not
    there into a sorted leaf, the leaf is sorted, holds one entry more,
    [Lookup] finds the new pair, and every entry it held is still found
    with its value. *)
Theorem L_Insert_then_Lookup (p : LeafPage) key value :
  sorted comparator (larr p) (L_size p) -> 0 <= L_size p ->
  (forall i, 0 <= i < L_size p -> comparator (larr p i).1 key <> 0) ->
  exists p',
    L_Insert comparator p key value = Done (L_size p + 1, p') /\
    L_size p' = L_size p + 1 /\
    sorted comparator (larr p') (L_size p') /\
    L_Lookup comparator p' key = Done (Some value) /\
    forall k i, key_at_slot comparator (larr p) (L_size p) k i ->
      L_Lookup comparator p' k = Done (Some (larr p i).2).
Proof.
  intros Hs Hn Hno.
  destruct (L_Insert_absent p key value Hs Hn Hno)
    as (p' & idx & Hrun & Hhdr & _ & _ & _ & _ & _ & _ & _ & Hs').
  assert (L_size p' = L_size p + 1) as Hsz by (unfold L_size; by rewrite Hhdr).
  exists p'. split; [done|]. split; [done|]. split; [by rewrite Hsz|].
  by apply (L_Insert_lookups p p' key value).
Qed.

(** [RemoveAndDeleteRecord] and [Lookup]: removing a key held by a sorted
    leaf leaves it sorted with one entry less, the key in none of its
    slots and every other entry still found; a key that matches no slot
    leaves the leaf as it is and the size returned is the old one. *)
Theorem L_Remove_then_Lookup (p : LeafPage) key :
  sorted comparator (larr p) (L_size p) -> 0 < L_size p ->
  (forall i, key_at_slot comparator (larr p) (L_size p) key i ->
     exists p',
       L_RemoveAndDeleteRecord comparator p key = Done (L_size p - 1, p') /\
       L_size p' = L_size p - 1 /\
       sorted comparator (larr p') (L_size p') /\
       (forall j, 0 <= j < L_size p' -> comparator (larr p' j).1 key <> 0) /\
       forall k j, key_at_slot comparator (larr p) (L_size p) k j -> j <> i ->
         L_Lookup comparator p' k = Done (Some (larr p j).2)) /\
  ((forall i, -1 <= i < L_size p -> comparator (larr p i).1 key <> 0) ->
   L_RemoveAndDeleteRecord comparator p key = Done (L_size p, p)).
Proof.
  intros Hs Hn. split; [|by apply L_Remove_absent].
  intros i Hk.
  destruct (L_Remove_present p key i Hs Hk)
    as (p' & Hrun & Hhdr & _ & _ & _ & Hs' & Hgone).
  assert (L_size p' = L_size p - 1) as Hsz
    by (unfold L_size; rewrite Hhdr; simpl; lia).
  exists p'. split; [done|]. split; [done|]. rewrite Hsz.
  split; [done|]. split; [done|].
  by apply (L_Remove_lookups p p' key i).
Qed.

End LeafLaws.

Section InternalLaws.
Context {KeyType : Type}.
Variable comparator : KeyType -> KeyType -> Z.
Context `{!KeyOrder comparator}.

Abbreviation InternalPage := (@InternalPage KeyType).

Lemma ValueIndex_from_spec (n : nat) (a : Z -> KeyType * Z) value :
  forall i, 0 <= i ->
  let r := ValueIndex_from n a value i in
  (r = -1 /\ forall j, i <= j < i + Z.of_nat n -> (a j).2 <> value) \/
  (i <= r < i + Z.of_nat n /\ (a r).2 = value /\
   forall j, i <= j < r -> (a j).2 <> value).
Proof.
  induction n as [|n IH]; intros i Hi; simpl.
  - left. split; [done|]. intros; lia.
  - case_bool_decide as Hv.
    + right. split; [lia|]. split; [done|]. intros; lia.
    + destruct (IH (i + 1) ltac:(lia)) as [[Hr Hno]|(Hr & Hat & Hno)].
      * left. split; [done|]. intros j Hj.
        destruct (decide (j = i)) as [->|]; [done|]. apply Hno. lia.
      * right. split; [lia|]. split; [done|]. intros j Hj.
        destruct (decide (j = i)) as [->|]; [done|]. apply Hno. lia.
Qed.

(** [ValueIndex]: the first slot that holds the child, [-1] when no slot
    does. *)
Lemma I_ValueIndex_spec (p : InternalPage) value :
  let r := I_ValueIndex p value in
  (r = -1 /\ forall j, 0 <= j < I_size p -> I_ValueAt p j <> value) \/
  (0 <= r < I_size p /\ I_ValueAt p r = value /\
   forall j, 0 <= j < r -> I_ValueAt p j <> value).
Proof.
  unfold I_ValueIndex, I_ValueAt.
  destruct (ValueIndex_from_spec (Z.to_nat (I_size p)) (iarr p) value 0 ltac:(lia))
    as [[Hr Hno]|(Hr & Hat & Hno)].
  - left. split; [done|]. intros j Hj. apply Hno. lia.
  - right. split; [lia|]. done.
Qed.

(** [InsertNodeAfter]: the new pair lands in the slot after the first one
    that holds [old_value], the entries from there on move up by one, and
    the new size is returned.  When no slot holds [old_value] the pair
    lands in slot 0. *)
Theorem I_InsertNodeAfter_spec (p : InternalPage) old_value new_key new_value :
  0 <= I_size p ->
  let i := I_ValueIndex p old_value in
  let p' := (I_InsertNodeAfter p old_value new_key new_value).2 in
  ((i = -1 /\ forall j, 0 <= j < I_size p -> I_ValueAt p j <> old_value) \/
   (0 <= i < I_size p /\ I_ValueAt p i = old_value /\
    forall j, 0 <= j < i -> I_ValueAt p j <> old_value)) /\
  (I_InsertNodeAfter p old_value new_key new_value).1 = I_size p + 1 /\
  I_size p' = I_size p + 1 /\
  (forall j, j <= i -> iarr p' j = iarr p j) /\
  iarr p' (i + 1) = (new_key, new_value) /\
  (forall j, i + 1 < j <= I_size p -> iarr p' j = iarr p (j - 1)).
Proof.
  intros Hn i p'. pose proof (I_ValueIndex_spec p old_value) as Hi. fold i in Hi.
  assert (-1 <= i < I_size p \/ (i = -1 /\ I_size p = 0)) as Hb by (simpl in Hi; lia).
  split; [exact Hi|]. subst p'. unfold I_InsertNodeAfter. fold i. simpl.
  split; [done|]. split; [done|]. split; [|split].
  - intros j Hj. rewrite upd_ne by lia. rewrite move_slots_backward_spec by lia.
    rewrite bool_decide_eq_false_2; [done|lia].
  - apply upd_eq.
  - intros j Hj. rewrite upd_ne by lia. rewrite move_slots_backward_spec by lia.
    rewrite bool_decide_eq_true_2 by lia. f_equal. lia.
Qed.

Lemma cmp_ge_flip a b : comparator a b >= 0 -> comparator b a <= 0.
Proof.
  intros H. destruct (decide (comparator a b = 0)) as [He|Hne].
  - apply (@cmp_eq _ comparator _) in He as ->. by rewrite (cmp_refl comparator).
  - assert (comparator a b > 0) as Hgt by lia.
    apply (cmp_gt_flip comparator) in Hgt. lia.
Qed.

Lemma lower_bound_spec (a : Z -> KeyType * Z) (n : Z) key (fuel : nat) :
  (forall i j, 1 <= i -> i < j -> j < n -> comparator (a i).1 (a j).1 < 0) ->
  forall first len,
  1 <= first -> 0 <= len -> first + len <= n -> len <= Z.of_nat fuel ->
  (forall j, 1 <= j < first -> comparator (a j).1 key < 0) ->
  (forall j, first + len <= j < n -> comparator (a j).1 key >= 0) ->
  let f := lower_bound comparator fuel a key first len in
  first <= f <= first + len /\
  (forall j, 1 <= j < f -> comparator (a j).1 key < 0) /\
  (forall j, f <= j < n -> comparator (a j).1 key >= 0).
Proof.
  intros Hs. induction fuel as [|fuel IH]; intros first len H1 Hl Hn Hf Hlo Hhi; simpl.
  - split; [lia|]. split; [done|]. intros j Hj. apply Hhi. lia.
  - case_bool_decide as Hpos.
    2:{ split; [lia|]. split; [done|]. intros j Hj. apply Hhi. lia. }
    assert (0 <= Z.shiftr len 1 /\ 2 * Z.shiftr len 1 <= len) as Hh.
    { rewrite Z.shiftr_div_pow2 by lia. change (2 ^ 1) with 2.
      pose proof (Z.div_pos len 2 ltac:(lia) ltac:(lia)).
      pose proof (Z.mul_div_le len 2 ltac:(lia)). lia. }
    set (half := Z.shiftr len 1) in *.
    case_bool_decide as Hcmp.
    + destruct (IH (first + half + 1) (len - half - 1)) as (Hf1 & Hlo1 & Hhi1);
        try lia.
      * intros j Hj. destruct (decide (j = first + half)) as [->|Hne]; [done|].
        destruct (decide (j < first)); [apply Hlo; lia|].
        apply (cmp_trans _ (a (first + half)).1); [|done]. apply Hs; lia.
      * intros j Hj. apply Hhi. lia.
      * split; [lia|]. done.
    + destruct (IH first half) as (Hf1 & Hlo1 & Hhi1); try lia.
      * done.
      * intros j Hj. destruct (decide (j = first + half)) as [->|Hne]; [lia|].
        assert (comparator key (a j).1 < 0); [|apply cmp_flip in H; lia].
        apply (cmp_le_lt comparator _ (a (first + half)).1);
          [apply cmp_ge_flip; lia|apply Hs; lia].
      * split; [lia|]. done.
Qed.

(** [Lookup] on an internal page with sorted keys: the child of the last
    slot, from slot 1 on, whose key is at most [key]; the child of slot 0
    when there is none. *)
Theorem I_Lookup_spec (p : InternalPage) key :
  1 <= I_size p -> keys_sorted comparator p ->
  exists i, 0 <= i < I_size p /\
    I_Lookup comparator p key = I_ValueAt p i /\
    (forall j, 1 <= j <= i -> comparator (I_KeyAt p j) key <= 0) /\
    (forall j, i < j < I_size p -> comparator (I_KeyAt p j) key > 0).
Proof.
  intros Hn Hs. unfold I_Lookup, I_KeyAt.
  destruct (lower_bound_spec (iarr p) (I_size p) key (Z.to_nat (I_size p)) Hs
              1 (I_size p - 1)) as (Hf & Hlo & Hhi); try (intros; lia).
  set (f := lower_bound comparator (Z.to_nat (I_size p)) (iarr p) key 1 (I_size p - 1))
    in *.
  case_bool_decide as Hend.
  - exists (I_size p - 1). split; [lia|]. split; [done|]. split.
    + intros j Hj. specialize (Hlo j ltac:(lia)). lia.
    + intros; lia.
  - case_bool_decide as Hle.
    + exists f. split; [lia|]. split; [done|]. split.
      * intros j Hj. destruct (decide (j = f)) as [->|]; [done|].
        specialize (Hlo j ltac:(lia)). lia.
      * intros j Hj. specialize (Hhi f ltac:(lia)).
        assert (comparator (iarr p f).1 key = 0) as He by lia.
        apply (@cmp_eq _ comparator _) in He. rewrite <- He.
        apply (cmp_gt_flip comparator). apply Hs; lia.
    + exists (f - 1). split; [lia|]. split; [done|]. split.
      * intros j Hj. specialize (Hlo j ltac:(lia)). lia.
      * intros j Hj. destruct (decide (j = f)) as [->|Hne]; [lia|].
        apply (cmp_gt_flip comparator).
        apply (cmp_trans _ (iarr p f).1); [|apply Hs; lia].
        apply cmp_flip. lia.
Qed.

End InternalLaws.

Lemma root_leaf_123_size : L_size root_leaf_123 = 3.
Proof. reflexivity. Qed.

Lemma root_leaf_123_lacks_4 :
  forall i, 0 <= i < L_size root_leaf_123 -> cmpZ (larr root_leaf_123 i).1 4 <> 0.
Proof.
  intros i Hi. rewrite root_leaf_123_size in Hi.
  assert (i = 0 \/ i = 1 \/ i = 2) as [-> | [-> | ->]] by lia; discriminate.
Qed.

Lemma root_leaf_123_has_3 :
  key_at_slot cmpZ (larr root_leaf_123) (L_size root_leaf_123) 3 2.
Proof. split; [rewrite root_leaf_123_size; lia|reflexivity]. Qed.

Lemma root_of_two_sorted : keys_sorted cmpZ root_of_two.
Proof.
  intros i j Hi Hij Hj. change (I_size root_of_two) with 2 in Hj. lia.
Qed.

Lemma L_KeyIndex_last_le_witness :
  exists r, L_KeyIndex cmpZ root_leaf_123 2 = Done r /\ -1 <= r < 3 /\
    (forall i, 0 <= i <= r -> cmpZ (larr root_leaf_123 i).1 2 <= 0) /\
    (forall i, r < i < 3 -> cmpZ (larr root_leaf_123 i).1 2 > 0).
Proof.
  destruct (L_KeyIndex_last_le cmpZ root_leaf_123 2 root_leaf_123_sorted) as [_ H].
  destruct (H ltac:(rewrite root_leaf_123_size; lia)) as (r & Hr & Hb & Hle & Hgt & _).
  exists r. split; [exact Hr|]. split; [exact Hb|]. split; [exact Hle|exact Hgt].
Defined.

Lemma L_Lookup_spec_witness : L_Lookup cmpZ root_leaf_123 2 = Done (Some 2).
Proof.
  destruct (L_Lookup_spec cmpZ root_leaf_123 2 root_leaf_123_sorted
              ltac:(rewrite root_leaf_123_size; lia)) as [H _].
  exact (H 1 root_leaf_123_has_2).
Defined.

Lemma L_Insert_then_Lookup_witness :
  exists p',
    L_Insert cmpZ root_leaf_123 4 4 = Done (4, p') /\
    L_size p' = 4 /\ sorted cmpZ (larr p') (L_size p') /\
    L_Lookup cmpZ p' 4 = Done (Some 4) /\ L_Lookup cmpZ p' 2 = Done (Some 2).
Proof.
  destruct (L_Insert_then_Lookup cmpZ root_leaf_123 4 4 root_leaf_123_sorted
              ltac:(rewrite root_leaf_123_size; lia) root_leaf_123_lacks_4)
    as (p' & Hrun & Hsz & Hs & Hnew & Hold).
  exists p'. split; [exact Hrun|]. split; [exact Hsz|]. split; [exact Hs|].
  split; [exact Hnew|]. exact (Hold 2 1 root_leaf_123_has_2).
Defined.

Lemma L_Remove_then_Lookup_witness :
  exists p',
    L_RemoveAndDeleteRecord cmpZ root_leaf_123 2 = Done (2, p') /\
    L_size p' = 2 /\ L_Lookup cmpZ p' 3 = Done (Some 3).
Proof.
  destruct (L_Remove_then_Lookup cmpZ root_leaf_123 2 root_leaf_123_sorted
              ltac:(rewrite root_leaf_123_size; lia)) as [H _].
  destruct (H 1 root_leaf_123_has_2) as (p' & Hrun & Hsz & _ & _ & Hothers).
  exists p'. split; [exact Hrun|]. split; [exact Hsz|].
  apply (Hothers 3 2 root_leaf_123_has_3). lia.
Defined.

Lemma I_InsertNodeAfter_spec_witness :
  (I_InsertNodeAfter root_of_two 1 2 5).1 = 3 /\
  iarr (I_InsertNodeAfter root_of_two 1 2 5).2 0 = (0, 1) /\
  iarr (I_InsertNodeAfter root_of_two 1 2 5).2 1 = (2, 5) /\
  iarr (I_InsertNodeAfter root_of_two 1 2 5).2 2 = (3, 2).
Proof.
  destruct (I_InsertNodeAfter_spec root_of_two 1 2 5
              ltac:(change (I_size root_of_two) with 2; lia))
    as (_ & Hn & _ & Hlow & Hnew & Hup).
  split; [exact Hn|]. split; [exact (Hlow 0 ltac:(vm_compute; discriminate))|].
  split; [exact Hnew|].
  exact (Hup 2 ltac:(vm_compute; split; [reflexivity|discriminate])).
Defined.

Lemma I_Lookup_spec_witness :
  exists i, 0 <= i < 2 /\
    I_Lookup cmpZ root_of_two 5 = I_ValueAt root_of_two i /\
    (forall j, 1 <= j <= i -> cmpZ (I_KeyAt root_of_two j) 5 <= 0) /\
    (forall j, i < j < 2 -> cmpZ (I_KeyAt root_of_two j) 5 > 0).
Proof.
  destruct (I_Lookup_spec cmpZ root_of_two 5
              ltac:(change (I_size root_of_two) with 2; lia) root_of_two_sorted)
    as (i & Hi & Hrun & Hle & Hgt).
  exists i. split; [exact Hi|]. split; [exact Hrun|]. split; [exact Hle|exact Hgt].
Defined.

End BPTLaws.

(* ====================================================================== *)
(** * B+tree: insertion without a split, first insertion, iterator start *)
(* ====================================================================== *)

Module BPTTree.
Import BPT BPTFacts BPTLaws.

Section TreeLaws.
Context {KeyType ValueType : Type}.
Variable comparator : KeyType -> KeyType -> Z.
Variable blank_leaf : Z -> KeyType * ValueType.
Variable blank_internal : Z -> KeyType * Z.

Abbreviation BPlusTree := (@BPlusTree KeyType ValueType).
Abbreviation TreePage := (@TreePage KeyType ValueType).
Abbreviation LeafPage := (@LeafPage KeyType ValueType).

(** The binary search of [KeyIndex] never leaves the slots it was given. *)
Lemma KeyIndex_loop_le {B} (a : Z -> KeyType * B) key (fuel : nat) bound :
  forall left right, left <= bound -> right <= bound ->
  KeyIndex_loop comparator fuel a key left right <= bound.
Proof.
  induction fuel as [|fuel IH]; intros left right Hl Hr; simpl; [done|].
  case_bool_decide as Hlt; [|done].
  assert (0 <= Z.quot (right - left) 2 <= right - left - 1) as Hq.
  { rewrite Z.quot_div_nonneg by lia.
    pose proof (Z.div_pos (right - left) 2 ltac:(lia) ltac:(lia)).
    pose proof (Z.mul_div_le (right - left) 2 ltac:(lia)). lia. }
  case_bool_decide; apply IH; lia.
Qed.

Lemma L_KeyIndex_lt (p : LeafPage) key r :
  L_KeyIndex comparator p key = Done r -> r < L_size p.
Proof.
  unfold L_KeyIndex. case_bool_decide as Hn; [|done].
  pose proof (KeyIndex_loop_le (larr p) key (Z.to_nat (L_size p)) (L_size p - 1)
                0 (L_size p - 1) ltac:(lia) ltac:(lia)) as Hle.
  case_bool_decide; intros [= <-]; lia.
Qed.

(** If [GetValue] reports a key missing, [Remove] of that key changes
    nothing. *)
Theorem Remove_missing_key fuel (t : BPlusTree) key :
  GetValue comparator fuel t key = Done None ->
  Remove comparator fuel t key = Done t.
Proof.
  unfold GetValue, Remove.
  destruct (FindLeafPage comparator fuel t key SEARCH false false)
    as [leaf_id| |] eqn:Hfind; cbn [mbind outcome_bind]; try done.
  assert (bool_decide (root_page_id_ t = INVALID_PAGE_ID) = false) as ->.
  { unfold FindLeafPage, IsEmpty in Hfind.
    by destruct (bool_decide (root_page_id_ t = INVALID_PAGE_ID)). }
  change (FindLeafPage comparator fuel t key DELETE false false)
    with (FindLeafPage comparator fuel t key SEARCH false false).
  rewrite Hfind. cbn [mbind outcome_bind].
  destruct (fetch_leaf t leaf_id) as [L| |]; cbn [mbind outcome_bind]; try done.
  unfold L_Lookup, L_RemoveAndDeleteRecord.
  destruct (L_KeyIndex comparator L key) as [idx| |] eqn:Hidx;
    cbn [mbind outcome_bind]; try done.
  apply L_KeyIndex_lt in Hidx.
  rewrite (bool_decide_eq_true_2 (idx < L_size L)) by done.
  rewrite (bool_decide_eq_false_2 (idx = L_size L)) by lia. simpl.
  destruct (bool_decide (comparator (larr L idx).1 key = 0)); [done|]. simpl.
  intros _. by rewrite bool_decide_eq_true_2.
Qed.

(** Replacing a leaf by a leaf changes no descent. *)
Lemma descend_put_leaf (t : BPlusTree) id (l l' : LeafPage) key lm rm (fuel : nat) :
  pool t !! id = Some (PLeaf l) ->
  forall start,
  descend comparator fuel (put t id (PLeaf l')) key lm rm start =
  descend comparator fuel t key lm rm start.
Proof.
  intros Hl. induction fuel as [|fuel IH]; intros start.
  - simpl. destruct (decide (start = id)) as [->|Hne].
    + by rewrite lookup_insert_eq, Hl.
    + by rewrite lookup_insert_ne.
  - simpl. destruct (decide (start = id)) as [->|Hne].
    + by rewrite lookup_insert_eq, Hl.
    + rewrite lookup_insert_ne by done.
      destruct (pool t !! start) as [[?|n]|]; try done.
      case_bool_decide; [|done]. apply IH.
Qed.

Lemma FindLeafPage_put_leaf (t : BPlusTree) id (l l' : LeafPage) key op lm rm fuel :
  pool t !! id = Some (PLeaf l) ->
  FindLeafPage comparator fuel (put t id (PLeaf l')) key op lm rm =
  FindLeafPage comparator fuel t key op lm rm.
Proof.
  intros Hl. unfold FindLeafPage, IsEmpty. simpl.
  destruct (bool_decide (root_page_id_ t = INVALID_PAGE_ID)); [done|].
  by apply (descend_put_leaf t id l l').
Qed.

Lemma GetValue_at fuel (t : BPlusTree) key leaf_id (L : LeafPage) :
  FindLeafPage comparator fuel t key SEARCH false false = Done leaf_id ->
  pool t !! leaf_id = Some (PLeaf L) ->
  GetValue comparator fuel t key = L_Lookup comparator L key.
Proof.
  intros Hfind Hpool. unfold GetValue. rewrite Hfind. cbn [mbind outcome_bind].
  by rewrite (fetch_leaf_Some _ _ _ Hpool).
Qed.

Context `{!KeyOrder comparator}.

Lemma L_Lookup_None_absent (L : LeafPage) key :
  sorted comparator (larr L) (L_size L) ->
  L_Lookup comparator L key = Done None ->
  forall i, 0 <= i < L_size L -> comparator (larr L i).1 key <> 0.
Proof.
  intros Hs Hlook i Hi Hc.
  rewrite (L_Lookup_present comparator L key i Hs) in Hlook; [done|]. by split.
Qed.

(** An insertion that does not fill the leaf.  The leaf that
    [FindLeafPage] reaches is sorted and does not hold the key, and has
    room for it below [leaf_max_size]: [Insert] returns true, only that
    leaf changes, [GetValue] finds the new pair, every pair the leaf held
    is still found, and lookups that end in another leaf are unchanged. *)
Theorem Insert_no_split fuel (t : BPlusTree) leaf_id (L : LeafPage) key value :
  FindLeafPage comparator fuel t key INSERT false false = Done leaf_id ->
  pool t !! leaf_id = Some (PLeaf L) ->
  sorted comparator (larr L) (L_size L) ->
  L_Lookup comparator L key = Done None ->
  L_size L + 1 < leaf_max_size_ t ->
  exists L' : LeafPage,
    Insert comparator blank_leaf blank_internal fuel t key value =
      Done (true, put t leaf_id (PLeaf L')) /\
    L_size L' = L_size L + 1 /\
    sorted comparator (larr L') (L_size L') /\
    GetValue comparator fuel (put t leaf_id (PLeaf L')) key = Done (Some value) /\
    (forall k i,
       FindLeafPage comparator fuel t k SEARCH false false = Done leaf_id ->
       key_at_slot comparator (larr L) (L_size L) k i ->
       GetValue comparator fuel (put t leaf_id (PLeaf L')) k =
         Done (Some (larr L i).2)) /\
    (forall k other,
       FindLeafPage comparator fuel t k SEARCH false false = Done other ->
       other <> leaf_id ->
       GetValue comparator fuel (put t leaf_id (PLeaf L')) k =
         GetValue comparator fuel t k).
Proof.
  intros Hfind Hpool Hs Hlook Hroom.
  pose proof (L_Lookup_None_absent L key Hs Hlook) as Hno.
  assert (0 < L_size L) as Hn.
  { unfold L_Lookup, L_KeyIndex in Hlook.
    destruct (bool_decide_reflect (L_size L > 0)); [lia|done]. }
  destruct (L_Insert_absent comparator L key value Hs ltac:(lia) Hno)
    as (L' & idx & Hins & Hhdr & _ & _ & _ & _ & _ & _ & _ & Hs').
  assert (L_size L' = L_size L + 1) as Hsz by (unfold L_size; by rewrite Hhdr).
  rewrite <- Hsz in Hs'.
  destruct (L_Insert_lookups comparator L L' key value Hs ltac:(lia) Hno Hins)
    as [Hnew Hold].
  exists L'.
  assert (forall k, FindLeafPage comparator fuel (put t leaf_id (PLeaf L')) k
                      SEARCH false false =
                    FindLeafPage comparator fuel t k SEARCH false false) as Hroute
    by (intros k; by apply (FindLeafPage_put_leaf t leaf_id L L')).
  split; [|split; [done|split; [done|split; [|split]]]].
  - unfold Insert.
    assert (IsEmpty t = false) as ->.
    { unfold FindLeafPage in Hfind. by destruct (IsEmpty t). }
    unfold InsertToLeaf. rewrite Hfind. cbn [mbind outcome_bind].
    rewrite (fetch_leaf_Some _ _ _ Hpool). cbn [mbind outcome_bind].
    rewrite Hlook. cbn [mbind outcome_bind]. rewrite Hins. cbn [mbind outcome_bind].
    rewrite bool_decide_eq_true_2; [done|]. simpl. lia.
  - rewrite (GetValue_at fuel _ key leaf_id L'); [done| |apply pool_put_eq].
    by rewrite Hroute.
  - intros k i Hk Hi.
    rewrite (GetValue_at fuel _ k leaf_id L'); [by apply Hold| |apply pool_put_eq].
    by rewrite Hroute.
  - intros k other Hk Hne. unfold GetValue. rewrite Hroute, Hk.
    cbn [mbind outcome_bind]. unfold fetch_leaf, FetchPage.
    by rewrite pool_put_ne.
Qed.

(** [Insert] rejects exactly the keys [GetValue] finds: when [GetValue]
    finds the key, [Insert] returns false and leaves the tree, buffer
    pool included, as it was; and whenever [Insert] returns false the
    tree is unchanged and [GetValue] finds the key. *)
Theorem Insert_false_iff_found fuel (t : BPlusTree) key value :
  (forall v, GetValue comparator fuel t key = Done (Some v) ->
     Insert comparator blank_leaf blank_internal fuel t key value = Done (false, t)) /\
  (forall t', Insert comparator blank_leaf blank_internal fuel t key value =
                Done (false, t') ->
     t' = t /\ exists v, GetValue comparator fuel t key = Done (Some v)).
Proof.
  split.
  - intros v Hget. unfold GetValue in Hget.
    destruct (FindLeafPage comparator fuel t key SEARCH false false)
      as [leaf_id| |] eqn:Hfind; cbn [mbind outcome_bind] in Hget; try done.
    destruct (fetch_leaf t leaf_id) as [L| |] eqn:HL;
      cbn [mbind outcome_bind] in Hget; try done.
    apply fetch_leaf_inv in HL. unfold Insert.
    assert (IsEmpty t = false) as ->.
    { unfold FindLeafPage in Hfind. by destruct (IsEmpty t). }
    by apply (InsertToLeaf_found comparator blank_leaf blank_internal fuel t
                leaf_id L key value v).
  - intros t' Hrun. unfold Insert in Hrun.
    destruct (IsEmpty t) eqn:Hempty.
    + destruct (StartNewTree comparator blank_leaf t key value); done.
    + destruct (InsertToLeaf_false comparator blank_leaf blank_internal fuel t t'
                  key value Hrun) as (-> & leaf_id & L & v & Hfind & HL & Hlook).
      split; [done|]. exists v. unfold GetValue.
      change (FindLeafPage comparator fuel t key SEARCH false false)
        with (FindLeafPage comparator fuel t key INSERT false false).
      rewrite Hfind. cbn [mbind outcome_bind].
      by rewrite (fetch_leaf_Some _ _ _ HL).
Qed.

(** The first insertion.  On an empty tree [Insert] allocates a page,
    makes it the root leaf with the pair as its only entry, records the
    root in the header page and returns true; [GetValue] then finds the
    pair. *)
Theorem Insert_into_empty_tree fuel (t : BPlusTree) key value :
  IsEmpty t = true -> next_page_id t <> INVALID_PAGE_ID ->
  exists (t' : BPlusTree) (L : LeafPage),
    Insert comparator blank_leaf blank_internal fuel t key value = Done (true, t') /\
    root_page_id_ t' = next_page_id t /\
    header_record t' = Some (next_page_id t) /\
    next_page_id t' = next_page_id t + 1 /\
    pool t' = <[next_page_id t := PLeaf L]> (pool t) /\
    lhdr L = mkHeader 1 (leaf_max_size_ t) INVALID_PAGE_ID (next_page_id t) /\
    next_page_id_ L = INVALID_PAGE_ID /\
    larr L 0 = (key, value) /\
    GetValue comparator fuel t' key = Done (Some value).
Proof.
  intros Hempty Hfresh.
  set (L := mkLeaf (mkHeader 1 (leaf_max_size_ t) INVALID_PAGE_ID (next_page_id t))
              INVALID_PAGE_ID (upd blank_leaf 0 (key, value))).
  set (t' := mkTree (next_page_id t) (leaf_max_size_ t) (internal_max_size_ t)
               (<[next_page_id t := PLeaf L]> (pool t)) (next_page_id t + 1)
               (Some (next_page_id t)) (deleted_page_set t)).
  exists t', L. split.
  { unfold Insert. by rewrite Hempty. }
  repeat (split; [done|]).
  assert (pool t' !! next_page_id t = Some (PLeaf L)) as Hpool
    by apply lookup_insert_eq.
  rewrite (GetValue_at fuel t' key (next_page_id t) L); [| |done].
  - unfold L_Lookup, L_KeyIndex, L_size. simpl.
    rewrite (cmp_refl comparator). simpl.
    by rewrite (cmp_refl comparator).
  - unfold FindLeafPage, IsEmpty. simpl.
    rewrite bool_decide_eq_false_2 by done.
    destruct fuel; simpl; by rewrite lookup_insert_eq.
Qed.

(** [Begin(key)].  On an empty tree the iterator is the null iterator.
    Otherwise it stands on the leaf that [FindLeafPage] reaches, at the
    last slot whose key is at most [key]: on the key itself when the leaf
    holds it, and at index [-1] when every key of the leaf is larger. *)
Theorem Begin_key_position fuel (t : BPlusTree) key :
  (IsEmpty t = true -> Begin_key comparator fuel t key = Done None) /\
  (forall leaf_id (L : LeafPage),
     FindLeafPage comparator fuel t key SEARCH false false = Done leaf_id ->
     pool t !! leaf_id = Some (PLeaf L) ->
     sorted comparator (larr L) (L_size L) -> 0 < L_size L ->
     exists r, Begin_key comparator fuel t key = Done (Some (leaf_id, r)) /\
       -1 <= r < L_size L /\
       (forall i, 0 <= i <= r -> comparator (larr L i).1 key <= 0) /\
       (forall i, r < i < L_size L -> comparator (larr L i).1 key > 0) /\
       (forall i, key_at_slot comparator (larr L) (L_size L) key i -> r = i) /\
       (comparator (larr L 0).1 key > 0 -> r = -1)).
Proof.
  split.
  - intros Hempty. unfold Begin_key. unfold IsEmpty in Hempty. by rewrite Hempty.
  - intros leaf_id L Hfind Hpool Hs Hn.
    destruct (L_KeyIndex_spec comparator L key Hs Hn) as (r & Hrun & Hr & Hlo & Hhi).
    exists r. split.
    { unfold Begin_key.
      assert (bool_decide (root_page_id_ t = INVALID_PAGE_ID) = false) as ->.
      { unfold FindLeafPage, IsEmpty in Hfind.
        by destruct (bool_decide (root_page_id_ t = INVALID_PAGE_ID)). }
      rewrite Hfind. cbn [mbind outcome_bind].
      rewrite (fetch_leaf_Some _ _ _ Hpool). cbn [mbind outcome_bind].
      by rewrite Hrun. }
    repeat (split; [done|]). split.
    + intros i Hi. pose proof (L_KeyIndex_present comparator L key i Hs Hi) as Hp.
      rewrite Hrun in Hp. by injection Hp.
    + intros H0. destruct (decide (r = -1)); [done|].
      specialize (Hlo 0 ltac:(lia)). lia.
Qed.

End TreeLaws.

Lemma right_leaf_34_sorted : sorted cmpZ (larr right_leaf_34) (L_size right_leaf_34).
Proof.
  intros i j Hi Hij Hj. change (L_size right_leaf_34) with 2 in Hj.
  assert (i = 0) as -> by lia. assert (j = 1) as -> by lia. reflexivity.
Qed.

Lemma Remove_missing_key_witness : Remove cmpZ 9 tree_123 7 = Done tree_123.
Proof. apply (Remove_missing_key cmpZ 9 tree_123 7). reflexivity. Defined.

Lemma Insert_false_iff_found_witness :
  Insert cmpZ zero_leaf zero_internal 9 tree_123 2 9 = Done (false, tree_123).
Proof.
  exact (proj1 (Insert_false_iff_found cmpZ zero_leaf zero_internal 9 tree_123 2 9)
           2 eq_refl).
Defined.

Lemma Insert_no_split_witness :
  exists L' : LeafPage,
    Insert cmpZ zero_leaf zero_internal 9 two_leaves 5 5 =
      Done (true, put two_leaves 2 (PLeaf L')) /\
    L_size L' = 3 /\
    GetValue cmpZ 9 (put two_leaves 2 (PLeaf L')) 5 = Done (Some 5) /\
    GetValue cmpZ 9 (put two_leaves 2 (PLeaf L')) 4 = Done (Some 4) /\
    GetValue cmpZ 9 (put two_leaves 2 (PLeaf L')) 1 = Done (Some 1).
Proof.
  destruct (Insert_no_split cmpZ zero_leaf zero_internal 9 two_leaves 2
              right_leaf_34 5 5 eq_refl eq_refl right_leaf_34_sorted eq_refl
              ltac:(vm_compute; reflexivity))
    as (L' & Hrun & Hsz & _ & Hnew & Hold & Hfar).
  exists L'. split; [exact Hrun|]. split; [exact Hsz|]. split; [exact Hnew|].
  split.
  - apply (Hold 4 1 eq_refl). split; [vm_compute; split; [discriminate|reflexivity]|reflexivity].
  - rewrite (Hfar 1 1 eq_refl ltac:(lia)). reflexivity.
Defined.

Lemma Insert_into_empty_tree_witness :
  exists (t' : BPlusTree) (L : LeafPage),
    Insert cmpZ zero_leaf zero_internal 1 (BPlusTree_new 4 4) 1 1 = Done (true, t') /\
    root_page_id_ t' = 1 /\ header_record t' = Some 1 /\
    pool t' = <[1 := PLeaf L]> ∅ /\ larr L 0 = (1, 1) /\
    GetValue cmpZ 1 t' 1 = Done (Some 1).
Proof.
  destruct (Insert_into_empty_tree cmpZ zero_leaf zero_internal 1
              (BPlusTree_new 4 4) 1 1 eq_refl ltac:(vm_compute; discriminate))
    as (t' & L & Hrun & Hroot & Hrec & _ & Hpool & _ & _ & Hslot & Hget).
  exists t', L. split; [exact Hrun|]. split; [exact Hroot|]. split; [exact Hrec|].
  split; [exact Hpool|]. split; [exact Hslot|exact Hget].
Defined.

Lemma Begin_key_position_witness :
  Begin_key cmpZ 9 tree_123 2 = Done (Some (1, 1)) /\
  Begin_key cmpZ 9 (BPlusTree_new 4 4 : @BPlusTree Z Z) 2 = Done None.
Proof.
  destruct (Begin_key_position cmpZ 9 tree_123 2) as [_ H].
  destruct (H 1 root_leaf_123 eq_refl eq_refl root_leaf_123_sorted
              ltac:(vm_compute; reflexivity))
    as (r & Hrun & _ & _ & _ & Heq & _).
  rewrite (Heq 1 root_leaf_123_has_2) in Hrun. split; [exact Hrun|].
  exact (proj1 (Begin_key_position cmpZ 9 (BPlusTree_new 4 4) 2) eq_refl).
Defined.

End BPTTree.

(* ====================================================================== *)
(** * B+tree: removal from a leaf that keeps enough entries *)
(* ====================================================================== *)

Module BPTRemove.
Import BPT BPTFacts BPTLaws BPTTree.

Section RemoveLaws.
Context {KeyType ValueType : Type}.
Variable comparator : KeyType -> KeyType -> Z.
Context `{!KeyOrder comparator}.

Abbreviation BPlusTree := (@BPlusTree KeyType ValueType).
Abbreviation TreePage := (@TreePage KeyType ValueType).
Abbreviation LeafPage := (@LeafPage KeyType ValueType).

Lemma delete_pages_nil (t : BPlusTree) :
  deleted_page_set t = [] -> delete_pages t = t.
Proof. intros H. unfold delete_pages. rewrite H. simpl. destruct t. simpl in *. by subst. Qed.

Lemma FindLeafPage_root_leaf fuel (t : BPlusTree) key op (L : LeafPage) :
  root_page_id_ t <> INVALID_PAGE_ID ->
  pool t !! root_page_id_ t = Some (PLeaf L) ->
  FindLeafPage comparator fuel t key op false false = Done (root_page_id_ t).
Proof.
  intros Hroot Hpool. unfold FindLeafPage, IsEmpty.
  rewrite bool_decide_eq_false_2 by done.
  destruct fuel; simpl; by rewrite Hpool.
Qed.

(** In a sorted leaf the key sits in slot 0 exactly when slot 0 compares
    equal to it. *)
Lemma isfirst_iff (L : LeafPage) key i :
  sorted comparator (larr L) (L_size L) ->
  key_at_slot comparator (larr L) (L_size L) key i ->
  bool_decide (comparator (L_KeyAt L 0) key = 0) = bool_decide (i = 0).
Proof.
  intros Hs [Hi Hk]. apply bool_decide_ext. unfold L_KeyAt. split.
  - intros H0. destruct (decide (i = 0)) as [|Hne]; [done|].
    pose proof (Hs 0 i ltac:(lia) ltac:(lia) ltac:(lia)) as Hlt.
    apply (@cmp_eq _ comparator _) in H0, Hk. rewrite H0, Hk in Hlt.
    rewrite (cmp_refl comparator) in Hlt. lia.
  - intros ->. exact Hk.
Qed.

(** [Remove] of a key that is in the leaf, up to the call of
    [CoalesceOrRedistribute]. *)
Lemma Remove_found fuel (t : BPlusTree) key leaf_id (L L' : LeafPage) i :
  FindLeafPage comparator fuel t key DELETE false false = Done leaf_id ->
  pool t !! leaf_id = Some (PLeaf L) ->
  sorted comparator (larr L) (L_size L) ->
  key_at_slot comparator (larr L) (L_size L) key i ->
  L_RemoveAndDeleteRecord comparator L key = Done (L_size L - 1, L') ->
  Remove comparator fuel t key =
    (t2 ← (if negb (IsRootPage (lhdr L')) && bool_decide (i = 0) then
             p_page ← fetch_internal (put t leaf_id (PLeaf L'))
                        (parent_page_id_ (lhdr L'));
             if bool_decide (I_ValueIndex p_page (page_id_ (lhdr L')) <> 0)
             then Done (put (put t leaf_id (PLeaf L')) (parent_page_id_ (lhdr L'))
                          (PInternal (I_SetKeyAt p_page
                                        (I_ValueIndex p_page (page_id_ (lhdr L')))
                                        (L_KeyAt L' 0))))
             else Done (put t leaf_id (PLeaf L'))
           else Done (put t leaf_id (PLeaf L')));
     '(if_deleted, t3) ← CoalesceOrRedistribute fuel t2 leaf_id;
     deleaf ← fetch_leaf t3 leaf_id;
     Done (delete_pages (if if_deleted : bool
                         then AddIntoDeletedPageSet t3 (page_id_ (lhdr deleaf))
                         else t3))).
Proof.
  intros Hfind Hpool Hs Hk Hrem. unfold Remove.
  assert (bool_decide (root_page_id_ t = INVALID_PAGE_ID) = false) as ->.
  { unfold FindLeafPage, IsEmpty in Hfind.
    by destruct (bool_decide (root_page_id_ t = INVALID_PAGE_ID)). }
  rewrite Hfind. cbn [mbind outcome_bind].
  rewrite (fetch_leaf_Some _ _ _ Hpool). cbn [mbind outcome_bind].
  rewrite Hrem. cbn [mbind outcome_bind].
  rewrite bool_decide_eq_false_2 by lia.
  by rewrite (isfirst_iff L key i Hs Hk).
Qed.

(** [Remove] from a root leaf that keeps at least one entry: only the
    leaf changes; it stays sorted, the key is in none of its slots and
    every other pair is still found by [GetValue]. *)
Theorem Remove_from_root_leaf fuel (t : BPlusTree) key (L : LeafPage) i :
  root_page_id_ t <> INVALID_PAGE_ID ->
  pool t !! root_page_id_ t = Some (PLeaf L) ->
  IsRootPage (lhdr L) = true ->
  sorted comparator (larr L) (L_size L) ->
  key_at_slot comparator (larr L) (L_size L) key i ->
  2 <= L_size L ->
  deleted_page_set t = [] ->
  exists L' : LeafPage,
    Remove comparator (S fuel) t key = Done (put t (root_page_id_ t) (PLeaf L')) /\
    L_size L' = L_size L - 1 /\
    sorted comparator (larr L') (L_size L') /\
    (forall j, 0 <= j < L_size L' -> comparator (larr L' j).1 key <> 0) /\
    (forall k j, key_at_slot comparator (larr L) (L_size L) k j -> j <> i ->
       GetValue comparator (S fuel) (put t (root_page_id_ t) (PLeaf L')) k =
         Done (Some (larr L j).2)).
Proof.
  intros Hroot Hpool Hisroot Hs Hk Hsz Hdel.
  destruct (L_Remove_present comparator L key i Hs Hk)
    as (L' & Hrem & Hhdr & Hnext & Hlow & Hup & Hs' & Hgone).
  assert (L_size L' = L_size L - 1) as Hsz'
    by (unfold L_size; rewrite Hhdr; simpl; lia).
  exists L'. split; [|split; [done|]].
  - rewrite (Remove_found (S fuel) t key (root_page_id_ t) L L' i);
      [|by apply (FindLeafPage_root_leaf _ _ _ _ L)|done..].
    assert (IsRootPage (lhdr L') = true) as Hr' by (by rewrite Hhdr).
    rewrite Hr'. cbn [negb andb mbind outcome_bind].
    cbn [CoalesceOrRedistribute]. unfold FetchPage. rewrite pool_put_eq.
    cbn [of_option mbind outcome_bind hdr]. rewrite Hr'.
    unfold AdjustRoot. rewrite bool_decide_eq_false_2 by lia.
    cbn [mbind outcome_bind].
    rewrite (fetch_leaf_Some _ _ L') by apply pool_put_eq.
    cbn [mbind outcome_bind]. by rewrite delete_pages_nil.
  - rewrite Hsz'. split; [done|]. split; [done|].
    intros k j Hkj Hne.
    rewrite (GetValue_at comparator (S fuel) _ k (root_page_id_ t) L');
      [| |apply pool_put_eq].
    + by apply (L_Remove_lookups comparator L L' key i).
    + apply (FindLeafPage_root_leaf (S fuel) (put t (root_page_id_ t) (PLeaf L'))
               k SEARCH L'); [done|]. apply pool_put_eq.
Qed.

(** [Remove] of the last key: the root leaf becomes empty, the tree is
    empty again ([root_page_id_] is [INVALID_PAGE_ID], recorded in the
    header page) and the page of the leaf is deleted. *)
Theorem Remove_last_key fuel (t : BPlusTree) key (L : LeafPage) :
  root_page_id_ t <> INVALID_PAGE_ID ->
  pool t !! root_page_id_ t = Some (PLeaf L) ->
  IsRootPage (lhdr L) = true ->
  page_id_ (lhdr L) = root_page_id_ t ->
  L_size L = 1 -> comparator (L_KeyAt L 0) key = 0 ->
  deleted_page_set t = [] ->
  exists t' : BPlusTree,
    Remove comparator (S fuel) t key = Done t' /\
    IsEmpty t' = true /\
    header_record t' = Some INVALID_PAGE_ID /\
    pool t' = delete (root_page_id_ t) (pool t) /\
    next_page_id t' = next_page_id t /\
    deleted_page_set t' = [].
Proof.
  intros Hroot Hpool Hisroot Hid Hsz Hkey Hdel.
  assert (sorted comparator (larr L) (L_size L)) as Hs
    by (intros i j ? ? ?; lia).
  assert (key_at_slot comparator (larr L) (L_size L) key 0) as Hk
    by (split; [lia|done]).
  destruct (L_Remove_present comparator L key 0 Hs Hk)
    as (L' & Hrem & Hhdr & Hnext & Hlow & Hup & Hs' & Hgone).
  assert (L_size L' = 0) as Hsz'
    by (unfold L_size in *; rewrite Hhdr; simpl; lia).
  rewrite (Remove_found (S fuel) t key (root_page_id_ t) L L' 0);
    [|by apply (FindLeafPage_root_leaf _ _ _ _ L)|done..].
  assert (IsRootPage (lhdr L') = true) as Hr' by (by rewrite Hhdr).
  rewrite Hr'. cbn [negb andb mbind outcome_bind].
  cbn [CoalesceOrRedistribute]. unfold FetchPage. rewrite pool_put_eq.
  cbn [of_option mbind outcome_bind hdr]. rewrite Hr'.
  unfold AdjustRoot. rewrite bool_decide_eq_true_2 by done.
  cbn [mbind outcome_bind].
  assert (forall (u : BPlusTree) r,
            fetch_leaf (UpdateRootPageId (with_root u r) 0) (root_page_id_ t) =
            fetch_leaf u (root_page_id_ t)) as -> by done.
  rewrite (fetch_leaf_Some _ _ L') by apply pool_put_eq.
  cbn [mbind outcome_bind].
  eexists. split; [done|]. unfold delete_pages. simpl. rewrite Hdel. simpl.
  assert (page_id_ (lhdr L') = root_page_id_ t) as -> by (by rewrite Hhdr).
  split; [done|]. split; [done|]. split; [|done].
  apply delete_insert_eq.
Qed.

(** [Remove] from a leaf that is not the root and stays at or above its
    minimum size: the leaf loses the entry, and when the key removed was
    its first one and the leaf is not found in slot 0 of its parent, the
    parent's key for the leaf is set to the leaf's new first key.
    Nothing else changes. *)
Theorem Remove_updates_separator fuel (t : BPlusTree) key leaf_id
    (L : LeafPage) (P : InternalPage) i :
  FindLeafPage comparator (S fuel) t key DELETE false false = Done leaf_id ->
  pool t !! leaf_id = Some (PLeaf L) ->
  sorted comparator (larr L) (L_size L) ->
  key_at_slot comparator (larr L) (L_size L) key i ->
  IsRootPage (lhdr L) = false ->
  leaf_min_size (lhdr L) <= L_size L - 1 ->
  pool t !! parent_page_id_ (lhdr L) = Some (PInternal P) ->
  deleted_page_set t = [] ->
  let idx := I_ValueIndex P (page_id_ (lhdr L)) in
  exists L' : LeafPage,
    L_RemoveAndDeleteRecord comparator L key = Done (L_size L - 1, L') /\
    Remove comparator (S fuel) t key =
      Done (if bool_decide (i = 0) && bool_decide (idx <> 0)
            then put (put t leaf_id (PLeaf L')) (parent_page_id_ (lhdr L))
                   (PInternal (I_SetKeyAt P idx (L_KeyAt L' 0)))
            else put t leaf_id (PLeaf L')).
Proof.
  intros Hfind Hpool Hs Hk Hnr Hmin Hparent Hdel idx.
  destruct (L_Remove_present comparator L key i Hs Hk)
    as (L' & Hrem & Hhdr & Hnext & Hlow & Hup & Hs' & Hgone).
  exists L'. split; [done|].
  assert (parent_page_id_ (lhdr L) <> leaf_id) as Hne
    by (intros Heq; rewrite Heq, Hpool in Hparent; done).
  rewrite (Remove_found (S fuel) t key leaf_id L L' i) by done.
  assert (IsRootPage (lhdr L') = false) as Hr' by (by rewrite Hhdr).
  assert (parent_page_id_ (lhdr L') = parent_page_id_ (lhdr L)) as Hp'
    by (by rewrite Hhdr).
  assert (page_id_ (lhdr L') = page_id_ (lhdr L)) as Hid' by (by rewrite Hhdr).
  rewrite Hr', Hp', Hid'. cbn [negb andb]. subst idx.
  assert (forall u : BPlusTree,
            pool u !! leaf_id = Some (PLeaf L') -> deleted_page_set u = [] ->
            ('(if_deleted, t3) ← CoalesceOrRedistribute (S fuel) u leaf_id;
             deleaf ← fetch_leaf t3 leaf_id;
             Done (delete_pages (if if_deleted : bool
                                 then AddIntoDeletedPageSet t3 (page_id_ (lhdr deleaf))
                                 else t3))) = Done u) as Hrest.
  { intros u Hu Hud. cbn [CoalesceOrRedistribute]. unfold FetchPage. rewrite Hu.
    cbn [of_option mbind outcome_bind hdr]. rewrite Hr'.
    rewrite bool_decide_eq_true_2.
    2:{ cbn [GetMinSize]. rewrite Hhdr. unfold leaf_min_size in *. simpl.
        unfold L_size in Hmin. lia. }
    cbn [mbind outcome_bind]. rewrite (fetch_leaf_Some _ _ _ Hu).
    cbn [mbind outcome_bind]. by rewrite delete_pages_nil. }
  destruct (bool_decide_reflect (i = 0)) as [Hi0|Hi0]; cbn [andb].
  - rewrite (fetch_internal_Some _ _ P) by (by rewrite pool_put_ne).
    cbn [mbind outcome_bind].
    destruct (bool_decide (I_ValueIndex P (page_id_ (lhdr L)) <> 0));
      cbn [mbind outcome_bind].
    + apply Hrest; [|done]. rewrite pool_put_ne by done. apply pool_put_eq.
    + apply Hrest; [apply pool_put_eq|done].
  - cbn [mbind outcome_bind]. apply Hrest; [apply pool_put_eq|done].
Qed.

End RemoveLaws.

Lemma underflow_leaf_sorted :
  sorted cmpZ (larr (leaf_of 2 3 INVALID_PAGE_ID 5 [(4, 4); (5, 5); (6, 6); (7, 7)])) 4.
Proof.
  intros i j Hi Hij Hj.
  assert (i = 0 \/ i = 1 \/ i = 2) as [-> | [-> | ->]] by lia;
    assert (j = 1 \/ j = 2 \/ j = 3) as [-> | [-> | ->]] by lia;
    (reflexivity || lia).
Qed.

Lemma Remove_from_root_leaf_witness :
  exists L' : LeafPage,
    Remove cmpZ 9 tree_123 2 = Done (put tree_123 1 (PLeaf L')) /\
    L_size L' = 2 /\
    (forall j, 0 <= j < 2 -> cmpZ (larr L' j).1 2 <> 0) /\
    GetValue cmpZ 9 (put tree_123 1 (PLeaf L')) 3 = Done (Some 3).
Proof.
  destruct (Remove_from_root_leaf cmpZ 8 tree_123 2 root_leaf_123 1
              ltac:(vm_compute; discriminate) eq_refl eq_refl
              root_leaf_123_sorted root_leaf_123_has_2
              ltac:(vm_compute; discriminate) eq_refl)
    as (L' & Hrun & Hsz & _ & Hgone & Hothers).
  exists L'. split; [exact Hrun|]. split; [exact Hsz|].
  split; [rewrite Hsz in Hgone; exact Hgone|].
  apply (Hothers 3 2 root_leaf_123_has_3). lia.
Defined.

Lemma Remove_last_key_witness :
  exists t' : BPlusTree,
    Remove cmpZ 9 tree_1 1 = Done t' /\ IsEmpty t' = true /\
    header_record t' = Some INVALID_PAGE_ID /\
    pool t' = delete 1 (pool tree_1).
Proof.
  destruct (Remove_last_key cmpZ 8 tree_1 1 root_leaf_1
              ltac:(vm_compute; discriminate) eq_refl eq_refl eq_refl eq_refl
              eq_refl eq_refl)
    as (t' & Hrun & Hempty & Hrec & Hpool & _).
  exists t'. split; [exact Hrun|]. split; [exact Hempty|].
  split; [exact Hrec|exact Hpool].
Defined.

Lemma Remove_updates_separator_witness :
  exists L' : LeafPage,
    L_RemoveAndDeleteRecord cmpZ
      (leaf_of 2 3 INVALID_PAGE_ID 5 [(4, 4); (5, 5); (6, 6); (7, 7)]) 4 =
      Done (3, L') /\
    Remove cmpZ 9 underflow_right 4 =
      Done (put (put underflow_right 2 (PLeaf L')) 3
              (PInternal (I_SetKeyAt (internal_of 3 INVALID_PAGE_ID 5 [(0, 1); (4, 2)])
                            1 (L_KeyAt L' 0)))).
Proof.
  destruct (Remove_updates_separator cmpZ 8 underflow_right 4 2
              (leaf_of 2 3 INVALID_PAGE_ID 5 [(4, 4); (5, 5); (6, 6); (7, 7)])
              (internal_of 3 INVALID_PAGE_ID 5 [(0, 1); (4, 2)]) 0
              eq_refl eq_refl underflow_leaf_sorted
              ltac:(split; [vm_compute; split; [discriminate|reflexivity]|reflexivity])
              eq_refl ltac:(vm_compute; discriminate) eq_refl eq_refl)
    as (L' & Hrem & Hrun).
  exists L'. split; [exact Hrem|exact Hrun].
Defined.

End BPTRemove.

(* ====================================================================== *)
(** * B+tree: insertions that split a leaf *)
(* ====================================================================== *)

Module BPTSplit.
Import BPT BPTFacts BPTLaws BPTTree BPTRemove.

Section SplitLaws.
Context {KeyType ValueType : Type}.
Variable comparator : KeyType -> KeyType -> Z.
Variable blank_leaf : Z -> KeyType * ValueType.
Variable blank_internal : Z -> KeyType * Z.
Context `{!KeyOrder comparator}.

Abbreviation BPlusTree := (@BPlusTree KeyType ValueType).
Abbreviation TreePage := (@TreePage KeyType ValueType).
Abbreviation LeafPage := (@LeafPage KeyType ValueType).
Abbreviation InternalPage := (@InternalPage KeyType).

(** [SplitLeaf] of a full leaf: the pages it leaves behind. *)
Lemma SplitLeaf_full (t : BPlusTree) leaf_id (L1 : LeafPage) :
  pool t !! leaf_id = Some (PLeaf L1) ->
  L_size L1 = max_size_ (lhdr L1) ->
  let keep := Z.quot (max_size_ (lhdr L1) + 1) 2 in
  let n := next_page_id t in
  SplitLeaf blank_leaf t leaf_id =
    Done (n,
          put (put (NewPage t).2 n
                 (PLeaf (mkLeaf (mkHeader (max_size_ (lhdr L1) - keep) (leaf_max_size_ t)
                                   (parent_page_id_ (lhdr L1)) n)
                           (next_page_id_ L1)
                           (copy_slots (Z.to_nat (max_size_ (lhdr L1) - keep))
                              (larr L1) keep blank_leaf 0))))
            leaf_id (PLeaf (mkLeaf (SetSize (lhdr L1) keep) n (larr L1)))).
Proof.
  intros Hpool Hfull keep n. unfold SplitLeaf.
  rewrite (fetch_leaf_Some _ _ _ Hpool). cbn [mbind outcome_bind].
  unfold NewPage at 1. cbn [fst snd]. unfold L_MoveHalfTo, L_Init.
  cbn [lhdr max_size_ leaf_max_size_ L_size size_ page_id_ larr next_page_id_].
  unfold L_size in Hfull. rewrite bool_decide_eq_true_2 by done.
  cbn [mbind outcome_bind]. done.
Qed.

(** [InsertIntoParent] when the page that was split is the root: a new
    root with the two pages as its children. *)
Lemma InsertIntoParent_new_root fuel (t : BPlusTree) old_id new_id key
    (O N : TreePage) :
  pool t !! old_id = Some O -> pool t !! new_id = Some N ->
  IsRootPage (hdr O) = true ->
  old_id <> new_id -> next_page_id t <> old_id -> next_page_id t <> new_id ->
  let n := next_page_id t in
  let Root := mkInternal (mkHeader 2 (internal_max_size_ t) INVALID_PAGE_ID n)
                (upd (upd (upd blank_internal 1 (key, (blank_internal 1).2))
                        0 ((blank_internal 0).1, page_id_ (hdr O)))
                   1 (key, page_id_ (hdr N))) in
  InsertIntoParent blank_internal (S fuel) t old_id key new_id =
    Done (mkTree n (leaf_max_size_ t) (internal_max_size_ t)
            (<[new_id := with_hdr N (SetParentPageId (hdr N) n)]>
               (<[old_id := with_hdr O (SetParentPageId (hdr O) n)]>
                  (<[n := PInternal Root]> (pool t))))
            (n + 1) (Some n) (deleted_page_set t)).
Proof.
  intros HO HN Hroot Hne Hno Hnn n Root. cbn [InsertIntoParent].
  unfold FetchPage. rewrite HO, HN. cbn [of_option mbind outcome_bind].
  rewrite Hroot. unfold NewPage. cbn [fst snd].
  unfold set_parent, FetchPage, put, with_pool, with_root, UpdateRootPageId.
  cbn [pool root_page_id_ leaf_max_size_ internal_max_size_ next_page_id
       header_record deleted_page_set].
  rewrite lookup_insert_ne by done. rewrite HO. cbn [of_option mbind outcome_bind].
  cbn [pool root_page_id_ leaf_max_size_ internal_max_size_ next_page_id
       header_record deleted_page_set].
  rewrite lookup_insert_ne by done. rewrite lookup_insert_ne by done.
  rewrite HN. cbn [of_option mbind outcome_bind].
  cbn [pool root_page_id_ leaf_max_size_ internal_max_size_ next_page_id
       header_record deleted_page_set].
  unfold I_PopulateNewRoot, I_Init, I_SetKeyAt, I_SetValueAt, I_with_hdr, SetSize.
  cbn [ihdr iarr size_ max_size_ parent_page_id_ page_id_].
  rewrite (upd_ne _ 1 0) by lia. rewrite (upd_ne _ 0 1) by lia.
  rewrite upd_eq. done.
Qed.

(** [Lookup] on an internal page with two children. *)
Lemma I_Lookup_two (p : InternalPage) key :
  I_size p = 2 ->
  I_Lookup comparator p key =
    if bool_decide (comparator (I_KeyAt p 1) key <= 0)
    then I_ValueAt p 1 else I_ValueAt p 0.
Proof.
  intros Hsz. unfold I_Lookup, I_KeyAt, I_ValueAt. rewrite Hsz.
  change (Z.to_nat 2) with 2%nat. cbn [lower_bound].
  change (2 - 1) with 1. rewrite (bool_decide_eq_true_2 (1 > 0)) by lia.
  change (Z.shiftr 1 1) with 0. change (1 + 0) with 1.
  destruct (bool_decide_reflect (comparator (iarr p 1).1 key < 0)) as [Hlt|Hge].
  - change (1 - 0 - 1) with 0. rewrite (bool_decide_eq_false_2 (0 > 0)) by lia.
    change (1 + 1) with 2. rewrite (bool_decide_eq_true_2 (2 = 2)) by done.
    rewrite bool_decide_eq_true_2 by lia. done.
  - rewrite (bool_decide_eq_false_2 (0 > 0)) by lia.
    rewrite (bool_decide_eq_false_2 (1 = 2)) by lia.
    change (1 - 1) with 0. done.
Qed.

(** The insertion that splits a root leaf.  The root is a sorted leaf one
    entry short of [leaf_max_size] and does not hold the key.  [Insert]
    returns true and leaves a new internal root with two children: the
    old leaf, which keeps the lower [(max + 1) / 2] entries, and a new
    leaf with the rest, whose first key is the separator.  Both leaves
    point to the new root and are chained, the header page records the
    new root, and [GetValue] finds the new pair and every pair the leaf
    held. *)
Theorem Insert_splits_root_leaf fuel (t : BPlusTree) (L : LeafPage) key value :
  0 < root_page_id_ t < next_page_id t ->
  pool t !! root_page_id_ t = Some (PLeaf L) ->
  IsRootPage (lhdr L) = true ->
  page_id_ (lhdr L) = root_page_id_ t ->
  max_size_ (lhdr L) = leaf_max_size_ t ->
  sorted comparator (larr L) (L_size L) ->
  L_Lookup comparator L key = Done None ->
  L_size L + 1 = leaf_max_size_ t ->
  let lid := root_page_id_ t in
  let n := next_page_id t in
  let keep := Z.quot (leaf_max_size_ t + 1) 2 in
  exists (t' : BPlusTree) (Lf Rt : LeafPage) (Root : InternalPage),
    Insert comparator blank_leaf blank_internal (S fuel) t key value = Done (true, t') /\
    root_page_id_ t' = n + 1 /\ header_record t' = Some (n + 1) /\
    next_page_id t' = n + 2 /\
    pool t' !! (n + 1) = Some (PInternal Root) /\
    pool t' !! lid = Some (PLeaf Lf) /\ pool t' !! n = Some (PLeaf Rt) /\
    (forall id, id <> lid -> id <> n -> id <> n + 1 -> pool t' !! id = pool t !! id) /\
    I_size Root = 2 /\ IsRootPage (ihdr Root) = true /\
    I_ValueAt Root 0 = lid /\ iarr Root 1 = (L_KeyAt Rt 0, n) /\
    parent_page_id_ (lhdr Lf) = n + 1 /\ parent_page_id_ (lhdr Rt) = n + 1 /\
    next_page_id_ Lf = n /\ next_page_id_ Rt = next_page_id_ L /\
    L_size Lf = keep /\ L_size Rt = leaf_max_size_ t - keep /\
    sorted comparator (larr Lf) (L_size Lf) /\
    sorted comparator (larr Rt) (L_size Rt) /\
    GetValue comparator (S fuel) t' key = Done (Some value) /\
    (forall k i, key_at_slot comparator (larr L) (L_size L) k i ->
       GetValue comparator (S fuel) t' k = Done (Some (larr L i).2)).
Proof.
  intros Hids Hpool Hisroot Hpid Hmax Hs Hlook Hfull lid n keep.
  pose proof (L_Lookup_None_absent comparator L key Hs Hlook) as Hno.
  assert (0 < L_size L) as Hn.
  { unfold L_Lookup, L_KeyIndex in Hlook.
    destruct (bool_decide_reflect (L_size L > 0)); [lia|done]. }
  destruct (L_Insert_absent comparator L key value Hs ltac:(lia) Hno)
    as (L1 & idx & Hins & Hhdr1 & Hnext1 & Hidx & Hlow & Hat & Hup & _ & _ & Hs1).
  assert (L_size L1 = leaf_max_size_ t) as Hsz1
    by (unfold L_size in *; rewrite Hhdr1; simpl; lia).
  assert (max_size_ (lhdr L1) = leaf_max_size_ t) as Hmax1 by (by rewrite Hhdr1).
  assert (0 < keep < leaf_max_size_ t) as Hkeep.
  { unfold keep. rewrite Z.quot_div_nonneg by lia.
    pose proof (Z.div_pos (leaf_max_size_ t + 1) 2 ltac:(lia) ltac:(lia)).
    pose proof (Z.mul_div_le (leaf_max_size_ t + 1) 2 ltac:(lia)).
    pose proof (Z.mul_succ_div_gt (leaf_max_size_ t + 1) 2 ltac:(lia)). lia. }
  set (Rt0 := mkLeaf (mkHeader (leaf_max_size_ t - keep) (leaf_max_size_ t)
                        (parent_page_id_ (lhdr L1)) n)
                (next_page_id_ L1)
                (copy_slots (Z.to_nat (leaf_max_size_ t - keep)) (larr L1) keep
                   blank_leaf 0)).
  set (Lf0 := mkLeaf (SetSize (lhdr L1) keep) n (larr L1)).
  set (Root := mkInternal (mkHeader 2 (internal_max_size_ t) INVALID_PAGE_ID (n + 1))
                 (upd (upd (upd blank_internal 1
                              (L_KeyAt Rt0 0, (blank_internal 1).2))
                         0 ((blank_internal 0).1, lid))
                    1 (L_KeyAt Rt0 0, n))).
  set (Lf := L_with_hdr Lf0 (SetParentPageId (lhdr Lf0) (n + 1))).
  set (Rt := L_with_hdr Rt0 (SetParentPageId (lhdr Rt0) (n + 1))).
  set (t' := mkTree (n + 1) (leaf_max_size_ t) (internal_max_size_ t)
               (<[n := PLeaf Rt]>
                  (<[lid := PLeaf Lf]>
                     (<[n + 1 := PInternal Root]>
                        (<[lid := PLeaf Lf0]>
                           (<[n := PLeaf Rt0]>
                              (<[lid := PLeaf L1]> (pool t)))))))
               (n + 2) (Some (n + 1)) (deleted_page_set t)).
  assert (lid <> n /\ lid <> n + 1 /\ n <> n + 1) as (Hd1 & Hd2 & Hd3)
    by (unfold lid, n; lia).
  assert (pool t' !! (n + 1) = Some (PInternal Root)) as Hp_root.
  { unfold t'. cbn [pool]. rewrite lookup_insert_ne by done.
    rewrite lookup_insert_ne by done. apply lookup_insert_eq. }
  assert (pool t' !! lid = Some (PLeaf Lf)) as Hp_lf.
  { unfold t'. cbn [pool]. rewrite lookup_insert_ne by done. apply lookup_insert_eq. }
  assert (pool t' !! n = Some (PLeaf Rt)) as Hp_rt
    by (unfold t'; cbn [pool]; apply lookup_insert_eq).
  (* the run *)
  assert (Insert comparator blank_leaf blank_internal (S fuel) t key value =
          Done (true, t')) as Hrun.
  { unfold Insert.
    assert (IsEmpty t = false) as ->.
    { unfold IsEmpty. apply bool_decide_eq_false_2. unfold INVALID_PAGE_ID. lia. }
    unfold InsertToLeaf.
    rewrite (FindLeafPage_root_leaf comparator (S fuel) t key INSERT L);
      [|unfold INVALID_PAGE_ID; lia|done].
    cbn [mbind outcome_bind].
    rewrite (fetch_leaf_Some _ _ _ Hpool). cbn [mbind outcome_bind].
    rewrite Hlook. cbn [mbind outcome_bind]. rewrite Hins. cbn [mbind outcome_bind].
    rewrite bool_decide_eq_false_2 by (cbn [leaf_max_size_ put with_pool]; lia).
    rewrite (SplitLeaf_full (put t (root_page_id_ t) (PLeaf L1))
               (root_page_id_ t) L1) by (apply pool_put_eq || lia).
    cbn [mbind outcome_bind].
    cbn [next_page_id put with_pool leaf_max_size_]. rewrite Hmax1.
    fold n lid keep. fold Rt0 Lf0.
    rewrite (fetch_leaf_Some _ n Rt0).
    2:{ rewrite pool_put_ne by done. apply pool_put_eq. }
    cbn [mbind outcome_bind].
    rewrite (fetch_leaf_Some _ lid Lf0) by apply pool_put_eq.
    cbn [mbind outcome_bind].
    change (L_SetNextPageId Lf0 (page_id_ (lhdr Rt0))) with Lf0.
    rewrite put_put_same.
    rewrite (InsertIntoParent_new_root fuel _ lid n (L_KeyAt Rt0 0)
               (PLeaf Lf0) (PLeaf Rt0)).
    - cbn [mbind outcome_bind]. unfold t', Root, Lf, Rt.
      cbn [NewPage put with_pool snd pool next_page_id leaf_max_size_
           internal_max_size_ deleted_page_set hdr with_hdr page_id_ lhdr SetSize].
      assert (page_id_ (lhdr Lf0) = lid) as ->.
      { unfold Lf0. cbn [lhdr SetSize page_id_]. rewrite Hhdr1. exact Hpid. }
      change (page_id_ (lhdr Rt0)) with n. fold n.
      replace (n + 1 + 1) with (n + 2) by lia. done.
    - apply pool_put_eq.
    - rewrite pool_put_ne by done. apply pool_put_eq.
    - cbn [hdr lhdr Lf0 SetSize IsRootPage parent_page_id_]. rewrite Hhdr1.
      exact Hisroot.
    - done.
    - cbn [NewPage put with_pool snd next_page_id]. fold n. lia.
    - cbn [NewPage put with_pool snd next_page_id]. fold n. lia. }
  (* the two leaves *)
  assert (forall j, 0 <= j < leaf_max_size_ t - keep -> larr Rt j = larr L1 (keep + j))
    as Hrt.
  { intros j Hj. unfold Rt, Rt0. cbn [L_with_hdr larr]. rewrite copy_slots_spec.
    rewrite bool_decide_eq_true_2 by lia. f_equal. lia. }
  assert (sorted comparator (larr Lf) keep) as Hs_lf.
  { intros i j Hi Hij Hj. unfold Lf, Lf0. cbn [L_with_hdr larr]. apply Hs1; lia. }
  assert (sorted comparator (larr Rt) (leaf_max_size_ t - keep)) as Hs_rt.
  { intros i j Hi Hij Hj. rewrite !Hrt by lia. apply Hs1; lia. }
  assert (L_size Lf = keep) as Hsz_lf by done.
  assert (L_size Rt = leaf_max_size_ t - keep) as Hsz_rt by done.
  (* lookups through the new root *)
  assert (forall k j, key_at_slot comparator (larr L1) (leaf_max_size_ t) k j ->
            GetValue comparator (S fuel) t' k = Done (Some (larr L1 j).2)) as Hget.
  { intros k j [Hj Hk].
    assert (I_KeyAt Root 1 = (larr L1 keep).1) as Hsep.
    { unfold I_KeyAt, Root. cbn [iarr]. rewrite upd_eq. cbn [fst].
      unfold L_KeyAt, Rt0. cbn [larr]. rewrite copy_slots_spec.
      rewrite bool_decide_eq_true_2 by lia. f_equal. f_equal. lia. }
    assert (I_ValueAt Root 1 = n /\ I_ValueAt Root 0 = lid) as [Hv1 Hv0].
    { unfold I_ValueAt, Root. cbn [iarr]. rewrite upd_eq.
      rewrite upd_ne by lia. rewrite upd_eq. done. }
    assert (forall child (C : LeafPage),
              I_Lookup comparator Root k = child -> 0 < child ->
              pool t' !! child = Some (PLeaf C) ->
              GetValue comparator (S fuel) t' k = L_Lookup comparator C k) as Hdesc.
    { intros child C Hchild Hpos HC.
      apply (GetValue_at comparator (S fuel) t' k child C); [|done].
      unfold FindLeafPage, IsEmpty. cbn [root_page_id_ t'].
      rewrite bool_decide_eq_false_2 by (unfold INVALID_PAGE_ID, n; lia).
      cbn [descend]. rewrite Hp_root. rewrite Hchild.
      rewrite bool_decide_eq_true_2 by lia.
      destruct fuel; cbn [descend]; by rewrite HC. }
    rewrite (I_Lookup_two Root k eq_refl) in Hdesc. rewrite Hsep, Hv1, Hv0 in Hdesc.
    apply (@cmp_eq _ comparator _) in Hk.
    destruct (decide (j < keep)) as [Hlt|Hge].
    - rewrite (Hdesc lid Lf); [| |unfold lid; lia|done].
      + replace (larr L1 j) with (larr Lf j) by done.
        apply (L_Lookup_present comparator Lf k j); [by rewrite Hsz_lf|].
        split; [rewrite Hsz_lf; lia|].
        unfold Lf, Lf0. cbn [L_with_hdr larr]. rewrite Hk. apply (cmp_refl comparator).
      + rewrite bool_decide_eq_false_2; [done|].
        pose proof (Hs1 j keep ltac:(lia) ltac:(lia) ltac:(lia)) as Hjk.
        rewrite Hk in Hjk. apply cmp_flip in Hjk. lia.
    - rewrite (Hdesc n Rt); [| |unfold n; lia|done].
      + replace (larr L1 j) with (larr Rt (j - keep))
          by (rewrite Hrt by lia; f_equal; lia).
        apply (L_Lookup_present comparator Rt k (j - keep)); [by rewrite Hsz_rt|].
        split; [rewrite Hsz_rt; lia|].
        rewrite Hrt by lia. replace (keep + (j - keep)) with j by lia.
        rewrite Hk. apply (cmp_refl comparator).
      + rewrite bool_decide_eq_true_2; [done|].
        destruct (decide (j = keep)) as [->|Hne].
        * rewrite Hk, (cmp_refl comparator). lia.
        * pose proof (Hs1 keep j ltac:(lia) ltac:(lia) ltac:(lia)) as Hjk.
          rewrite Hk in Hjk. lia. }
  exists t', Lf, Rt, Root.
  split; [done|]. split; [done|]. split; [done|]. split; [done|].
  split; [done|]. split; [done|]. split; [done|]. split.
  { intros id H1 H2 H3. unfold t'. cbn [pool].
    by rewrite !lookup_insert_ne by done. }
  split; [done|]. split; [done|]. split.
  { unfold I_ValueAt, Root. cbn [iarr]. rewrite upd_ne by lia. by rewrite upd_eq. }
  split.
  { unfold Root. cbn [iarr]. by rewrite upd_eq. }
  split; [done|]. split; [done|]. split; [done|]. split; [by rewrite <- Hnext1|].
  split; [done|]. split; [done|].
  split; [by rewrite Hsz_lf|]. split; [by rewrite Hsz_rt|]. split.
  - replace value with (larr L1 idx).2 by (by rewrite Hat).
    apply Hget. split; [lia|]. rewrite Hat. apply (cmp_refl comparator).
  - intros k i [Hi Hk]. destruct (decide (i < idx)).
    + rewrite <- (Hlow i) by lia. apply Hget. split; [lia|]. by rewrite Hlow by lia.
    + replace (larr L i) with (larr L1 (i + 1))
        by (rewrite Hup by lia; f_equal; lia).
      apply Hget. split; [lia|]. rewrite Hup by lia.
      by replace (i + 1 - 1) with i by lia.
Qed.

(** [InsertIntoParent] when the page that was split has a parent with
    room: the new page gets that parent and the parent gets the new pair
    right after the old page. *)
Lemma InsertIntoParent_room fuel (t : BPlusTree) old_id new_id key
    (O N : TreePage) (P : InternalPage) :
  pool t !! old_id = Some O -> pool t !! new_id = Some N ->
  IsRootPage (hdr O) = false ->
  pool t !! parent_page_id_ (hdr O) = Some (PInternal P) ->
  parent_page_id_ (hdr O) <> new_id ->
  I_size P < internal_max_size_ t ->
  InsertIntoParent blank_internal (S fuel) t old_id key new_id =
    Done (put (put t new_id
                 (with_hdr N (SetParentPageId (hdr N) (parent_page_id_ (hdr O)))))
            (parent_page_id_ (hdr O))
            (PInternal (I_InsertNodeAfter P (page_id_ (hdr O)) key
                          (page_id_ (hdr N))).2)).
Proof.
  intros HO HN Hroot HP Hne Hroom. cbn [InsertIntoParent].
  unfold FetchPage. rewrite HO, HN. cbn [of_option mbind outcome_bind].
  rewrite Hroot. rewrite (fetch_internal_Some _ _ _ HP). cbn [mbind outcome_bind].
  unfold set_parent, FetchPage. rewrite HN. cbn [of_option mbind outcome_bind].
  rewrite bool_decide_eq_true_2 by done.
  rewrite (fetch_internal_Some _ _ P) by (by rewrite pool_put_ne).
  done.
Qed.

(** The insertion that splits a leaf below a parent with room.  The leaf
    is sorted, one entry short of [leaf_max_size] and does not hold the
    key; its parent holds fewer than [internal_max_size] entries.
    [Insert] returns true; the old page keeps the lower [(max + 1) / 2]
    entries of the leaf with the new pair in it, a new page takes the
    rest and is chained between the leaf and its successor; the parent
    gets the new page, under its first key, right after the old one; the
    root stays and no other page changes. *)
Theorem Insert_splits_leaf_under_parent fuel (t : BPlusTree) lid (L : LeafPage)
    (P : InternalPage) key value :
  FindLeafPage comparator (S fuel) t key INSERT false false = Done lid ->
  pool t !! lid = Some (PLeaf L) ->
  IsRootPage (lhdr L) = false ->
  page_id_ (lhdr L) = lid ->
  max_size_ (lhdr L) = leaf_max_size_ t ->
  sorted comparator (larr L) (L_size L) ->
  L_Lookup comparator L key = Done None ->
  L_size L + 1 = leaf_max_size_ t ->
  pool t !! parent_page_id_ (lhdr L) = Some (PInternal P) ->
  I_size P < internal_max_size_ t ->
  pool t !! next_page_id t = None ->
  let pid := parent_page_id_ (lhdr L) in
  let n := next_page_id t in
  let keep := Z.quot (leaf_max_size_ t + 1) 2 in
  exists (t' : BPlusTree) (L1 Lf Rt : LeafPage),
    L_Insert comparator L key value = Done (leaf_max_size_ t, L1) /\
    Insert comparator blank_leaf blank_internal (S fuel) t key value = Done (true, t') /\
    root_page_id_ t' = root_page_id_ t /\ header_record t' = header_record t /\
    next_page_id t' = n + 1 /\
    pool t' !! lid = Some (PLeaf Lf) /\ pool t' !! n = Some (PLeaf Rt) /\
    pool t' !! pid =
      Some (PInternal (I_InsertNodeAfter P lid (L_KeyAt Rt 0) n).2) /\
    (forall id, id <> lid -> id <> n -> id <> pid -> pool t' !! id = pool t !! id) /\
    lhdr Lf = mkHeader keep (leaf_max_size_ t) pid lid /\
    lhdr Rt = mkHeader (leaf_max_size_ t - keep) (leaf_max_size_ t) pid n /\
    next_page_id_ Lf = n /\ next_page_id_ Rt = next_page_id_ L /\
    (forall j, j < keep -> larr Lf j = larr L1 j) /\
    (forall j, 0 <= j < leaf_max_size_ t - keep -> larr Rt j = larr L1 (keep + j)) /\
    sorted comparator (larr Lf) (L_size Lf) /\
    sorted comparator (larr Rt) (L_size Rt) /\
    0 < keep < leaf_max_size_ t.
Proof.
  intros Hfind Hpool Hnotroot Hpid Hmax Hs Hlook Hfull HP Hroom Hfresh pid n keep.
  pose proof (L_Lookup_None_absent comparator L key Hs Hlook) as Hno.
  assert (0 < L_size L) as Hn.
  { unfold L_Lookup, L_KeyIndex in Hlook.
    destruct (bool_decide_reflect (L_size L > 0)); [lia|done]. }
  destruct (L_Insert_absent comparator L key value Hs ltac:(lia) Hno)
    as (L1 & idx & Hins & Hhdr1 & Hnext1 & Hidx & Hlow & Hat & Hup & _ & _ & Hs1).
  assert (L_size L1 = leaf_max_size_ t) as Hsz1
    by (unfold L_size in *; rewrite Hhdr1; simpl; lia).
  assert (max_size_ (lhdr L1) = leaf_max_size_ t) as Hmax1 by (by rewrite Hhdr1).
  assert (parent_page_id_ (lhdr L1) = pid) as Hpar1 by (by rewrite Hhdr1).
  assert (page_id_ (lhdr L1) = lid) as Hpid1 by (by rewrite Hhdr1).
  assert (0 < keep < leaf_max_size_ t) as Hkeep.
  { unfold keep. rewrite Z.quot_div_nonneg by lia.
    pose proof (Z.div_pos (leaf_max_size_ t + 1) 2 ltac:(lia) ltac:(lia)).
    pose proof (Z.mul_div_le (leaf_max_size_ t + 1) 2 ltac:(lia)).
    pose proof (Z.mul_succ_div_gt (leaf_max_size_ t + 1) 2 ltac:(lia)). lia. }
  change (pool t !! n = None) in Hfresh.
  change (pool t !! pid = Some (PInternal P)) in HP.
  assert (lid <> n) as Hd1 by (intros Heq; by rewrite Heq, Hfresh in Hpool).
  assert (pid <> n) as Hd2 by (intros Heq; by rewrite Heq, Hfresh in HP).
  assert (pid <> lid) as Hd3 by (intros Heq; by rewrite Heq, Hpool in HP).
  set (Rt := mkLeaf (mkHeader (leaf_max_size_ t - keep) (leaf_max_size_ t) pid n)
               (next_page_id_ L1)
               (copy_slots (Z.to_nat (leaf_max_size_ t - keep)) (larr L1) keep
                  blank_leaf 0)).
  set (Lf := mkLeaf (SetSize (lhdr L1) keep) n (larr L1)).
  set (P' := (I_InsertNodeAfter P lid (L_KeyAt Rt 0) n).2).
  set (t' := mkTree (root_page_id_ t) (leaf_max_size_ t) (internal_max_size_ t)
               (<[pid := PInternal P']>
                  (<[n := PLeaf Rt]>
                     (<[lid := PLeaf Lf]>
                        (<[n := PLeaf Rt]>
                           (<[lid := PLeaf L1]> (pool t))))))
               (n + 1) (header_record t) (deleted_page_set t)).
  exists t', L1, Lf, Rt.
  split; [by rewrite Hins, Hfull|]. split.
  { unfold Insert.
    assert (IsEmpty t = false) as ->.
    { unfold FindLeafPage in Hfind. by destruct (IsEmpty t). }
    unfold InsertToLeaf. rewrite Hfind. cbn [mbind outcome_bind].
    rewrite (fetch_leaf_Some _ _ _ Hpool). cbn [mbind outcome_bind].
    rewrite Hlook. cbn [mbind outcome_bind]. rewrite Hins. cbn [mbind outcome_bind].
    rewrite bool_decide_eq_false_2 by (cbn [leaf_max_size_ put with_pool]; lia).
    rewrite (SplitLeaf_full (put t lid (PLeaf L1)) lid L1) by (apply pool_put_eq || lia).
    cbn [mbind outcome_bind].
    cbn [next_page_id put with_pool leaf_max_size_]. rewrite Hmax1, Hpar1.
    fold n keep. fold Rt Lf.
    rewrite (fetch_leaf_Some _ n Rt).
    2:{ rewrite pool_put_ne by done. apply pool_put_eq. }
    cbn [mbind outcome_bind].
    rewrite (fetch_leaf_Some _ lid Lf) by apply pool_put_eq.
    cbn [mbind outcome_bind].
    change (L_SetNextPageId Lf (page_id_ (lhdr Rt))) with Lf.
    rewrite put_put_same.
    rewrite (InsertIntoParent_room fuel _ lid n (L_KeyAt Rt 0)
               (PLeaf Lf) (PLeaf Rt) P).
    - cbn [mbind outcome_bind]. unfold t', P'.
      cbn [NewPage put with_pool snd pool next_page_id leaf_max_size_
           internal_max_size_ deleted_page_set header_record root_page_id_
           hdr with_hdr page_id_ lhdr SetSize parent_page_id_ Lf].
      rewrite Hpar1, Hpid1.
      change (page_id_ (lhdr Rt)) with n.
      change (L_with_hdr Rt (SetParentPageId (lhdr Rt) pid)) with Rt.
      done.
    - apply pool_put_eq.
    - rewrite pool_put_ne by done. apply pool_put_eq.
    - cbn [hdr lhdr Lf SetSize IsRootPage parent_page_id_]. rewrite Hhdr1.
      exact Hnotroot.
    - cbn [hdr lhdr Lf SetSize parent_page_id_]. rewrite Hpar1.
      rewrite !pool_put_ne by done. cbn [NewPage snd pool].
      rewrite pool_put_ne by done. exact HP.
    - cbn [hdr lhdr Lf SetSize parent_page_id_]. by rewrite Hpar1.
    - done. }
  split; [done|]. split; [done|]. split; [done|].
  split.
  { unfold t'. cbn [pool]. rewrite lookup_insert_ne by done.
    rewrite lookup_insert_ne by done. apply lookup_insert_eq. }
  split.
  { unfold t'. cbn [pool]. rewrite lookup_insert_ne by done. apply lookup_insert_eq. }
  split; [unfold t'; cbn [pool]; apply lookup_insert_eq|].
  split.
  { intros id H1 H2 H3. unfold t'. cbn [pool]. by rewrite !lookup_insert_ne by done. }
  split.
  { unfold Lf. cbn [lhdr]. rewrite Hhdr1. unfold SetSize, IncreaseSize. simpl.
    by rewrite Hmax, Hpid. }
  split; [done|]. split; [done|]. split; [done|]. split; [done|].
  assert (forall j, 0 <= j < leaf_max_size_ t - keep -> larr Rt j = larr L1 (keep + j))
    as Hrt.
  { intros j Hj. unfold Rt. cbn [larr]. rewrite copy_slots_spec.
    rewrite bool_decide_eq_true_2 by lia. f_equal. lia. }
  split; [done|]. split.
  { intros i j Hi Hij Hj. unfold Lf. cbn [larr]. apply Hs1.
    - done.
    - done.
    - change (L_size Lf) with keep in Hj. lia. }
  split; [|done].
  intros i j Hi Hij Hj. change (L_size Rt) with (leaf_max_size_ t - keep) in Hj.
  rewrite !Hrt by lia. apply Hs1; lia.
Qed.

End SplitLaws.

Lemma Insert_splits_root_leaf_witness :
  exists (t' : BPlusTree) (Lf Rt : LeafPage) (Root : InternalPage),
    Insert cmpZ zero_leaf zero_internal 9 tree_123 4 4 = Done (true, t') /\
    root_page_id_ t' = 3 /\
    pool t' !! 3 = Some (PInternal Root) /\
    pool t' !! 1 = Some (PLeaf Lf) /\ pool t' !! 2 = Some (PLeaf Rt) /\
    I_size Root = 2 /\ I_ValueAt Root 0 = 1 /\ iarr Root 1 = (L_KeyAt Rt 0, 2) /\
    L_size Lf = 2 /\ L_size Rt = 2 /\
    GetValue cmpZ 9 t' 4 = Done (Some 4) /\
    GetValue cmpZ 9 t' 2 = Done (Some 2).
Proof.
  destruct (Insert_splits_root_leaf cmpZ zero_leaf zero_internal 8 tree_123
              root_leaf_123 4 4
              ltac:(vm_compute; split; reflexivity) eq_refl eq_refl eq_refl eq_refl
              root_leaf_123_sorted eq_refl eq_refl)
    as (t' & Lf & Rt & Root & Hrun & Hroot & _ & _ & HR & HLf & HRt & _ & Hsz & _ &
        Hv0 & Hs1 & _ & _ & _ & _ & HszL & HszR & _ & _ & Hnew & Hold).
  exists t', Lf, Rt, Root. split; [exact Hrun|]. split; [exact Hroot|].
  split; [exact HR|]. split; [exact HLf|]. split; [exact HRt|].
  split; [exact Hsz|]. split; [exact Hv0|]. split; [exact Hs1|].
  split; [exact HszL|]. split; [exact HszR|]. split; [exact Hnew|].
  exact (Hold 2 1 root_leaf_123_has_2).
Defined.

Lemma right_leaf_345_sorted :
  sorted cmpZ (larr right_leaf_345) (L_size right_leaf_345).
Proof.
  intros i j Hi Hij Hj. change (L_size right_leaf_345) with 3 in Hj.
  assert (i = 0 \/ i = 1) as [-> | ->] by lia;
    assert (j = 1 \/ j = 2) as [-> | ->] by lia; (reflexivity || lia).
Qed.

Lemma Insert_splits_leaf_under_parent_witness :
  exists (t' : BPlusTree) (Lf Rt : LeafPage),
    Insert cmpZ zero_leaf zero_internal 9 two_leaves_345 6 6 = Done (true, t') /\
    root_page_id_ t' = 3 /\ next_page_id t' = 5 /\
    pool t' !! 2 = Some (PLeaf Lf) /\ pool t' !! 4 = Some (PLeaf Rt) /\
    pool t' !! 3 =
      Some (PInternal (I_InsertNodeAfter root_of_two 2 (L_KeyAt Rt 0) 4).2) /\
    lhdr Lf = mkHeader 2 4 3 2 /\ lhdr Rt = mkHeader 2 4 3 4 /\
    next_page_id_ Lf = 4 /\ next_page_id_ Rt = INVALID_PAGE_ID.
Proof.
  destruct (Insert_splits_leaf_under_parent cmpZ zero_leaf zero_internal 8
              two_leaves_345 2 right_leaf_345 root_of_two 6 6
              eq_refl eq_refl eq_refl eq_refl eq_refl right_leaf_345_sorted
              eq_refl eq_refl eq_refl ltac:(vm_compute; reflexivity) eq_refl)
    as (t' & L1 & Lf & Rt & _ & Hrun & Hroot & _ & Hnext & HLf & HRt & HP & _ &
        HhL & HhR & HnL & HnR & _).
  exists t', Lf, Rt. split; [exact Hrun|]. split; [exact Hroot|].
  split; [exact Hnext|]. split; [exact HLf|]. split; [exact HRt|].
  split; [exact HP|]. split; [exact HhL|]. split; [exact HhR|].
  split; [exact HnL|exact HnR].
Defined.

End BPTSplit.

(* ====================================================================== *)
(** * B+tree: merging two leaves *)
(* ====================================================================== *)

Module BPTMerge.
Import BPT BPTFacts BPTLaws BPTTree BPTRemove BPTSplit.

Section MergeLaws.
Context {KeyType ValueType : Type}.
Variable comparator : KeyType -> KeyType -> Z.
Context `{!KeyOrder comparator}.

Abbreviation BPlusTree := (@BPlusTree KeyType ValueType).
Abbreviation TreePage := (@TreePage KeyType ValueType).
Abbreviation LeafPage := (@LeafPage KeyType ValueType).
Abbreviation InternalPage := (@InternalPage KeyType).

(** The leaf's [MoveAllTo]: the entries are appended to the recipient,
    which also takes over the link to the next leaf. *)
Lemma L_MoveAllTo_spec (N S : LeafPage) :
  0 <= L_size N ->
  let '(N', S') := L_MoveAllTo N S in
  L_size N' = 0 /\ lhdr N' = SetSize (lhdr N) 0 /\
  lhdr S' = IncreaseSize (lhdr S) (L_size N) /\
  next_page_id_ S' = next_page_id_ N /\
  (forall j, j < L_size S -> larr S' j = larr S j) /\
  (forall j, 0 <= j < L_size N -> larr S' (L_size S + j) = larr N j).
Proof.
  intros Hn. unfold L_MoveAllTo, L_CopyNFrom, L_SetNextPageId, L_with_hdr.
  cbn [lhdr next_page_id_ larr]. unfold L_size at 1. cbn [lhdr SetSize size_].
  split; [done|]. split; [done|]. split; [done|]. split; [done|]. split.
  - intros j Hj. rewrite copy_slots_spec.
    rewrite bool_decide_eq_false_2; [done|lia].
  - intros j Hj. rewrite copy_slots_spec.
    rewrite bool_decide_eq_true_2 by lia. f_equal. lia.
Qed.

(** [Coalesce] of two leaves, up to its call back into
    [CoalesceOrRedistribute]. *)
Lemma Coalesce_leaves_run (recurse : BPlusTree -> Z -> outcome (bool * BPlusTree))
    (t : BPlusTree) sid nid pid index (N S : LeafPage) (P : InternalPage) :
  pool t !! nid = Some (PLeaf N) -> pool t !! sid = Some (PLeaf S) ->
  pool t !! pid = Some (PInternal P) ->
  nid <> sid ->
  Coalesce recurse t sid nid pid index =
    recurse (put (put (put t nid (PLeaf (L_MoveAllTo N S).1))
                    sid (PLeaf (L_MoveAllTo N S).2))
               pid (PInternal (I_Remove P index))) pid.
Proof.
  intros HN HS HP Hne.
  assert (pid <> nid) as Hpn by (intros ->; rewrite HN in HP; done).
  assert (pid <> sid) as Hps by (intros ->; rewrite HS in HP; done).
  unfold Coalesce.
  rewrite (fetch_internal_Some _ _ _ HP). cbn [mbind outcome_bind].
  unfold FetchPage. rewrite HN. cbn [of_option mbind outcome_bind IsLeafPage].
  rewrite (fetch_leaf_Some _ _ _ HN). cbn [mbind outcome_bind].
  rewrite (fetch_leaf_Some _ _ _ HS). cbn [mbind outcome_bind].
  destruct (L_MoveAllTo N S) as [N' S'] eqn:Hmove. cbn [mbind outcome_bind fst snd].
  rewrite (fetch_internal_Some _ _ P).
  2:{ rewrite pool_put_ne by done. by rewrite pool_put_ne by done. }
  done.
Qed.

(** [Remove] on an internal page: the entries above [index] move down
    by one. *)
Lemma I_Remove_spec (P : InternalPage) index :
  0 <= index < I_size P ->
  I_size (I_Remove P index) = I_size P - 1 /\
  (forall j, j < index -> iarr (I_Remove P index) j = iarr P j) /\
  (forall j, index <= j < I_size P - 1 -> iarr (I_Remove P index) j = iarr P (j + 1)).
Proof.
  intros Hi. unfold I_Remove. cbn [iarr]. split; [unfold I_size; simpl; lia|].
  split.
  - intros j Hj. rewrite move_slots_down by lia.
    rewrite bool_decide_eq_false_2; [done|lia].
  - intros j Hj. rewrite move_slots_down by lia.
    rewrite bool_decide_eq_true_2 by lia. f_equal. lia.
Qed.

(** [Coalesce] of two leaves: every entry of [node] is appended to the
    neighbor, which takes over the link to the next leaf; [node] is left
    empty; the parent loses the slot [index] and the entries above it
    move down; no other page changes; and the result is whatever
    [CoalesceOrRedistribute] then decides for the parent. *)
Theorem Coalesce_leaves (recurse : BPlusTree -> Z -> outcome (bool * BPlusTree))
    (t : BPlusTree) neighbor_id node_id parent_id index
    (N S : LeafPage) (P : InternalPage) :
  pool t !! node_id = Some (PLeaf N) -> pool t !! neighbor_id = Some (PLeaf S) ->
  pool t !! parent_id = Some (PInternal P) ->
  node_id <> neighbor_id -> 0 <= L_size N -> 0 <= index < I_size P ->
  exists (t' : BPlusTree) (N' S' : LeafPage) (P' : InternalPage),
    Coalesce recurse t neighbor_id node_id parent_id index = recurse t' parent_id /\
    pool t' !! node_id = Some (PLeaf N') /\
    pool t' !! neighbor_id = Some (PLeaf S') /\
    pool t' !! parent_id = Some (PInternal P') /\
    (forall id, id <> node_id -> id <> neighbor_id -> id <> parent_id ->
       pool t' !! id = pool t !! id) /\
    root_page_id_ t' = root_page_id_ t /\
    L_size N' = 0 /\
    L_size S' = L_size S + L_size N /\
    next_page_id_ S' = next_page_id_ N /\
    (forall j, j < L_size S -> larr S' j = larr S j) /\
    (forall j, 0 <= j < L_size N -> larr S' (L_size S + j) = larr N j) /\
    I_size P' = I_size P - 1 /\
    (forall j, j < index -> iarr P' j = iarr P j) /\
    (forall j, index <= j < I_size P - 1 -> iarr P' j = iarr P (j + 1)).
Proof.
  intros HN HS HP Hne Hn Hi.
  assert (parent_id <> node_id) as Hpn by (intros ->; rewrite HN in HP; done).
  assert (parent_id <> neighbor_id) as Hps by (intros ->; rewrite HS in HP; done).
  pose proof (L_MoveAllTo_spec N S Hn) as Hmove.
  destruct (L_MoveAllTo N S) as [N' S'] eqn:Hm.
  destruct Hmove as (HszN & _ & HhdrS & Hnext & Hlow & Hup).
  destruct (I_Remove_spec P index Hi) as (HszP & HlowP & HupP).
  eexists _, N', S', (I_Remove P index).
  split.
  { rewrite (Coalesce_leaves_run recurse t neighbor_id node_id parent_id index N S P)
      by done. by rewrite Hm. }
  split.
  { rewrite pool_put_ne by done. rewrite pool_put_ne by done. apply pool_put_eq. }
  split; [rewrite pool_put_ne by done; apply pool_put_eq|].
  split; [apply pool_put_eq|]. split.
  { intros id H1 H2 H3. by rewrite !pool_put_ne by done. }
  split; [done|]. split; [done|].
  split; [unfold L_size in *; rewrite HhdrS; simpl; lia|].
  done.
Qed.

(** [ValueIndex] of the second child of a page whose first child is
    another page. *)
Lemma I_ValueIndex_second (P : InternalPage) lid rid :
  2 <= I_size P -> I_ValueAt P 0 = lid -> I_ValueAt P 1 = rid -> lid <> rid ->
  I_ValueIndex P rid = 1.
Proof.
  intros Hsz H0 H1 Hne. unfold I_ValueIndex, I_ValueAt in *.
  destruct (Z.to_nat (I_size P)) as [|[|n]] eqn:Hn; try lia.
  cbn [ValueIndex_from]. rewrite bool_decide_eq_false_2 by congruence.
  change (0 + 1) with 1. by rewrite bool_decide_eq_true_2.
Qed.

(** [CoalesceOrRedistribute] on the right one of the two leaves under a
    root, when it has fallen below its minimum size and its left sibling
    holds exactly the minimum: the leaf is merged into the sibling, the
    root is left with one child and hands the root over to it. *)
Lemma CoalesceOrRedistribute_merge_left fuel (u : BPlusTree) rid lid pid
    (Nd Sb : LeafPage) (P : InternalPage) :
  pool u !! rid = Some (PLeaf Nd) -> pool u !! lid = Some (PLeaf Sb) ->
  pool u !! pid = Some (PInternal P) -> lid <> rid ->
  IsRootPage (lhdr Nd) = false -> parent_page_id_ (lhdr Nd) = pid ->
  page_id_ (lhdr Nd) = rid -> page_id_ (lhdr Sb) = lid ->
  0 <= L_size Nd < leaf_min_size (lhdr Nd) ->
  L_size Sb = leaf_min_size (lhdr Sb) ->
  I_size P = 2 -> I_ValueAt P 0 = lid -> I_ValueAt P 1 = rid ->
  IsRootPage (ihdr P) = true -> page_id_ (ihdr P) = pid ->
  let Nd' := (L_MoveAllTo Nd Sb).1 in
  let Sb' := (L_MoveAllTo Nd Sb).2 in
  let M := L_with_hdr Sb' (SetParentPageId (lhdr Sb') INVALID_PAGE_ID) in
  CoalesceOrRedistribute (S (S fuel)) u rid =
    Done (true,
          mkTree lid (leaf_max_size_ u) (internal_max_size_ u)
            (<[lid := PLeaf M]>
               (<[pid := PInternal (I_Remove P 1)]>
                  (<[lid := PLeaf Sb']> (<[rid := PLeaf Nd']> (pool u)))))
            (next_page_id u) (Some lid) (deleted_page_set u ++ [pid])).
Proof.
  intros HN HS HP Hne Hnr Hpar HidN HidS HszN HszS HszP Hv0 Hv1 HrP HidP Nd' Sb' M.
  assert (pid <> rid) as Hpn by (intros ->; rewrite HN in HP; done).
  assert (pid <> lid) as Hps by (intros ->; rewrite HS in HP; done).
  cbn [CoalesceOrRedistribute]. unfold FetchPage. rewrite HN.
  cbn [of_option mbind outcome_bind hdr]. rewrite Hnr.
  rewrite bool_decide_eq_false_2 by (cbn [GetMinSize]; unfold L_size in HszN; lia).
  rewrite Hpar. rewrite (fetch_internal_Some _ _ _ HP). cbn [mbind outcome_bind].
  rewrite HidN. rewrite (I_ValueIndex_second P lid rid) by (done || lia).
  rewrite HszP.
  rewrite (bool_decide_eq_true_2 (1 < 2 /\ 1 >= 0)) by lia.
  rewrite (bool_decide_eq_true_2 (2 >= 2)) by lia.
  rewrite (bool_decide_eq_true_2 (1 > 0)) by lia. cbn [negb].
  change (1 - 1) with 0. rewrite Hv0.
  unfold FetchPage. rewrite HS. cbn [of_option mbind outcome_bind hdr IsLeafPage].
  rewrite (bool_decide_eq_true_2 (true = true)) by done. cbn [negb].
  rewrite bool_decide_eq_false_2 by (cbn [GetMinSize]; unfold L_size in HszS; lia).
  rewrite bool_decide_eq_true_2 by (cbn [GetMinSize]; unfold L_size in HszS; lia).
  cbn [negb].
  rewrite (Coalesce_leaves_run _ u lid rid pid 1 Nd Sb P) by done.
  fold Nd' Sb'.
  set (u4 := put (put (put u rid (PLeaf Nd')) lid (PLeaf Sb')) pid
               (PInternal (I_Remove P 1))).
  assert (pool u4 !! pid = Some (PInternal (I_Remove P 1))) as Hp4 by apply pool_put_eq.
  assert (pool u4 !! lid = Some (PLeaf Sb')) as Hl4.
  { unfold u4. rewrite pool_put_ne by done. apply pool_put_eq. }
  destruct (I_Remove_spec P 1 ltac:(lia)) as (HszP' & HlowP & _).
  cbn [CoalesceOrRedistribute]. unfold FetchPage. rewrite Hp4.
  cbn [of_option mbind outcome_bind hdr].
  assert (ihdr (I_Remove P 1) = IncreaseSize (ihdr P) (-1)) as Hh2 by done.
  rewrite Hh2.
  change (IsRootPage (IncreaseSize (ihdr P) (-1))) with (IsRootPage (ihdr P)).
  rewrite HrP.
  unfold AdjustRoot. rewrite bool_decide_eq_true_2 by lia.
  assert (I_ValueAt (I_Remove P 1) 0 = lid) as Hc.
  { unfold I_ValueAt in *. rewrite HlowP by lia. done. }
  rewrite Hc. unfold FetchPage. rewrite Hl4.
  cbn [of_option mbind outcome_bind hdr with_hdr].
  assert (page_id_ (lhdr Sb') = lid) as HidS' by (by unfold Sb').
  cbn [L_with_hdr lhdr SetParentPageId page_id_]. rewrite HidS'.
  rewrite (fetch_internal_Some _ pid (I_Remove P 1)).
  2:{ unfold UpdateRootPageId, with_root, put, with_pool. cbn [pool].
      rewrite lookup_insert_ne by done. exact Hp4. }
  cbn [mbind outcome_bind]. rewrite Hh2.
  cbn [IncreaseSize SetSize page_id_]. rewrite HidP.
  unfold M, L_with_hdr, SetParentPageId. rewrite HidS'.
  done.
Qed.

(** The removal that merges the two leaves under the root.  The key is
    in the right leaf, which holds no more than its minimum, and the left
    leaf holds exactly its minimum: the right leaf's remaining entries
    are appended to the left leaf, which becomes the root leaf and takes
    over the link to the next leaf; the old root and the right leaf are
    deleted from the buffer pool; the header page records the new root. *)
Theorem Remove_merges_leaves fuel (t : BPlusTree) key lid rid
    (Lf Rt : LeafPage) (P : InternalPage) i :
  root_page_id_ t <> INVALID_PAGE_ID ->
  pool t !! root_page_id_ t = Some (PInternal P) ->
  pool t !! lid = Some (PLeaf Lf) -> pool t !! rid = Some (PLeaf Rt) ->
  lid <> rid ->
  IsRootPage (ihdr P) = true -> page_id_ (ihdr P) = root_page_id_ t ->
  I_size P = 2 -> I_ValueAt P 0 = lid -> I_ValueAt P 1 = rid ->
  parent_page_id_ (lhdr Rt) = root_page_id_ t ->
  page_id_ (lhdr Rt) = rid -> page_id_ (lhdr Lf) = lid ->
  L_size Lf = leaf_min_size (lhdr Lf) ->
  L_size Rt <= leaf_min_size (lhdr Rt) ->
  sorted comparator (larr Rt) (L_size Rt) ->
  key_at_slot comparator (larr Rt) (L_size Rt) key i ->
  FindLeafPage comparator (S (S fuel)) t key DELETE false false = Done rid ->
  deleted_page_set t = [] ->
  exists (t' : BPlusTree) (M : LeafPage),
    Remove comparator (S (S fuel)) t key = Done t' /\
    root_page_id_ t' = lid /\ header_record t' = Some lid /\
    deleted_page_set t' = [] /\
    pool t' !! lid = Some (PLeaf M) /\
    pool t' !! root_page_id_ t = None /\ pool t' !! rid = None /\
    (forall id, id <> lid -> id <> rid -> id <> root_page_id_ t ->
       pool t' !! id = pool t !! id) /\
    IsRootPage (lhdr M) = true /\
    next_page_id_ M = next_page_id_ Rt /\
    L_size M = L_size Lf + (L_size Rt - 1) /\
    (forall j, j < L_size Lf -> larr M j = larr Lf j) /\
    (forall j, 0 <= j < i -> larr M (L_size Lf + j) = larr Rt j) /\
    (forall j, i <= j < L_size Rt - 1 -> larr M (L_size Lf + j) = larr Rt (j + 1)).
Proof.
  intros Hroot HP HL HR Hne HrP HidP HszP Hv0 Hv1 Hpar HidR HidL HszL HszR Hs Hk
    Hfind Hdel.
  set (pid := root_page_id_ t) in *.
  pose proof (proj1 Hk) as Hi.
  assert (pid <> rid) as Hpn by (intros Heq; rewrite Heq, HR in HP; done).
  assert (pid <> lid) as Hps by (intros Heq; rewrite Heq, HL in HP; done).
  destruct (L_Remove_present comparator Rt key i Hs Hk)
    as (Rt' & Hrem & Hhdr & Hnext & Hlow & Hup & _ & _).
  assert (L_size Rt' = L_size Rt - 1) as Hsz'
    by (unfold L_size; rewrite Hhdr; simpl; lia).
  assert (IsRootPage (lhdr Rt') = false) as Hnr.
  { rewrite Hhdr. unfold IsRootPage. cbn [IncreaseSize SetSize parent_page_id_].
    rewrite Hpar. by apply bool_decide_eq_false_2. }
  assert (parent_page_id_ (lhdr Rt') = pid) as Hpar' by (by rewrite Hhdr).
  assert (page_id_ (lhdr Rt') = rid) as HidR' by (by rewrite Hhdr).
  rewrite (Remove_found comparator (S (S fuel)) t key rid Rt Rt' i) by done.
  rewrite Hnr, Hpar', HidR'. cbn [negb andb].
  (* the separator of the right leaf may be rewritten first *)
  set (P1 := if bool_decide (i = 0) then I_SetKeyAt P 1 (L_KeyAt Rt' 0) else P).
  set (u := if bool_decide (i = 0)
            then put (put t rid (PLeaf Rt')) pid (PInternal P1)
            else put t rid (PLeaf Rt')).
  assert ((if bool_decide (i = 0) then
             p_page ← fetch_internal (put t rid (PLeaf Rt')) pid;
             if bool_decide (I_ValueIndex p_page rid <> 0)
             then Done (put (put t rid (PLeaf Rt')) pid
                          (PInternal (I_SetKeyAt p_page (I_ValueIndex p_page rid)
                                        (L_KeyAt Rt' 0))))
             else Done (put t rid (PLeaf Rt'))
           else Done (put t rid (PLeaf Rt'))) = Done u) as ->.
  { unfold u, P1. destruct (bool_decide (i = 0)); [|done].
    rewrite (fetch_internal_Some _ _ P) by (by rewrite pool_put_ne).
    cbn [mbind outcome_bind].
    rewrite (I_ValueIndex_second P lid rid) by (done || lia).
    by rewrite bool_decide_eq_true_2. }
  cbn [mbind outcome_bind].
  assert (pool u !! rid = Some (PLeaf Rt') /\ pool u !! lid = Some (PLeaf Lf) /\
          pool u !! pid = Some (PInternal P1) /\
          (forall id, id <> rid -> id <> pid -> pool u !! id = pool t !! id) /\
          deleted_page_set u = [] /\ leaf_max_size_ u = leaf_max_size_ t /\
          internal_max_size_ u = internal_max_size_ t /\
          next_page_id u = next_page_id t)
    as (Hur & Hul & Hup' & Huo & Hud & Hum & Hui & Hun).
  { unfold u, P1. destruct (bool_decide (i = 0)).
    - split; [rewrite pool_put_ne by done; apply pool_put_eq|].
      split; [by rewrite !pool_put_ne by done|].
      split; [apply pool_put_eq|]. split; [|done].
      intros id H1 H2. by rewrite !pool_put_ne by done.
    - split; [apply pool_put_eq|]. split; [by rewrite pool_put_ne by done|].
      split; [by rewrite pool_put_ne by done|]. split; [|done].
      intros id H1 H2. by rewrite pool_put_ne by done. }
  assert (I_size P1 = 2 /\ I_ValueAt P1 0 = lid /\ I_ValueAt P1 1 = rid /\
          IsRootPage (ihdr P1) = true /\ page_id_ (ihdr P1) = pid)
    as (HszP1 & Hv01 & Hv11 & HrP1 & HidP1).
  { unfold P1. destruct (bool_decide (i = 0)); [|done].
    unfold I_SetKeyAt, I_ValueAt, I_size in *. cbn [ihdr iarr].
    rewrite upd_ne by lia. rewrite upd_eq. done. }
  rewrite (CoalesceOrRedistribute_merge_left fuel u rid lid pid Rt' Lf P1);
    try done.
  2:{ split; [lia|]. rewrite Hsz', Hhdr.
      unfold leaf_min_size in *. cbn [IncreaseSize SetSize max_size_]. lia. }
  cbn [mbind outcome_bind].
  pose proof (L_MoveAllTo_spec Rt' Lf ltac:(lia)) as Hmove.
  destruct (L_MoveAllTo Rt' Lf) as [N' S'] eqn:Hm. cbn [fst snd].
  destruct Hmove as (HszN & HhdrN & HhdrS & HnextS & HlowS & HupS).
  rewrite (fetch_leaf_Some _ rid N').
  2:{ cbn [pool]. rewrite lookup_insert_ne by done.
      rewrite lookup_insert_ne by done. rewrite lookup_insert_ne by done.
      apply lookup_insert_eq. }
  cbn [mbind outcome_bind].
  assert (page_id_ (lhdr N') = rid) as -> by (by rewrite HhdrN).
  eexists _, _. split; [done|].
  unfold delete_pages, AddIntoDeletedPageSet.
  cbn [root_page_id_ header_record deleted_page_set pool].
  rewrite Hud. cbn [app foldl].
  split; [done|]. split; [done|]. split; [done|]. split.
  { rewrite lookup_delete_ne by done. rewrite lookup_delete_ne by done.
    apply lookup_insert_eq. }
  split.
  { rewrite lookup_delete_ne by done. apply lookup_delete_eq. }
  split; [apply lookup_delete_eq|]. split.
  { intros id H1 H2 H3. rewrite lookup_delete_ne by done.
    rewrite lookup_delete_ne by done. rewrite !lookup_insert_ne by done.
    by apply Huo. }
  cbn [L_with_hdr lhdr next_page_id_ larr].
  split; [done|]. split; [by rewrite HnextS, Hnext|]. split.
  { unfold L_size in *. cbn [SetParentPageId size_]. rewrite HhdrS. simpl. lia. }
  split; [done|]. split.
  - intros j Hj. rewrite HupS by lia. apply Hlow. lia.
  - intros j Hj. rewrite HupS by lia. apply Hup. lia.
Qed.

End MergeLaws.

Lemma right_leaf_34_has_3 :
  key_at_slot cmpZ (larr right_leaf_34) (L_size right_leaf_34) 3 0.
Proof. split; [vm_compute; split; [discriminate|reflexivity]|reflexivity]. Qed.

Lemma Coalesce_leaves_witness :
  exists (t' : BPlusTree) (S' : LeafPage) (P' : InternalPage),
    Coalesce (fun t _ => Done (false, t)) two_leaves 1 2 3 1 = Done (false, t') /\
    pool t' !! 1 = Some (PLeaf S') /\ pool t' !! 3 = Some (PInternal P') /\
    L_size S' = 4 /\ next_page_id_ S' = INVALID_PAGE_ID /\
    larr S' 2 = (3, 3) /\ larr S' 3 = (4, 4) /\ I_size P' = 1.
Proof.
  destruct (Coalesce_leaves (fun t _ => Done (false, t)) two_leaves 1 2 3 1
              right_leaf_34 left_leaf_12 root_of_two eq_refl eq_refl eq_refl
              ltac:(lia) ltac:(vm_compute; discriminate)
              ltac:(vm_compute; split; [discriminate|reflexivity]))
    as (t' & N' & S' & P' & Hrun & _ & HS & HP & _ & _ & _ & Hsz & Hnext & _ &
        Hup & HszP & _).
  exists t', S', P'. split; [exact Hrun|]. split; [exact HS|]. split; [exact HP|].
  split; [exact Hsz|]. split; [exact Hnext|].
  split; [exact (Hup 0 ltac:(vm_compute; split; [discriminate|reflexivity]))|].
  split; [exact (Hup 1 ltac:(vm_compute; split; [discriminate|reflexivity]))|].
  exact HszP.
Defined.

Lemma Remove_merges_leaves_witness :
  exists (t' : BPlusTree) (M : LeafPage),
    Remove cmpZ 9 two_leaves 3 = Done t' /\
    root_page_id_ t' = 1 /\ header_record t' = Some 1 /\
    pool t' !! 1 = Some (PLeaf M) /\ pool t' !! 3 = None /\ pool t' !! 2 = None /\
    IsRootPage (lhdr M) = true /\ L_size M = 3 /\
    larr M 0 = (1, 1) /\ larr M 1 = (2, 2) /\ larr M 2 = (4, 4).
Proof.
  destruct (Remove_merges_leaves cmpZ 7 two_leaves 3 1 2 left_leaf_12
              right_leaf_34 root_of_two 0
              ltac:(vm_compute; discriminate) eq_refl eq_refl eq_refl ltac:(lia)
              eq_refl eq_refl eq_refl eq_refl eq_refl eq_refl eq_refl eq_refl
              eq_refl ltac:(vm_compute; discriminate) right_leaf_34_sorted
              right_leaf_34_has_3 eq_refl eq_refl)
    as (t' & M & Hrun & Hroot & Hrec & _ & HM & Hp & Hr & _ & Hisroot & _ & Hsz &
        Hlow & _ & Hup).
  exists t', M. split; [exact Hrun|]. split; [exact Hroot|]. split; [exact Hrec|].
  split; [exact HM|]. split; [exact Hp|]. split; [exact Hr|].
  split; [exact Hisroot|]. split; [exact Hsz|].
  split; [exact (Hlow 0 ltac:(vm_compute; reflexivity))|].
  split; [exact (Hlow 1 ltac:(vm_compute; reflexivity))|].
  exact (Hup 0 ltac:(vm_compute; split; [discriminate|reflexivity])).
Defined.

End BPTMerge.

(* ====================================================================== *)
(** * B+tree: splitting and merging internal pages *)
(* ====================================================================== *)

Module BPTInternal.
Import BPT BPTFacts BPTLaws BPTTree BPTRemove BPTSplit BPTMerge.

Section InternalSplit.
Context {KeyType ValueType : Type}.
Variable blank_internal : Z -> KeyType * Z.

Abbreviation BPlusTree := (@BPlusTree KeyType ValueType).
Abbreviation TreePage := (@TreePage KeyType ValueType).
Abbreviation LeafPage := (@LeafPage KeyType ValueType).
Abbreviation InternalPage := (@InternalPage KeyType).

Lemma parent_with_hdr (pg : TreePage) x :
  parent_page_id_ (hdr (with_hdr pg (SetParentPageId (hdr pg) x))) = x.
Proof. by destruct pg. Qed.

Lemma set_parent_inv (t t' : BPlusTree) id x :
  set_parent t id x = Done t' ->
  exists pg, pool t !! id = Some pg /\
    t' = put t id (with_hdr pg (SetParentPageId (hdr pg) x)).
Proof.
  unfold set_parent, FetchPage. destruct (pool t !! id) as [pg|]; [|done].
  simpl. intros [= <-]. by exists pg.
Qed.

(** A page whose parent pointer is [x] keeps it through the loop. *)
Lemma reparent_keeps (n : nat) :
  forall (t t' : BPlusTree) (a : Z -> KeyType * Z) i x id pg,
  reparent n t a i x = Done t' ->
  pool t !! id = Some pg -> parent_page_id_ (hdr pg) = x ->
  exists pg', pool t' !! id = Some pg' /\ parent_page_id_ (hdr pg') = x.
Proof.
  induction n as [|n IH]; intros t t' a i x id pg Hrun Hpg Hpar; simpl in Hrun.
  - injection Hrun as <-. eauto.
  - destruct (set_parent t (a i).2 x) as [t1| |] eqn:H1; try done. simpl in Hrun.
    destruct (set_parent_inv _ _ _ _ H1) as (pg1 & Hpg1 & ->).
    destruct (decide (id = (a i).2)) as [->|Hne].
    + eapply (IH _ _ _ _ _ (a i).2 _ Hrun); [apply pool_put_eq|].
      apply parent_with_hdr.
    + eapply (IH _ _ _ _ _ id pg Hrun); [|done]. by rewrite pool_put_ne.
Qed.

(** The loop touches no page outside the children it walks over. *)
Lemma reparent_frame (n : nat) :
  forall (t t' : BPlusTree) (a : Z -> KeyType * Z) i x id,
  reparent n t a i x = Done t' ->
  (forall k, 0 <= k < Z.of_nat n -> (a (i + k)).2 <> id) ->
  pool t' !! id = pool t !! id.
Proof.
  induction n as [|n IH]; intros t t' a i x id Hrun Hno; simpl in Hrun.
  - by injection Hrun as <-.
  - destruct (set_parent t (a i).2 x) as [t1| |] eqn:H1; try done. simpl in Hrun.
    destruct (set_parent_inv _ _ _ _ H1) as (pg1 & Hpg1 & ->).
    rewrite (IH _ _ _ _ _ id Hrun).
    + apply pool_put_ne. specialize (Hno 0 ltac:(lia)).
      by rewrite Z.add_0_r in Hno.
    + intros k Hk. replace (i + 1 + k) with (i + (k + 1)) by lia.
      apply Hno. lia.
Qed.

(** Every child the loop walks over ends with parent pointer [x]. *)
Lemma reparent_sets (n : nat) :
  forall (t t' : BPlusTree) (a : Z -> KeyType * Z) i x,
  reparent n t a i x = Done t' ->
  forall k, 0 <= k < Z.of_nat n ->
    exists pg, pool t' !! (a (i + k)).2 = Some pg /\ parent_page_id_ (hdr pg) = x.
Proof.
  induction n as [|n IH]; intros t t' a i x Hrun k Hk; [lia|]. simpl in Hrun.
  destruct (set_parent t (a i).2 x) as [t1| |] eqn:H1; try done. simpl in Hrun.
  destruct (set_parent_inv _ _ _ _ H1) as (pg1 & Hpg1 & ->).
  destruct (decide (k = 0)) as [->|Hk0].
  - rewrite Z.add_0_r.
    eapply (reparent_keeps _ _ _ _ _ _ (a i).2 _ Hrun); [apply pool_put_eq|].
    apply parent_with_hdr.
  - replace (i + k) with (i + 1 + (k - 1)) by lia.
    apply (IH _ _ _ _ _ Hrun). lia.
Qed.

(** [CopyNFrom] on an internal page: the [n] items are appended to the
    recipient, every child that came with them has the recipient as its
    parent, and no other page changes. *)
Lemma I_CopyNFrom_parents (t : BPlusTree) rid (R : InternalPage)
    (items : Z -> KeyType * Z) start n :
  pool t !! rid = Some (PInternal R) -> 0 <= n ->
  (forall k, 0 <= k < n -> is_Some (pool t !! (items (start + k)).2)) ->
  exists t' R',
    I_CopyNFrom t rid items start n = Done t' /\
    pool t' !! rid = Some (PInternal R') /\
    I_size R' = I_size R + n /\
    max_size_ (ihdr R') = max_size_ (ihdr R) /\
    page_id_ (ihdr R') = page_id_ (ihdr R) /\
    iarr R' = copy_slots (Z.to_nat n) items start (iarr R) (I_size R) /\
    ((forall k, 0 <= k < n -> (items (start + k)).2 <> rid) ->
     parent_page_id_ (ihdr R') = parent_page_id_ (ihdr R)) /\
    (forall k, 0 <= k < n ->
       exists pg, pool t' !! (items (start + k)).2 = Some pg /\
         parent_page_id_ (hdr pg) = page_id_ (ihdr R)) /\
    (forall id, id <> rid -> (forall k, 0 <= k < n -> (items (start + k)).2 <> id) ->
       pool t' !! id = pool t !! id) /\
    (forall id pg, id <> rid -> pool t !! id = Some pg ->
       exists pg', pool t' !! id = Some pg' /\ reparented pg pg') /\
    root_page_id_ t' = root_page_id_ t /\ next_page_id t' = next_page_id t /\
    leaf_max_size_ t' = leaf_max_size_ t /\
    internal_max_size_ t' = internal_max_size_ t /\
    header_record t' = header_record t /\
    deleted_page_set t' = deleted_page_set t.
Proof.
  intros HR Hn Hch. unfold I_CopyNFrom.
  rewrite (fetch_internal_Some _ _ _ HR). cbn [mbind outcome_bind].
  set (r1 := mkInternal (ihdr R)
               (copy_slots (Z.to_nat n) items start (iarr R) (I_size R))).
  assert (forall k, 0 <= k < n -> (iarr r1 (I_size R + k)).2 = (items (start + k)).2)
    as Hslot.
  { intros k Hk. simpl. rewrite copy_slots_spec.
    rewrite bool_decide_eq_true_2 by lia. do 2 f_equal. lia. }
  destruct (reparent_up_to (Z.to_nat n) (put t rid (PInternal r1)) (iarr r1)
              (I_size R) (page_id_ (ihdr R))) as (t1 & Hrun & H1).
  { intros k Hk. rewrite Hslot by lia.
    destruct (decide (rid = (items (start + k)).2)) as [<-|Hne].
    - by rewrite pool_put_eq.
    - rewrite pool_put_ne by done. apply Hch. lia. }
  rewrite Hrun. cbn [mbind outcome_bind].
  destruct (up_to_parents_lookup _ _ rid _ H1 (pool_put_eq _ _ _)) as (pg' & Hpg' & Hr).
  destruct (reparented_internal _ _ Hr) as (r2 & -> & Harr & Hsz & Hmax & Hid).
  rewrite (fetch_internal_Some _ _ _ Hpg'). cbn [mbind outcome_bind].
  destruct H1 as (Hf1 & Hf2 & Hf3 & Hf4 & Hf5 & Hf6 & Hpages).
  eexists _, _. split; [done|]. split; [apply pool_put_eq|].
  split; [unfold I_size in *; simpl in *; lia|].
  split; [done|]. split; [done|]. split; [done|].
  split; [|split; [|split; [|split]]].
  - intros Hno. simpl.
    pose proof (reparent_frame _ _ _ _ _ _ rid Hrun) as Hfr.
    rewrite Hpg', pool_put_eq in Hfr.
    assert (Some (PInternal r2 : TreePage) = Some (PInternal r1)) as Heq.
    { apply Hfr. intros k Hk. rewrite Hslot by lia. apply Hno. lia. }
    by injection Heq as ->.
  - intros k Hk.
    destruct (reparent_sets _ _ _ _ _ _ Hrun k ltac:(lia)) as (pg & Hpg & Hpar).
    rewrite Hslot in Hpg by lia.
    destruct (decide ((items (start + k)).2 = rid)) as [Heq|Hne].
    + rewrite Heq in *. rewrite pool_put_eq. eexists. split; [done|].
      rewrite Hpg' in Hpg. injection Hpg as <-. done.
    + rewrite pool_put_ne by done. eauto.
  - intros id Hne Hno. rewrite pool_put_ne by done.
    rewrite (reparent_frame _ _ _ _ _ _ id Hrun).
    + by rewrite pool_put_ne.
    + intros k Hk. rewrite Hslot by lia. apply Hno. lia.
  - intros id pg Hne Hpg. rewrite pool_put_ne by done.
    specialize (Hpages id). simpl in Hpages.
    rewrite lookup_insert_ne, Hpg in Hpages by done.
    inversion Hpages; subst. eauto.
  - done.
Qed.

(** [SplitInternal] on the scratch copy [node] of an overfull internal
    page.  The copy keeps its first [min_size] entries; a new page, the
    next the buffer pool hands out, takes the others in their order, with
    the parent of [node] as its parent; every child that moved has the
    new page as its parent; no other page changes. *)
Theorem SplitInternal_spec (t : BPlusTree) (node : InternalPage) :
  let n := next_page_id t in
  let m := internal_min_size (ihdr node) in
  m <= I_size node ->
  pool t !! n = None ->
  (forall k, m <= k < I_size node -> is_Some (pool t !! (iarr node k).2)) ->
  exists (t' : BPlusTree) (R : InternalPage),
    SplitInternal blank_internal t node =
      Done (I_with_hdr node (SetSize (ihdr node) m), n, t') /\
    next_page_id t' = n + 1 /\ root_page_id_ t' = root_page_id_ t /\
    pool t' !! n = Some (PInternal R) /\
    ihdr R = mkHeader (I_size node - m) (internal_max_size_ t)
               (parent_page_id_ (ihdr node)) n /\
    (forall j, 0 <= j < I_size node - m -> iarr R j = iarr node (m + j)) /\
    (forall k, m <= k < I_size node ->
       exists pg pg', pool t !! (iarr node k).2 = Some pg /\
         pool t' !! (iarr node k).2 = Some pg' /\
         pg' = with_hdr pg (SetParentPageId (hdr pg) n)) /\
    (forall id, id <> n -> (forall k, m <= k < I_size node -> (iarr node k).2 <> id) ->
       pool t' !! id = pool t !! id).
Proof.
  intros n m Hm Hfresh Hch. unfold SplitInternal, NewPage, I_MoveHalfTo.
  fold n. fold m.
  set (t0 := put _ n _).
  set (R0 := I_Init blank_internal n (parent_page_id_ (ihdr node))
               (internal_max_size_ t)).
  assert (forall k, m <= k < I_size node -> (iarr node k).2 <> n) as Hne.
  { intros k Hk Heq. destruct (Hch k Hk) as [pg Hpg]. rewrite Heq in Hpg.
    by rewrite Hfresh in Hpg. }
  assert (forall k, m <= k < I_size node -> n <> (iarr node k).2) as Hne'
    by (intros k Hk Heq; by apply (Hne k Hk)).
  destruct (I_CopyNFrom_parents t0 n R0 (iarr node) m (I_size node - m))
    as (t' & R' & Hrun & HR' & Hsz & Hmax & Hid & Harr & Hpar & Hset & Hfr &
        Hrep & Hroot & Hnext & _).
  { apply pool_put_eq. }
  { lia. }
  { intros k Hk. unfold t0. rewrite pool_put_ne by (apply Hne'; lia).
    apply Hch. lia. }
  rewrite Hrun. cbn [mbind outcome_bind].
  exists t', R'. split; [done|]. split; [by rewrite Hnext|].
  split; [by rewrite Hroot|]. split; [done|]. split; [|split; [|split]].
  - destruct R' as [[sz mx par pid] arr]. unfold I_size in *. simpl in *.
    rewrite Hpar by (intros k Hk; apply Hne; lia). f_equal; lia.
  - intros j Hj. rewrite Harr, copy_slots_spec.
    change (I_size R0) with 0.
    rewrite bool_decide_eq_true_2 by lia. f_equal. lia.
  - intros k Hk. destruct (Hch k Hk) as [pg Hpg].
    destruct (Hrep (iarr node k).2 pg) as (pg' & Hpg' & [x ->]).
    { apply Hne. lia. }
    { unfold t0. rewrite pool_put_ne by (apply Hne'; lia). done. }
    exists pg, (with_hdr pg (SetParentPageId (hdr pg) x)).
    split; [done|]. split; [done|].
    destruct (Hset (k - m) ltac:(lia)) as (pg2 & Hpg2 & Hp2).
    replace (m + (k - m)) with k in Hpg2 by lia.
    rewrite Hpg' in Hpg2. injection Hpg2 as <-.
    rewrite parent_with_hdr in Hp2. by rewrite Hp2.
  - intros id Hid' Hno. rewrite Hfr.
    + unfold t0. by rewrite pool_put_ne.
    + done.
    + intros k Hk. replace (m + k) with (m + k) by lia. apply Hno. lia.
Qed.

(** [Coalesce] on two internal pages.  The entries of [node] are
    appended to [neighbor_node] in their order, the first of them under
    the separator that the parent held at [index]; every child of [node]
    gets [neighbor_node] as its parent; [node] is left empty, slot
    [index] is taken out of the parent, no other page changes, and the
    parent is handed to [CoalesceOrRedistribute]. *)
Theorem Coalesce_internals (recurse : BPlusTree -> Z -> outcome (bool * BPlusTree))
    (t : BPlusTree) neighbor_id node_id parent_id index
    (Nd Sb P : InternalPage) :
  pool t !! node_id = Some (PInternal Nd) ->
  pool t !! neighbor_id = Some (PInternal Sb) ->
  pool t !! parent_id = Some (PInternal P) ->
  node_id <> neighbor_id -> parent_id <> node_id -> parent_id <> neighbor_id ->
  0 <= I_size Nd ->
  (forall k, 0 <= k < I_size Nd ->
     is_Some (pool t !! (iarr Nd k).2) /\ (iarr Nd k).2 <> node_id /\
     (iarr Nd k).2 <> neighbor_id /\ (iarr Nd k).2 <> parent_id) ->
  exists (t' : BPlusTree) (Sb' : InternalPage),
    Coalesce recurse t neighbor_id node_id parent_id index = recurse t' parent_id /\
    pool t' !! node_id =
      Some (PInternal (I_with_hdr (I_SetKeyAt Nd 0 (I_KeyAt P index))
                         (SetSize (ihdr Nd) 0))) /\
    pool t' !! neighbor_id = Some (PInternal Sb') /\
    pool t' !! parent_id = Some (PInternal (I_Remove P index)) /\
    ihdr Sb' = IncreaseSize (ihdr Sb) (I_size Nd) /\
    (forall j, j < I_size Sb -> iarr Sb' j = iarr Sb j) /\
    (0 < I_size Nd -> iarr Sb' (I_size Sb) = (I_KeyAt P index, I_ValueAt Nd 0)) /\
    (forall j, 1 <= j < I_size Nd -> iarr Sb' (I_size Sb + j) = iarr Nd j) /\
    (forall k, 0 <= k < I_size Nd ->
       exists pg, pool t !! (iarr Nd k).2 = Some pg /\
         pool t' !! (iarr Nd k).2 =
           Some (with_hdr pg (SetParentPageId (hdr pg) (page_id_ (ihdr Sb))))) /\
    (forall id, id <> node_id -> id <> neighbor_id -> id <> parent_id ->
       (forall k, 0 <= k < I_size Nd -> (iarr Nd k).2 <> id) ->
       pool t' !! id = pool t !! id) /\
    root_page_id_ t' = root_page_id_ t /\ next_page_id t' = next_page_id t.
Proof.
  intros HN HS HP Hne Hpn Hps Hsz Hch. unfold Coalesce.
  rewrite (fetch_internal_Some _ _ _ HP). cbn [mbind outcome_bind].
  unfold FetchPage at 1. rewrite HN. cbn [of_option mbind outcome_bind IsLeafPage].
  unfold I_MoveAllTo. rewrite (fetch_internal_Some _ _ _ HN).
  cbn [mbind outcome_bind].
  set (mk := I_KeyAt P index).
  set (n1 := I_SetKeyAt Nd 0 mk).
  set (t0 := put t node_id (PInternal n1)).
  assert (forall k, (iarr n1 k).2 = (iarr Nd k).2) as Hval.
  { intros k. unfold n1, I_SetKeyAt. cbn [iarr].
    destruct (decide (k = 0)) as [->|Hk]; [by rewrite upd_eq|by rewrite upd_ne]. }
  change (I_size n1) with (I_size Nd).
  destruct (I_CopyNFrom_parents t0 neighbor_id Sb (iarr n1) 0 (I_size Nd))
    as (t1 & Sb' & Hrun & HS' & HszS & HmaxS & HidS & Harr & Hpar & Hset & Hfr &
        Hrep & Hroot & Hnext & _).
  { unfold t0. by rewrite pool_put_ne. }
  { done. }
  { intros k Hk. rewrite Z.add_0_l, Hval. unfold t0.
    destruct (Hch k Hk) as (Hex & Hc1 & _). by rewrite pool_put_ne. }
  rewrite Hrun. cbn [mbind outcome_bind].
  assert (pool t1 !! node_id = Some (PInternal n1)) as HN1.
  { rewrite Hfr; [apply pool_put_eq|done|].
    intros k Hk. rewrite Z.add_0_l, Hval. by destruct (Hch k Hk) as (_ & Hc & _). }
  rewrite (fetch_internal_Some _ _ _ HN1). cbn [mbind outcome_bind].
  assert (pool t1 !! parent_id = Some (PInternal P)) as HP1.
  { rewrite Hfr; [unfold t0; by rewrite pool_put_ne|done|].
    intros k Hk. rewrite Z.add_0_l, Hval. by destruct (Hch k Hk) as (_ & _ & _ & Hc). }
  rewrite (fetch_internal_Some _ _ P) by (by rewrite pool_put_ne).
  cbn [mbind outcome_bind].
  eexists _, Sb'. split; [done|].
  split; [rewrite pool_put_ne by done; apply pool_put_eq|].
  split; [by rewrite !pool_put_ne by done|].
  split; [apply pool_put_eq|].
  split.
  { destruct Sb' as [[sz mx par pid] arr], Sb as [[sz0 mx0 par0 pid0] arr0].
    unfold I_size, IncreaseSize, SetSize in *. simpl in *.
    rewrite Hpar.
    - f_equal; lia.
    - intros k Hk. rewrite Z.add_0_l, Hval.
      by destruct (Hch k Hk) as (_ & _ & Hc & _). }
  split.
  { intros j Hj. rewrite Harr, copy_slots_spec.
    rewrite bool_decide_eq_false_2 by lia. done. }
  split.
  { intros Hpos. rewrite Harr, copy_slots_spec.
    rewrite bool_decide_eq_true_2 by lia.
    replace (0 + (I_size Sb - I_size Sb)) with 0 by lia.
    unfold n1, I_SetKeyAt. cbn [iarr]. by rewrite upd_eq. }
  split.
  { intros j Hj. rewrite Harr, copy_slots_spec.
    rewrite bool_decide_eq_true_2 by lia.
    replace (0 + (I_size Sb + j - I_size Sb)) with j by lia.
    unfold n1, I_SetKeyAt. cbn [iarr]. by rewrite upd_ne by lia. }
  split.
  { intros k Hk. destruct (Hch k Hk) as ([pg Hpg] & Hc1 & Hc2 & Hc3).
    exists pg. split; [done|].
    rewrite !pool_put_ne by done.
    destruct (Hrep (iarr Nd k).2 pg) as (pg' & Hpg' & [x ->]).
    { done. }
    { unfold t0. by rewrite pool_put_ne. }
    destruct (Hset k Hk) as (pg2 & Hpg2 & Hp2).
    rewrite Z.add_0_l, Hval, Hpg' in Hpg2. injection Hpg2 as <-.
    rewrite parent_with_hdr in Hp2. by rewrite Hpg', Hp2. }
  split; [|done].
  intros id H1 H2 H3 Hno. rewrite !pool_put_ne by done.
  rewrite Hfr; [unfold t0; by rewrite pool_put_ne|done|].
  intros k Hk. rewrite Z.add_0_l, Hval. by apply Hno.
Qed.

End InternalSplit.

Lemma overfull_inner_children :
  forall k, internal_min_size (ihdr overfull_inner) <= k < I_size overfull_inner ->
    is_Some (pool three_levels !! (iarr overfull_inner k).2).
Proof.
  intros k Hk. change (2 <= k < 4) in Hk.
  assert (k = 2 \/ k = 3) as [-> | ->] by lia; by eexists.
Qed.

Lemma SplitInternal_spec_witness :
  exists (t' : BPlusTree) (R : InternalPage) (pg : TreePage),
    SplitInternal zero_internal three_levels overfull_inner =
      Done (I_with_hdr overfull_inner (SetSize (ihdr overfull_inner) 2), 8, t') /\
    pool t' !! 8 = Some (PInternal R) /\ ihdr R = mkHeader 2 4 7 8 /\
    iarr R 0 = (5, 4) /\ iarr R 1 = (7, 5) /\
    pool t' !! 4 = Some pg /\ parent_page_id_ (hdr pg) = 8.
Proof.
  destruct (SplitInternal_spec zero_internal three_levels overfull_inner
              ltac:(vm_compute; discriminate) eq_refl overfull_inner_children)
    as (t' & R & Hrun & _ & _ & HR & Hhdr & Harr & Hch & _).
  destruct (Hch 2 ltac:(vm_compute; split; discriminate || reflexivity))
    as (pg & pg' & Hpg & Hpg' & Heq).
  exists t', R, pg'. split; [exact Hrun|]. split; [exact HR|].
  split; [exact Hhdr|].
  split; [exact (Harr 0 ltac:(vm_compute; split; discriminate || reflexivity))|].
  split; [exact (Harr 1 ltac:(vm_compute; split; discriminate || reflexivity))|].
  split; [exact Hpg'|]. rewrite Heq. apply parent_with_hdr.
Defined.

Lemma inner_right_children :
  forall k, 0 <= k < I_size inner_right ->
    is_Some (pool three_levels !! (iarr inner_right k).2) /\
    (iarr inner_right k).2 <> 6 /\ (iarr inner_right k).2 <> 3 /\
    (iarr inner_right k).2 <> 7.
Proof.
  intros k Hk. change (0 <= k < 2) in Hk.
  assert (k = 0 \/ k = 1) as [-> | ->] by lia;
    (split; [by eexists|]; split; [discriminate|]; split; discriminate).
Qed.

Lemma Coalesce_internals_witness :
  exists (t' : BPlusTree) (Sb' : InternalPage) (pg : TreePage),
    Coalesce (fun t _ => Done (false, t)) three_levels 3 6 7 1 = Done (false, t') /\
    pool t' !! 3 = Some (PInternal Sb') /\ ihdr Sb' = mkHeader 4 4 7 3 /\
    iarr Sb' 1 = (3, 2) /\ iarr Sb' 2 = (5, 4) /\ iarr Sb' 3 = (7, 5) /\
    pool t' !! 7 = Some (PInternal (I_Remove root_of_inner 1)) /\
    pool t' !! 5 = Some pg /\ parent_page_id_ (hdr pg) = 3.
Proof.
  destruct (Coalesce_internals (fun t _ => Done (false, t)) three_levels 3 6 7 1
              inner_right inner_left root_of_inner eq_refl eq_refl eq_refl
              ltac:(lia) ltac:(lia) ltac:(lia) ltac:(vm_compute; discriminate)
              inner_right_children)
    as (t' & Sb' & Hrun & _ & HS & HP & Hhdr & Hlow & Hmid & Hup & Hch & _).
  destruct (Hch 1 ltac:(vm_compute; split; discriminate || reflexivity))
    as (pg & Hpg & Hpg').
  exists t', Sb', (with_hdr pg (SetParentPageId (hdr pg) (page_id_ (ihdr inner_left)))).
  split; [exact Hrun|]. split; [exact HS|]. split; [exact Hhdr|].
  split; [exact (Hlow 1 ltac:(vm_compute; reflexivity))|].
  split; [exact (Hmid ltac:(vm_compute; reflexivity))|].
  split; [exact (Hup 1 ltac:(vm_compute; split; discriminate || reflexivity))|].
  split; [exact HP|]. split; [exact Hpg'|]. apply parent_with_hdr.
Defined.

End BPTInternal.

(* ====================================================================== *)
(** * B+tree: the separator of a split leaf in the parent *)
(* ====================================================================== *)

Module BPTParent.
Import BPT BPTFacts BPTLaws BPTTree BPTRemove BPTSplit BPTMerge BPTInternal.

Section ParentChain.
Context {KeyType ValueType : Type}.
Variable comparator : KeyType -> KeyType -> Z.
Variable blank_leaf : Z -> KeyType * ValueType.
Variable blank_internal : Z -> KeyType * Z.

Abbreviation BPlusTree := (@BPlusTree KeyType ValueType).
Abbreviation TreePage := (@TreePage KeyType ValueType).
Abbreviation LeafPage := (@LeafPage KeyType ValueType).
Abbreviation InternalPage := (@InternalPage KeyType).

(** *** The chain of parents *)

Lemma ancestors_in_pool (t : BPlusTree) path : forall h x,
  ancestors t h path -> x ∈ path ->
  exists P : InternalPage,
    pool t !! x = Some (PInternal P) /\
    forall k, 0 <= k < I_size P -> is_Some (pool t !! I_ValueAt P k).
Proof.
  induction path as [|pid rest IH]; intros h x Ha Hx.
  - by apply elem_of_nil in Hx.
  - destruct Ha as (_ & _ & _ & P & HP & _ & _ & _ & Hch & Hrest).
    apply elem_of_cons in Hx as [->|Hx].
    + exists P. split; [done|]. intros k Hk. by apply Hch.
    + by apply (IH (ihdr P)).
Qed.

Lemma ancestors_preserved (t t' : BPlusTree) path : forall h h',
  ancestors t h path ->
  parent_page_id_ h' = parent_page_id_ h -> page_id_ h' = page_id_ h ->
  internal_max_size_ t' = internal_max_size_ t ->
  (forall x, x ∈ path -> pool t' !! x = pool t !! x) ->
  (forall id, is_Some (pool t !! id) -> is_Some (pool t' !! id)) ->
  ancestors t' h' path.
Proof.
  induction path as [|pid rest IH]; intros h h' Ha Hpar Hid Hmax Hsame Hmono.
  - simpl in *. unfold IsRootPage in *. by rewrite Hpar.
  - destruct Ha as (Hroot & Hp & Hnin & P & HP & HidP & HmaxP & Hin & Hch & Hrest).
    simpl. split; [unfold IsRootPage in *; by rewrite Hpar|].
    split; [by rewrite Hpar|]. split; [done|].
    exists P. split; [rewrite Hsame; [done|apply elem_of_cons; by left]|].
    split; [done|]. split; [by rewrite Hmax|].
    split; [by rewrite Hid|]. split.
    + intros k Hk. destruct (Hch k Hk) as [Hs Hn]. split; [by apply Hmono|done].
    + apply (IH (ihdr P) (ihdr P)); try done.
      intros x Hx. apply Hsame. apply elem_of_cons. by right.
Qed.

(** *** [InsertNodeAfter] on a page that lists [old_value] *)

Lemma I_InsertNodeAfter_slots (p : InternalPage) old_value new_key new_value :
  (exists k, 0 <= k < I_size p /\ I_ValueAt p k = old_value) ->
  let p' := (I_InsertNodeAfter p old_value new_key new_value).2 in
  exists i, 1 <= i <= I_size p /\
    ihdr p' = IncreaseSize (ihdr p) 1 /\
    iarr p' i = (new_key, new_value) /\
    I_ValueAt p' (i - 1) = old_value /\
    (forall j, j < i -> iarr p' j = iarr p j) /\
    (forall j, i < j <= I_size p -> iarr p' j = iarr p (j - 1)).
Proof.
  intros (k & Hk & Hv) p'.
  destruct (I_ValueIndex_spec p old_value) as [[_ Hno]|(Hr & Hat & _)].
  { exfalso. by apply (Hno k Hk). }
  exists (I_ValueIndex p old_value + 1). subst p'.
  unfold I_InsertNodeAfter, I_ValueAt in *. cbn [snd ihdr iarr].
  split; [lia|]. split; [done|]. split; [apply upd_eq|].
  assert (forall j, j < I_ValueIndex p old_value + 1 ->
            upd (move_slots_backward
                   (Z.to_nat (I_size p - (I_ValueIndex p old_value + 1)))
                   (iarr p) (I_size p) (I_size p + 1))
              (I_ValueIndex p old_value + 1) (new_key, new_value) j = iarr p j)
    as Hlow.
  { intros j Hj. rewrite upd_ne by lia. rewrite move_slots_backward_spec by lia.
    rewrite bool_decide_eq_false_2; [done|lia]. }
  split; [|split; [exact Hlow|]].
  - rewrite Hlow by lia.
    by replace (I_ValueIndex p old_value + 1 - 1) with (I_ValueIndex p old_value)
      by lia.
  - intros j Hj. rewrite upd_ne by lia. rewrite move_slots_backward_spec by lia.
    rewrite bool_decide_eq_true_2 by lia. f_equal. lia.
Qed.

(** *** One run of [SplitInternal] *)

Lemma SplitInternal_run (t : BPlusTree) (node : InternalPage) :
  let n := next_page_id t in
  let m := internal_min_size (ihdr node) in
  m <= I_size node ->
  pool t !! n = None ->
  (forall k, m <= k < I_size node -> is_Some (pool t !! (iarr node k).2)) ->
  exists (t' : BPlusTree) (R : InternalPage),
    SplitInternal blank_internal t node =
      Done (I_with_hdr node (SetSize (ihdr node) m), n, t') /\
    next_page_id t' = n + 1 /\
    internal_max_size_ t' = internal_max_size_ t /\
    pool t' !! n = Some (PInternal R) /\
    ihdr R = mkHeader (I_size node - m) (internal_max_size_ t)
               (parent_page_id_ (ihdr node)) n /\
    (forall j, 0 <= j < I_size node - m -> iarr R j = iarr node (m + j)) /\
    (forall k, m <= k < I_size node ->
       exists pg, pool t !! (iarr node k).2 = Some pg /\
         pool t' !! (iarr node k).2 =
           Some (with_hdr pg (SetParentPageId (hdr pg) n))) /\
    (forall id, id <> n -> (forall k, m <= k < I_size node -> (iarr node k).2 <> id) ->
       pool t' !! id = pool t !! id) /\
    (forall id pg, pool t !! id = Some pg ->
       exists pg', pool t' !! id = Some pg' /\ reparented pg pg').
Proof.
  intros n m Hm Hfresh Hch. unfold SplitInternal, NewPage, I_MoveHalfTo.
  fold n. fold m.
  set (t0 := put _ n _).
  set (R0 := I_Init blank_internal n (parent_page_id_ (ihdr node))
               (internal_max_size_ t)).
  assert (forall k, m <= k < I_size node -> (iarr node k).2 <> n) as Hne.
  { intros k Hk Heq. destruct (Hch k Hk) as [pg Hpg]. rewrite Heq in Hpg.
    by rewrite Hfresh in Hpg. }
  assert (forall k, m <= k < I_size node -> n <> (iarr node k).2) as Hne'
    by (intros k Hk Heq; by apply (Hne k Hk)).
  destruct (I_CopyNFrom_parents t0 n R0 (iarr node) m (I_size node - m))
    as (t' & R' & Hrun & HR' & Hsz & Hmax & Hid & Harr & Hpar & Hset & Hfr &
        Hrep & Hroot & Hnext & _ & Himax & _).
  { apply pool_put_eq. }
  { lia. }
  { intros k Hk. unfold t0. rewrite pool_put_ne by (apply Hne'; lia).
    apply Hch. lia. }
  rewrite Hrun. cbn [mbind outcome_bind].
  exists t', R'. split; [done|]. split; [by rewrite Hnext|].
  split; [by rewrite Himax|]. split; [done|].
  split; [|split; [|split; [|split]]].
  - destruct R' as [[sz mx par pid] arr]. unfold I_size in *. simpl in *.
    rewrite Hpar by (intros k Hk; apply Hne; lia). f_equal; lia.
  - intros j Hj. rewrite Harr, copy_slots_spec.
    change (I_size R0) with 0.
    rewrite bool_decide_eq_true_2 by lia. f_equal. lia.
  - intros k Hk. destruct (Hch k Hk) as [pg Hpg].
    destruct (Hrep (iarr node k).2 pg) as (pg' & Hpg' & [x ->]).
    { apply Hne. lia. }
    { unfold t0. rewrite pool_put_ne by (apply Hne'; lia). done. }
    exists pg. split; [done|].
    destruct (Hset (k - m) ltac:(lia)) as (pg2 & Hpg2 & Hp2).
    replace (m + (k - m)) with k in Hpg2 by lia.
    rewrite Hpg' in Hpg2. injection Hpg2 as <-.
    rewrite parent_with_hdr in Hp2. rewrite Hpg'. by rewrite Hp2.
  - intros id Hid' Hno. rewrite Hfr.
    + unfold t0. by rewrite pool_put_ne.
    + done.
    + intros k Hk. apply Hno. lia.
  - intros id pg Hpg.
    assert (id <> n) as Hidn by (intros ->; by rewrite Hfresh in Hpg).
    apply Hrep; [done|]. unfold t0. by rewrite pool_put_ne.
Qed.

(** *** [InsertIntoParent] *)

Lemma in_pool_lt (t : BPlusTree) id :
  pool_fresh t -> is_Some (pool t !! id) -> id < next_page_id t.
Proof.
  intros Hfresh [pg Hpg]. destruct (decide (id < next_page_id t)) as [|Hge]; [done|].
  rewrite Hfresh in Hpg by lia. done.
Qed.

(** The branch of [InsertIntoParent] for a parent without room, up to the
    recursive call. *)
Lemma InsertIntoParent_full fuel (t : BPlusTree) old_id new_id key
    (O N : TreePage) (P : InternalPage) :
  pool t !! old_id = Some O -> pool t !! new_id = Some N ->
  IsRootPage (hdr O) = false ->
  pool t !! parent_page_id_ (hdr O) = Some (PInternal P) ->
  parent_page_id_ (hdr O) <> new_id ->
  ~ I_size P < internal_max_size_ t ->
  InsertIntoParent blank_internal (S fuel) t old_id key new_id =
    ('(cp, sid, t2) ← SplitInternal blank_internal
        (put t new_id
           (with_hdr N (SetParentPageId (hdr N) (parent_page_id_ (hdr O)))))
        (I_InsertNodeAfter P (page_id_ (hdr O)) key (page_id_ (hdr N))).2;
     sib ← fetch_internal t2 sid;
     page ← fetch_internal t2 (parent_page_id_ (hdr O));
     InsertIntoParent blank_internal fuel
       (put t2 (parent_page_id_ (hdr O))
          (PInternal (copy_back page cp (internal_min_size (ihdr cp)))))
       (parent_page_id_ (hdr O)) (I_KeyAt sib 0) sid).
Proof.
  intros HO HN Hroot HP Hne Hfull. cbn [InsertIntoParent].
  unfold FetchPage. rewrite HO, HN. cbn [of_option mbind outcome_bind].
  rewrite Hroot. rewrite (fetch_internal_Some _ _ _ HP). cbn [mbind outcome_bind].
  unfold set_parent, FetchPage. rewrite HN. cbn [of_option mbind outcome_bind].
  rewrite bool_decide_eq_false_2 by done.
  rewrite (fetch_internal_Some _ _ P) by (by rewrite pool_put_ne).
  done.
Qed.

(** [InsertIntoParent] returns, whatever the height of the tree, and the
    entry [(key, new_id)] is then a slot of the page that the new node
    names as its parent, directly after the entry of the old node when it
    is not the first slot of that page.  Pages outside the chain of
    parents change in their parent pointer at most, and not at all when
    they are neither the two nodes nor children of a page of the chain. *)
Lemma InsertIntoParent_lands (path : list Z) :
  forall fuel (t : BPlusTree) old_id new_id key (O N : TreePage),
  (length path < fuel)%nat ->
  pool t !! old_id = Some O -> pool t !! new_id = Some N ->
  page_id_ (hdr O) = old_id -> page_id_ (hdr N) = new_id ->
  old_id <> new_id -> old_id ∉ path -> new_id ∉ path ->
  pool_fresh t -> 0 <= internal_max_size_ t ->
  ancestors t (hdr O) path ->
  (forall x (Q : InternalPage) k, x ∈ path -> pool t !! x = Some (PInternal Q) ->
     0 <= k < I_size Q -> I_ValueAt Q k <> new_id) ->
  exists t' : BPlusTree,
    InsertIntoParent blank_internal fuel t old_id key new_id = Done t' /\
    (exists (N' : TreePage) (P' : InternalPage) i,
       pool t' !! new_id = Some N' /\ reparented N N' /\
       pool t' !! parent_page_id_ (hdr N') = Some (PInternal P') /\
       0 <= i < I_size P' /\ iarr P' i = (key, new_id) /\
       (0 < i -> I_ValueAt P' (i - 1) = old_id)) /\
    (forall id pg, pool t !! id = Some pg -> id ∉ path ->
       exists pg', pool t' !! id = Some pg' /\ reparented pg pg') /\
    (forall id pg, pool t !! id = Some pg ->
       id <> old_id -> id <> new_id -> id ∉ path ->
       (forall x (Q : InternalPage) k, x ∈ path ->
          pool t !! x = Some (PInternal Q) ->
          0 <= k < I_size Q -> I_ValueAt Q k <> id) ->
       pool t' !! id = Some pg).
Proof.
  induction path as [|pid rest IH];
    intros fuel t old_id new_id key O N Hfuel HO HN HidO HidN Hne Hon Hnn
      Hfresh Himax Hanc Hnc.
  - (* the old node is the root *)
    destruct fuel as [|f]; [simpl in Hfuel; lia|].
    simpl in Hanc.
    pose proof (in_pool_lt t old_id Hfresh (mk_is_Some _ _ HO)) as Hlo.
    pose proof (in_pool_lt t new_id Hfresh (mk_is_Some _ _ HN)) as Hln.
    pose proof (InsertIntoParent_new_root blank_internal f t old_id new_id key O N
                  HO HN Hanc Hne ltac:(lia) ltac:(lia)) as Hrun.
    cbv zeta in Hrun. eexists. split; [exact Hrun|]. cbn [pool].
    split; [|split].
    + exists (with_hdr N (SetParentPageId (hdr N) (next_page_id t))).
      eexists. exists 1.
      split; [apply lookup_insert_eq|]. split; [apply reparented_set|].
      rewrite parent_with_hdr.
      split.
      { rewrite lookup_insert_ne by lia. rewrite lookup_insert_ne by lia.
        apply lookup_insert_eq. }
      split; [unfold I_size; cbn [ihdr size_]; lia|].
      split; [cbn [iarr]; rewrite upd_eq; by rewrite HidN|].
      intros _. unfold I_ValueAt. cbn [iarr]. rewrite upd_ne by lia.
      rewrite upd_eq. done.
    + intros id pg Hpg _.
      pose proof (in_pool_lt t id Hfresh (mk_is_Some _ _ Hpg)) as Hli.
      destruct (decide (id = new_id)) as [->|Hn1].
      { rewrite HN in Hpg. injection Hpg as <-.
        eexists. split; [apply lookup_insert_eq|apply reparented_set]. }
      destruct (decide (id = old_id)) as [->|Hn2].
      { rewrite HO in Hpg. injection Hpg as <-.
        eexists. split; [|apply reparented_set].
        rewrite lookup_insert_ne by done. apply lookup_insert_eq. }
      exists pg. split; [|apply reparented_refl].
      rewrite lookup_insert_ne by done. rewrite lookup_insert_ne by done.
      rewrite lookup_insert_ne by lia. done.
    + intros id pg Hpg Hn2 Hn1 _ _.
      pose proof (in_pool_lt t id Hfresh (mk_is_Some _ _ Hpg)) as Hli.
      rewrite lookup_insert_ne by done. rewrite lookup_insert_ne by done.
      rewrite lookup_insert_ne by lia. done.
  - (* the old node has the parent [pid] *)
    destruct fuel as [|f]; [simpl in Hfuel; lia|]. simpl in Hfuel.
    destruct Hanc as (Hroot & Hpar & Hpnin & P & HP & HidP & HmaxP & Hin & Hch & Hrest).
    assert (pid <> old_id) as Hpo
      by (intros ->; apply Hon; apply elem_of_cons; by left).
    assert (pid <> new_id) as Hpn
      by (intros ->; apply Hnn; apply elem_of_cons; by left).
    assert (old_id ∉ rest) as Hon'
      by (intros Hx; apply Hon; apply elem_of_cons; by right).
    assert (new_id ∉ rest) as Hnn'
      by (intros Hx; apply Hnn; apply elem_of_cons; by right).
    assert (pool t !! parent_page_id_ (hdr O) = Some (PInternal P)) as HP'
      by (by rewrite Hpar).
    assert (parent_page_id_ (hdr O) <> new_id) as Hpn' by (by rewrite Hpar).
    pose proof (in_pool_lt t old_id Hfresh (mk_is_Some _ _ HO)) as Hlo.
    pose proof (in_pool_lt t new_id Hfresh (mk_is_Some _ _ HN)) as Hln.
    pose proof (in_pool_lt t pid Hfresh (mk_is_Some _ _ HP)) as Hlp.
    destruct (I_InsertNodeAfter_slots P old_id key new_id)
      as (i0 & Hi0 & Hhdr & Hat & Hprev & Hlow & Hhigh).
    { destruct Hin as (k0 & Hk0 & Hv0). exists k0. by rewrite <- HidO. }
    set (copy := (I_InsertNodeAfter P old_id key new_id).2) in *.
    set (N1 := with_hdr N (SetParentPageId (hdr N) pid)).
    set (t1 := put t new_id N1).
    assert (I_size copy = I_size P + 1) as Hsz
      by (unfold I_size; by rewrite Hhdr).
    destruct (decide (I_size P < internal_max_size_ t)) as [Hroom|Hfull].
    + (* the parent has room *)
      pose proof (InsertIntoParent_room blank_internal f t old_id new_id key O N P
                    HO HN Hroot HP' Hpn' Hroom) as Hrun.
      rewrite Hpar, HidO, HidN in Hrun. fold N1 t1 copy in Hrun.
      exists (put t1 pid (PInternal copy)). split; [exact Hrun|].
      split; [|split].
      * exists N1, copy, i0.
        split; [rewrite pool_put_ne by done; apply pool_put_eq|].
        split; [apply reparented_set|]. unfold N1 at 1. rewrite parent_with_hdr.
        split; [apply pool_put_eq|]. split; [lia|]. split; [done|]. done.
      * intros id pg Hpg Hnin.
        assert (pid <> id) as Hip
          by (intros <-; apply Hnin; apply elem_of_cons; by left).
        destruct (decide (id = new_id)) as [->|Hn1].
        { rewrite HN in Hpg. injection Hpg as <-. exists N1.
          split; [|apply reparented_set].
          rewrite pool_put_ne by done. apply pool_put_eq. }
        exists pg. split; [|apply reparented_refl].
        rewrite pool_put_ne by done. unfold t1. by rewrite pool_put_ne.
      * intros id pg Hpg _ Hn1 Hnin _.
        assert (pid <> id) as Hip
          by (intros <-; apply Hnin; apply elem_of_cons; by left).
        rewrite pool_put_ne by done. unfold t1. by rewrite pool_put_ne.
    + (* the parent is full: split it and go up *)
      pose proof (InsertIntoParent_full f t old_id new_id key O N P
                    HO HN Hroot HP' Hpn' Hfull) as Hrun.
      rewrite Hpar, HidO, HidN in Hrun. fold N1 t1 copy in Hrun.
      set (n2 := next_page_id t) in *.
      set (m := internal_min_size (ihdr copy)).
      assert (0 <= m <= I_size copy) as Hm.
      { unfold m, internal_min_size. rewrite Hhdr. cbn [IncreaseSize SetSize max_size_].
        rewrite HmaxP. rewrite Z.quot_div_nonneg by lia.
        pose proof (Z.div_pos (internal_max_size_ t + 1) 2 ltac:(lia) ltac:(lia)).
        pose proof (Z.div_le_upper_bound (internal_max_size_ t + 1) 2
                      (internal_max_size_ t + 1) ltac:(lia) ltac:(lia)).
        lia. }
      assert (forall id, is_Some (pool t !! id) -> is_Some (pool t1 !! id)) as Hmono1.
      { intros id Hs. unfold t1. destruct (decide (id = new_id)) as [->|Hn1].
        - rewrite pool_put_eq. by eexists.
        - by rewrite pool_put_ne. }
      assert (forall k, 0 <= k < I_size copy ->
                (iarr copy k).2 = new_id \/
                exists k', 0 <= k' < I_size P /\ (iarr copy k).2 = I_ValueAt P k')
        as Hcopy.
      { intros k Hk. destruct (Z.lt_trichotomy k i0) as [Hlt|[->|Hgt]].
        - right. exists k. split; [lia|]. by rewrite Hlow.
        - left. by rewrite Hat.
        - right. exists (k - 1). split; [lia|]. by rewrite Hhigh by lia. }
      assert (forall k, 0 <= k < I_size copy -> is_Some (pool t !! (iarr copy k).2))
        as Hcopy_in.
      { intros k Hk. destruct (Hcopy k Hk) as [->|(k' & Hk' & ->)]; [by eexists|].
        by apply Hch. }
      assert (forall k x, 0 <= k < I_size copy -> x ∈ pid :: rest ->
                (iarr copy k).2 <> x) as Hcopy_path.
      { intros k x Hk Hx Heq. destruct (Hcopy k Hk) as [Hc|(k' & Hk' & Hc)].
        - apply Hnn. by rewrite <- Hc, Heq.
        - destruct (Hch k' Hk') as [_ Hno]. apply Hno. by rewrite <- Hc, Heq. }
      destruct (SplitInternal_run t1 copy)
        as (t2 & R & Hsplit & Hnext2 & Himax2 & HR & HhdrR & HRs & Hmoved &
            Hframe2 & Hrep2).
      { fold m. lia. }
      { unfold t1. rewrite pool_put_ne by (simpl; lia). apply Hfresh. simpl. lia. }
      { intros k Hk. apply Hmono1, Hcopy_in. fold m in Hk. lia. }
      fold m in Hsplit, HhdrR, HRs, Hmoved, Hframe2.
      change (next_page_id t1) with n2 in *.
      change (internal_max_size_ t1) with (internal_max_size_ t) in *.
      rewrite Hsplit in Hrun. cbn [mbind outcome_bind] in Hrun.
      rewrite (fetch_internal_Some _ _ _ HR) in Hrun.
      cbn [mbind outcome_bind] in Hrun.
      assert (pool t2 !! pid = Some (PInternal P)) as HP2.
      { rewrite Hframe2.
        - unfold t1. by rewrite pool_put_ne.
        - lia.
        - intros k Hk. apply Hcopy_path; [lia|]. apply elem_of_cons. by left. }
      rewrite (fetch_internal_Some _ _ _ HP2) in Hrun.
      cbn [mbind outcome_bind] in Hrun.
      set (cp := I_with_hdr copy (SetSize (ihdr copy) m)) in *.
      change (internal_min_size (ihdr cp)) with m in Hrun.
      set (O3 := copy_back P cp m) in *.
      set (t3 := put t2 pid (PInternal O3)) in *.
      assert (forall x, x ∈ rest -> pool t3 !! x = pool t !! x) as Hsame.
      { intros x Hx.
        destruct (ancestors_in_pool t rest (ihdr P) x Hrest Hx) as (Q & HQ & _).
        pose proof (in_pool_lt t x Hfresh (mk_is_Some _ _ HQ)) as Hlx.
        assert (pid <> x) by (by intros <-).
        assert (new_id <> x) by (by intros <-).
        unfold t3. rewrite pool_put_ne by done. rewrite Hframe2.
        - unfold t1. by rewrite pool_put_ne.
        - lia.
        - intros k Hk. apply Hcopy_path; [lia|]. apply elem_of_cons. by right. }
      assert (forall id pg, pool t !! id = Some pg -> id <> pid ->
                exists pg3, pool t3 !! id = Some pg3 /\ reparented pg pg3) as Hrep3.
      { intros id pg Hpg Hip.
        assert (exists pg1, pool t1 !! id = Some pg1 /\ reparented pg pg1)
          as (pg1 & Hpg1 & Hr1).
        { unfold t1. destruct (decide (id = new_id)) as [->|Hn1].
          - rewrite HN in Hpg. injection Hpg as <-. exists N1.
            split; [apply pool_put_eq|apply reparented_set].
          - exists pg. split; [by rewrite pool_put_ne|apply reparented_refl]. }
        destruct (Hrep2 id pg1 Hpg1) as (pg2 & Hpg2 & Hr2).
        exists pg2. split; [|by apply (reparented_trans _ pg1)].
        unfold t3. by rewrite pool_put_ne. }
      destruct (IH f t3 pid n2 (I_KeyAt R 0) (PInternal O3) (PInternal R))
        as (t' & Hrun' & _ & HF1 & HF2).
      { lia. }
      { apply pool_put_eq. }
      { unfold t3. rewrite pool_put_ne by lia. exact HR. }
      { cbn [hdr]. unfold O3, copy_back, cp, I_with_hdr. cbn [ihdr SetSize page_id_].
        rewrite Hhdr. exact HidP. }
      { cbn [hdr]. by rewrite HhdrR. }
      { lia. }
      { exact Hpnin. }
      { intros Hx.
        destruct (ancestors_in_pool t rest (ihdr P) n2 Hrest Hx) as (Q & HQ & _).
        pose proof (in_pool_lt t n2 Hfresh (mk_is_Some _ _ HQ)). unfold n2 in *. lia. }
      { intros id Hid. change (next_page_id t3) with (next_page_id t2) in Hid.
        rewrite Hnext2 in Hid.
        unfold t3. rewrite pool_put_ne by lia. rewrite Hframe2.
        - unfold t1. rewrite pool_put_ne by lia. apply Hfresh. fold n2. lia.
        - lia.
        - intros k Hk Heq.
          pose proof (in_pool_lt t _ Hfresh (Hcopy_in k ltac:(lia))) as Hlt.
          rewrite Heq in Hlt. fold n2 in Hlt. lia. }
      { change (internal_max_size_ t3) with (internal_max_size_ t2).
        by rewrite Himax2. }
      { apply (ancestors_preserved t t3 rest (ihdr P)).
        - exact Hrest.
        - cbn [hdr]. unfold O3, copy_back, cp, I_with_hdr.
          cbn [ihdr SetSize parent_page_id_]. by rewrite Hhdr.
        - cbn [hdr]. unfold O3, copy_back, cp, I_with_hdr.
          cbn [ihdr SetSize page_id_]. by rewrite Hhdr.
        - change (internal_max_size_ t3) with (internal_max_size_ t2).
          by rewrite Himax2.
        - exact Hsame.
        - intros id [pg Hpg]. destruct (decide (id = pid)) as [->|Hip].
          + unfold t3. rewrite pool_put_eq. by eexists.
          + destruct (Hrep3 id pg Hpg Hip) as (pg3 & Hpg3 & _). by eexists. }
      { intros x Q k Hx HQ Hk. rewrite Hsame in HQ by done.
        destruct (ancestors_in_pool t rest (ihdr P) x Hrest Hx) as (Q' & HQ' & Hex).
        rewrite HQ in HQ'. injection HQ' as <-.
        pose proof (in_pool_lt t _ Hfresh (Hex k Hk)) as Hlt.
        fold n2 in Hlt. lia. }
      exists t'. split; [by rewrite Hrun|].
      assert (forall x (Q : InternalPage) k, x ∈ rest ->
                pool t3 !! x = Some (PInternal Q) ->
                0 <= k < I_size Q -> I_ValueAt Q k <> new_id) as Hnc3.
      { intros x Q k Hx HQ Hk. rewrite Hsame in HQ by done.
        apply (Hnc x Q k); [apply elem_of_cons; by right|done|done]. }
      split; [|split].
      * destruct (decide (i0 < m)) as [Hlt|Hge].
        -- (* the entry stays in the old parent *)
           assert (pool t3 !! new_id = Some N1) as HN3.
           { unfold t3. rewrite pool_put_ne by done. rewrite Hframe2.
             - unfold t1. apply pool_put_eq.
             - lia.
             - intros k Hk. rewrite Hhigh by lia.
               apply (Hnc pid P (k - 1)); [apply elem_of_cons; by left|done|lia]. }
           pose proof (HF2 new_id N1 HN3 ltac:(done) ltac:(lia) Hnn' Hnc3) as HN'.
           destruct (HF1 pid (PInternal O3) ltac:(apply pool_put_eq) Hpnin)
             as (pg' & Hpg' & Hr').
           destruct (reparented_internal _ _ Hr')
             as (P' & -> & Harr' & Hsz' & _ & _).
           assert (forall j, 0 <= j < m -> iarr P' j = iarr copy j) as Hslots.
           { intros j Hj. rewrite Harr'. unfold O3, copy_back. cbn [iarr].
             rewrite copy_slots_spec. rewrite bool_decide_eq_true_2 by lia.
             unfold cp, I_with_hdr. cbn [iarr]. f_equal. lia. }
           exists N1, P', i0. split; [done|]. split; [apply reparented_set|].
           unfold N1 at 1. rewrite parent_with_hdr. split; [done|].
           split.
           { rewrite Hsz'. unfold O3, copy_back, cp, I_with_hdr, I_size.
             cbn [ihdr SetSize size_]. lia. }
           split; [by rewrite Hslots by lia|].
           intros _. unfold I_ValueAt in *. by rewrite Hslots by lia.
        -- (* the entry moves to the new sibling *)
           destruct (Hmoved i0 ltac:(lia)) as (pg & Hpg & Hpg2).
           rewrite Hat in Hpg, Hpg2. cbn [snd] in Hpg, Hpg2.
           unfold t1 in Hpg. rewrite pool_put_eq in Hpg. injection Hpg as <-.
           set (N2 := with_hdr N1 (SetParentPageId (hdr N1) n2)) in *.
           assert (pool t3 !! new_id = Some N2) as HN3.
           { unfold t3. by rewrite pool_put_ne. }
           pose proof (HF2 new_id N2 HN3 ltac:(done) ltac:(lia) Hnn' Hnc3) as HN'.
           destruct (HF1 n2 (PInternal R)) as (pg' & Hpg' & Hr').
           { unfold t3. rewrite pool_put_ne by lia. exact HR. }
           { intros Hx.
             destruct (ancestors_in_pool t rest (ihdr P) n2 Hrest Hx) as (Q & HQ & _).
             pose proof (in_pool_lt t n2 Hfresh (mk_is_Some _ _ HQ)).
             unfold n2 in *. lia. }
           destruct (reparented_internal _ _ Hr')
             as (R' & -> & Harr' & Hsz' & _ & _).
           exists N2, R', (i0 - m). split; [done|].
           split.
           { apply (reparented_trans _ N1); apply reparented_set. }
           unfold N2 at 1. rewrite parent_with_hdr. split; [done|].
           split.
           { rewrite Hsz'.
             assert (I_size R = I_size copy - m) as ->
               by (unfold I_size at 1; by rewrite HhdrR).
             lia. }
           split.
           { rewrite Harr', HRs by lia. replace (m + (i0 - m)) with i0 by lia. done. }
           intros Hpos. unfold I_ValueAt in *. rewrite Harr', HRs by lia.
           replace (m + (i0 - m - 1)) with (i0 - 1) by lia. done.
      * intros id pg Hpg Hnin.
        assert (id <> pid) as Hip
          by (intros ->; apply Hnin; apply elem_of_cons; by left).
        assert (id ∉ rest) as Hnin'
          by (intros Hx; apply Hnin; apply elem_of_cons; by right).
        destruct (Hrep3 id pg Hpg Hip) as (pg3 & Hpg3 & Hr3).
        destruct (HF1 id pg3 Hpg3 Hnin') as (pg' & Hpg' & Hr').
        exists pg'. split; [done|]. by apply (reparented_trans _ pg3).
      * intros id pg Hpg Hno Hn1 Hnin Hncid.
        assert (id <> pid) as Hip
          by (intros ->; apply Hnin; apply elem_of_cons; by left).
        assert (id ∉ rest) as Hnin'
          by (intros Hx; apply Hnin; apply elem_of_cons; by right).
        pose proof (in_pool_lt t id Hfresh (mk_is_Some _ _ Hpg)) as Hli.
        fold n2 in Hli.
        assert (pool t3 !! id = Some pg) as Hpg3.
        { unfold t3. rewrite pool_put_ne by done. rewrite Hframe2.
          - unfold t1. by rewrite pool_put_ne.
          - lia.
          - intros k Hk Heq. destruct (Hcopy k ltac:(lia)) as [Hc|(k' & Hk' & Hc)].
            + apply Hn1. by rewrite <- Heq, Hc.
            + apply (Hncid pid P k'); [apply elem_of_cons; by left|done|done|].
              by rewrite <- Hc, Heq. }
        apply (HF2 id pg Hpg3 Hip ltac:(lia) Hnin').
        intros x Q k Hx HQ Hk. rewrite Hsame in HQ by done.
        apply (Hncid x Q k); [apply elem_of_cons; by right|done|done].
Qed.

(** *** The split of a leaf *)

(** The split of [InsertToLeaf], up to the call of [InsertIntoParent]:
    the leaf [L1] after [Insert] keeps its lower [(max_size + 1) / 2]
    entries and the new leaf takes the others. *)
Lemma InsertToLeaf_calls_parent fuel (t : BPlusTree) leaf_id
    (L L1 : LeafPage) key value sz :
  FindLeafPage comparator fuel t key INSERT false false = Done leaf_id ->
  pool t !! leaf_id = Some (PLeaf L) ->
  L_Lookup comparator L key = Done None ->
  L_Insert comparator L key value = Done (sz, L1) ->
  L_size L1 = max_size_ (lhdr L1) ->
  max_size_ (lhdr L1) = leaf_max_size_ t ->
  next_page_id t <> leaf_id ->
  let new_id := next_page_id t in
  let keep := Z.quot (max_size_ (lhdr L1) + 1) 2 in
  let L2 := mkLeaf (SetSize (lhdr L1) keep) new_id (larr L1) in
  let L' := mkLeaf (mkHeader (max_size_ (lhdr L1) - keep) (leaf_max_size_ t)
                      (parent_page_id_ (lhdr L1)) new_id)
              (next_page_id_ L1)
              (copy_slots (Z.to_nat (max_size_ (lhdr L1) - keep)) (larr L1) keep
                 blank_leaf 0) in
  let t2 := put (put (NewPage (put t leaf_id (PLeaf L1))).2 new_id (PLeaf L'))
              leaf_id (PLeaf L2) in
  InsertToLeaf comparator blank_leaf blank_internal fuel t key value =
    (t3 ← InsertIntoParent blank_internal fuel t2 leaf_id (L_KeyAt L' 0) new_id;
     Done (true, t3)).
Proof.
  intros Hfind Hpool Hlook Hins Hfull Hmax Hfresh new_id keep L2 L' t2.
  destruct (L_Insert_header comparator L L1 key value sz Hins) as (-> & Hhdr & Hnext).
  assert (SplitLeaf blank_leaf (put t leaf_id (PLeaf L1)) leaf_id =
          Done (new_id, t2)) as Hsplit.
  { unfold SplitLeaf. rewrite (fetch_leaf_Some _ _ L1) by apply pool_put_eq.
    simpl. unfold L_MoveHalfTo. simpl.
    rewrite bool_decide_eq_true_2 by done. simpl. done. }
  unfold InsertToLeaf. rewrite Hfind. cbn [mbind outcome_bind].
  rewrite (fetch_leaf_Some _ _ _ Hpool). cbn [mbind outcome_bind].
  rewrite Hlook. cbn [mbind outcome_bind].
  rewrite Hins. cbn [mbind outcome_bind].
  rewrite bool_decide_eq_false_2 by (simpl; lia).
  rewrite Hsplit. cbn [mbind outcome_bind].
  rewrite (fetch_leaf_Some _ new_id L').
  2:{ unfold t2. rewrite pool_put_ne by done. apply pool_put_eq. }
  cbn [mbind outcome_bind].
  rewrite (fetch_leaf_Some _ leaf_id L2) by apply pool_put_eq.
  cbn [mbind outcome_bind].
  change (L_SetNextPageId L2 (page_id_ (lhdr L'))) with L2.
  unfold t2 at 1. by rewrite put_put_same.
Qed.

(** C3.  When the insertion brings the leaf [L] to [max_size] entries
    ([L1] is the leaf after [Insert]), [InsertToLeaf] returns true, and in
    the tree it leaves there is a new leaf [L'] under the id that
    [NewPage] handed out: [L] keeps the lower [(max_size + 1) / 2] entries
    and [L'] holds the upper [max_size - (max_size + 1) / 2]; [L']
    inherits the old next pointer of [L], and [L] points to [L'].  The
    separator has been inserted: the page that [L'] names as its parent
    holds the entry [(L'.KeyAt(0), L'.page_id)] in one of its slots,
    directly after the entry of [L] unless it is that page's first slot.
    This holds whether [L] was the root (a new root is made), its parent
    had room, or the parents had to be split in turn; [path] is the chain
    of parents of [L] up to the root. *)
Theorem InsertToLeaf_split fuel (t : BPlusTree) leaf_id
    (L L1 : LeafPage) key value sz (path : list Z) :
  FindLeafPage comparator fuel t key INSERT false false = Done leaf_id ->
  pool t !! leaf_id = Some (PLeaf L) ->
  page_id_ (lhdr L) = leaf_id ->
  L_Lookup comparator L key = Done None ->
  L_Insert comparator L key value = Done (sz, L1) ->
  L_size L1 = max_size_ (lhdr L1) ->
  max_size_ (lhdr L1) = leaf_max_size_ t ->
  pool_fresh t -> 0 <= internal_max_size_ t ->
  ancestors t (lhdr L) path -> leaf_id ∉ path ->
  (length path < fuel)%nat ->
  let new_id := next_page_id t in
  let maxsize := max_size_ (lhdr L1) in
  let keep := Z.quot (maxsize + 1) 2 in
  exists (t3 : BPlusTree) (L2 L' : LeafPage) (P' : InternalPage) i,
    InsertToLeaf comparator blank_leaf blank_internal fuel t key value =
      Done (true, t3) /\
    pool t3 !! leaf_id = Some (PLeaf L2) /\
    pool t3 !! new_id = Some (PLeaf L') /\
    page_id_ (lhdr L') = new_id /\
    L_size L2 = keep /\
    (forall j, 0 <= j < keep -> larr L2 j = larr L1 j) /\
    L_size L' = maxsize - keep /\
    (forall j, 0 <= j < maxsize - keep -> larr L' j = larr L1 (keep + j)) /\
    next_page_id_ L' = next_page_id_ L /\
    next_page_id_ L2 = page_id_ (lhdr L') /\
    pool t3 !! parent_page_id_ (lhdr L') = Some (PInternal P') /\
    0 <= i < I_size P' /\
    iarr P' i = (L_KeyAt L' 0, new_id) /\
    (0 < i -> I_ValueAt P' (i - 1) = leaf_id).
Proof.
  intros Hfind Hpool HidL Hlook Hins Hfull Hmax Hfresh Himax Hanc Hlnin Hfuel
    new_id maxsize keep.
  pose proof (in_pool_lt t leaf_id Hfresh (mk_is_Some _ _ Hpool)) as Hll.
  fold new_id in Hll.
  pose proof (InsertToLeaf_calls_parent fuel t leaf_id L L1 key value sz
                Hfind Hpool Hlook Hins Hfull Hmax ltac:(lia)) as Hrun.
  cbv zeta in Hrun. fold new_id maxsize keep in Hrun.
  destruct (L_Insert_header comparator L L1 key value sz Hins) as (_ & Hhdr & Hnext).
  set (L2 := mkLeaf (SetSize (lhdr L1) keep) new_id (larr L1)) in *.
  set (L0 := mkLeaf (mkHeader (maxsize - keep) (leaf_max_size_ t)
                       (parent_page_id_ (lhdr L1)) new_id)
               (next_page_id_ L1)
               (copy_slots (Z.to_nat (maxsize - keep)) (larr L1) keep
                  blank_leaf 0)) in *.
  set (t2 := put (put (NewPage (put t leaf_id (PLeaf L1))).2 new_id (PLeaf L0))
               leaf_id (PLeaf L2)) in *.
  assert (forall id, id <> leaf_id -> id <> new_id -> pool t2 !! id = pool t !! id)
    as Hother.
  { intros id H1 H2. unfold t2. rewrite pool_put_ne by done.
    rewrite pool_put_ne by done.
    change (pool (NewPage (put t leaf_id (PLeaf L1))).2)
      with (pool (put t leaf_id (PLeaf L1))).
    by rewrite pool_put_ne. }
  assert (forall x, x ∈ path -> x < new_id /\ x <> leaf_id) as Hpath.
  { intros x Hx. destruct (ancestors_in_pool t path (lhdr L) x Hanc Hx) as (Q & HQ & _).
    split; [exact (in_pool_lt t x Hfresh (mk_is_Some _ _ HQ))|].
    by intros ->. }
  destruct (InsertIntoParent_lands path fuel t2 leaf_id new_id (L_KeyAt L0 0)
              (PLeaf L2) (PLeaf L0))
    as (t3 & Hrun3 & (N' & P' & i & HN' & Hr' & HP' & Hi & Hslot & Hprev) & HF1 & _).
  { exact Hfuel. }
  { apply pool_put_eq. }
  { unfold t2. rewrite pool_put_ne by lia. apply pool_put_eq. }
  { cbn [hdr lhdr L2 SetSize page_id_]. by rewrite Hhdr. }
  { done. }
  { lia. }
  { exact Hlnin. }
  { intros Hx. destruct (Hpath _ Hx). lia. }
  { intros id Hid. change (next_page_id t2) with (new_id + 1) in Hid.
    rewrite Hother by lia. apply Hfresh. fold new_id. lia. }
  { exact Himax. }
  { apply (ancestors_preserved t t2 path (lhdr L)).
    - exact Hanc.
    - cbn [hdr lhdr L2 SetSize parent_page_id_]. by rewrite Hhdr.
    - cbn [hdr lhdr L2 SetSize page_id_]. by rewrite Hhdr.
    - done.
    - intros x Hx. destruct (Hpath x Hx). apply Hother; lia.
    - intros id Hs. pose proof (in_pool_lt t id Hfresh Hs) as Hli. fold new_id in Hli.
      destruct (decide (id = leaf_id)) as [->|Hn].
      + unfold t2. rewrite pool_put_eq. by eexists.
      + rewrite Hother by lia. done. }
  { intros x Q k Hx HQ Hk. destruct (Hpath x Hx).
    rewrite Hother in HQ by lia.
    destruct (ancestors_in_pool t path (lhdr L) x Hanc Hx) as (Q' & HQ' & Hex).
    rewrite HQ in HQ'. injection HQ' as <-.
    pose proof (in_pool_lt t _ Hfresh (Hex k Hk)) as Hlt. fold new_id in Hlt. lia. }
  destruct (reparented_leaf _ _ Hr')
    as (L' & -> & Harr' & Hsz' & _ & Hid' & Hnx').
  destruct (HF1 leaf_id (PLeaf L2) ltac:(apply pool_put_eq) Hlnin)
    as (pg2 & Hpg2 & Hr2).
  destruct (reparented_leaf _ _ Hr2)
    as (L2' & -> & Harr2 & Hsz2 & _ & _ & Hnx2).
  exists t3, L2', L', P', i.
  split; [by rewrite Hrun, Hrun3|]. split; [done|]. split; [done|].
  split; [by rewrite Hid'|]. split; [by rewrite Hsz2|].
  split; [intros j Hj; by rewrite Harr2|].
  split; [by rewrite Hsz'|].
  split.
  { intros j Hj. rewrite Harr'. cbn [larr L0]. rewrite copy_slots_spec.
    rewrite bool_decide_eq_true_2 by lia. f_equal. lia. }
  split; [by rewrite Hnx'|]. split; [by rewrite Hnx2, Hid'|].
  split; [exact HP'|]. split; [done|].
  split; [|done]. unfold L_KeyAt in *. by rewrite Harr'.
Qed.

End ParentChain.

(** ** Integer keys *)

Lemma tree_123_fresh : pool_fresh tree_123.
Proof.
  intros id Hid. simpl in Hid. unfold tree_123. cbn [pool].
  rewrite lookup_insert_ne by lia. apply lookup_empty.
Qed.

Lemma two_leaves_345_fresh : pool_fresh two_leaves_345.
Proof.
  intros id Hid. simpl in Hid. unfold two_leaves_345. cbn [pool].
  rewrite !lookup_insert_ne by lia. apply lookup_empty.
Qed.

Lemma two_leaves_345_chain : ancestors two_leaves_345 (lhdr right_leaf_345) [3].
Proof.
  split; [reflexivity|]. split; [reflexivity|]. split; [apply not_elem_of_nil|].
  exists root_of_two. split; [reflexivity|]. split; [reflexivity|].
  split; [reflexivity|].
  split; [exists 1; split; [change (I_size root_of_two) with 2; lia|reflexivity]|].
  split; [|reflexivity].
  intros k Hk. change (I_size root_of_two) with 2 in Hk.
  assert (k = 0 \/ k = 1) as [->| ->] by lia;
    (split; [by eexists|]; intros Hx; apply list_elem_of_singleton in Hx;
     discriminate Hx).
Qed.

Lemma under_full_root_fresh : pool_fresh under_full_root.
Proof.
  intros id Hid. simpl in Hid. unfold under_full_root. cbn [pool].
  rewrite !lookup_insert_ne by lia. apply lookup_empty.
Qed.

Lemma under_full_root_chain : ancestors under_full_root (lhdr last_leaf) [9].
Proof.
  split; [reflexivity|]. split; [reflexivity|]. split; [apply not_elem_of_nil|].
  exists full_root. split; [reflexivity|]. split; [reflexivity|].
  split; [reflexivity|].
  split; [exists 2; split; [change (I_size full_root) with 3; lia|reflexivity]|].
  split; [|reflexivity].
  intros k Hk. change (I_size full_root) with 3 in Hk.
  assert (k = 0 \/ k = 1 \/ k = 2) as [->|[->| ->]] by lia;
    (split; [by eexists|]; intros Hx; apply list_elem_of_singleton in Hx;
     discriminate Hx).
Qed.

Lemma not_in_singleton (x y : Z) : x <> y -> x ∉ [y].
Proof. intros Hne Hx. by apply list_elem_of_singleton in Hx. Qed.

(** The three ways up.  Under a full root (key 80 into [under_full_root])
    the root is split as well: the new leaf [10] ends under the new
    internal page.  In [tree_123] the leaf is the root, and in
    [two_leaves_345] its parent has room. *)
Lemma InsertToLeaf_split_witness :
  (exists t3 L2 L' P' i,
     InsertToLeaf cmpZ zero_leaf zero_internal 9 under_full_root 80 80 =
       Done (true, t3) /\
     pool t3 !! 3 = Some (PLeaf L2) /\ pool t3 !! 10 = Some (PLeaf L') /\
     L_size L2 = 2 /\ L_size L' = 2 /\
     larr L2 0 = (50, 50) /\ larr L2 1 = (60, 60) /\
     larr L' 0 = (70, 70) /\ larr L' 1 = (80, 80) /\
     next_page_id_ L' = INVALID_PAGE_ID /\ next_page_id_ L2 = 10 /\
     pool t3 !! parent_page_id_ (lhdr L') = Some (PInternal P') /\
     0 <= i < I_size P' /\ iarr P' i = (L_KeyAt L' 0, 10) /\
     (0 < i -> I_ValueAt P' (i - 1) = 3)) /\
  (exists t3 L2 L' P' i,
     InsertToLeaf cmpZ zero_leaf zero_internal 9 tree_123 4 4 = Done (true, t3) /\
     pool t3 !! 1 = Some (PLeaf L2) /\ pool t3 !! 2 = Some (PLeaf L') /\
     L_size L2 = 2 /\ L_size L' = 2 /\
     next_page_id_ L' = INVALID_PAGE_ID /\ next_page_id_ L2 = 2 /\
     pool t3 !! parent_page_id_ (lhdr L') = Some (PInternal P') /\
     0 <= i < I_size P' /\ iarr P' i = (L_KeyAt L' 0, 2)) /\
  (exists t3 L2 L' P' i,
     InsertToLeaf cmpZ zero_leaf zero_internal 9 two_leaves_345 6 6 =
       Done (true, t3) /\
     pool t3 !! 2 = Some (PLeaf L2) /\ pool t3 !! 4 = Some (PLeaf L') /\
     L_size L2 = 2 /\ L_size L' = 2 /\
     next_page_id_ L' = INVALID_PAGE_ID /\ next_page_id_ L2 = 4 /\
     pool t3 !! parent_page_id_ (lhdr L') = Some (PInternal P') /\
     0 <= i < I_size P' /\ iarr P' i = (L_KeyAt L' 0, 4)).
Proof.
  split; [|split].
  - destruct (InsertToLeaf_split cmpZ zero_leaf zero_internal 9 under_full_root 3
                last_leaf last_leaf_full 80 80 4 [9]
                eq_refl eq_refl eq_refl eq_refl eq_refl eq_refl eq_refl
                under_full_root_fresh ltac:(simpl; lia) under_full_root_chain
                (not_in_singleton 3 9 ltac:(lia)) ltac:(simpl; lia))
      as (t3 & L2 & L' & P' & i & Hrun & HL2 & HL' & Hid & Hsz2 & Hlow & Hsz' & Hup &
          Hnx' & Hnx2 & HP' & Hi & Hslot & Hprev).
    exists t3, L2, L', P', i.
    split; [exact Hrun|]. split; [exact HL2|]. split; [exact HL'|].
    split; [exact Hsz2|]. split; [exact Hsz'|].
    split; [exact (Hlow 0 ltac:(vm_compute; split; [discriminate|reflexivity]))|].
    split; [exact (Hlow 1 ltac:(vm_compute; split; [discriminate|reflexivity]))|].
    split; [exact (Hup 0 ltac:(vm_compute; split; [discriminate|reflexivity]))|].
    split; [exact (Hup 1 ltac:(vm_compute; split; [discriminate|reflexivity]))|].
    split; [exact Hnx'|]. split; [rewrite Hnx2; exact Hid|].
    split; [exact HP'|]. split; [exact Hi|]. split; [exact Hslot|exact Hprev].
  - destruct (InsertToLeaf_split cmpZ zero_leaf zero_internal 9 tree_123 1
                root_leaf_123 root_leaf_1234 4 4 4 []
                eq_refl eq_refl eq_refl eq_refl eq_refl eq_refl eq_refl
                tree_123_fresh ltac:(simpl; lia) eq_refl
                (not_elem_of_nil 1) ltac:(simpl; lia))
      as (t3 & L2 & L' & P' & i & Hrun & HL2 & HL' & Hid & Hsz2 & _ & Hsz' & _ &
          Hnx' & Hnx2 & HP' & Hi & Hslot & _).
    exists t3, L2, L', P', i.
    split; [exact Hrun|]. split; [exact HL2|]. split; [exact HL'|].
    split; [exact Hsz2|]. split; [exact Hsz'|].
    split; [exact Hnx'|]. split; [rewrite Hnx2; exact Hid|].
    split; [exact HP'|]. split; [exact Hi|exact Hslot].
  - destruct (InsertToLeaf_split cmpZ zero_leaf zero_internal 9 two_leaves_345 2
                right_leaf_345 right_leaf_3456 6 6 4 [3]
                eq_refl eq_refl eq_refl eq_refl eq_refl eq_refl eq_refl
                two_leaves_345_fresh ltac:(simpl; lia) two_leaves_345_chain
                (not_in_singleton 2 3 ltac:(lia)) ltac:(simpl; lia))
      as (t3 & L2 & L' & P' & i & Hrun & HL2 & HL' & Hid & Hsz2 & _ & Hsz' & _ &
          Hnx' & Hnx2 & HP' & Hi & Hslot & _).
    exists t3, L2, L', P', i.
    split; [exact Hrun|]. split; [exact HL2|]. split; [exact HL'|].
    split; [exact Hsz2|]. split; [exact Hsz'|].
    split; [exact Hnx'|]. split; [rewrite Hnx2; exact Hid|].
    split; [exact HP'|]. split; [exact Hi|exact Hslot].
Defined.
End BPTParent.
